(* ===== verification/_CoqProject ===== *)
-Q . S2P
Prelude.v
Decimal.v
Amount.v
External.v
Parsers.v
AssetCore.v
Tokens.v
Storage.v
Redis.v
RedisLedger.v
Htlc.v
Mining.v
Records.v
Auth.v
Server.v
ServerFacts.v
Conservation.v
HealthCheck.v
LegacyProtocol.v
LegacyStore.v
LegacyReplace.v
LegacyMiner.v
LegacyMinerFacts.v
LegacyRedis.v
LegacyFleet.v
LegacyApi.v
LegacyApiFacts.v
Ledger.v
Fdb.v
RedisFdb.v
Dynamo.v
DynamoFacts.v
LedgerServer.v
Reference.v
RedisExamples.v
ServerExamples.v
LegacyExamples.v
BackendReference.v
BackendExamples.v
RefereeState.v
RefereeWorld.v
RefereeView.v
Orchestrator.v
RefereeFacts.v
RefereeSafety.v
RefereeHistory.v
RefereeStores.v
RefereeRedis.v
RefereeFdb.v
RefereeDynamo.v
RefereeDynamoLog.v
RefereeBackends.v
RefereeExamples.v
RefereeStoreReference.v
RefereeStoreExamples.v
LegacyDynamo.v
LegacyDynamoFacts.v
LegacyDynamoExamples.v
RefereeSigner.v
RefereeRouter.v
RefereeBoot.v
RefereeBootExamples.v
ServerBoot.v
ServerBootExamples.v
ServerServe.v
ServerServeExamples.v
Sha256.v
LegacyCompute.v
LegacyComputeFacts.v
LegacyComputeExamples.v
LegacySupervisor.v
LegacySupervisorExamples.v
LegacyBoot.v
LegacyBootExamples.v
AluVm.v
