(* ===== verification/Prelude.v ===== *)
(** * webycash-server: a verification development

    webycash-server is a set of HTTP servers for bearer tokens.  A token is a
    secret string; the server keeps, under the hash of the secret, a record
    with its amount, its spent flag and (for the namespaced assets) its contract
    and issuer, and for RGB tokens an optional hash-time lock.  The endpoints
    replace tokens (inputs are spent, outputs are created, the sum is
    conserved), burn them, mint them from a proof of work or from an issuer's
    signature, and answer health checks.  The referee is a further server: it
    mediates an atomic swap of webcash against an ARK vtxo by holding one of two
    MuSig2 shares and releasing its signature on the settlement or on the
    refund.  This development models the crates under [src/crates] and
    [src/referee], from the environment a binary boots from to the commands its
    store sends, and proves their contracts.

    ** Files and the code they model

    - [Prelude]: results, machine integers with their checks, saturation and
      wrap-around, byte strings, case-analysis tactics.
    - [Decimal]: printing and parsing of machine integers in decimal, as
      [core::fmt] and [str::parse] do it.
    - [Amount] (asset-core/src/amount.rs): fixed-point amounts.
    - [External]: one class per dependency the crates call (nom, sha2 and hex,
      chrono, Unicode lower case, Ed25519), its documented laws, and a concrete
      instance of both.
    - [Parsers] (proto/src/parsers.rs), [AssetCore] (asset-core/src/lib.rs):
      the shared parsers; identifiers and the asset traits as classes.
    - [Tokens] (asset-webcash, asset-rgb, asset-voucher: src/token.rs): the wire
      formats, one Module per crate.
    - [Storage] (storage/src/lib.rs): the [LedgerStore] contract as a class whose
      methods pass the store's state, namespaces, key strategies.
    - [Redis] (storage/src/redis_backend.rs): the two Lua scripts transcribed
      over a small Lua monad without rollback, the commands the store sends, and
      the store as an instance of [LedgerStore]; then [replace_spec], the script
      without its marshalling, and the refinement between them.
    - [RedisLedger]: the store's commands as atomic steps of interleaved clients.
    - [Htlc] (asset-rgb/src/htlc): lock state, predicate.
    - [Mining] (mining/src/lib.rs, compute/src/lib.rs): proof of work and
      difficulty, the latter on binary64 floats ([SpecFloat]).
    - [Records] (asset-*/src/lib.rs): records, their string-field codecs, and
      the asset traits of the four flavors.
    - [Auth] (auth/src/lib.rs): issuer registry and nonce cache.
    - [Server] (server-core/src/lib.rs): every handler and route, over any asset
      and any store, in a monad of the server's state with early responses.
    - [ServerFacts]: the contract of each endpoint, proved against the classes.
    - [Conservation], [HealthCheck]: end-to-end contracts of [/replace] and
      [/health_check] over the Redis ledger.
    - [Ledger]: the abstract ledger, a map from keys to field maps with the
      replace and the burn as atomic steps, and the class [LedgerContract] that
      a transactional store promises to the servers ([InsertContract] for
      inserts, [ReadContract] where its reads see every earlier write).
    - [Fdb] (storage/src/fdb_backend.rs): the FoundationDB store, its closures
      as computations over a transaction, and the instances of the contracts.
    - [RedisFdb] (storage/src/redis_fdb_backend.rs): the write-through
      composite of any two stores, which has the contracts of its durable half.
    - [Dynamo], [DynamoFacts] (storage/src/dynamodb_backend.rs): the DynamoDB
      store, its item codec and the creation of its tables; its contract (an
      insert may overwrite, so it has no [InsertContract]; a read may lag behind
      the writes, so it has no [ReadContract]).
    - [LedgerServer]: the servers of [Server] over any store with the contracts.
    - [ServerBoot] (server-webcash, server-rgb, server-rgb-collectible,
      server-voucher: src/main.rs): what each binary decides from its
      environment; [ServerServe] (server-core/src/lib.rs: [Server], [serve],
      [serve_issued], [serve_collectible]): the accept loops, and the processes
      that serve one store in turn.
    - [AluVm] (aluvm-runtime/src/lib.rs): the wrapper of the virtual machine.
    - The legacy server (crates/server/src), the single-asset predecessor of
      the servers above, which still ships next to them: [LegacyProtocol]
      (protocol), token readers, preimages and the mining state;
      [LegacyStore] (db/mod.rs, effects/mod.rs, effects/interpreter.rs), the
      batch-native store trait and the free monad of ledger effects with its
      interpreter; [LegacyReplace] (effects/replace.rs, actors/batcher.rs), the
      validation of a replace and the actor that batches concurrent ones;
      [LegacyMiner] (actors/miner.rs) and [LegacyMinerFacts], the actor that
      owns the mining state; [LegacyRedis] (db/redis.rs) and [LegacyFleet], the
      Redis store and its equivalence with the one of [Redis]; [LegacyApi]
      (actors/ledger.rs, api) and [LegacyApiFacts], handlers, middleware and
      router; [LegacyExamples], all of it on concrete data.  [LegacyDynamo],
      [LegacyDynamoFacts], [LegacyDynamoExamples] (db/dynamodb.rs): the DynamoDB
      store, the futures of a batch joined in an order the service chooses.
      [LegacySupervisor], [LegacySupervisorExamples] (crates/macros,
      actors/supervisor.rs): what the two macros generate, the handles and the
      one-for-one supervisor of the three actors.  [Sha256], [LegacyCompute],
      [LegacyComputeFacts], [LegacyComputeExamples] (compute): SHA-256 as FIPS
      180-4 defines it, the WGSL shader and the two CUDA kernels, and the three
      backends that drive them.  [LegacyBoot], [LegacyBootExamples] (config.rs,
      lib.rs, main.rs): the configuration and the binary.
    - [Reference], [RedisExamples], [ServerExamples], [ServerBootExamples],
      [ServerServeExamples]: a concrete Redis server, codecs and decoders; the
      properties on concrete inputs; and runs that exhibit behaviour the
      theorems exclude by hypothesis.
    - [BackendReference], [BackendExamples]: the same for the other stores: a
      FoundationDB with a tuple layer, a DynamoDB, JSON trees, and servers over
      them.
    - [RefereeState] (referee/src: error, sign, state/*, transaction): the
      typestate of a swap, its pure transitions and the row it is stored as.
    - [RefereeWorld] (referee/src: store/mod, audit/mod, musig2, and the traits
      of zkp, clients, push): the calls of the orchestrator to its
      collaborators as an effect signature, programs over it, and the
      interpreter: in-memory store and log, signing sessions, external world.
    - [Orchestrator] (referee/src/api/orchestrator.rs, router.rs): the handlers
      as programs, call by call.
    - [RefereeView]: the specification of each call on one swap, the proof that
      the interpreter implements it, and a weakest precondition for programs.
    - [RefereeFacts], [RefereeSafety], [RefereeHistory]: the invariant of a swap
      and the properties of the states reached by serving requests.
    - [RefereeExamples]: the mocks of the repository as a world, the properties
      on a sample swap, failed pushes and overlapping invocations.
    - [RefereeStores] (referee/src/store/mod.rs, audit/mod.rs: the traits
      [SwapStore] and [AuditLog]): what the orchestrator needs of a store and a
      log, as classes with laws, and a handler of the effects of [RefereeWorld]
      over any instances.  [RefereeRedis], [RefereeFdb], [RefereeDynamo],
      [RefereeDynamoLog] (store and audit: redis.rs, fdb.rs, dynamodb.rs): the
      instances.  [RefereeBackends]: what each of them serves.
      [RefereeStoreReference], [RefereeStoreExamples]: services with their laws, and the stores on concrete rows.
    - [RefereeSigner] (musig2.rs, sign.rs, zkp.rs, clients/mod.rs, push.rs): the
      mock and the real signer under one contract, key files, the verifier, the
      mocks, the HTTP push.  [RefereeRouter] (api/router.rs): routes, extractors,
      replies.  [RefereeBoot] (config.rs, main.rs) and [RefereeBootExamples]: the
      binary, as a step relation over its running requests.

    ** What the theorems show

    - Ledger: an answered replace spends recorded, unspent inputs and creates
      fresh outputs ([Redis.replace_commits]); a refused one is classified
      ([Redis.replace_rejects]); the marshalled script refines its
      specification ([Redis.batch_replace_refines]); no hash is spent twice
      under any interleaving ([RedisLedger.no_double_spend]); inserts and reads
      do what they say ([RedisLedger]).
    - Transactional ledgers: the FoundationDB store refines the abstract
      ledger, commits of unknown outcome included ([Fdb.fdb_replace_refines]);
      the DynamoDB store refines it, its reads being those of a past of the
      ledger, keeps its table typed, creates its tables within ten attempts
      ([DynamoFacts]); the composite follows its durable
      half ([RedisFdb.composite_follows_durable]).  Over any of them, for any
      history of requests to any server: no token is spent twice, records never
      change but for the flag, a replace of tokens that claim the recorded
      amounts conserves the supply whatever is answered ([LedgerServer]); over
      a store whose inserts only create, the replaces that clients see succeed spend
      distinct tokens through any number of restarts
      ([ServerServe.spent_once_across_restarts]).  The Redis store has no such contract: its
      script is not atomic, and a refused replace may spend its inputs.
    - Endpoints: [ServerFacts] gives, for every state-changing handler, what a
      success implies, down to the call of the store; what a failed replace may
      have done; and the gate on the accepted terms.
    - End to end: [Conservation.replace_conserves_supply] and
      [HealthCheck.health_check_exact].
    - Locks: the exact acceptance condition of the predicate, and that a lock
      stays shut before its deadline ([Htlc]); the replace hook enforces and
      stamps locks ([Records]).
    - Formats: round trips and exact languages of amounts, tokens, records and
      keys ([Amount], [Tokens], [Records], [Storage], [ServerFacts]).
    - Authentication and mining: [Auth], [Mining].
    - Boot: exactly when a binary serves, with which router, keys and gate, and
      under whose keys it mints ([ServerBoot.boot_exact]); the same for the legacy
      binary ([LegacyBoot.Boot.legacy_boot_exact]).
    - Legacy server: a replace is valid exactly under the stated conditions and
      a confirmed one did what it says ([LegacyReplace.Replace.validated_exactly],
      [LegacyApiFacts.ApiFacts.confirmed_replace]); the batcher linearises over
      any store that runs a batch in order
      ([LegacyReplace.Replace.batcher_linearises]); a fleet of old and new
      servers on one Redis never spends a hash twice
      ([LegacyFleet.fleet_single_use]); what a mining report accounts for, along
      a chain of reports and across failures and restarts
      ([LegacyMinerFacts]); effect programs compose ([LegacyStore]).  Its DynamoDB
      store spends a token once under any schedule of its futures and refines the
      abstract ledger, its reads lagging behind ([LegacyDynamoFacts]).  Each kernel computes the FIPS
      digest of a message wherever it lies in the input
      ([Sha256.kernels_exact]), and on a device that completes its work the
      backends agree on every batch that fits
      ([LegacyComputeFacts.ComputeFacts.backends_agree]).  The handles an API
      call sees are those of the running children
      ([LegacySupervisor.Actors.handles_follow_children]).
    - Swaps: the two signatures of the referee exclude each other, a swap moves
      along the phase graph and ends within the retry budget, the cancel
      policy is exact, audit entries form a chain, histories are complete
      ([RefereeSafety], [RefereeHistory]); for requests served one by one.
    - Swaps in a real deployment: over any of the four stores a swap reads back
      the row last written and a party finds its swaps
      ([RefereeBackends.backend_serves_rows]); every confirmed audit entry is kept
      ([RefereeBackends.audit_keeps_confirmed]), except on FoundationDB; both signers sign once per session
      ([RefereeSigner.signer_signs_once]); a reply reports what was done
      ([RefereeRouter.replies_truthful]); the binary as it is wired never settles
      a swap ([RefereeBoot.binary_never_settles]).

    ** Conventions

    A Rust string is the [string] of its UTF-8 bytes; an integer is a [Z] whose
    range is a hypothesis or is enforced by the operation, as in the code; a
    panic is [None].  A clock read, a random identifier and the body of a
    request are arguments ([Env], [Request]).  JSON, base64, SHA-256, Ed25519,
    OpenPGP and the Redis server are parameters: the laws assumed of them are
    the classes [NomLaws], [HashingLaws], [ChronoLaws], [UnicodeLaws],
    [SerdeLaws] and [RedisLaws], all instantiated in [External] and
    [Reference].  [RedisLaws] says that a successful pipeline ran all its
    commands and a failed one some prefix of them.  [FdbLaws] and [DynamoLaws]
    state the documented behaviour of [Database::run] and of the calls of the
    DynamoDB SDK, where a read that does not ask for consistency, as all those of
    the two ledger stores, answers from any past of the tables; [JsonTreeLaws] and [RecordJsonLaws] what serde's derived code
    gives a stored record; [FieldShape], which field maps a record has, is
    proved for the four flavors.  All are instantiated in [BackendReference].
    A closure run again by FoundationDB reads one clock value, since only the
    time stamp of a record depends on it; the instant at which [check_tokens]
    decodes a record does not show in its answer.  Iteration over a Rust hash map
    is iteration over an association list or over the sorted entries; the
    properties do not depend on the order.

    Fuel is either a bound of the code or proved to be enough: 20 digits in the
    decimal printer; ten attempts in the creation of the DynamoDB tables
    ([DynamoFacts.ensure_tables_live] proves that an answer is reached), 121 polls
    in that of the referee's, eight appends of an audit entry; the length of the
    text in the splitting of certificates ([ServerBoot.split_pgp_blocks_exact]);
    and the loop of the referee, for which
    [RefereeSafety.run_to_completion_ends] gives a bound that is tight.

    For the legacy server, [SameAudit] says that serde writes two structs with
    the same members as the same text, [SequentialStore] and [MiningStore] what
    the batcher and the miner expect of a store, both proved of the Redis one;
    the DynamoDB store, whose reads lag behind, has no [MiningStore].
    Its arithmetic that is not checked wraps, as in a release build.  A batch of
    the batcher is one step: what arrives while it runs waits in the channel.
    [DynamoDbLaws] and [JoiningLaws] speak of its calls of DynamoDB and of futures
    joined, [DeviceLaws] of a GPU's buffers and of the order of its stores,
    [WatchLaws] of tokio's watch channel; the compiler of the shaders is trusted
    with the integer operations the sources write.  [BlockingPool], [Spawner],
    [TomlHost] and [Backends] stand for tokio's pool, the spawning of an actor,
    the reader of the configuration file and the opening of a store.

    For the referee, [SwapJsonLaws] says that a stored state is read back and that
    a key set in a document is the one read from it, and
    [spent_final] that the webcash server takes no report of a spent hash back;
    [reachable] starts every swap under an unused identifier.  [RefereeRedisLaws],
    [FdbRangeLaws], [DynamoIndexLaws] and [DynamoAuditLaws] state what the services
    document of the commands, range reads, index queries and conditional writes
    the stores send; [PayloadJson] what serde gives a payload.  [Axum],
    [Groth16Crate], [PushCrates], [Files], [ThreadRng], [SocketAddrStd], [Host] and,
    for the asset servers, [BootHost] and [Pgp] are the other crates and the system
    they run on.  The AluVM crate is [AluvmCrate].

    ** Not modelled

    HTTP framing and logging; the connection pools and the loading of a script
    into Redis; the opening of a FoundationDB cluster file; the mutex of the nonce
    cache (an operation is one step, a poisoned lock is not considered); a handler
    cut off in the middle by the end of its process.  Of the GPU backends the
    choice of an adapter and the creation of its pipelines, calls of wgpu and of
    the CUDA driver; of the two macros the parsing of an item and the assembly of
    its tokens, calls of syn and quote.  The FoundationDB and Redis+FDB backends of
    the legacy server do not implement the trait as it stands and are not compiled:
    they have no behaviour to model.  The amounts, the parsers and the difficulty
    adjustment of the legacy server repeat the text of the asset crates, whose
    models stand for both.  Benchmarks, the conformance tests and the deployment
    files are no part of the servers. *)
From Stdlib Require Export ZArith Lia Ascii String Bool.
From stdpp Require Export base tactics option list numbers strings gmap sorting.
#[export] Set Default Goal Selector "!".
Open Scope Z_scope.

(** ** Results

    Rust's [Result<A, E>].  [?] and [map_err(...)?] are the monadic bind of the
    type, written with stdpp's [x ← m; k]. *)

Inductive result (E A : Type) : Type :=
  | Ok (a : A)
  | Err (e : E).
Arguments Ok {E A} a.
Arguments Err {E A} e.

#[export] Instance result_ret {E} : MRet (result E) := fun A a => Ok a.
#[export] Instance result_bind {E} : MBind (result E) := fun A B f m =>
  match m with Ok a => f a | Err e => Err e end.
#[export] Instance result_fmap {E} : FMap (result E) := fun A B f m =>
  match m with Ok a => Ok (f a) | Err e => Err e end.

(** [Result::map_err]. *)
Definition map_err {E F A} (f : E -> F) (m : result E A) : result F A :=
  match m with Ok a => Ok a | Err e => Err (f e) end.

(** [Option::ok_or] / [ok_or_else]. *)
Definition ok_or {E A} (o : option A) (e : E) : result E A :=
  match o with Some a => Ok a | None => Err e end.

Definition is_ok {E A} (m : result E A) : bool :=
  match m with Ok _ => true | Err _ => false end.

(** [Result::ok]. *)
Definition result_ok {E A} (m : result E A) : option A :=
  match m with Ok a => Some a | Err _ => None end.

Section Results.
Context {E A B : Type}.

Lemma bind_Ok (m : result E A) (f : A -> result E B) (b : B) :
  (x ← m; f x) = Ok b <-> exists a, m = Ok a /\ f a = Ok b.
Proof. destruct m; naive_solver. Qed.

Lemma bind_Err (m : result E A) (f : A -> result E B) (e : E) :
  (x ← m; f x) = Err e <-> m = Err e \/ exists a, m = Ok a /\ f a = Err e.
Proof. destruct m; naive_solver. Qed.

Lemma ok_or_Ok (o : option A) (e : E) (a : A) :
  ok_or o e = Ok a <-> o = Some a.
Proof. destruct o; naive_solver. Qed.

Lemma map_err_Ok {F} (f : E -> F) (m : result E A) (a : A) :
  map_err f m = Ok a <-> m = Ok a.
Proof. destruct m; naive_solver. Qed.
End Results.

Lemma mapM_Ok {E A B} (f : A -> result E B) (l : list A) (l' : list B) :
  mapM f l = Ok l' <-> Forall2 (fun x y => f x = Ok y) l l'.
Proof.
  revert l'. induction l as [|x l IH]; intros l'; simpl.
  - split; [by intros [= <-]|by intros ->%Forall2_nil_inv_l].
  - rewrite bind_Ok. split.
    + intros (y & Ey & (ys & Eys%IH & [= <-])%bind_Ok). by constructor.
    + intros (y & ys & Ey & Eys & ->)%Forall2_cons_inv_l. exists y. split; [done|].
      apply bind_Ok. exists ys. split; [by apply IH|done].
Qed.

(** ** Case analysis on the matches of a hypothesis

    [split_match H] destructs the scrutinees of [H] one by one, keeping the
    equations, and closes the branches that contradict it. *)

Ltac split_match H :=
  repeat (match type of H with
          | context [match ?x with _ => _ end] =>
              lazymatch x with
              | context [match _ with _ => _ end] => fail
              | _ => let E := fresh "E" in destruct x eqn:E
              end
          end; simplify_eq/=; try discriminate).

Ltac split_match_goal :=
  repeat (match goal with
          | |- context [match ?x with _ => _ end] =>
              lazymatch x with
              | context [match _ with _ => _ end] => fail
              | _ => let E := fresh "E" in destruct x eqn:E
              end
          end; simplify_eq/=).

(** Boolean conjunctions and comparisons of the hypotheses as propositions. *)
Ltac bools :=
  repeat match goal with
  | H : _ && _ = true |- _ => apply andb_true_iff in H as [? ?]
  | H : _ || _ = false |- _ => apply orb_false_iff in H as [? ?]
  | H : negb _ = true |- _ => apply negb_true_iff in H
  | H : negb _ = false |- _ => apply negb_false_iff in H
  | H : (_ <=? _)%Z = true |- _ => apply Z.leb_le in H
  | H : (_ <=? _)%Z = false |- _ => apply Z.leb_gt in H
  | H : (_ <? _)%Z = true |- _ => apply Z.ltb_lt in H
  | H : (_ <? _)%Z = false |- _ => apply Z.ltb_ge in H
  | H : (_ =? _)%Z = true |- _ => apply Z.eqb_eq in H
  | H : (_ =? _)%Z = false |- _ => apply Z.eqb_neq in H
  | H : (_ =? _)%string = true |- _ => apply String.eqb_eq in H
  | H : (_ =? _)%string = false |- _ => apply String.eqb_neq in H
  | H : bool_decide _ = true |- _ => apply bool_decide_eq_true in H
  | H : bool_decide _ = false |- _ => apply bool_decide_eq_false in H
  end.

(** ** Machine integers

    An [i64], [u64], [u32] is a [Z] in the range of its type; the operations of
    the standard library the source calls are written with the range check,
    the saturation or the wrap-around they have. *)

Definition i64_min : Z := - 2 ^ 63.
Definition i64_max : Z := 2 ^ 63 - 1.
Definition u64_max : Z := 2 ^ 64 - 1.
Definition u32_max : Z := 2 ^ 32 - 1.
Definition u8_max : Z := 2 ^ 8 - 1.

Definition i64_range (z : Z) : Prop := i64_min <= z <= i64_max.
Definition u64_range (z : Z) : Prop := 0 <= z <= u64_max.
Definition u32_range (z : Z) : Prop := 0 <= z <= u32_max.
Definition u8_range (z : Z) : Prop := 0 <= z <= u8_max.

Create HintDb ints.
Create HintDb strs.

#[export] Hint Unfold i64_range u64_range u32_range u8_range i64_min i64_max
  u64_max u32_max u8_max : ints.

Definition in_i64 (z : Z) : bool := (i64_min <=? z) && (z <=? i64_max).

Definition i64_checked (z : Z) : option Z := if in_i64 z then Some z else None.
Definition i64_checked_add (a b : Z) : option Z := i64_checked (a + b).
Definition i64_checked_sub (a b : Z) : option Z := i64_checked (a - b).
Definition i64_checked_mul (a b : Z) : option Z := i64_checked (a * b).
Definition i64_saturating_add (a b : Z) : Z := Z.max i64_min (Z.min i64_max (a + b)).

(** Two's-complement wrap, for [+] and [sum] in a build without overflow checks. *)
Definition i64_wrap (z : Z) : Z := (z + 2 ^ 63) mod 2 ^ 64 - 2 ^ 63.

Definition u64_saturating_add (a b : Z) : Z := Z.min u64_max (a + b).
Definition u32_saturating_add (a b : Z) : Z := Z.min u32_max (a + b).
Definition u32_saturating_sub (a b : Z) : Z := Z.max 0 (a - b).

Lemma in_i64_spec z : in_i64 z = true <-> i64_range z.
Proof. unfold in_i64, i64_range. rewrite andb_true_iff, !Z.leb_le. done. Qed.

Lemma i64_checked_Some z w : i64_checked z = Some w <-> w = z /\ i64_range z.
Proof.
  unfold i64_checked. destruct (in_i64 z) eqn:E.
  - apply in_i64_spec in E. naive_solver.
  - split; [done|]. intros [_ H%in_i64_spec]. congruence.
Qed.

Lemma i64_checked_None z : i64_checked z = None <-> ~ i64_range z.
Proof.
  unfold i64_checked. rewrite <- in_i64_spec. destruct (in_i64 z); split; intros H; congruence.
Qed.

Lemma i64_checked_in z : i64_range z -> i64_checked z = Some z.
Proof. intros H. by apply i64_checked_Some. Qed.

Lemma i64_wrap_in z : i64_range z -> i64_wrap z = z.
Proof.
  unfold i64_range, i64_min, i64_max, i64_wrap. intros H.
  rewrite Z.mod_small; lia.
Qed.

Lemma i64_wrap_range z : i64_range (i64_wrap z).
Proof.
  unfold i64_range, i64_min, i64_max, i64_wrap.
  pose proof (Z.mod_pos_bound (z + 2 ^ 63) (2 ^ 64)). lia.
Qed.

Lemma i64_saturating_add_range a b : i64_range (i64_saturating_add a b).
Proof. unfold i64_range, i64_saturating_add, i64_min, i64_max. lia. Qed.

#[export] Hint Resolve i64_wrap_range i64_saturating_add_range i64_checked_in : ints.

(** ** Strings

    A Rust string is its sequence of UTF-8 bytes, a Stdlib [string]. *)

Fixpoint str_all (p : ascii -> bool) (s : string) : bool :=
  match s with
  | EmptyString => true
  | String c s' => p c && str_all p s'
  end.

#[global] Arguments String.app !s1 s2 / : simpl nomatch.

(** The longest prefix whose bytes satisfy [p], and the rest. *)
Fixpoint str_span (p : ascii -> bool) (s : string) : string * string :=
  match s with
  | EmptyString => (EmptyString, EmptyString)
  | String c s' =>
      if p c then let (a, b) := str_span p s' in (String c a, b)
      else (EmptyString, s)
  end.

(** [str::strip_prefix]. *)
Fixpoint strip_prefix (pre s : string) : option string :=
  match pre, s with
  | EmptyString, _ => Some s
  | String c pre', String d s' => if Ascii.eqb c d then strip_prefix pre' s' else None
  | String _ _, EmptyString => None
  end.

(** [str::split] at a one-byte separator: always at least one part. *)
Fixpoint str_split (sep : ascii) (s : string) : list string :=
  match s with
  | EmptyString => [EmptyString]
  | String c s' =>
      if Ascii.eqb c sep then EmptyString :: str_split sep s'
      else match str_split sep s' with
           | p :: ps => String c p :: ps
           | [] => [String c EmptyString]
           end
  end.

(** [str::split_once] at a one-byte separator. *)
Fixpoint split_once (sep : ascii) (s : string) : option (string * string) :=
  match s with
  | EmptyString => None
  | String c s' =>
      if Ascii.eqb c sep then Some (EmptyString, s')
      else match split_once sep s' with
           | Some (a, b) => Some (String c a, b)
           | None => None
           end
  end.

Fixpoint str_repeat (c : ascii) (n : nat) : string :=
  match n with O => EmptyString | S n' => String c (str_repeat c n') end.

Definition is_digit (c : ascii) : bool :=
  ((48 <=? Z.of_nat (nat_of_ascii c)) && (Z.of_nat (nat_of_ascii c) <=? 57))%Z.
Definition is_lower (c : ascii) : bool :=
  ((97 <=? Z.of_nat (nat_of_ascii c)) && (Z.of_nat (nat_of_ascii c) <=? 122))%Z.
Definition is_upper (c : ascii) : bool :=
  ((65 <=? Z.of_nat (nat_of_ascii c)) && (Z.of_nat (nat_of_ascii c) <=? 90))%Z.
Definition is_lower_hex_letter (c : ascii) : bool :=
  ((97 <=? Z.of_nat (nat_of_ascii c)) && (Z.of_nat (nat_of_ascii c) <=? 102))%Z.
Definition is_upper_hex_letter (c : ascii) : bool :=
  ((65 <=? Z.of_nat (nat_of_ascii c)) && (Z.of_nat (nat_of_ascii c) <=? 70))%Z.
(** [char::is_ascii_hexdigit]. *)
Definition is_hexdigit (c : ascii) : bool :=
  is_digit c || is_lower_hex_letter c || is_upper_hex_letter c.
(** The pattern ['0'..='9' | 'a'..='f']. *)
Definition is_lower_hexdigit (c : ascii) : bool := is_digit c || is_lower_hex_letter c.
(** [char::is_ascii_alphanumeric]. *)
Definition is_alphanumeric (c : ascii) : bool := is_digit c || is_lower c || is_upper c.
Definition is_ascii (c : ascii) : bool := (Z.of_nat (nat_of_ascii c) <? 128)%Z.

Definition dquote : string := String (ascii_of_nat 34) EmptyString.

(** [{:?}] of a string: in quotes, with the escapes of [char::escape_debug]
    for the quote, the backslash and the control bytes. *)
Definition hex_nibble (n : nat) : ascii := ascii_of_nat (if (n <? 10)%nat then 48 + n else 87 + n).
Definition debug_char (c : ascii) : string :=
  let n := nat_of_ascii c in
  let esc (d : ascii) := String (ascii_of_nat 92) (String d EmptyString) in
  if (n =? 34)%nat || (n =? 92)%nat then esc c
  else if (n =? 9)%nat then esc "t"%char
  else if (n =? 10)%nat then esc "n"%char
  else if (n =? 13)%nat then esc "r"%char
  else if (n =? 0)%nat then esc "0"%char
  else if (n <? 32)%nat || (n =? 127)%nat then
    esc "u"%char +:+ "{" +:+
    (if (n <? 16)%nat then EmptyString else String (hex_nibble (n / 16)) EmptyString) +:+
    String (hex_nibble (n mod 16)) "}"
  else String c EmptyString.
Fixpoint debug_chars (s : string) : string :=
  match s with EmptyString => EmptyString | String c s' => debug_char c +:+ debug_chars s' end.
Definition debug_str (s : string) : string := dquote +:+ debug_chars s +:+ dquote.

(** [char::to_ascii_lowercase]. *)
Definition ascii_lower (c : ascii) : ascii :=
  if is_upper c then ascii_of_nat (nat_of_ascii c + 32) else c.
Fixpoint ascii_lowercase (s : string) : string :=
  match s with
  | EmptyString => EmptyString
  | String c s' => String (ascii_lower c) (ascii_lowercase s')
  end.

Lemma str_app_nil_r s : s +:+ EmptyString = s.
Proof. induction s; simpl; congruence. Qed.

Lemma str_app_assoc a b c : (a +:+ b) +:+ c = a +:+ (b +:+ c).
Proof. induction a; simpl; congruence. Qed.

Lemma str_length_app a b : String.length (a +:+ b) = (String.length a + String.length b)%nat.
Proof. induction a; simpl; congruence. Qed.

Lemma str_app_inj_l a b c : a +:+ b = a +:+ c -> b = c.
Proof. induction a; simpl; [done|]. intros H. injection H as H. auto. Qed.

Lemma str_app_inj_len a b c d :
  String.length a = String.length c -> a +:+ b = c +:+ d -> a = c /\ b = d.
Proof.
  revert c. induction a as [|x a IH]; intros [|y c] Hl; simpl in *; try discriminate.
  - done.
  - intros H. injection H as -> H. destruct (IH c) as [-> ->]; auto.
Qed.

Lemma str_all_app p a b : str_all p (a +:+ b) = str_all p a && str_all p b.
Proof. induction a; simpl; [done|]. rewrite IHa. by rewrite andb_assoc. Qed.

Lemma str_all_impl (p q : ascii -> bool) s :
  (forall c, p c = true -> q c = true) -> str_all p s = true -> str_all q s = true.
Proof. intros Hpq. induction s; simpl; [done|]. intros H. bools. rewrite Hpq, IHs; done. Qed.

Lemma str_all_repeat p c n : p c = true -> str_all p (str_repeat c n) = true.
Proof. intros H. induction n; simpl; [done|]. by rewrite H, IHn. Qed.

Lemma str_length_repeat c n : String.length (str_repeat c n) = n.
Proof. induction n; simpl; congruence. Qed.

Lemma str_span_eq p s : s = fst (str_span p s) +:+ snd (str_span p s).
Proof.
  induction s as [|c s IH]; simpl; [done|].
  destruct (p c); simpl; [|done]. destruct (str_span p s); simpl in *. by f_equal.
Qed.

Lemma str_span_all p s : str_all p (fst (str_span p s)) = true.
Proof.
  induction s as [|c s IH]; simpl; [done|].
  destruct (p c) eqn:E; simpl; [|done]. destruct (str_span p s); simpl in *. by rewrite E.
Qed.

(** [stops p s]: [s] is empty or starts with a byte outside [p]. *)
Definition stops (p : ascii -> bool) (s : string) : bool :=
  match s with EmptyString => true | String c _ => negb (p c) end.

Lemma str_span_app p a b :
  str_all p a = true -> stops p b = true -> str_span p (a +:+ b) = (a, b).
Proof.
  intros Ha Hb. induction a as [|c a IH]; simpl in *.
  - destruct b as [|d b]; simpl in *; [done|]. bools. by rewrite Hb.
  - bools. rewrite H, IH; done.
Qed.

Lemma str_span_stops p s : stops p (snd (str_span p s)) = true.
Proof.
  induction s as [|c s IH]; simpl; [done|].
  destruct (p c) eqn:E; simpl; [|by rewrite E]. by destruct (str_span p s).
Qed.

Lemma strip_prefix_app pre s : strip_prefix pre (pre +:+ s) = Some s.
Proof. induction pre as [|c pre IH]; simpl; [done|]. by rewrite Ascii.eqb_refl. Qed.

Lemma strip_prefix_Some pre s r : strip_prefix pre s = Some r -> s = pre +:+ r.
Proof.
  revert s. induction pre as [|c pre IH]; simpl; intros s H; [congruence|].
  destruct s as [|d s]; [done|]. destruct (Ascii.eqb_spec c d); [|done].
  subst. f_equal. by apply IH.
Qed.

Lemma str_split_none sep s : str_all (fun c => negb (Ascii.eqb c sep)) s = true ->
  str_split sep s = [s].
Proof.
  induction s as [|c s IH]; simpl; [done|]. intros H. bools. rewrite H.
  by rewrite IH.
Qed.

Lemma str_split_app sep a b :
  str_all (fun c => negb (Ascii.eqb c sep)) a = true ->
  str_split sep (a +:+ String sep b) = a :: str_split sep b.
Proof.
  induction a as [|c a IH]; simpl; intros H.
  - by rewrite Ascii.eqb_refl.
  - bools. rewrite H. by rewrite IH.
Qed.

Lemma split_once_app sep a b :
  str_all (fun c => negb (Ascii.eqb c sep)) a = true ->
  split_once sep (a +:+ String sep b) = Some (a, b).
Proof.
  induction a as [|c a IH]; simpl; intros H.
  - by rewrite Ascii.eqb_refl.
  - bools. rewrite H. by rewrite IH.
Qed.

(** ** Chunks *)

(** [l.chunks(n)]; [room] is what is left in the chunk being filled. *)
Fixpoint chunks_from {X} (n room : nat) (cur l : list X) : list (list X) :=
  match l with
  | [] => match cur with [] => [] | _ => [rev cur] end
  | x :: l' =>
      match room with
      | O => rev cur :: chunks_from n (n - 1) [x] l'
      | S room' => chunks_from n room' (x :: cur) l'
      end
  end.
Definition chunks {X} (n : nat) (l : list X) : list (list X) := chunks_from n n [] l.


Lemma concat_chunks {X} n (l : list X) : concat (chunks n l) = l.
Proof.
  unfold chunks. assert (forall room cur, concat (chunks_from n room cur l) = rev cur ++ l) as Hg; [|apply Hg].
  induction l as [|x l IH]; intros room cur; cbn [chunks_from].
  - destruct cur; [done|]. cbn. by rewrite !app_nil_r.
  - destruct room as [|room]; cbn [concat]; rewrite IH; cbn; [done|]. by rewrite <- app_assoc.
Qed.

Lemma chunks_bounded {X} n (l : list X) :
  (1 <= n)%nat -> Forall (fun c => (length c <= n)%nat) (chunks n l).
Proof.
  intros Hn. unfold chunks.
  assert (forall room cur, (length cur + room = n)%nat ->
    Forall (fun c => (length c <= n)%nat) (chunks_from n room cur l)) as Hg; [|by apply Hg].
  induction l as [|x l IH]; intros room cur Hc; cbn [chunks_from].
  - destruct cur as [|y cur]; constructor; [|constructor]. rewrite length_rev. simpl in *. lia.
  - destruct room as [|room]; [constructor|]; [rewrite length_rev; lia|..]; apply IH; simpl; lia.
Qed.

#[export] Hint Rewrite str_app_nil_r str_app_assoc str_length_app strip_prefix_app
  Ascii.eqb_refl String.eqb_refl : strs.
