(* ===== verification/Decimal.v ===== *)
(** * Decimal text of machine integers

    What the standard library's [Display], [{:08}], [{:0<8}] and [str::parse]
    do for the integer types the source prints and parses, on byte strings. *)
From S2P Require Import Prelude.

(** ** Printing *)

Definition digit_char (d : Z) : ascii := ascii_of_nat (Z.to_nat (48 + d)).
Definition digit_val (c : ascii) : Z := Z.of_nat (nat_of_ascii c) - 48.

Fixpoint dec_digits (fuel : nat) (n : Z) (acc : string) : string :=
  match fuel with
  | O => acc
  | S f =>
      let acc' := String (digit_char (n mod 10)) acc in
      if n <? 10 then acc' else dec_digits f (n / 10) acc'
  end.

(** [u64::to_string]: 20 digits are enough below [2 ^ 64]. *)
Definition show_u64 (n : Z) : string := dec_digits 20 n EmptyString.

(** [i64::to_string]. *)
Definition show_i64 (n : Z) : string :=
  if n <? 0 then String "-"%char (show_u64 (Z.abs n)) else show_u64 n.

(** [format!("{:08}", n)] for an unsigned [n]. *)
Definition show_pad8 (n : Z) : string :=
  let s := show_u64 n in str_repeat "0"%char (8 - String.length s) +:+ s.

(** The number of [char]s of a UTF-8 string: continuation bytes do not count. *)
Fixpoint utf8_chars (s : string) : nat :=
  match s with
  | EmptyString => O
  | String c s' =>
      if (Z.of_nat (nat_of_ascii c) / 64 =? 2) then utf8_chars s' else S (utf8_chars s')
  end.

(** [format!("{:0<8}", s)]: zeros on the right up to eight [char]s. *)
Definition pad_right8 (s : string) : string :=
  s +:+ str_repeat "0"%char (8 - utf8_chars s).

(** ** Parsing *)

Fixpoint parse_digits (a : Z) (s : string) : option Z :=
  match s with
  | EmptyString => Some a
  | String c s' => if is_digit c then parse_digits (a * 10 + digit_val c) s' else None
  end.

(** [str::parse::<i64>]: one optional sign, at least one digit, a value that
    fits. *)
Definition parse_i64 (s : string) : option Z :=
  match s with
  | EmptyString => None
  | String c s' =>
      let '(neg, ds) :=
        if Ascii.eqb c "-"%char then (true, s')
        else if Ascii.eqb c "+"%char then (false, s')
        else (false, s) in
      match ds with
      | EmptyString => None
      | _ => v ← parse_digits 0 ds; i64_checked (if neg then - v else v)
      end
  end.

(** ** Facts *)

Lemma digit_char_val d : 0 <= d < 10 -> digit_val (digit_char d) = d.
Proof.
  intros H. unfold digit_val, digit_char. rewrite nat_ascii_embedding; lia.
Qed.

Lemma digit_char_digit d : 0 <= d < 10 -> is_digit (digit_char d) = true.
Proof.
  intros H. unfold is_digit, digit_char. rewrite nat_ascii_embedding by lia.
  rewrite andb_true_iff, !Z.leb_le. lia.
Qed.

Lemma is_digit_val c : is_digit c = true -> 0 <= digit_val c < 10.
Proof. unfold is_digit, digit_val. intros H. bools. lia. Qed.

Lemma digit_char_of_val c : is_digit c = true -> digit_char (digit_val c) = c.
Proof.
  intros H. pose proof (is_digit_val c H) as Hd. unfold digit_char, digit_val in *.
  replace (Z.to_nat (48 + (Z.of_nat (nat_of_ascii c) - 48))) with (nat_of_ascii c) by lia.
  apply ascii_nat_embedding.
Qed.

Lemma parse_digits_app a s t v :
  parse_digits a s = Some v -> parse_digits a (s +:+ t) = parse_digits v t.
Proof.
  revert a. induction s as [|c s IH]; simpl; intros a H; [congruence|].
  destruct (is_digit c); [|done]. by apply IH.
Qed.

Lemma parse_digits_all a s :
  (exists v, parse_digits a s = Some v) <-> str_all is_digit s = true.
Proof.
  revert a. induction s as [|c s IH]; simpl; intros a.
  - naive_solver.
  - destruct (is_digit c); simpl; [apply IH|]. split; [intros [? ?]|]; done.
Qed.

Lemma parse_digits_digits a s v : parse_digits a s = Some v -> str_all is_digit s = true.
Proof. intros H. apply (parse_digits_all a). eauto. Qed.

(** The value read is the accumulator shifted by the number of digits, plus the
    value of the digits. *)
Lemma parse_digits_acc a s v :
  parse_digits 0 s = Some v ->
  parse_digits a s = Some (a * 10 ^ Z.of_nat (String.length s) + v).
Proof.
  revert a v. induction s as [|c s IH]; simpl String.length; intros a v H.
  - simpl in *. injection H as <-. simpl. f_equal. lia.
  - simpl in *. destruct (is_digit c) eqn:E; [|done].
    assert (exists w, parse_digits 0 s = Some w) as [w Hw].
    { apply parse_digits_all. eauto using parse_digits_digits. }
    rewrite (IH _ _ Hw). rewrite (IH _ _ Hw) in H. injection H as <-.
    f_equal. rewrite Nat2Z.inj_succ, Z.pow_succ_r by lia. lia.
Qed.

Lemma parse_digits_bounds s v :
  parse_digits 0 s = Some v -> 0 <= v < 10 ^ Z.of_nat (String.length s).
Proof.
  revert v. induction s as [|c s IH]; simpl String.length; intros v H.
  - simpl in H. injection H as <-. simpl. lia.
  - simpl in H. destruct (is_digit c) eqn:E; [|done].
    assert (exists w, parse_digits 0 s = Some w) as [w Hw].
    { apply parse_digits_all. eauto using parse_digits_digits. }
    rewrite (parse_digits_acc _ _ _ Hw) in H. injection H as <-.
    specialize (IH _ Hw). apply is_digit_val in E.
    rewrite Nat2Z.inj_succ, Z.pow_succ_r by lia. nia.
Qed.

Lemma parse_zeros a k : parse_digits a (str_repeat "0"%char k) = Some (a * 10 ^ Z.of_nat k).
Proof.
  assert (parse_digits 0 (str_repeat "0"%char k) = Some 0) as H.
  { induction k; simpl; [done|]. exact IHk. }
  rewrite (parse_digits_acc _ _ _ H), str_length_repeat. f_equal. lia.
Qed.

Lemma dec_digits_parse fuel n acc :
  0 <= n < 10 ^ Z.of_nat fuel ->
  parse_digits 0 (dec_digits fuel n acc) = parse_digits n acc.
Proof.
  revert n acc. induction fuel as [|f IH]; intros n acc H.
  - simpl in *. replace n with 0 by lia. done.
  - rewrite Nat2Z.inj_succ, Z.pow_succ_r in H by lia. simpl.
    pose proof (Z.mod_pos_bound n 10). pose proof (Z.div_mod n 10).
    assert (forall a, parse_digits a (String (digit_char (n mod 10)) acc)
                      = parse_digits (a * 10 + n mod 10) acc) as Hc.
    { intros a. simpl. rewrite digit_char_digit, digit_char_val by lia. done. }
    destruct (n <? 10) eqn:E; bools.
    + rewrite Hc. f_equal. rewrite Z.mod_small by lia. lia.
    + rewrite IH by lia. rewrite Hc. f_equal. lia.
Qed.

Lemma dec_digits_app fuel n acc :
  dec_digits fuel n acc = dec_digits fuel n EmptyString +:+ acc.
Proof.
  revert n acc. induction fuel as [|f IH]; intros n acc; simpl; [done|].
  destruct (n <? 10); [done|]. rewrite IH, (IH _ (String _ EmptyString)), str_app_assoc.
  done.
Qed.

Lemma dec_digits_length fuel n k :
  0 <= n < 10 ^ Z.of_nat k -> (0 < k)%nat ->
  (String.length (dec_digits fuel n EmptyString) <= k)%nat.
Proof.
  revert n k. induction fuel as [|f IH]; intros n k H Hk; simpl; [lia|].
  destruct (n <? 10) eqn:E; simpl; [lia|]. bools.
  rewrite dec_digits_app, str_length_app. simpl.
  destruct k as [|[|k]]; [lia|simpl in H; lia|].
  rewrite (Nat2Z.inj_succ (S k)), Z.pow_succ_r in H by lia.
  assert (String.length (dec_digits f (n / 10) EmptyString) <= S k)%nat; [|lia].
  apply IH; [|lia]. split; [apply Z.div_pos; lia|]. apply Z.div_lt_upper_bound; lia.
Qed.

Lemma show_u64_parse n : 0 <= n <= u64_max -> parse_digits 0 (show_u64 n) = Some n.
Proof.
  intros H. unfold show_u64, u64_max in *. rewrite dec_digits_parse; [done|]. simpl. lia.
Qed.

Lemma dec_digits_cons fuel n c s : exists c' s', dec_digits fuel n (String c s) = String c' s'.
Proof.
  revert n c s. induction fuel as [|f IH]; intros n c s; simpl; [eauto|].
  destruct (n <? 10); eauto.
Qed.

Lemma dec_digits_nonempty fuel n acc :
  exists c s, dec_digits (S fuel) n acc = String c s.
Proof. simpl. destruct (n <? 10); [eauto|]. apply dec_digits_cons. Qed.

Lemma show_u64_nonempty n : exists c s, show_u64 n = String c s.
Proof. apply dec_digits_nonempty. Qed.

Lemma show_u64_digits n : 0 <= n <= u64_max -> str_all is_digit (show_u64 n) = true.
Proof. intros H. eapply parse_digits_digits, show_u64_parse; done. Qed.

Lemma digit_not_sign c : is_digit c = true ->
  Ascii.eqb c "-"%char = false /\ Ascii.eqb c "+"%char = false /\ Ascii.eqb c "."%char = false.
Proof.
  intros H. repeat split; apply Ascii.eqb_neq; intros ->; done.
Qed.

(** Digits are parsed as themselves: no sign is involved. *)
Lemma parse_i64_digits s v :
  s <> EmptyString -> parse_digits 0 s = Some v -> parse_i64 s = i64_checked v.
Proof.
  intros Hs H. destruct s as [|c s]; [done|].
  assert (is_digit c = true) as Hc by (apply parse_digits_digits in H; simpl in H; by bools).
  destruct (digit_not_sign c Hc) as (E1 & E2 & _). unfold parse_i64. rewrite E1, E2.
  by rewrite H.
Qed.

Lemma parse_i64_range s v : parse_i64 s = Some v -> i64_range v.
Proof.
  destruct s as [|c s]; [done|]. unfold parse_i64. intros H.
  split_match H; apply bind_Some in H as (w & _ & Hw);
    apply i64_checked_Some in Hw as [-> Hw]; done.
Qed.

Lemma show_i64_parse n : i64_range n -> parse_i64 (show_i64 n) = Some n.
Proof.
  intros H. unfold show_i64. destruct (n <? 0) eqn:E; bools.
  - assert (parse_digits 0 (show_u64 (Z.abs n)) = Some (Z.abs n)) as Hp.
    { apply show_u64_parse. unfold i64_range, i64_min, i64_max, u64_max in *. lia. }
    destruct (show_u64_nonempty (Z.abs n)) as (c & s & Hs). rewrite Hs in *.
    unfold parse_i64. rewrite Ascii.eqb_refl, Hp. simpl.
    replace (- Z.abs n) with n by lia. by apply i64_checked_in.
  - assert (parse_digits 0 (show_u64 n) = Some n) as Hp.
    { apply show_u64_parse. unfold i64_range, i64_min, i64_max, u64_max in *. lia. }
    destruct (show_u64_nonempty n) as (c & s & Hs).
    rewrite (parse_i64_digits _ n); [by apply i64_checked_in|by rewrite Hs|done].
Qed.

Lemma utf8_chars_digits s : str_all is_digit s = true -> utf8_chars s = String.length s.
Proof.
  induction s as [|c s IH]; simpl; intros H; [done|]. bools.
  unfold is_digit in H. bools.
  destruct (_ =? 2) eqn:E; bools; [|by f_equal; auto].
  assert (Z.of_nat (nat_of_ascii c) / 64 < 1); [|lia]. apply Z.div_lt_upper_bound; lia.
Qed.

Lemma show_pad8_length n : 0 <= n < 10 ^ 8 -> String.length (show_pad8 n) = 8%nat.
Proof.
  intros H. unfold show_pad8. rewrite str_length_app, str_length_repeat.
  pose proof (dec_digits_length 20 n 8). unfold show_u64 in *. simpl Z.of_nat in *. lia.
Qed.

Lemma show_pad8_parse n : 0 <= n < 10 ^ 8 -> parse_digits 0 (show_pad8 n) = Some n.
Proof.
  intros H. unfold show_pad8. rewrite (parse_digits_app _ _ _ 0).
  - apply show_u64_parse. unfold u64_max. lia.
  - by rewrite parse_zeros.
Qed.

Lemma pad_right8_digits s v :
  parse_digits 0 s = Some v ->
  parse_digits 0 (pad_right8 s) = Some (v * 10 ^ Z.of_nat (8 - String.length s)).
Proof.
  intros H. unfold pad_right8. rewrite (parse_digits_app _ _ _ v H), parse_zeros.
  rewrite utf8_chars_digits; [done|]. eauto using parse_digits_digits.
Qed.

(** A string [str::parse::<i64>] accepts is ASCII, and its value is bounded by
    its length; a negative value spends one byte on the sign. *)
Lemma is_digit_ascii c : is_digit c = true -> is_ascii c = true.
Proof. unfold is_digit, is_ascii. intros H. bools. apply Z.ltb_lt. lia. Qed.

Lemma parse_digits_ascii a s v : parse_digits a s = Some v -> str_all is_ascii s = true.
Proof. eauto using str_all_impl, is_digit_ascii, parse_digits_digits. Qed.

Lemma parse_i64_inv s v :
  parse_i64 s = Some v ->
  str_all is_ascii s = true /\
  exists d w, parse_digits 0 d = Some w /\ d <> EmptyString /\
    ((v = w /\ (String.length d <= String.length s)%nat) \/
     (v = - w /\ (S (String.length d) = String.length s)%nat)).
Proof.
  destruct s as [|c s]; [done|]. unfold parse_i64. intros H.
  destruct (Ascii.eqb_spec c "-"%char) as [->|_];
    [|destruct (Ascii.eqb_spec c "+"%char) as [->|_]].
  - destruct s as [|d s]; [done|]. apply bind_Some in H as (w & Hw & H).
    apply i64_checked_Some in H as [-> _]. split.
    + apply parse_digits_ascii in Hw. exact Hw.
    + exists (String d s), w. naive_solver.
  - destruct s as [|d s]; [done|]. apply bind_Some in H as (w & Hw & H).
    apply i64_checked_Some in H as [-> _]. split.
    + apply parse_digits_ascii in Hw. exact Hw.
    + exists (String d s), w. split_and!; [done..|]. left. simpl. split; [done|lia].
  - apply bind_Some in H as (w & Hw & H).
    apply i64_checked_Some in H as [-> _]. split.
    + by apply parse_digits_ascii in Hw.
    + exists (String c s), w. split_and!; [done..|]. left. split; [done|lia].
Qed.

Lemma utf8_chars_ascii s : str_all is_ascii s = true -> utf8_chars s = String.length s.
Proof.
  induction s as [|c s IH]; simpl; intros H; [done|]. bools.
  unfold is_ascii in H. bools.
  destruct (_ =? 2) eqn:E; bools; [|by f_equal; auto].
  assert (Z.of_nat (nat_of_ascii c) / 64 < 2); [|lia]. apply Z.div_lt_upper_bound; lia.
Qed.

(** The fractional part the amount parser reads: eight bytes, so a value above
    [- 10 ^ 7] and below [10 ^ 8]. *)
Lemma parse_pad8_bounds s v :
  (String.length s <= 8)%nat -> parse_i64 (pad_right8 s) = Some v ->
  - 10 ^ 7 < v < 10 ^ 8.
Proof.
  intros Hs H. apply parse_i64_inv in H as (Ha & d & w & Hw & _ & Hv).
  unfold pad_right8 in Ha, Hv. rewrite str_all_app in Ha. bools.
  rewrite str_length_app, str_length_repeat, utf8_chars_ascii in Hv by done.
  apply parse_digits_bounds in Hw.
  destruct Hv as [[-> Hd]|[-> Hd]].
  - assert (10 ^ Z.of_nat (String.length d) <= 10 ^ 8) by (apply Z.pow_le_mono_r; lia). lia.
  - assert (10 ^ Z.of_nat (String.length d) <= 10 ^ 7) by (apply Z.pow_le_mono_r; lia). lia.
Qed.

(** [str::parse::<u64>]: an optional plus, at least one digit, no overflow. *)
Definition parse_u64 (s : string) : option Z :=
  let digits := match s with String c s' => if Ascii.eqb c "+"%char then s' else s | EmptyString => s end in
  match digits with
  | EmptyString => None
  | _ => n ← parse_digits 0 digits; if n <=? u64_max then Some n else None
  end.

Lemma parse_u64_show n : u64_range n -> parse_u64 (show_u64 n) = Some n.
Proof.
  intros Hn. pose proof (show_u64_parse n Hn) as Hp. pose proof (show_u64_digits n Hn) as Hd.
  destruct (show_u64_nonempty n) as (c & s & E). rewrite E in *. unfold parse_u64. simpl in Hd. bools.
  destruct (Ascii.eqb_spec c "+"%char) as [->|_]; [done|]. rewrite Hp. simpl.
  destruct Hn as [_ Hn]. apply Z.leb_le in Hn. by rewrite Hn.
Qed.

(** [str::parse::<u32>]. *)
Definition parse_u32 (s : string) : option Z := n ← parse_u64 s; if n <=? u32_max then Some n else None.
