(* ===== verification/Amount.v ===== *)
(** * Token amounts

    [asset_core::amount] ([crates/asset-core/src/amount.rs]): a signed 64-bit
    count of wats with eight decimal places, its checked arithmetic, its text
    form and the parser of that form. *)
From S2P Require Import Prelude Decimal.

Definition DECIMALS : nat := 8.
Definition SCALE : Z := 10 ^ 8.

Record Amount := mk_amount { wats : Z }.

#[export] Instance amount_eq_dec : EqDecision Amount.
Proof. solve_decision. Defined.

Definition ZERO : Amount := {| wats := 0 |}.
Definition from_wats (w : Z) : Amount := {| wats := w |}.
Definition is_zero (a : Amount) : bool := wats a =? 0.
Definition is_positive (a : Amount) : bool := 0 <? wats a.

Definition checked_add (a b : Amount) : option Amount :=
  from_wats <$> i64_checked_add (wats a) (wats b).
Definition checked_sub (a b : Amount) : option Amount :=
  from_wats <$> i64_checked_sub (wats a) (wats b).

(** [Add], [Sub] and [Sum] panic where the checked form has no value: a panic
    is [None]. *)
Definition add (a b : Amount) : option Amount := checked_add a b.
Definition sub (a b : Amount) : option Amount := checked_sub a b.
Fixpoint sum_from (acc : Amount) (l : list Amount) : option Amount :=
  match l with
  | [] => Some acc
  | b :: l' => acc' ← checked_add acc b; sum_from acc' l'
  end.
Definition sum (l : list Amount) : option Amount := sum_from ZERO l.

(** [Display]. *)
Definition to_string (a : Amount) : string :=
  let abs := Z.abs (wats a) in
  let whole := abs / SCALE in
  let frac := abs mod SCALE in
  if wats a <? 0
  then String "-"%char (show_u64 whole +:+ String "."%char (show_pad8 frac))
  else show_u64 whole +:+ String "."%char (show_pad8 frac).

Inductive AmountError :=
  | InvalidFormat (input : string)
  | Overflow
  | TooManyDecimals.

(** [input.starts_with('-')] and [&input[1..]]. *)
Definition strip_sign (input : string) : bool * string :=
  match input with
  | String c s' => if Ascii.eqb c "-"%char then (true, s') else (false, input)
  | EmptyString => (false, input)
  end.

(** The two arms of [parse_amount_str]: the wats of the text after the sign. *)
Definition parse_wats (input s : string) : result AmountError Z :=
  match str_split "."%char s with
  | [p0] =>
      whole ← ok_or (parse_i64 p0) (InvalidFormat input);
      ok_or (i64_checked_mul whole SCALE) Overflow
  | [p0; frac_str] =>
      whole ← ok_or (parse_i64 p0) (InvalidFormat input);
      if (DECIMALS <? String.length frac_str)%nat then Err TooManyDecimals
      else
        frac ← ok_or (parse_i64 (pad_right8 frac_str)) (InvalidFormat input);
        ok_or (w ← i64_checked_mul whole SCALE; i64_checked_add w frac) Overflow
  | _ => Err (InvalidFormat input)
  end.

(** [FromStr].  The negation of the source is that of an [i64]. *)
Definition parse_amount_str (input : string) : result AmountError Amount :=
  let '(negative, s) := strip_sign input in
  w ← parse_wats input s;
  Ok (from_wats (if negative then i64_wrap (- w) else w)).
Definition from_str (s : string) : result AmountError Amount := parse_amount_str s.

(** ** Printing then parsing *)

Lemma digits_no_dot s : str_all is_digit s = true ->
  str_all (fun c => negb (Ascii.eqb c "."%char)) s = true.
Proof.
  apply str_all_impl. intros c Hc. destruct (digit_not_sign c Hc) as (_ & _ & E).
  by rewrite E.
Qed.

Lemma strip_sign_digit c s :
  is_digit c = true -> strip_sign (String c s) = (false, String c s).
Proof. intros H. simpl. by destruct (digit_not_sign c H) as (-> & _ & _). Qed.

(** The eight-digit fraction the parser reads from [f]. *)
Lemma frac_value f vf :
  parse_digits 0 f = Some vf -> (String.length f <= 8)%nat ->
  parse_i64 (pad_right8 f) = Some (vf * 10 ^ Z.of_nat (8 - String.length f)) /\
  0 <= vf * 10 ^ Z.of_nat (8 - String.length f) < SCALE.
Proof.
  intros Hvf Hf. pose proof (pad_right8_digits _ _ Hvf) as Hp.
  pose proof (parse_digits_bounds _ _ Hvf).
  assert (0 <= vf * 10 ^ Z.of_nat (8 - String.length f) < SCALE) as Hb.
  { assert (SCALE = 10 ^ Z.of_nat (String.length f) * 10 ^ Z.of_nat (8 - String.length f))
      as -> by (unfold SCALE; rewrite <- Z.pow_add_r by lia; f_equal; lia).
    pose proof (Z.pow_pos_nonneg 10 (Z.of_nat (8 - String.length f))). nia. }
  assert (pad_right8 f <> EmptyString) as Hne by by destruct f.
  split; [|done]. rewrite (parse_i64_digits _ _ Hne Hp).
  apply i64_checked_in. unfold SCALE, i64_range, i64_min, i64_max in *. lia.
Qed.

(** On [digits.digits] the parser reads the two numbers and combines them. *)
Lemma parse_decimal_eq w f vw vf :
  w <> EmptyString -> parse_digits 0 w = Some vw -> parse_digits 0 f = Some vf ->
  (String.length f <= 8)%nat ->
  parse_amount_str (w +:+ String "."%char f) =
    (whole ← ok_or (i64_checked vw) (InvalidFormat (w +:+ String "."%char f));
     w' ← ok_or (w' ← i64_checked_mul whole SCALE;
            i64_checked_add w' (vf * 10 ^ Z.of_nat (8 - String.length f))) Overflow;
     Ok (from_wats w')).
Proof.
  intros Hw Hvw Hvf Hf. destruct (frac_value _ _ Hvf Hf) as [Hfr _].
  pose proof (parse_digits_digits _ _ _ Hvw) as Hdw.
  pose proof (parse_digits_digits _ _ _ Hvf) as Hdf.
  destruct w as [|c w]; [done|]. simpl in Hdw. bools.
  unfold parse_amount_str. change (String c w +:+ ?r) with (String c (w +:+ r)).
  rewrite strip_sign_digit by done. unfold parse_wats.
  change (String c (w +:+ ?r)) with (String c w +:+ r).
  rewrite str_split_app by (apply digits_no_dot; simpl; by apply andb_true_iff).
  rewrite (str_split_none _ f) by by apply digits_no_dot.
  rewrite (parse_i64_digits _ _ Hw Hvw), Hfr.
  unfold DECIMALS. destruct (Nat.ltb_spec 8 (String.length f)); [lia|].
  simpl. by destruct (i64_checked vw).
Qed.

Ltac i64_lia := unfold SCALE, i64_range, i64_min, i64_max, u64_max in *; lia.

(** The plain decimal grammar [digits.digits], the one the token parsers
    accept: the value is exact, or the amount does not fit and the parse fails. *)
Lemma parse_decimal_value w f vw vf :
  w <> EmptyString -> parse_digits 0 w = Some vw -> parse_digits 0 f = Some vf ->
  (String.length f <= 8)%nat ->
  let v := vw * SCALE + vf * 10 ^ Z.of_nat (8 - String.length f) in
  (v <= i64_max -> parse_amount_str (w +:+ String "."%char f) = Ok (from_wats v)) /\
  (i64_max < v -> exists e, parse_amount_str (w +:+ String "."%char f) = Err e).
Proof.
  intros Hw Hvw Hvf Hf v. rewrite (parse_decimal_eq _ _ _ _ Hw Hvw Hvf Hf).
  destruct (frac_value _ _ Hvf Hf) as [_ Hb].
  pose proof (parse_digits_bounds _ _ Hvw).
  unfold i64_checked_mul, i64_checked_add. split; intros Hv.
  - rewrite (i64_checked_in vw) by i64_lia. simpl.
    rewrite (i64_checked_in (vw * SCALE)) by i64_lia. simpl.
    rewrite i64_checked_in by i64_lia. done.
  - destruct (i64_checked vw) as [x|] eqn:E1; simpl; [|eauto].
    apply i64_checked_Some in E1 as [-> _].
    destruct (i64_checked (vw * SCALE)) as [y|] eqn:E2; simpl; [|eauto].
    apply i64_checked_Some in E2 as [-> _].
    destruct (i64_checked (_ + _)) as [z|] eqn:E3; simpl; [|eauto].
    apply i64_checked_Some in E3 as [_ E3]. i64_lia.
Qed.

(** The text of a non-negative amount: digits, a dot, eight digits. *)
Lemma to_string_nonneg a :
  0 <= wats a <= i64_max ->
  exists w f, to_string a = w +:+ String "."%char f /\
  w <> EmptyString /\ parse_digits 0 w = Some (wats a / SCALE) /\
  parse_digits 0 f = Some (wats a mod SCALE) /\ String.length f = 8%nat.
Proof.
  intros H. exists (show_u64 (wats a / SCALE)), (show_pad8 (wats a mod SCALE)).
  pose proof (Z.mod_pos_bound (wats a) SCALE). pose proof (Z.div_pos (wats a) SCALE).
  assert (wats a / SCALE <= wats a) by (apply Z.div_le_upper_bound; i64_lia).
  unfold to_string. rewrite Z.abs_eq by lia.
  destruct (Z.ltb_spec (wats a) 0); [lia|].
  split_and!; [done| |apply show_u64_parse; i64_lia|apply show_pad8_parse; i64_lia
    |apply show_pad8_length; i64_lia].
  destruct (show_u64_nonempty (wats a / SCALE)) as (c & s & ->). done.
Qed.

Lemma to_string_neg a :
  wats a < 0 -> to_string a = String "-"%char (to_string (from_wats (- wats a))).
Proof.
  intros H. unfold to_string. simpl. rewrite Z.abs_opp.
  destruct (Z.ltb_spec (wats a) 0); [|lia]. destruct (Z.ltb_spec (- wats a) 0); [lia|]. done.
Qed.

Lemma parse_to_string_nonneg a :
  0 <= wats a <= i64_max -> parse_amount_str (to_string a) = Ok a.
Proof.
  intros H. destruct (to_string_nonneg a H) as (w & f & -> & Hw & Hvw & Hvf & Hf).
  destruct (parse_decimal_value w f _ _ Hw Hvw Hvf) as [Hok _]; [lia|].
  rewrite Hf in Hok. simpl in Hok.
  replace (wats a / SCALE * SCALE + wats a mod SCALE * 10 ^ Z.of_nat 0)
    with (wats a) in Hok
    by (pose proof (Z.div_mod (wats a) SCALE); simpl; i64_lia).
  rewrite Hok by apply H. by destruct a.
Qed.

(** The wats of a text do not depend on the text quoted in the errors. *)
Lemma parse_wats_input inp inp' s w : parse_wats inp s = Ok w -> parse_wats inp' s = Ok w.
Proof.
  unfold parse_wats. destruct (str_split _ _) as [|p0 [|p1 [|? ?]]]; try done.
  - destruct (parse_i64 p0); simpl; done.
  - destruct (parse_i64 p0); simpl; [|done]. destruct (_ <? _)%nat; [done|].
    by destruct (parse_i64 (pad_right8 p1)).
Qed.

(** They fit an [i64] and are not its least value. *)
Lemma parse_wats_range inp s w : parse_wats inp s = Ok w -> i64_range w /\ w <> i64_min.
Proof.
  unfold parse_wats. destruct (str_split _ _) as [|p0 [|p1 [|? ?]]]; try done; intros H.
  - apply bind_Ok in H as (v & _ & H). apply ok_or_Ok, i64_checked_Some in H as [-> H].
    split; [done|]. i64_lia.
  - apply bind_Ok in H as (v & _ & H).
    destruct (Nat.ltb_spec DECIMALS (String.length p1)); [done|].
    apply bind_Ok in H as (fr & Hfr & H). apply ok_or_Ok, parse_pad8_bounds in Hfr; [|done].
    apply ok_or_Ok, bind_Some in H as (x & Hx & H).
    apply i64_checked_Some in Hx as [-> Hx]. apply i64_checked_Some in H as [-> H].
    split; [done|]. i64_lia.
Qed.

(** Parsing a signed text is parsing the unsigned one and negating. *)
Lemma parse_neg c s :
  is_digit c = true ->
  parse_amount_str (String "-"%char (String c s)) =
    match parse_amount_str (String c s) with
    | Ok a => Ok (from_wats (- wats a))
    | Err (InvalidFormat _) => Err (InvalidFormat (String "-"%char (String c s)))
    | Err e => Err e
    end.
Proof.
  intros Hc. unfold parse_amount_str. rewrite (strip_sign_digit c s Hc).
  change (strip_sign (String "-"%char (String c s))) with (true, String c s).
  destruct (parse_wats (String c s) (String c s)) as [w|e] eqn:E.
  - pose proof (parse_wats_range _ _ _ E). rewrite (parse_wats_input _ _ _ _ E). simpl.
    by rewrite i64_wrap_in by i64_lia.
  - revert E. unfold parse_wats. destruct (str_split _ _) as [|p0 [|p1 [|? ?]]]; simpl.
    + naive_solver.
    + destruct (parse_i64 p0); simpl; [|naive_solver].
      destruct (i64_checked_mul _ _); simpl; naive_solver.
    + destruct (parse_i64 p0); simpl; [|naive_solver]. destruct (_ <? _)%nat; [naive_solver|].
      destruct (parse_i64 (pad_right8 p1)); simpl; [|naive_solver].
      destruct (i64_checked_mul _ _); simpl; [|naive_solver].
      destruct (i64_checked_add _ _); simpl; naive_solver.
    + naive_solver.
Qed.

(** [Display] then [FromStr] is the identity on every amount but
    [i64::MIN] (whose magnitude no [i64] holds). *)
Theorem display_from_str a :
  i64_range (wats a) -> wats a <> i64_min -> from_str (to_string a) = Ok a.
Proof.
  intros H Hmin. destruct (Z.ltb_spec (wats a) 0) as [Hn|Hn].
  - rewrite to_string_neg by done. unfold from_str.
    assert (0 <= wats (from_wats (- wats a)) <= i64_max) as Hr by (simpl; i64_lia).
    pose proof (parse_to_string_nonneg _ Hr) as Hp.
    destruct (to_string_nonneg _ Hr) as (w & f & Hs & Hw & Hvw & _).
    destruct w as [|c w]; [done|]. apply parse_digits_digits in Hvw.
    simpl in Hvw. bools. rewrite Hs in *.
    change (String c w +:+ ?r) with (String c (w +:+ r)) in *.
    rewrite parse_neg by done. rewrite Hp. destruct a as [z]; simpl.
    unfold from_wats. do 2 f_equal. lia.
  - apply parse_to_string_nonneg. i64_lia.
Qed.

Lemma display_from_str_witness :
  i64_range (-150000000) /\ to_string (from_wats (-150000000)) = "-1.50000000" /\
  from_str (to_string (from_wats (-150000000))) = Ok (from_wats (-150000000)).
Proof.
  split; [unfold i64_range, i64_min, i64_max; lia|]. split; [vm_compute; reflexivity|].
  apply display_from_str; vm_compute; [split; discriminate|discriminate].
Defined.

(** [i64::MIN] itself prints as a text the parser refuses. *)
Example display_min_overflows : from_str (to_string (from_wats i64_min)) = Err Overflow.
Proof. vm_compute. reflexivity. Qed.

(** Whatever text the parser accepts, the value is in the range of [i64]
    and is not [i64::MIN], so its own negation, and with it the unchecked
    negation of the [-] branch, never overflows. *)
Theorem parse_amount_range s a :
  parse_amount_str s = Ok a -> i64_range (wats a) /\ i64_range (- wats a) /\
    exists w, parse_wats s (snd (strip_sign s)) = Ok w /\
      wats a = (if fst (strip_sign s) then - w else w).
Proof.
  unfold parse_amount_str. destruct (strip_sign s) as [neg u]. simpl. intros H.
  apply bind_Ok in H as (w & Hw & H). injection H as <-.
  pose proof (parse_wats_range _ _ _ Hw). simpl.
  assert ((if neg then i64_wrap (- w) else w) = (if neg then - w else w)) as ->.
  { destruct neg; [|done]. apply i64_wrap_in. i64_lia. }
  split_and!; [destruct neg; i64_lia..|]. eauto.
Qed.

Lemma parse_amount_range_witness :
  parse_amount_str "-92233720368.54775807" = Ok (from_wats (-9223372036854775807)) /\
  i64_range (- -9223372036854775807).
Proof.
  assert (parse_amount_str "-92233720368.54775807" = Ok (from_wats (-9223372036854775807)))
    as H by (vm_compute; reflexivity).
  split; [exact H|]. exact (proj1 (proj2 (parse_amount_range _ _ H))).
Defined.

(** ** Sums *)

Definition zsum (l : list Amount) : Z := foldr (fun a z => wats a + z) 0 l.

Lemma sum_from_spec acc l t :
  i64_range (wats acc) ->
  sum_from acc l = Some t <->
    (forall k, i64_range (wats acc + zsum (take k l))) /\ wats t = wats acc + zsum l.
Proof.
  revert acc. induction l as [|b l IH]; intros acc Hacc; simpl.
  - split.
    + intros [= ->]. split; [|lia]. intros k. rewrite take_nil. simpl. by rewrite Z.add_0_r.
    + intros [_ H]. f_equal. destruct acc, t; simpl in *. f_equal. lia.
  - unfold checked_add, i64_checked_add. split.
    + intros H. apply bind_Some in H as (acc' & Ha & H).
      apply fmap_Some in Ha as (z & Hz & ->). apply i64_checked_Some in Hz as [-> Hz].
      apply IH in H as [Hk Ht]; [|done]. simpl in *. split; [|lia].
      intros [|k]; simpl; [by rewrite Z.add_0_r|]. rewrite Z.add_assoc. apply Hk.
    + intros [Hk Ht]. assert (i64_range (wats acc + wats b)) as Hab.
      { specialize (Hk 1%nat). simpl in Hk. by rewrite Z.add_0_r in Hk. }
      rewrite i64_checked_in by done. simpl. apply IH; [done|]. simpl. split; [|lia].
      intros k. specialize (Hk (S k)). simpl in Hk. by rewrite Z.add_assoc in Hk.
Qed.

(** [Sum] returns exactly when every prefix sum fits an [i64], and then
    returns the exact total; in every other case it panics. *)
Theorem sum_exact l t :
  sum l = Some t <-> (forall k, i64_range (zsum (take k l))) /\ wats t = zsum l.
Proof. unfold sum. rewrite sum_from_spec; [done|]. unfold ZERO; simpl. i64_lia. Qed.

(** [checked_add] and [checked_sub] have a value exactly when the exact
    result fits, and subtracting what was added gives the amount back. *)
Theorem checked_ops a b c :
  (checked_add a b = Some c <-> i64_range (wats a + wats b) /\ wats c = wats a + wats b) /\
  (checked_sub a b = Some c <-> i64_range (wats a - wats b) /\ wats c = wats a - wats b) /\
  (i64_range (wats a) -> checked_add a b = Some c -> checked_sub c b = Some a).
Proof.
  assert (forall z d, from_wats <$> i64_checked z = Some d <-> i64_range z /\ wats d = z) as H.
  { intros z d. rewrite fmap_Some. setoid_rewrite i64_checked_Some. split.
    - intros (x & [-> Hx] & ->). done.
    - intros [Hz Hd]. exists z. split; [done|]. destruct d; simpl in *. by f_equal. }
  unfold checked_add, checked_sub, i64_checked_add, i64_checked_sub. rewrite !H.
  split_and!; [done..|]. intros Ha [_ ->].
  replace (wats a + wats b - wats b) with (wats a) by lia. done.
Qed.
