(* ===== verification/External.v ===== *)
(** * Interfaces to the code the repository calls and does not contain

    One class per dependency: its operations, and a second class with the
    documented behaviour the development relies on.  The models take the
    operations as arguments; the theorems take the laws as hypotheses.  Every
    law class has a concrete instance at the end of the file, used by the
    witnesses of the properties. *)
From S2P Require Import Prelude Decimal.

(** ** nom: parser combinators ([nom::IResult<&str, O>]) *)

(** [nom::Err]: a recoverable error or an unrecoverable failure. *)
Inductive nom_err := NomError | NomFailure.

Notation IResult O := (result nom_err (string * O)).
Notation parser O := (string -> IResult O).

(** At most [n] leading bytes satisfying [p]. *)
Fixpoint str_span_n (n : nat) (p : ascii -> bool) (s : string) : string * string :=
  match n, s with
  | S n', String c s' =>
      if p c then let (a, b) := str_span_n n' p s' in (String c a, b)
      else (EmptyString, s)
  | _, _ => (EmptyString, s)
  end.

Class Nom := {
  tag : string -> parser string;
  nom_char : ascii -> parser ascii;
  digit1 : parser string;
  take_while1 : (ascii -> bool) -> parser string;
  take_while_m_n : nat -> nat -> (ascii -> bool) -> parser string;
  opt : forall {O}, parser O -> parser (option O);
  recognize : forall {O}, parser O -> parser string;
  tuple2 : forall {A B}, parser A -> parser B -> parser (A * B);
  preceded : forall {A B}, parser A -> parser B -> parser B;
  separated_pair : forall {A B C}, parser A -> parser B -> parser C -> parser (A * C);
}.

(** The documented behaviour of the combinators of [nom::bytes::complete],
    [nom::character::complete], [nom::combinator] and [nom::sequence]. *)
Class NomLaws `{Nom} : Prop := {
  tag_spec : forall t i,
    tag t i = match strip_prefix t i with Some r => Ok (r, t) | None => Err NomError end;
  char_spec : forall c i,
    nom_char c i = match i with
      | String d r => if Ascii.eqb c d then Ok (r, c) else Err NomError
      | EmptyString => Err NomError
      end;
  take_while1_spec : forall p i,
    take_while1 p i = match str_span p i with
      | (EmptyString, _) => Err NomError
      | (a, r) => Ok (r, a)
      end;
  digit1_spec : forall i, digit1 i = take_while1 is_digit i;
  take_while_m_n_spec : forall m n p i,
    take_while_m_n m n p i =
      let (a, r) := str_span_n n p i in
      if (m <=? String.length a)%nat then Ok (r, a) else Err NomError;
  opt_spec : forall O (p : parser O) i,
    opt p i = match p i with
      | Ok (r, o) => Ok (r, Some o)
      | Err NomError => Ok (i, None)
      | Err NomFailure => Err NomFailure
      end;
  recognize_ok : forall O (p : parser O) pre r o,
    p (pre +:+ r) = Ok (r, o) -> recognize p (pre +:+ r) = Ok (r, pre);
  recognize_err : forall O (p : parser O) i e, p i = Err e -> recognize p i = Err e;
  tuple2_spec : forall A B (p : parser A) (q : parser B) i,
    tuple2 p q i =
      match p i with
      | Ok (r, a) => match q r with Ok (r', b) => Ok (r', (a, b)) | Err e => Err e end
      | Err e => Err e
      end;
  preceded_spec : forall A B (p : parser A) (q : parser B) i,
    preceded p q i = match p i with Ok (r, _) => q r | Err e => Err e end;
  separated_pair_spec : forall A B C (p : parser A) (s : parser B) (q : parser C) i,
    separated_pair p s q i =
      match p i with
      | Ok (r, a) =>
          match s r with
          | Ok (r', _) => match q r' with Ok (r'', c) => Ok (r'', (a, c)) | Err e => Err e end
          | Err e => Err e
          end
      | Err e => Err e
      end;
}.

(** ** sha2 and hex *)

Class Hashing := {
  sha256 : string -> string;
  hex_encode : string -> string;
  hex_decode : string -> result string string;
}.

Class HashingLaws `{Hashing} : Prop := {
  sha256_length : forall s, String.length (sha256 s) = 32%nat;
  hex_encode_length : forall s, String.length (hex_encode s) = (2 * String.length s)%nat;
  hex_encode_lower : forall s, str_all is_lower_hexdigit (hex_encode s) = true;
  hex_decode_some : forall s,
    is_ok (hex_decode s) = true <-> Nat.even (String.length s) = true /\ str_all is_hexdigit s = true;
}.

(** [hex::encode(Sha256::digest(s.as_bytes()))], the hash of every token. *)
Definition sha256_hex `{Hashing} (s : string) : string := hex_encode (sha256 s).

Lemma sha256_hex_length `{HashingLaws} s : String.length (sha256_hex s) = 64%nat.
Proof. unfold sha256_hex. by rewrite hex_encode_length, sha256_length. Qed.

Lemma lower_hexdigit_hex c : is_lower_hexdigit c = true -> is_hexdigit c = true.
Proof. unfold is_lower_hexdigit, is_hexdigit. intros ->. done. Qed.

Lemma sha256_hex_hex `{HashingLaws} s : str_all is_hexdigit (sha256_hex s) = true.
Proof. eapply str_all_impl; [apply lower_hexdigit_hex|apply hex_encode_lower]. Qed.

(** ** chrono: instants and their RFC 3339 text *)

Class Chrono := {
  DateTime : Type;
  to_rfc3339 : DateTime -> string;
  parse_from_rfc3339 : string -> option DateTime;
  unix_epoch : DateTime;
}.

Class ChronoLaws `{Chrono} : Prop := {
  parse_to_rfc3339 : forall t, parse_from_rfc3339 (to_rfc3339 t) = Some t;
}.

(** ** Unicode lower case ([str::to_lowercase]) *)

Class Unicode := { to_lowercase : string -> string }.

Class UnicodeLaws `{Unicode} : Prop := {
  to_lowercase_ascii : forall s, str_all is_ascii s = true -> to_lowercase s = ascii_lowercase s;
}.

(** ** ed25519-dalek *)

Class Ed25519 := {
  VerifyingKey : Type;
  vk_from_bytes : string -> result string VerifyingKey;
  ed_verify : VerifyingKey -> string -> string -> bool;
}.

(** ** Concrete instances

    [nom]'s combinators and [hex] are written out; [sha256_ref] is a stand-in
    that pads or cuts its input to 32 bytes, an instant is its own text and a
    signature is accepted when it is the key followed by the message. *)

Definition take_while1_ref (p : ascii -> bool) (i : string) : IResult string :=
  match str_span p i with (EmptyString, _) => Err NomError | (a, r) => Ok (r, a) end.

#[export] Instance nom_ref : Nom := {|
  tag t i := match strip_prefix t i with Some r => Ok (r, t) | None => Err NomError end;
  nom_char c i := match i with
    | String d r => if Ascii.eqb c d then Ok (r, c) else Err NomError
    | EmptyString => Err NomError
    end;
  digit1 := take_while1_ref is_digit;
  take_while1 := take_while1_ref;
  take_while_m_n m n p i :=
    let (a, r) := str_span_n n p i in
    if (m <=? String.length a)%nat then Ok (r, a) else Err NomError;
  opt O p i := match p i with
    | Ok (r, o) => Ok (r, Some o)
    | Err NomError => Ok (i, None)
    | Err NomFailure => Err NomFailure
    end;
  recognize O p i := match p i with
    | Ok (r, _) => Ok (r, String.substring 0 (String.length i - String.length r) i)
    | Err e => Err e
    end;
  tuple2 A B p q i := match p i with
    | Ok (r, a) => match q r with Ok (r', b) => Ok (r', (a, b)) | Err e => Err e end
    | Err e => Err e
    end;
  preceded A B p q i := match p i with Ok (r, _) => q r | Err e => Err e end;
  separated_pair A B C p s q i := match p i with
    | Ok (r, a) =>
        match s r with
        | Ok (r', _) => match q r' with Ok (r'', c) => Ok (r'', (a, c)) | Err e => Err e end
        | Err e => Err e
        end
    | Err e => Err e
    end;
|}.

Lemma substring_app a b : String.substring 0 (String.length a) (a +:+ b) = a.
Proof. induction a as [|c a IH]; simpl; [by destruct b|]. by rewrite IH. Qed.

#[export] Instance nom_ref_laws : NomLaws.
Proof.
  split; try reflexivity.
  - intros O p pre r o H. simpl. rewrite H, str_length_app.
    replace (String.length pre + String.length r - String.length r)%nat
      with (String.length pre) by lia. by rewrite substring_app.
  - intros O p i e H. simpl. by rewrite H.
Qed.

Definition hex_digit (n : Z) : ascii :=
  ascii_of_nat (Z.to_nat (if n <? 10 then 48 + n else 87 + n)).
Definition byte_val (c : ascii) : Z := Z.of_nat (nat_of_ascii c).

Fixpoint hex_encode_ref (s : string) : string :=
  match s with
  | EmptyString => EmptyString
  | String c s' =>
      String (hex_digit (byte_val c / 16)) (String (hex_digit (byte_val c mod 16)) (hex_encode_ref s'))
  end.

Definition hex_val (c : ascii) : Z :=
  let n := byte_val c in if n <? 58 then n - 48 else if n <? 71 then n - 55 else n - 87.

Fixpoint hex_decode_ref (s : string) : option string :=
  match s with
  | EmptyString => Some EmptyString
  | String a (String b s') =>
      if is_hexdigit a && is_hexdigit b
      then String (ascii_of_nat (Z.to_nat (hex_val a * 16 + hex_val b))) <$> hex_decode_ref s'
      else None
  | String _ EmptyString => None
  end.

Fixpoint sha256_ref (n : nat) (s : string) : string :=
  match n with
  | O => EmptyString
  | S n' => match s with
            | EmptyString => String "x"%char (sha256_ref n' EmptyString)
            | String c s' => String c (sha256_ref n' s')
            end
  end.

#[export] Instance hashing_ref : Hashing := {|
  sha256 := sha256_ref 32;
  hex_encode := hex_encode_ref;
  hex_decode s := ok_or (hex_decode_ref s) "invalid hexadecimal text";
|}.

Lemma hex_digit_lower n : 0 <= n < 16 -> is_lower_hexdigit (hex_digit n) = true.
Proof.
  intros H. unfold is_lower_hexdigit, is_digit, is_lower_hex_letter, hex_digit.
  destruct (Z.ltb_spec n 10); rewrite nat_ascii_embedding by lia;
    rewrite orb_true_iff, !andb_true_iff, !Z.leb_le; lia.
Qed.

Lemma byte_val_range c : 0 <= byte_val c < 256.
Proof. unfold byte_val. pose proof (nat_ascii_bounded c). lia. Qed.

Lemma hex_decode_ref_some n s :
  (String.length s <= n)%nat ->
  is_Some (hex_decode_ref s) <-> Nat.even (String.length s) = true /\ str_all is_hexdigit s = true.
Proof.
  revert s. induction n as [|n IH]; intros s Hs.
  - destruct s; simpl in *; [|lia]. naive_solver.
  - destruct s as [|a [|b s]]; simpl in *; [naive_solver| |].
    + split; [by intros [? ?]|by intros [? _]].
    + destruct (is_hexdigit a) eqn:Ea, (is_hexdigit b) eqn:Eb; simpl;
        try (split; [by intros [? ?]|by intros [_ ?]]).
      rewrite fmap_is_Some, IH by lia. done.
Qed.

Lemma sha256_ref_length n s : String.length (sha256_ref n s) = n.
Proof. revert s. induction n as [|n IH]; intros [|c s]; simpl; [done..| |]; by f_equal. Qed.

#[export] Instance hashing_ref_laws : HashingLaws.
Proof.
  split.
  - apply (sha256_ref_length 32).
  - cbn [hex_encode hashing_ref]. induction s as [|c s IH]; simpl; [done|]. lia.
  - cbn [hex_encode hashing_ref]. induction s as [|c s IH]; simpl; [done|]. pose proof (byte_val_range c).
    rewrite !hex_digit_lower; [done|apply Z.mod_pos_bound; lia|].
    split; [apply Z.div_pos; lia|apply Z.div_lt_upper_bound; lia].
  - intros s. rewrite <- (hex_decode_ref_some (String.length s)) by done.
    cbn [hex_decode hashing_ref]. destruct (hex_decode_ref s); simpl; [naive_solver|].
    split; [done|by intros []].
Qed.

#[export] Instance chrono_ref : Chrono := {|
  DateTime := string; to_rfc3339 t := t; parse_from_rfc3339 s := Some s;
  unix_epoch := "1970-01-01T00:00:00+00:00" |}.
#[export] Instance chrono_ref_laws : ChronoLaws.
Proof. split. done. Qed.

#[export] Instance unicode_ref : Unicode := {| to_lowercase := ascii_lowercase |}.
#[export] Instance unicode_ref_laws : UnicodeLaws.
Proof. split. done. Qed.

#[export] Instance ed25519_ref : Ed25519 := {|
  VerifyingKey := string;
  vk_from_bytes := Ok;
  ed_verify k msg sig := String.eqb sig (String.substring 0 64 (k +:+ msg +:+ str_repeat " " 64));
|}.
