(* ===== verification/Parsers.v ===== *)
(** * Shared parser building blocks

    [proto::parsers] ([crates/proto/src/parsers.rs]): the decimal amount and
    the 64-digit hexadecimal string every token grammar is made of, with their
    exact languages. *)
From S2P Require Import Prelude Decimal External.

Section Parsers.
Context `{Nom}.

(** [digits[.digits]]. *)
Definition amount_parser : parser string :=
  recognize (tuple2 digit1 (opt (tuple2 (tag ".") digit1))).

Definition is_hex (c : ascii) : bool := is_hexdigit c.

Definition hex64 : parser string := take_while_m_n 64 64 is_hex.
End Parsers.

(** ** The languages *)

(** Texts [amount_parser] recognises. *)
Inductive amount_text : string -> Prop :=
  | amount_whole w :
      w <> EmptyString -> str_all is_digit w = true -> amount_text w
  | amount_decimal w f :
      w <> EmptyString -> str_all is_digit w = true ->
      f <> EmptyString -> str_all is_digit f = true ->
      amount_text (w +:+ String "."%char f).

Definition hex_text (n : nat) (s : string) : Prop :=
  String.length s = n /\ str_all is_hexdigit s = true.

(** What may follow an amount: nothing a longer amount could start with. *)
Definition ends_amount (s : string) : bool :=
  match s with
  | EmptyString => true
  | String c _ => negb (is_digit c) && negb (Ascii.eqb c "."%char)
  end.

Lemma str_span_n_app n p a b :
  String.length a = n -> str_all p a = true -> str_span_n n p (a +:+ b) = (a, b).
Proof.
  revert n. induction a as [|c a IH]; intros [|n]; simpl; intros Hl Ha; try done.
  bools. rewrite H, (IH n); auto.
Qed.

Lemma str_span_n_inv n p s a b :
  str_span_n n p s = (a, b) ->
  s = a +:+ b /\ str_all p a = true /\ (String.length a <= n)%nat.
Proof.
  revert s a. induction n as [|n IH]; simpl; intros s a Hs.
  - injection Hs as <- <-. simpl. split_and!; [done..|lia].
  - destruct s as [|c s]; [injection Hs as <- <-; simpl; split_and!; [done..|lia]|].
    destruct (p c) eqn:E; [|injection Hs as <- <-; simpl; split_and!; [done..|lia]].
    destruct (str_span_n n p s) as [a' b'] eqn:Es. injection Hs as <- <-.
    destruct (IH _ _ Es) as (-> & Ha & Hl). simpl. rewrite E. split_and!; [done..|lia].
Qed.

Lemma ends_amount_no_dot s : ends_amount s = true -> strip_prefix "." s = None.
Proof.
  destruct s as [|c s]; [done|]. cbn [ends_amount strip_prefix]. intros Hs. bools.
  rewrite Ascii.eqb_sym.
  match goal with E : Ascii.eqb _ "."%char = false |- _ => by rewrite E end.
Qed.

Section Facts.
Context `{NomLaws}.

Lemma tag_app t s : tag t (t +:+ s) = Ok (s, t).
Proof. by rewrite tag_spec, strip_prefix_app. Qed.

Lemma tag_Ok t s r o : tag t s = Ok (r, o) <-> s = t +:+ r /\ o = t.
Proof.
  rewrite tag_spec. split.
  - destruct (strip_prefix t s) eqn:E; [|done]. intros [= -> ->].
    by apply strip_prefix_Some in E.
  - intros [-> ->]. by rewrite strip_prefix_app.
Qed.

Lemma char_Ok c s r o : nom_char c s = Ok (r, o) <-> s = String c r /\ o = c.
Proof.
  rewrite char_spec. destruct s as [|d s]; [naive_solver|].
  destruct (Ascii.eqb_spec c d); naive_solver.
Qed.

Lemma take_while1_app p a s :
  a <> EmptyString -> str_all p a = true -> stops p s = true ->
  take_while1 p (a +:+ s) = Ok (s, a).
Proof.
  intros Ha Hp Hs. rewrite take_while1_spec, str_span_app by done. by destruct a.
Qed.

Lemma take_while1_Ok p s r a :
  take_while1 p s = Ok (r, a) ->
  s = a +:+ r /\ a <> EmptyString /\ str_all p a = true /\ stops p r = true.
Proof.
  rewrite take_while1_spec. pose proof (str_span_eq p s) as Heq.
  pose proof (str_span_all p s) as Hall. pose proof (str_span_stops p s) as Hst.
  destruct (str_span p s) as [[|c b] r'] eqn:E; [done|]. simpl in *.
  intros [= -> <-]. done.
Qed.

Lemma digit1_app a s :
  a <> EmptyString -> str_all is_digit a = true -> stops is_digit s = true ->
  digit1 (a +:+ s) = Ok (s, a).
Proof. rewrite digit1_spec. apply take_while1_app. Qed.

Lemma digit1_Ok s r a :
  digit1 s = Ok (r, a) ->
  s = a +:+ r /\ a <> EmptyString /\ str_all is_digit a = true /\ stops is_digit r = true.
Proof. rewrite digit1_spec. apply take_while1_Ok. Qed.

Lemma take_mn_Ok n p s r a :
  take_while_m_n n n p s = Ok (r, a) <->
  s = a +:+ r /\ String.length a = n /\ str_all p a = true.
Proof.
  rewrite take_while_m_n_spec. split.
  - destruct (str_span_n n p s) as [a' r'] eqn:E. destruct (Nat.leb_spec n (String.length a')); [|done].
    intros [= -> ->]. apply str_span_n_inv in E as (-> & ? & ?). split_and!; [done|lia|done].
  - intros (-> & Hl & Ha). rewrite str_span_n_app by done.
    destruct (Nat.leb_spec n (String.length a)); [done|lia].
Qed.

Lemma hex64_Ok s r a : hex64 s = Ok (r, a) <-> s = a +:+ r /\ hex_text 64 a.
Proof. apply take_mn_Ok. Qed.

(** The parser inside [recognize], on the two shapes of an amount. *)
Lemma amount_inner_app a s :
  amount_text a -> ends_amount s = true ->
  exists o, tuple2 digit1 (opt (tuple2 (tag ".") digit1)) (a +:+ s) = Ok (s, o).
Proof.
  intros Ha Hs. assert (stops is_digit s = true) as Hd by
    (destruct s; [done|]; by apply andb_true_iff in Hs as [? _]).
  rewrite tuple2_spec. destruct Ha as [w Hw Hwd|w f Hw Hwd Hf Hfd].
  - rewrite digit1_app by done. rewrite opt_spec, tuple2_spec, tag_spec.
    rewrite ends_amount_no_dot by done. eauto.
  - rewrite str_app_assoc. rewrite digit1_app by done.
    rewrite opt_spec, tuple2_spec. change (String "." f +:+ s) with ("." +:+ (f +:+ s)).
    rewrite tag_app, digit1_app by done. eauto.
Qed.

Lemma amount_inner_Ok s r o :
  tuple2 digit1 (opt (tuple2 (tag ".") digit1)) s = Ok (r, o) ->
  exists a, s = a +:+ r /\ amount_text a.
Proof.
  rewrite tuple2_spec. intros Hs.
  destruct (digit1 s) as [[r1 w]|] eqn:Ew; [|done].
  apply digit1_Ok in Ew as (-> & Hw & Hwd & _).
  rewrite opt_spec, tuple2_spec in Hs.
  destruct (tag "." r1) as [[r2 d]|[]] eqn:Et; simplify_eq.
  - apply tag_Ok in Et as [-> ->].
    destruct (digit1 r2) as [[r3 f]|[]] eqn:Ef; simplify_eq.
    + apply digit1_Ok in Ef as (-> & Hf & Hfd & _). exists (w +:+ String "." f).
      split; [by rewrite str_app_assoc|]. by constructor.
    + exists w. split; [done|]. by constructor.
  - exists w. split; [done|]. by constructor.
Qed.

Lemma amount_parser_app a s :
  amount_text a -> ends_amount s = true -> amount_parser (a +:+ s) = Ok (s, a).
Proof.
  intros Ha Hs. destruct (amount_inner_app a s Ha Hs) as [o Ho].
  eapply recognize_ok, Ho.
Qed.

Lemma amount_parser_Ok s r a :
  amount_parser s = Ok (r, a) -> s = a +:+ r /\ amount_text a.
Proof.
  unfold amount_parser. intros Hs.
  destruct (tuple2 digit1 (opt (tuple2 (tag ".") digit1)) s) as [[r' o]|e] eqn:E.
  - destruct (amount_inner_Ok _ _ _ E) as (b & -> & Hb).
    rewrite (recognize_ok _ _ _ _ _ E) in Hs. by injection Hs as -> ->.
  - by rewrite (recognize_err _ _ _ _ E) in Hs.
Qed.
End Facts.

(** An amount text never contains a sign, so its value is not negative. *)
Lemma amount_text_head a : amount_text a -> exists c s, a = String c s /\ is_digit c = true.
Proof.
  intros [w Hw Hd|w f Hw Hd _ _]; destruct w as [|c w]; try done; simpl in Hd; bools; simpl; eauto.
Qed.
