(* ===== verification/AssetCore.v ===== *)
(** * The asset trait surface

    [asset_core] ([crates/asset-core/src/lib.rs]): the namespace identifiers
    and their shape checks, the error type, and the traits an asset flavor
    implements, as classes.  A trait method that reads the clock takes the
    instant as an argument. *)
From S2P Require Import Prelude Decimal Amount External.

Record PgpFingerprint := mk_fp { fp_str : string }.
Record ContractId := mk_cid { cid_str : string }.

#[export] Instance pgp_fingerprint_eq_dec : EqDecision PgpFingerprint.
Proof. solve_decision. Defined.
#[export] Instance contract_id_eq_dec : EqDecision ContractId.
Proof. solve_decision. Defined.
#[export] Instance pgp_fingerprint_countable : Countable PgpFingerprint.
Proof. refine (inj_countable' fp_str mk_fp _). by intros []. Defined.
#[export] Instance contract_id_countable : Countable ContractId.
Proof. refine (inj_countable' cid_str mk_cid _). by intros []. Defined.

Inductive AssetError :=
  | Parse (msg : string)
  | Invariant (msg : string)
  | AmountErr (e : AmountError)
  | Unimplemented (what : string).

(** [PgpFingerprint::parse]: forty lower-case hexadecimal digits. *)
Definition parse_fingerprint (s : string) : result AssetError PgpFingerprint :=
  if negb (String.length s =? 40)%nat then
    Err (Parse ("PgpFingerprint must be 40 hex chars, got " +:+ show_u64 (Z.of_nat (String.length s))))
  else if negb (str_all is_lower_hexdigit s) then
    Err (Parse "PgpFingerprint must be lowercase hex")
  else Ok (mk_fp s).

Definition is_slug_char (c : ascii) : bool :=
  is_alphanumeric c || Ascii.eqb c "-"%char || Ascii.eqb c "_"%char.

(** [ContractId::parse]: one to 64 letters, digits, [-] or [_]. *)
Definition parse_contract_id (s : string) : result AssetError ContractId :=
  if String.eqb s EmptyString then Err (Parse "ContractId cannot be empty")
  else if (64 <? String.length s)%nat then
    Err (Parse ("ContractId longer than 64 chars: " +:+ show_u64 (Z.of_nat (String.length s))))
  else if negb (str_all is_slug_char s) then
    Err (Parse "ContractId must be alphanumeric, '-', or '_'")
  else Ok (mk_cid s).

Inductive RecordOrigin := Mined | Replaced.

Definition show_origin (o : RecordOrigin) : string :=
  match o with Mined => "mined" | Replaced => "replaced" end.

(** ** Traits *)

(** [Asset], with the accessors of [AssetSecret] and [AssetPublic]. *)
Class Asset := {
  NAME : string;
  Secret : Type;
  Public : Type;
  Rec : Type;
  parse_secret : string -> result AssetError Secret;
  parse_public : string -> result AssetError Public;
  to_public : Secret -> Public;
  secret_wire_form : Secret -> string;
  secret_hex : Secret -> string;
  public_wire_form : Public -> string;
  public_hash : Public -> string;
}.

Class SplittableAsset `{Asset} := {
  amount : Secret -> Amount;
  amount_public : Public -> Amount;
}.

Class TransferableAsset `{Asset} := {
  validate_transfer : Secret -> Secret -> result AssetError unit;
}.

Class IssuedAsset `{Asset} := {
  issuer : Secret -> PgpFingerprint;
  issuer_public : Public -> PgpFingerprint;
  contract_id : Secret -> ContractId;
  contract_id_public : Public -> ContractId;
}.

(** [ReplaceHook]: request body, input records, output secrets, server clock;
    then the output records the ledger will receive. *)
Class ReplaceHook `{Asset} := {
  validate_replace_request : string -> list Rec -> list Secret -> Z -> result AssetError unit;
  augment_output_records : string -> list Rec -> Z -> result AssetError (list Rec);
}.

(** The default methods of the trait accept and change nothing. *)
Definition default_validate {R S : Type} (_ : string) (_ : list R) (_ : list S) (_ : Z)
  : result AssetError unit := Ok tt.
Definition default_augment {R : Type} (_ : string) (l : list R) (_ : Z)
  : result AssetError (list R) := Ok l.

(** [RecordBuilder] and [CollectibleRecordBuilder] have the same methods. *)
Class RecordBuilder `{Asset, Chrono} := {
  record_from_secret : DateTime -> Secret -> RecordOrigin -> Rec;
  namespace_envelope : Secret -> option (string * string);
  public_namespace_envelope : Public -> option (string * string);
}.

Class MintableAsset `{Asset} := {
  IssuanceContext : Type;
  verify_issuance : IssuanceContext -> result AssetError unit;
  build_records : IssuanceContext -> result AssetError (list Rec);
}.

(** ** The shape checks *)

(** The exact languages of the two identifier parsers. *)
Theorem identifier_shapes s :
  (forall fp, parse_fingerprint s = Ok fp <->
     fp = mk_fp s /\ String.length s = 40%nat /\ str_all is_lower_hexdigit s = true) /\
  (forall c, parse_contract_id s = Ok c <->
     c = mk_cid s /\ (1 <= String.length s <= 64)%nat /\ str_all is_slug_char s = true).
Proof.
  split.
  - intros fp. unfold parse_fingerprint. destruct (Nat.eqb_spec (String.length s) 40); simpl.
    + destruct (str_all is_lower_hexdigit s); simpl; naive_solver.
    + naive_solver.
  - intros c. unfold parse_contract_id. destruct s as [|d s']; simpl String.eqb.
    + simpl. split; [done|]. intros (_ & ? & _). lia.
    + destruct (Nat.ltb_spec 64 (String.length (String d s'))).
      * split; [done|]. intros (_ & ? & _). lia.
      * destruct (str_all is_slug_char (String d s')) eqn:E.
        -- split; [intros [= <-]|by intros (-> & _)]. split_and!; simpl in *; [done|lia|lia|done].
        -- simpl. split; [done|]. by intros (_ & _ & ?).
Qed.
