(* ===== verification/Tokens.v ===== *)
(** * Token wire formats

    The secret and public tokens of the three assets
    ([crates/asset-webcash/src/token.rs], [crates/asset-rgb/src/token.rs],
    [crates/asset-voucher/src/token.rs]): their printers, their [nom] parsers
    as the source chains them, and for every parser the exact set of texts it
    accepts. *)
From S2P Require Import Prelude Decimal Amount External Parsers AssetCore.

Definition InvalidFormat (s : string) : string := "invalid token format: " +:+ s.

(** [from_str]: the parser must succeed and consume the whole input. *)
Definition parse_all {A} (p : parser A) (err : string -> string) (s : string) : result string A :=
  match p s with
  | Err _ => Err (err s)
  | Ok (rest, v) => if String.eqb rest EmptyString then Ok v else Err (err s)
  end.

Lemma parse_all_Ok {A} (p : parser A) err s v :
  parse_all p err s = Ok v <-> p s = Ok (EmptyString, v).
Proof.
  unfold parse_all. destruct (p s) as [[rest w]|e]; [|naive_solver].
  destruct (String.eqb_spec rest EmptyString); naive_solver.
Qed.

(** [Amount::from_str(amt_str).map_err(|_| nom::Err::Failure(..))]. *)
Definition amount_or_failure (amt_str : string) : result nom_err Amount :=
  map_err (fun _ => NomFailure) (Amount.from_str amt_str).

(** ** Webcash *)
Module Webcash.
Record SecretWebcash := mk_secret { s_amount : Amount; s_secret : string }.
Record PublicWebcash := mk_public { p_amount : Amount; p_hash : string }.

Definition show_secret (t : SecretWebcash) : string :=
  "e" +:+ to_string (s_amount t) +:+ ":secret:" +:+ s_secret t.
Definition show_public (t : PublicWebcash) : string :=
  "e" +:+ to_string (p_amount t) +:+ ":public:" +:+ p_hash t.

Section Ops.
Context `{Nom, Hashing}.

Definition to_public (t : SecretWebcash) : PublicWebcash :=
  {| p_amount := s_amount t; p_hash := sha256_hex (s_secret t) |}.

Definition parse_secret_webcash : parser SecretWebcash := fun input =>
  '(rest, (amt_str, secret)) ←
    preceded (nom_char "e") (separated_pair amount_parser (tag ":secret:") hex64) input;
  amount ← amount_or_failure amt_str;
  Ok (rest, {| s_amount := amount; s_secret := secret |}).

Definition parse_public_webcash : parser PublicWebcash := fun input =>
  '(rest, (amt_str, hash)) ←
    preceded (nom_char "e") (separated_pair amount_parser (tag ":public:") hex64) input;
  amount ← amount_or_failure amt_str;
  Ok (rest, {| p_amount := amount; p_hash := hash |}).

Definition secret_from_str : string -> result string SecretWebcash :=
  parse_all parse_secret_webcash InvalidFormat.
Definition public_from_str : string -> result string PublicWebcash :=
  parse_all parse_public_webcash InvalidFormat.
End Ops.
End Webcash.

(** ** RGB *)
Module Rgb.
Record SecretFungible := mk_secret_f {
  sf_amount : Amount; sf_secret : string; sf_contract_id : ContractId; sf_issuer_fp : PgpFingerprint }.
Record PublicFungible := mk_public_f {
  pf_amount : Amount; pf_hash : string; pf_contract_id : ContractId; pf_issuer_fp : PgpFingerprint }.
Record SecretCollectible := mk_secret_c {
  sc_secret : string; sc_contract_id : ContractId; sc_issuer_fp : PgpFingerprint }.
Record PublicCollectible := mk_public_c {
  pc_hash : string; pc_contract_id : ContractId; pc_issuer_fp : PgpFingerprint }.

Definition show_secret_fungible (t : SecretFungible) : string :=
  "e" +:+ to_string (sf_amount t) +:+ ":secret:" +:+ sf_secret t +:+ ":" +:+
  cid_str (sf_contract_id t) +:+ ":" +:+ fp_str (sf_issuer_fp t).
Definition show_public_fungible (t : PublicFungible) : string :=
  "e" +:+ to_string (pf_amount t) +:+ ":public:" +:+ pf_hash t +:+ ":" +:+
  cid_str (pf_contract_id t) +:+ ":" +:+ fp_str (pf_issuer_fp t).
Definition show_secret_collectible (t : SecretCollectible) : string :=
  "secret:" +:+ sc_secret t +:+ ":" +:+ cid_str (sc_contract_id t) +:+ ":" +:+
  fp_str (sc_issuer_fp t).
Definition show_public_collectible (t : PublicCollectible) : string :=
  "public:" +:+ pc_hash t +:+ ":" +:+ cid_str (pc_contract_id t) +:+ ":" +:+
  fp_str (pc_issuer_fp t).

Section Ops.
Context `{Nom, Hashing, Unicode}.

Definition fungible_to_public (t : SecretFungible) : PublicFungible :=
  {| pf_amount := sf_amount t; pf_hash := sha256_hex (sf_secret t);
     pf_contract_id := sf_contract_id t; pf_issuer_fp := sf_issuer_fp t |}.
Definition collectible_to_public (t : SecretCollectible) : PublicCollectible :=
  {| pc_hash := sha256_hex (sc_secret t);
     pc_contract_id := sc_contract_id t; pc_issuer_fp := sc_issuer_fp t |}.

Definition slug : parser string := take_while1 is_slug_char.
Definition fingerprint : parser string := take_while_m_n 40 40 is_hexdigit.

Definition parse_secret_fungible : parser SecretFungible := fun input =>
  '(rest, amt_str) ← preceded (nom_char "e") amount_parser input;
  '(rest, _) ← tag ":secret:" rest;
  '(rest, hex) ← hex64 rest;
  '(rest, _) ← tag ":" rest;
  '(rest, contract) ← slug rest;
  '(rest, _) ← tag ":" rest;
  '(rest, iss) ← fingerprint rest;
  amount ← amount_or_failure amt_str;
  Ok (rest, {| sf_amount := amount; sf_secret := hex;
               sf_contract_id := mk_cid contract;
               sf_issuer_fp := mk_fp (to_lowercase iss) |}).

Definition parse_public_fungible : parser PublicFungible := fun input =>
  '(rest, amt_str) ← preceded (nom_char "e") amount_parser input;
  '(rest, _) ← tag ":public:" rest;
  '(rest, hex) ← hex64 rest;
  '(rest, _) ← tag ":" rest;
  '(rest, contract) ← slug rest;
  '(rest, _) ← tag ":" rest;
  '(rest, iss) ← fingerprint rest;
  amount ← amount_or_failure amt_str;
  Ok (rest, {| pf_amount := amount; pf_hash := hex;
               pf_contract_id := mk_cid contract;
               pf_issuer_fp := mk_fp (to_lowercase iss) |}).

Definition parse_secret_collectible : parser SecretCollectible := fun input =>
  '(rest, _) ← tag "secret:" input;
  '(rest, hex) ← hex64 rest;
  '(rest, _) ← tag ":" rest;
  '(rest, contract) ← slug rest;
  '(rest, _) ← tag ":" rest;
  '(rest, iss) ← fingerprint rest;
  Ok (rest, {| sc_secret := hex; sc_contract_id := mk_cid contract;
               sc_issuer_fp := mk_fp (to_lowercase iss) |}).

Definition parse_public_collectible : parser PublicCollectible := fun input =>
  '(rest, _) ← tag "public:" input;
  '(rest, hex) ← hex64 rest;
  '(rest, _) ← tag ":" rest;
  '(rest, contract) ← slug rest;
  '(rest, _) ← tag ":" rest;
  '(rest, iss) ← fingerprint rest;
  Ok (rest, {| pc_hash := hex; pc_contract_id := mk_cid contract;
               pc_issuer_fp := mk_fp (to_lowercase iss) |}).

Definition invalid (s : string) : string := "invalid RGB token format: " +:+ s.
Definition secret_fungible_from_str := parse_all parse_secret_fungible invalid.
Definition public_fungible_from_str := parse_all parse_public_fungible invalid.
Definition secret_collectible_from_str := parse_all parse_secret_collectible invalid.
Definition public_collectible_from_str := parse_all parse_public_collectible invalid.
End Ops.
End Rgb.

(** ** Vouchers *)
Module Voucher.
Record SecretVoucher := mk_secret {
  sv_amount : Amount; sv_secret : string; sv_contract_id : ContractId; sv_issuer_fp : PgpFingerprint }.
Record PublicVoucher := mk_public {
  pv_amount : Amount; pv_hash : string; pv_contract_id : ContractId; pv_issuer_fp : PgpFingerprint }.

Definition show_secret (t : SecretVoucher) : string :=
  "e" +:+ to_string (sv_amount t) +:+ ":secret:" +:+ sv_secret t +:+ ":" +:+
  cid_str (sv_contract_id t) +:+ ":" +:+ fp_str (sv_issuer_fp t).
Definition show_public (t : PublicVoucher) : string :=
  "e" +:+ to_string (pv_amount t) +:+ ":public:" +:+ pv_hash t +:+ ":" +:+
  cid_str (pv_contract_id t) +:+ ":" +:+ fp_str (pv_issuer_fp t).

Section Ops.
Context `{Nom, Hashing, Unicode}.

Definition to_public (t : SecretVoucher) : PublicVoucher :=
  {| pv_amount := sv_amount t; pv_hash := sha256_hex (sv_secret t);
     pv_contract_id := sv_contract_id t; pv_issuer_fp := sv_issuer_fp t |}.

Definition slug : parser string := take_while1 is_slug_char.
Definition fingerprint : parser string := take_while_m_n 40 40 is_hexdigit.

Definition parse_secret_voucher : parser SecretVoucher := fun input =>
  '(rest, amt_str) ← preceded (nom_char "e") amount_parser input;
  '(rest, _) ← tag ":secret:" rest;
  '(rest, hex) ← hex64 rest;
  '(rest, _) ← tag ":" rest;
  '(rest, contract) ← slug rest;
  '(rest, _) ← tag ":" rest;
  '(rest, iss) ← fingerprint rest;
  amount ← amount_or_failure amt_str;
  Ok (rest, {| sv_amount := amount; sv_secret := hex;
               sv_contract_id := mk_cid contract;
               sv_issuer_fp := mk_fp (to_lowercase iss) |}).

Definition parse_public_voucher : parser PublicVoucher := fun input =>
  '(rest, amt_str) ← preceded (nom_char "e") amount_parser input;
  '(rest, _) ← tag ":public:" rest;
  '(rest, hex) ← hex64 rest;
  '(rest, _) ← tag ":" rest;
  '(rest, contract) ← slug rest;
  '(rest, _) ← tag ":" rest;
  '(rest, iss) ← fingerprint rest;
  amount ← amount_or_failure amt_str;
  Ok (rest, {| pv_amount := amount; pv_hash := hex;
               pv_contract_id := mk_cid contract;
               pv_issuer_fp := mk_fp (to_lowercase iss) |}).

Definition invalid (s : string) : string := "invalid voucher token format: " +:+ s.
Definition secret_from_str := parse_all parse_secret_voucher invalid.
Definition public_from_str := parse_all parse_public_voucher invalid.
End Ops.
End Voucher.

(** ** Languages

    A slug is what the token grammar takes for a contract identifier: unlike
    [ContractId::parse] it has no upper bound on its length. *)

Definition slug_text (s : string) : Prop := s <> EmptyString /\ str_all is_slug_char s = true.

(** The amount field of a token text denotes [a]. *)
Definition amount_field (amt : string) (a : Amount) : Prop :=
  amount_text amt /\ Amount.from_str amt = Ok a.

(** [e<amount><kind><64 hex>]. *)
Definition plain_text (kind : string) (a : Amount) (h s : string) : Prop :=
  exists amt, s = "e" +:+ amt +:+ kind +:+ h /\ amount_field amt a /\ hex_text 64 h.

(** [<64 hex>:<slug>:<40 hex>]; the issuer is kept in lower case. *)
Definition tail_text (h : string) (c : ContractId) (fp : PgpFingerprint) (s : string) : Prop :=
  exists iss, s = h +:+ ":" +:+ cid_str c +:+ ":" +:+ iss /\ hex_text 64 h /\
    slug_text (cid_str c) /\ hex_text 40 iss /\ fp = mk_fp (ascii_lowercase iss).

(** [e<amount><kind><64 hex>:<slug>:<40 hex>]. *)
Definition fungible_text (kind : string) (a : Amount) (h : string)
    (c : ContractId) (fp : PgpFingerprint) (s : string) : Prop :=
  exists amt t, s = "e" +:+ amt +:+ kind +:+ t /\ amount_field amt a /\ tail_text h c fp t.

Lemma is_hexdigit_ascii c : is_hexdigit c = true -> is_ascii c = true.
Proof.
  unfold is_hexdigit, is_digit, is_lower_hex_letter, is_upper_hex_letter, is_ascii.
  rewrite !orb_true_iff, !andb_true_iff, !Z.leb_le, Z.ltb_lt. lia.
Qed.

Lemma is_hexdigit_not_slug_end c : is_slug_char c = true -> Ascii.eqb c ":"%char = false.
Proof. intros H. apply Ascii.eqb_neq. intros ->. done. Qed.

Lemma amount_text_unsigned amt : amount_text amt -> strip_sign amt = (false, amt).
Proof.
  intros Ht. destruct (amount_text_head _ Ht) as (c & s & -> & Hc). by apply strip_sign_digit.
Qed.

Lemma amount_text_wats amt inp w :
  amount_text amt -> parse_wats inp amt = Ok w -> 0 <= w <= i64_max.
Proof.
  intros Ht H. pose proof (parse_wats_range _ _ _ H) as Hr.
  assert (0 <= w); [|i64_lia]. clear Hr. revert H. unfold parse_wats.
  destruct Ht as [u Hu Hd|u f Hu Hd Hf Hfd].
  - rewrite str_split_none by by apply digits_no_dot.
    intros (v & Hv & H)%bind_Ok. apply ok_or_Ok, i64_checked_Some in H as [-> _].
    apply (parse_digits_all 0) in Hd as [v' Hv'].
    rewrite (parse_i64_digits _ _ Hu Hv') in Hv.
    apply ok_or_Ok, i64_checked_Some in Hv as [-> _].
    apply parse_digits_bounds in Hv'. i64_lia.
  - rewrite str_split_app, str_split_none by by apply digits_no_dot.
    intros (v & Hv & H)%bind_Ok. destruct (Nat.ltb_spec DECIMALS (String.length f)) as [|Hl]; [done|].
    apply bind_Ok in H as (fr & Hfr & H). apply ok_or_Ok, bind_Some in H as (x & Hx & H).
    apply i64_checked_Some in Hx as [-> _]. apply i64_checked_Some in H as [-> _].
    apply (parse_digits_all 0) in Hd as [v' Hv'], Hfd as [f' Hf'].
    rewrite (parse_i64_digits _ _ Hu Hv') in Hv. apply ok_or_Ok, i64_checked_Some in Hv as [-> _].
    destruct (frac_value _ _ Hf' Hl) as [Hfv Hb]. rewrite Hfv in Hfr. injection Hfr as <-.
    apply parse_digits_bounds in Hv'. i64_lia.
Qed.

Lemma amount_field_nonneg amt a : amount_field amt a -> 0 <= wats a <= i64_max.
Proof.
  intros [Ht H]. unfold from_str, parse_amount_str in H. rewrite amount_text_unsigned in H by done.
  apply bind_Ok in H as (w & Hw & [= <-]). simpl. by eapply amount_text_wats.
Qed.

Lemma to_string_amount a : 0 <= wats a <= i64_max -> amount_field (to_string a) a.
Proof.
  intros H. split; [|by apply parse_to_string_nonneg].
  destruct (to_string_nonneg a H) as (w & f & -> & Hw & Hvw & Hvf & Hf).
  constructor; [done|by eapply parse_digits_digits| |by eapply parse_digits_digits].
  by destruct f.
Qed.

(** ** One chain for the four amount-bearing and the two bare grammars

    The six namespaced parsers of the source are instances of these two, up to
    the keyword and the record they build. *)
Section Chains.
Context `{NomLaws, UnicodeLaws} {T : Type}.

Definition plain_parser (kind : string) (mk : Amount -> string -> T) : parser T := fun input =>
  '(rest, (amt_str, hex)) ←
    preceded (nom_char "e") (separated_pair amount_parser (tag kind) hex64) input;
  amount ← amount_or_failure amt_str;
  Ok (rest, mk amount hex).

Definition fungible_parser (kind : string)
    (mk : Amount -> string -> ContractId -> PgpFingerprint -> T) : parser T := fun input =>
  '(rest, amt_str) ← preceded (nom_char "e") amount_parser input;
  '(rest, _) ← tag kind rest;
  '(rest, hex) ← hex64 rest;
  '(rest, _) ← tag ":" rest;
  '(rest, contract) ← take_while1 is_slug_char rest;
  '(rest, _) ← tag ":" rest;
  '(rest, iss) ← take_while_m_n 40 40 is_hexdigit rest;
  amount ← amount_or_failure amt_str;
  Ok (rest, mk amount hex (mk_cid contract) (mk_fp (to_lowercase iss))).

Definition bare_parser (kind : string)
    (mk : string -> ContractId -> PgpFingerprint -> T) : parser T := fun input =>
  '(rest, _) ← tag kind input;
  '(rest, hex) ← hex64 rest;
  '(rest, _) ← tag ":" rest;
  '(rest, contract) ← take_while1 is_slug_char rest;
  '(rest, _) ← tag ":" rest;
  '(rest, iss) ← take_while_m_n 40 40 is_hexdigit rest;
  Ok (rest, mk hex (mk_cid contract) (mk_fp (to_lowercase iss))).

Lemma amount_or_failure_Ok amt a : amount_or_failure amt = Ok a <-> Amount.from_str amt = Ok a.
Proof. apply map_err_Ok. Qed.

Lemma e_amount_app amt s :
  amount_text amt -> ends_amount s = true ->
  preceded (nom_char "e") amount_parser ("e" +:+ amt +:+ s) = Ok (s, amt).
Proof.
  intros Ha Hs. rewrite preceded_spec, char_spec. simpl.
  by apply amount_parser_app.
Qed.

Lemma e_amount_Ok s r amt :
  preceded (nom_char "e") amount_parser s = Ok (r, amt) ->
  s = "e" +:+ amt +:+ r /\ amount_text amt.
Proof.
  rewrite preceded_spec. destruct (nom_char "e" s) as [[r' c]|] eqn:E; [|done].
  apply char_Ok in E as [-> ->]. intros [-> Ha]%amount_parser_Ok. done.
Qed.

Lemma slug_app c s : slug_text c -> take_while1 is_slug_char (c +:+ String ":" s) = Ok (String ":" s, c).
Proof. intros [Hc Hs]. by apply take_while1_app. Qed.

Lemma tag_cons c k s : tag (String c k) (String c (k +:+ s)) = Ok (s, String c k).
Proof. exact (tag_app (String c k) s). Qed.

Lemma tag_colon s : tag ":" (String ":" s) = Ok (s, ":").
Proof. exact (tag_app ":" s). Qed.

Lemma iss_lower iss : hex_text 40 iss -> to_lowercase iss = ascii_lowercase iss.
Proof.
  intros [_ Hi]. apply to_lowercase_ascii. revert Hi. apply str_all_impl, is_hexdigit_ascii.
Qed.

(** What the chain accepts, and what it leaves of its input. *)
Lemma plain_parser_rest k mk s rest v :
  plain_parser (String ":" k) mk s = Ok (rest, v) <->
  exists a h u, v = mk a h /\ s = u +:+ rest /\ plain_text (String ":" k) a h u.
Proof.
  unfold plain_parser. split.
  - intros ([rest' [amt h]] & Hp & Hk)%bind_Ok. apply bind_Ok in Hk as (a & Ha & [= -> <-]).
    apply amount_or_failure_Ok in Ha. rewrite preceded_spec in Hp.
    destruct (nom_char "e" s) as [[r c]|] eqn:E; [|done]. apply char_Ok in E as [-> ->].
    rewrite separated_pair_spec in Hp.
    destruct (amount_parser r) as [[r1 x]|] eqn:E; [|done]. apply amount_parser_Ok in E as [-> Hx].
    destruct (tag _ r1) as [[r2 y]|] eqn:E; [|done]. apply tag_Ok in E as [-> ->].
    destruct (hex64 r2) as [[r3 z]|] eqn:E; [|done]. apply hex64_Ok in E as [-> Hz].
    injection Hp as -> -> ->. exists a, h. eexists. split; [done|].
    split; [|by exists amt]. by rewrite !str_app_assoc.
  - intros (a & h & u & -> & -> & amt & -> & [Ht Ha] & Hh).
    rewrite !str_app_assoc, preceded_spec, char_spec. simpl. rewrite separated_pair_spec.
    change (String ":" (k +:+ h +:+ rest)) with (String ":" k +:+ h +:+ rest).
    rewrite amount_parser_app by done. simpl. rewrite tag_cons.
    rewrite (proj2 (hex64_Ok _ rest h)) by done. simpl.
    rewrite (proj2 (amount_or_failure_Ok _ _) Ha). done.
Qed.

Lemma plain_parser_Ok k mk s v :
  plain_parser (String ":" k) mk s = Ok (EmptyString, v) <->
  exists a h, v = mk a h /\ plain_text (String ":" k) a h s.
Proof.
  rewrite plain_parser_rest. split.
  - intros (a & h & u & -> & -> & Hu). rewrite str_app_nil_r. eauto.
  - intros (a & h & -> & Hs). exists a, h, s. by rewrite str_app_nil_r.
Qed.

Lemma fungible_parser_Ok k mk s v :
  fungible_parser (String ":" k) mk s = Ok (EmptyString, v) <->
  exists a h c fp, v = mk a h c fp /\ fungible_text (String ":" k) a h c fp s.
Proof.
  unfold fungible_parser. split.
  - intros ([r amt] & [-> Ht]%e_amount_Ok & Hp)%bind_Ok.
    apply bind_Ok in Hp as ([r1 ?] & [-> _]%tag_Ok & Hp).
    apply bind_Ok in Hp as ([r2 h] & [-> Hh]%hex64_Ok & Hp).
    apply bind_Ok in Hp as ([r3 ?] & [-> _]%tag_Ok & Hp).
    apply bind_Ok in Hp as ([r4 c] & (-> & Hc & Hs & _)%take_while1_Ok & Hp).
    apply bind_Ok in Hp as ([r5 ?] & [-> _]%tag_Ok & Hp).
    apply bind_Ok in Hp as ([r6 iss] & (-> & Hi)%take_mn_Ok & Hp).
    apply bind_Ok in Hp as (a & Ha%amount_or_failure_Ok & [= -> <-]).
    exists a, h, (mk_cid c), (mk_fp (to_lowercase iss)). split; [done|].
    exists amt. eexists. split; [reflexivity|]. split; [done|]. exists iss.
    rewrite str_app_nil_r, iss_lower by done. done.
  - intros (a & h & c & fp & -> & amt & t & -> & [Ht Ha] & iss & -> & Hh & Hc & Hi & ->).
    rewrite e_amount_app by done. simpl. rewrite tag_cons. simpl.
    rewrite (proj2 (hex64_Ok _ _ h)) by done. simpl.
    rewrite tag_colon. simpl. rewrite (slug_app (cid_str c)) by done. simpl.
    rewrite tag_colon. simpl. rewrite <- (str_app_nil_r iss) at 1.
    rewrite (proj2 (take_mn_Ok _ _ _ EmptyString iss)) by (by split_and!; destruct Hi). simpl.
    rewrite (proj2 (amount_or_failure_Ok _ _) Ha), iss_lower by done. by destruct c.
Qed.

Lemma bare_parser_Ok kind mk s v :
  bare_parser kind mk s = Ok (EmptyString, v) <->
  exists h c fp t, v = mk h c fp /\ s = kind +:+ t /\ tail_text h c fp t.
Proof.
  unfold bare_parser. split.
  - intros ([r1 ?] & [-> _]%tag_Ok & Hp)%bind_Ok.
    apply bind_Ok in Hp as ([r2 h] & [-> Hh]%hex64_Ok & Hp).
    apply bind_Ok in Hp as ([r3 ?] & [-> _]%tag_Ok & Hp).
    apply bind_Ok in Hp as ([r4 c] & (-> & Hc & Hs & _)%take_while1_Ok & Hp).
    apply bind_Ok in Hp as ([r5 ?] & [-> _]%tag_Ok & Hp).
    apply bind_Ok in Hp as ([r6 iss] & (-> & Hi)%take_mn_Ok & [= -> <-]).
    exists h, (mk_cid c), (mk_fp (to_lowercase iss)). eexists.
    split_and!; [reflexivity..|]. exists iss.
    rewrite str_app_nil_r, iss_lower by done. done.
  - intros (h & c & fp & ? & -> & -> & iss & -> & Hh & Hc & Hi & ->).
    rewrite (tag_app kind). simpl. rewrite (proj2 (hex64_Ok _ _ h)) by done. simpl.
    rewrite tag_colon. simpl. rewrite (slug_app (cid_str c)) by done. simpl.
    rewrite tag_colon. simpl. rewrite <- (str_app_nil_r iss) at 1.
    rewrite (proj2 (take_mn_Ok _ _ _ EmptyString iss)) by (by split_and!; destruct Hi). simpl.
    rewrite iss_lower by done. by destruct c.
Qed.
End Chains.

(** ** Canonical texts *)

Lemma ascii_lower_hex c :
  is_hexdigit c = true -> is_lower_hexdigit (ascii_lower c) = true.
Proof. destruct c as [[] [] [] [] [] [] [] []]; vm_compute; done. Qed.

Lemma ascii_lower_fix c : is_lower_hexdigit c = true -> ascii_lower c = c.
Proof. destruct c as [[] [] [] [] [] [] [] []]; vm_compute; done. Qed.

Lemma ascii_lowercase_hex s :
  str_all is_hexdigit s = true -> str_all is_lower_hexdigit (ascii_lowercase s) = true.
Proof. induction s; simpl; [done|]. intros H. bools. rewrite ascii_lower_hex, IHs; done. Qed.

Lemma ascii_lowercase_fix s : str_all is_lower_hexdigit s = true -> ascii_lowercase s = s.
Proof. induction s; simpl; [done|]. intros H. bools. rewrite ascii_lower_fix, IHs; done. Qed.

Lemma ascii_lowercase_length s : String.length (ascii_lowercase s) = String.length s.
Proof. induction s; simpl; congruence. Qed.

(** The issuer a parser returns satisfies [PgpFingerprint::parse]. *)
Lemma lower_issuer iss :
  hex_text 40 iss -> hex_text 40 (ascii_lowercase iss) /\
  str_all is_lower_hexdigit (ascii_lowercase iss) = true /\
  ascii_lowercase (ascii_lowercase iss) = ascii_lowercase iss.
Proof.
  intros [Hl Hh]. pose proof (ascii_lowercase_hex _ Hh) as Hlow.
  split_and!; [|done|by apply ascii_lowercase_fix].
  split; [by rewrite ascii_lowercase_length|]. revert Hlow. apply str_all_impl, lower_hexdigit_hex.
Qed.

Lemma plain_text_canon k a h h' s :
  plain_text k a h s -> hex_text 64 h' -> plain_text k a h' ("e" +:+ to_string a +:+ k +:+ h').
Proof.
  intros (amt & _ & Ha & _) Hh. exists (to_string a).
  split_and!; [done| |done]. by eapply to_string_amount, amount_field_nonneg.
Qed.

Lemma tail_text_canon h h' c fp s :
  tail_text h c fp s -> hex_text 64 h' ->
  tail_text h' c fp (h' +:+ ":" +:+ cid_str c +:+ ":" +:+ fp_str fp).
Proof.
  intros (iss & _ & _ & Hc & Hi & ->) Hh. destruct (lower_issuer _ Hi) as (Hi' & _ & He).
  exists (ascii_lowercase iss). by rewrite He.
Qed.

Lemma fungible_text_canon k k' a h h' c fp s :
  fungible_text k a h c fp s -> hex_text 64 h' ->
  fungible_text k' a h' c fp
    ("e" +:+ to_string a +:+ k' +:+ h' +:+ ":" +:+ cid_str c +:+ ":" +:+ fp_str fp).
Proof.
  intros (amt & t & _ & Ha & Ht) Hh. exists (to_string a). eexists.
  split_and!; [done| |by eapply tail_text_canon].
  by eapply to_string_amount, amount_field_nonneg.
Qed.

Lemma fungible_text_hex k a h c fp s : fungible_text k a h c fp s -> hex_text 64 h.
Proof. by intros (? & ? & _ & _ & ? & _ & ? & _). Qed.

Lemma sha256_hex_text `{HashingLaws} s : hex_text 64 (sha256_hex s).
Proof. split; [apply sha256_hex_length|apply sha256_hex_hex]. Qed.

#[export] Hint Resolve sha256_hex_text fungible_text_hex : strs.

Section Theorems.
Context `{NomLaws, HashingLaws, UnicodeLaws}.

(** The exact language of each parser. *)
Lemma webcash_secret_Ok s t :
  Webcash.secret_from_str s = Ok t <->
  plain_text ":secret:" (Webcash.s_amount t) (Webcash.s_secret t) s.
Proof.
  unfold Webcash.secret_from_str. rewrite parse_all_Ok.
  change Webcash.parse_secret_webcash with (plain_parser ":secret:" Webcash.mk_secret).
  rewrite plain_parser_Ok. destruct t; naive_solver.
Qed.

Lemma webcash_public_Ok s t :
  Webcash.public_from_str s = Ok t <->
  plain_text ":public:" (Webcash.p_amount t) (Webcash.p_hash t) s.
Proof.
  unfold Webcash.public_from_str. rewrite parse_all_Ok.
  change Webcash.parse_public_webcash with (plain_parser ":public:" Webcash.mk_public).
  rewrite plain_parser_Ok. destruct t; naive_solver.
Qed.

Lemma rgb_secret_fungible_Ok s t :
  Rgb.secret_fungible_from_str s = Ok t <->
  fungible_text ":secret:" (Rgb.sf_amount t) (Rgb.sf_secret t) (Rgb.sf_contract_id t)
    (Rgb.sf_issuer_fp t) s.
Proof.
  unfold Rgb.secret_fungible_from_str. rewrite parse_all_Ok.
  change Rgb.parse_secret_fungible with (fungible_parser ":secret:" Rgb.mk_secret_f).
  rewrite fungible_parser_Ok. destruct t; naive_solver.
Qed.

Lemma rgb_public_fungible_Ok s t :
  Rgb.public_fungible_from_str s = Ok t <->
  fungible_text ":public:" (Rgb.pf_amount t) (Rgb.pf_hash t) (Rgb.pf_contract_id t)
    (Rgb.pf_issuer_fp t) s.
Proof.
  unfold Rgb.public_fungible_from_str. rewrite parse_all_Ok.
  change Rgb.parse_public_fungible with (fungible_parser ":public:" Rgb.mk_public_f).
  rewrite fungible_parser_Ok. destruct t; naive_solver.
Qed.

Lemma rgb_secret_collectible_Ok s t :
  Rgb.secret_collectible_from_str s = Ok t <->
  exists u, s = "secret:" +:+ u /\
    tail_text (Rgb.sc_secret t) (Rgb.sc_contract_id t) (Rgb.sc_issuer_fp t) u.
Proof.
  unfold Rgb.secret_collectible_from_str. rewrite parse_all_Ok.
  change Rgb.parse_secret_collectible with (bare_parser "secret:" Rgb.mk_secret_c).
  rewrite bare_parser_Ok. destruct t; naive_solver.
Qed.

Lemma rgb_public_collectible_Ok s t :
  Rgb.public_collectible_from_str s = Ok t <->
  exists u, s = "public:" +:+ u /\
    tail_text (Rgb.pc_hash t) (Rgb.pc_contract_id t) (Rgb.pc_issuer_fp t) u.
Proof.
  unfold Rgb.public_collectible_from_str. rewrite parse_all_Ok.
  change Rgb.parse_public_collectible with (bare_parser "public:" Rgb.mk_public_c).
  rewrite bare_parser_Ok. destruct t; naive_solver.
Qed.

Lemma voucher_secret_Ok s t :
  Voucher.secret_from_str s = Ok t <->
  fungible_text ":secret:" (Voucher.sv_amount t) (Voucher.sv_secret t)
    (Voucher.sv_contract_id t) (Voucher.sv_issuer_fp t) s.
Proof.
  unfold Voucher.secret_from_str. rewrite parse_all_Ok.
  change Voucher.parse_secret_voucher with (fungible_parser ":secret:" Voucher.mk_secret).
  rewrite fungible_parser_Ok. destruct t; naive_solver.
Qed.

Lemma voucher_public_Ok s t :
  Voucher.public_from_str s = Ok t <->
  fungible_text ":public:" (Voucher.pv_amount t) (Voucher.pv_hash t)
    (Voucher.pv_contract_id t) (Voucher.pv_issuer_fp t) s.
Proof.
  unfold Voucher.public_from_str. rewrite parse_all_Ok.
  change Voucher.parse_public_voucher with (fungible_parser ":public:" Voucher.mk_public).
  rewrite fungible_parser_Ok. destruct t; naive_solver.
Qed.
End Theorems.

(** ** The six grammars do not overlap *)

(** Which grammar a text can belong to, read off its keyword and length. *)
Definition grammar_of (s : string) : nat :=
  match strip_prefix "secret:" s, strip_prefix "public:" s with
  | Some _, _ => 5%nat
  | _, Some _ => 6%nat
  | _, _ =>
      match strip_prefix "e" s with
      | None => 0%nat
      | Some u =>
          match @amount_parser nom_ref u with
          | Err _ => 0%nat
          | Ok (r, _) =>
              match strip_prefix ":secret:" r, strip_prefix ":public:" r with
              | Some h, _ => if (String.length h =? 64)%nat then 1%nat else 2%nat
              | _, Some h => if (String.length h =? 64)%nat then 3%nat else 4%nat
              | _, _ => 0%nat
              end
          end
      end
  end.

Lemma grammar_of_e amt r :
  amount_text amt -> ends_amount r = true ->
  grammar_of ("e" +:+ amt +:+ r) =
    match strip_prefix ":secret:" r, strip_prefix ":public:" r with
    | Some h, _ => if (String.length h =? 64)%nat then 1%nat else 2%nat
    | _, Some h => if (String.length h =? 64)%nat then 3%nat else 4%nat
    | _, _ => 0%nat
    end.
Proof.
  intros Ha Hr. unfold grammar_of. cbn -[amount_parser String.app strip_prefix].
  change (strip_prefix "secret:" ("e" +:+ ?u)) with (@None string).
  change (strip_prefix "public:" ("e" +:+ ?u)) with (@None string).
  rewrite (strip_prefix_app "e"). by rewrite amount_parser_app.
Qed.

Lemma tail_text_length h c fp s : tail_text h c fp s -> (64 < String.length s)%nat.
Proof.
  intros (iss & -> & [Hl _] & _). rewrite str_length_app. cbn [String.length String.app]. lia.
Qed.

Lemma grammar_plain s a h :
  (plain_text ":secret:" a h s -> grammar_of s = 1%nat) /\
  (plain_text ":public:" a h s -> grammar_of s = 3%nat).
Proof.
  split; intros (amt & -> & [Ha _] & [Hl _]); rewrite grammar_of_e by done.
  - rewrite strip_prefix_app. by rewrite Hl.
  - rewrite (strip_prefix_app ":public:"). simpl. by rewrite Hl.
Qed.

Lemma grammar_fungible s a h c fp :
  (fungible_text ":secret:" a h c fp s -> grammar_of s = 2%nat) /\
  (fungible_text ":public:" a h c fp s -> grammar_of s = 4%nat).
Proof.
  split; intros (amt & t & -> & [Ha _] & Hl%tail_text_length); rewrite grammar_of_e by done.
  - rewrite strip_prefix_app. by rewrite (proj2 (Nat.eqb_neq _ _)) by lia.
  - rewrite (strip_prefix_app ":public:"). simpl. by rewrite (proj2 (Nat.eqb_neq _ _)) by lia.
Qed.

Lemma grammar_bare u : grammar_of ("secret:" +:+ u) = 5%nat /\ grammar_of ("public:" +:+ u) = 6%nat.
Proof. done. Qed.

Section Properties.
Context `{NomLaws, HashingLaws, UnicodeLaws}.

(** Which of the grammars accept [s], in the order of [grammar_of]. *)
Definition accepting (s : string) : list bool :=
  [is_ok (Webcash.secret_from_str s); is_ok (Rgb.secret_fungible_from_str s);
   is_ok (Webcash.public_from_str s); is_ok (Rgb.public_fungible_from_str s);
   is_ok (Rgb.secret_collectible_from_str s); is_ok (Rgb.public_collectible_from_str s)].

Lemma accepting_grammar s k : accepting s !! k = Some true -> grammar_of s = S k.
Proof.
  intros Hk. destruct k as [|[|[|[|[|[|k]]]]]]; simpl in Hk; [..|done]; injection Hk as Hk.
  - destruct (Webcash.secret_from_str s) eqn:E; [|done].
    apply webcash_secret_Ok in E. by eapply grammar_plain.
  - destruct (Rgb.secret_fungible_from_str s) eqn:E; [|done].
    apply rgb_secret_fungible_Ok in E. by eapply grammar_fungible.
  - destruct (Webcash.public_from_str s) eqn:E; [|done].
    apply webcash_public_Ok in E. by eapply grammar_plain.
  - destruct (Rgb.public_fungible_from_str s) eqn:E; [|done].
    apply rgb_public_fungible_Ok in E. by eapply grammar_fungible.
  - destruct (Rgb.secret_collectible_from_str s) eqn:E; [|done].
    apply rgb_secret_collectible_Ok in E as (u & -> & _). apply grammar_bare.
  - destruct (Rgb.public_collectible_from_str s) eqn:E; [|done].
    apply rgb_public_collectible_Ok in E as (u & -> & _). apply grammar_bare.
Qed.

(** The Webcash parsers accept exactly [e<amount>:secret:<64 hex>] and
    [e<amount>:public:<64 hex>], return the fields of the text, and the
    amount is what the amount parser reads from its field. *)
Theorem webcash_language s :
  (forall t, Webcash.secret_from_str s = Ok t <->
     plain_text ":secret:" (Webcash.s_amount t) (Webcash.s_secret t) s) /\
  (forall t, Webcash.public_from_str s = Ok t <->
     plain_text ":public:" (Webcash.p_amount t) (Webcash.p_hash t) s).
Proof. split; intros t; [apply webcash_secret_Ok|apply webcash_public_Ok]. Qed.

(** The RGB and voucher secret parsers accept exactly their grammars:
    64 hexadecimal digits, a non-empty slug, 40 hexadecimal digits, the
    issuer folded to lower case. *)
Theorem namespaced_language s :
  (forall t, Rgb.secret_fungible_from_str s = Ok t <->
     fungible_text ":secret:" (Rgb.sf_amount t) (Rgb.sf_secret t) (Rgb.sf_contract_id t)
       (Rgb.sf_issuer_fp t) s) /\
  (forall t, Rgb.secret_collectible_from_str s = Ok t <->
     exists u, s = "secret:" +:+ u /\
       tail_text (Rgb.sc_secret t) (Rgb.sc_contract_id t) (Rgb.sc_issuer_fp t) u) /\
  (forall t, Voucher.secret_from_str s = Ok t <->
     fungible_text ":secret:" (Voucher.sv_amount t) (Voucher.sv_secret t)
       (Voucher.sv_contract_id t) (Voucher.sv_issuer_fp t) s).
Proof.
  split_and!; intros t;
    [apply rgb_secret_fungible_Ok|apply rgb_secret_collectible_Ok|apply voucher_secret_Ok].
Qed.

(** A Webcash secret that parses re-prints to a text that parses to the
    same token, its public token prints to a text that parses back, and the
    amount is a non-negative [i64]. *)
Theorem webcash_roundtrip s t :
  Webcash.secret_from_str s = Ok t ->
  Webcash.secret_from_str (Webcash.show_secret t) = Ok t /\
  Webcash.public_from_str (Webcash.show_public (Webcash.to_public t)) = Ok (Webcash.to_public t) /\
  0 <= wats (Webcash.s_amount t) <= i64_max.
Proof.
  rewrite !webcash_secret_Ok, webcash_public_Ok. intros Hs.
  pose proof Hs as (amt & _ & Ha & Hh). split_and!; [| |by eapply amount_field_nonneg..].
  - by eapply plain_text_canon.
  - destruct Hs as (? & _ & ? & _). exists (to_string (Webcash.s_amount t)).
    split_and!; [done| |apply sha256_hex_text].
    by eapply to_string_amount, amount_field_nonneg.
Qed.

(** Parsing the text of a namespaced secret gives it back; the issuer it carries
    passes [PgpFingerprint::parse]. *)
Theorem namespaced_roundtrip s :
  (forall t, Rgb.secret_fungible_from_str s = Ok t ->
     Rgb.secret_fungible_from_str (Rgb.show_secret_fungible t) = Ok t /\
     (let p := Rgb.fungible_to_public t in
      Rgb.public_fungible_from_str (Rgb.show_public_fungible p) = Ok p)) /\
  (forall t, Rgb.secret_collectible_from_str s = Ok t ->
     Rgb.secret_collectible_from_str (Rgb.show_secret_collectible t) = Ok t /\
     (let p := Rgb.collectible_to_public t in
      Rgb.public_collectible_from_str (Rgb.show_public_collectible p) = Ok p)) /\
  (forall t, Voucher.secret_from_str s = Ok t ->
     Voucher.secret_from_str (Voucher.show_secret t) = Ok t /\
     (let p := Voucher.to_public t in Voucher.public_from_str (Voucher.show_public p) = Ok p) /\
     parse_fingerprint (fp_str (Voucher.sv_issuer_fp t)) = Ok (Voucher.sv_issuer_fp t)).
Proof.
  split_and!; intros t.
  - cbv zeta. rewrite !rgb_secret_fungible_Ok, rgb_public_fungible_Ok. intros Hs. simpl.
    split; eapply fungible_text_canon; eauto with strs.
  - cbv zeta. rewrite !rgb_secret_collectible_Ok, rgb_public_collectible_Ok.
    intros (u & _ & Hu).
    pose proof Hu as (_ & _ & Hh & _).
    split; eexists; (split; [reflexivity|]); eapply tail_text_canon; simpl; eauto with strs.
  - cbv zeta. rewrite !voucher_secret_Ok, voucher_public_Ok. intros Hs. simpl.
    split_and!; [eapply fungible_text_canon; eauto with strs..|].
    destruct Hs as (_ & u & _ & _ & iss & _ & _ & _ & Hi & ->).
    destruct (lower_issuer _ Hi) as ([Hl _] & Hlow & _).
    unfold parse_fingerprint. simpl. by rewrite Hl, Hlow.
Qed.

(** The wire forms are unambiguous: at most one of the six grammars
    accepts a text, so no text is both a secret and a public token or a
    token of two kinds; the one exception is that vouchers and RGB fungible
    tokens share their grammar. *)
Theorem wire_forms_disjoint s :
  (forall j k, accepting s !! j = Some true -> accepting s !! k = Some true -> j = k) /\
  is_ok (Voucher.secret_from_str s) = is_ok (Rgb.secret_fungible_from_str s).
Proof.
  split.
  - intros j k Hj%accepting_grammar Hk%accepting_grammar. congruence.
  - destruct (Voucher.secret_from_str s) as [v|] eqn:E.
    + apply voucher_secret_Ok in E.
      destruct (Rgb.secret_fungible_from_str s) eqn:F; [done|].
      assert (Rgb.secret_fungible_from_str s = Ok (Rgb.mk_secret_f (Voucher.sv_amount v)
        (Voucher.sv_secret v) (Voucher.sv_contract_id v) (Voucher.sv_issuer_fp v))) as G
        by by apply rgb_secret_fungible_Ok.
      congruence.
    + destruct (Rgb.secret_fungible_from_str s) as [v|] eqn:F; [|done].
      apply rgb_secret_fungible_Ok in F.
      assert (Voucher.secret_from_str s = Ok (Voucher.mk_secret (Rgb.sf_amount v)
        (Rgb.sf_secret v) (Rgb.sf_contract_id v) (Rgb.sf_issuer_fp v))) as G
        by by apply voucher_secret_Ok.
      congruence.
Qed.
End Properties.

(** ** Concrete tokens *)

Definition hex_a : string := str_repeat "a"%char 64.
Definition iss_upper : string := str_repeat "B"%char 40.
Definition webcash_text_1 : string := "e1.5:secret:" +:+ hex_a.
Definition rgb_text_1 : string := "e2:secret:" +:+ hex_a +:+ ":usd-t:" +:+ iss_upper.
Definition collectible_text_1 : string := "secret:" +:+ hex_a +:+ ":art_1:" +:+ iss_upper.

Lemma webcash_language_witness :
  plain_text ":secret:" (from_wats 150000000) hex_a webcash_text_1.
Proof.
  apply (proj1 (proj1 (webcash_language webcash_text_1)
    (Webcash.mk_secret (from_wats 150000000) hex_a))).
  vm_compute. reflexivity.
Defined.

Lemma namespaced_language_witness :
  fungible_text ":secret:" (from_wats 200000000) hex_a (mk_cid "usd-t")
    (mk_fp (str_repeat "b"%char 40)) rgb_text_1.
Proof.
  apply (proj1 (proj1 (namespaced_language rgb_text_1)
    (Rgb.mk_secret_f (from_wats 200000000) hex_a (mk_cid "usd-t")
      (mk_fp (str_repeat "b"%char 40))))).
  vm_compute. reflexivity.
Defined.

Definition webcash_1 : Webcash.SecretWebcash := Webcash.mk_secret (from_wats 150000000) hex_a.
Definition collectible_1 : Rgb.SecretCollectible :=
  Rgb.mk_secret_c hex_a (mk_cid "art_1") (mk_fp (str_repeat "b"%char 40)).

Lemma webcash_roundtrip_witness :
  Webcash.show_secret webcash_1 = "e1.50000000:secret:" +:+ hex_a /\
  Webcash.secret_from_str (Webcash.show_secret webcash_1) = Ok webcash_1.
Proof.
  split; [vm_compute; reflexivity|].
  assert (Webcash.secret_from_str webcash_text_1 = Ok webcash_1) as H by (vm_compute; reflexivity).
  exact (proj1 (webcash_roundtrip _ _ H)).
Defined.

Lemma namespaced_roundtrip_witness :
  Rgb.show_secret_collectible collectible_1 =
    "secret:" +:+ hex_a +:+ ":art_1:" +:+ str_repeat "b"%char 40 /\
  Rgb.secret_collectible_from_str (Rgb.show_secret_collectible collectible_1) = Ok collectible_1.
Proof.
  split; [vm_compute; reflexivity|].
  assert (Rgb.secret_collectible_from_str collectible_text_1 = Ok collectible_1) as H
    by (vm_compute; reflexivity).
  exact (proj1 (proj1 (proj2 (namespaced_roundtrip _)) _ H)).
Defined.

Lemma wire_forms_disjoint_witness :
  accepting webcash_text_1 = [true; false; false; false; false; false] /\
  is_ok (Voucher.secret_from_str rgb_text_1) = true.
Proof.
  split; [vm_compute; reflexivity|].
  rewrite (proj2 (wire_forms_disjoint rgb_text_1)). vm_compute. reflexivity.
Defined.

(** A slug of 65 characters is part of a token the parsers accept, and no
    [ContractId] [parse_contract_id] would accept. *)
Example slug_without_bound :
  let t := "e2:secret:" +:+ hex_a +:+ ":" +:+ str_repeat "c"%char 65 +:+ ":" +:+ iss_upper in
  is_ok (Rgb.secret_fungible_from_str t) = true /\
  is_ok (parse_contract_id (str_repeat "c"%char 65)) = false.
Proof. vm_compute. split; reflexivity. Qed.
