(* ===== verification/Storage.v ===== *)
(** * The ledger-store contract

    [storage] ([crates/storage/src/lib.rs]): the audit and mining records, the
    replace request and its outcome, the record codec [HashRecord], namespaces,
    the two key strategies, and the [LedgerStore] trait as a class whose
    methods pass the state of the store explicitly.  A method of the trait that
    reads the clock takes the instant as an argument. *)
From S2P Require Import Prelude Decimal Amount External AssetCore.

(** ** serde

    [Serialize]/[Deserialize] of one type through [serde_json]. *)
Class Serde (T : Type) := {
  to_json : T -> string;
  from_json : string -> result string T;
}.
Class SerdeLaws (T : Type) `{Serde T} : Prop := {
  from_to_json : forall x : T, from_json (to_json x) = Ok x;
}.

Section Data.
Context `{Chrono}.

Record ReplacementRecord := {
  rr_id : string;
  rr_input_hashes : list string;
  rr_output_hashes : list string;
  rr_total_amount_wats : Z;
  rr_created_at : DateTime;
}.

Record BurnRecord := {
  br_id : string;
  br_public_hash : string;
  br_amount_wats : Z;
  br_burned_at : DateTime;
}.

Record MiningState := {
  ms_total_circulation_wats : Z;
  ms_mining_reports_count : Z;
  ms_difficulty_target_bits : Z;
  ms_epoch : Z;
  ms_mining_amount_wats : Z;
  ms_subsidy_amount_wats : Z;
  ms_epoch_started_at : DateTime;
  ms_aggregate_work : Z;
}.

Record ReplaceOp (R : Type) := {
  ro_inputs : list string;
  ro_outputs : list R;
  ro_record : ReplacementRecord;
}.
End Data.
Arguments ro_inputs {_ _} _.
Arguments ro_outputs {_ _} _.
Arguments ro_record {_ _} _.

Record EconomyStats := {
  es_total_circulation_wats : Z;
  es_mining_reports_count : Z;
  es_difficulty_target_bits : Z;
  es_epoch : Z;
  es_mining_amount_wats : Z;
  es_subsidy_amount_wats : Z;
}.

(** [EconomyStats::default()]. *)
Definition default_stats : EconomyStats := {|
  es_total_circulation_wats := 0; es_mining_reports_count := 0;
  es_difficulty_target_bits := 0; es_epoch := 0;
  es_mining_amount_wats := 0; es_subsidy_amount_wats := 0 |}.

Inductive ReplaceResult := ReplaceOk | ReplaceFailed (msg : string).

#[export] Instance replace_result_eq_dec : EqDecision ReplaceResult.
Proof. solve_decision. Defined.

(** ** Namespaces *)

Record Namespace := mk_ns {
  ns_contract_id : option ContractId;
  ns_issuer_fp : option PgpFingerprint;
}.

#[export] Instance namespace_eq_dec : EqDecision Namespace.
Proof. solve_decision. Defined.

Definition unscoped : Namespace := mk_ns None None.
Definition scoped (c : ContractId) (i : PgpFingerprint) : Namespace := mk_ns (Some c) (Some i).

Definition namespace_for_secret `{IssuedAsset} (s : Secret) : Namespace :=
  scoped (contract_id s) (issuer s).

(** [HashRecord]: a record as a map of string fields, keyed by its hash. *)
Class HashRecord (R : Type) `{Chrono} := {
  record_hash : R -> string;
  record_amount_wats : R -> Z;
  record_namespace : R -> Namespace;
  to_fields : R -> gmap string string;
  from_fields : DateTime -> string -> gmap string string -> option R;
}.

(** What a store relies on from the codec: the amount and the spent flag are
    always among the fields, and a well-formed record is read back whole. *)
Class HashRecordLaws (R : Type) `{HashRecord R} := {
  record_wf : R -> Prop;
  fields_amount : forall r, to_fields r !! "amount_wats" = Some (show_i64 (record_amount_wats r));
  fields_spent : forall r, is_Some (to_fields r !! "spent");
  from_to_fields : forall now r, record_wf r -> from_fields now (record_hash r) (to_fields r) = Some r;
}.

(** ** Key strategies *)

Class KeyStrategy := {
  token_key : string -> Namespace -> string -> string;
  replacement_key : string -> Namespace -> string -> string;
  burn_key : string -> Namespace -> string -> string;
  mining_state_key : string -> string;
}.

Definition WebcashLegacyKeys : KeyStrategy := {|
  token_key _ _ public_hash := "token:" +:+ public_hash;
  replacement_key _ _ op_id := "audit:replace:" +:+ op_id;
  burn_key _ _ op_id := "audit:burn:" +:+ op_id;
  mining_state_key _ := "mining:state";
|}.

(** The contract and issuer parts of a key, [_] when the slot is empty. *)
Definition contract_part (ns : Namespace) : string := default "_" (cid_str <$> ns_contract_id ns).
Definition issuer_part (ns : Namespace) : string := default "_" (fp_str <$> ns_issuer_fp ns).

Definition NamespacedKeys : KeyStrategy := {|
  token_key asset_name ns public_hash :=
    asset_name +:+ ":" +:+ contract_part ns +:+ ":" +:+ issuer_part ns +:+ ":token:" +:+ public_hash;
  replacement_key asset_name ns op_id :=
    asset_name +:+ ":" +:+ contract_part ns +:+ ":" +:+ issuer_part ns +:+ ":audit:replace:" +:+ op_id;
  burn_key asset_name ns op_id :=
    asset_name +:+ ":" +:+ contract_part ns +:+ ":" +:+ issuer_part ns +:+ ":audit:burn:" +:+ op_id;
  mining_state_key asset_name := asset_name +:+ ":mining:state";
|}.

(** ** The trait

    [S] is the state the methods act on (the data of the server behind the
    store); a method returns its value and the next state. *)
Class LedgerStore (R S : Type) `{Chrono} := {
  insert_tokens : list R -> S -> result string unit * S;
  get_tokens : DateTime -> Namespace -> list string -> S -> result string (list (option R)) * S;
  check_tokens : Namespace -> list string -> S -> result string (list (string * option bool)) * S;
  batch_replace : DateTime -> Namespace -> list (ReplaceOp R) -> S -> list ReplaceResult * S;
  batch_burn : DateTime -> Namespace -> list (string * BurnRecord) -> S -> result string unit * S;
  get_mining_state : S -> result string (option MiningState) * S;
  update_mining_state : MiningState -> S -> result string unit * S;
}.

(** The trait's default [get_stats]. *)
Definition stats_of_state `{Chrono} (s : MiningState) : EconomyStats := {|
  es_total_circulation_wats := ms_total_circulation_wats s;
  es_mining_reports_count := ms_mining_reports_count s;
  es_difficulty_target_bits := ms_difficulty_target_bits s;
  es_epoch := ms_epoch s;
  es_mining_amount_wats := ms_mining_amount_wats s;
  es_subsidy_amount_wats := ms_subsidy_amount_wats s |}.

Definition get_stats {R S} `{LedgerStore R S} (st : S) : result string EconomyStats * S :=
  let '(r, st') := get_mining_state st in
  (s ← r; Ok (default default_stats (stats_of_state <$> s)), st').

(** What a store relies on from its keys inside one namespace. *)
Class KeyLaws `{KeyStrategy} : Prop := {
  token_key_inj : forall n ns h h', token_key n ns h = token_key n ns h' -> h = h';
  token_not_replacement : forall n ns h i, token_key n ns h <> replacement_key n ns i;
  token_not_burn : forall n ns h i, token_key n ns h <> burn_key n ns i;
  token_not_mining : forall n ns h, token_key n ns h <> mining_state_key n;
}.

#[export] Instance webcash_legacy_laws : @KeyLaws WebcashLegacyKeys.
Proof. split; simpl; intros; simplify_eq; done. Qed.

(** Cancels the common prefix of two equal concatenations. *)
Ltac cancel_prefix :=
  repeat match goal with
  | E : _ +:+ _ = _ +:+ _ |- _ => apply str_app_inj_l in E; simpl in E
  end; simplify_eq; try done.

Fixpoint colons (s : string) : nat :=
  match s with
  | EmptyString => O
  | String c s' => ((if Ascii.eqb c ":"%char then 1 else 0) + colons s')%nat
  end.

Lemma colons_app a b : colons (a +:+ b) = (colons a + colons b)%nat.
Proof. induction a as [|c a IH]; simpl; [done|]. rewrite IH. lia. Qed.

#[export] Instance namespaced_laws : @KeyLaws NamespacedKeys.
Proof.
  split; simpl; intros n ns h; [intros h' E|intros i E..|intros E]; simplify_eq; try cancel_prefix.
  apply (f_equal colons) in E. simpl in E. rewrite !colons_app in E. simpl in E.
  rewrite !colons_app in E. simpl in E. lia.
Qed.

(** ** Keys do not collide *)

Definition no_colon (s : string) : Prop :=
  str_all (fun c => negb (Ascii.eqb c ":"%char)) s = true.

(** A namespace whose parts cannot forge a separator: every namespace built
    from a parsed token is one. *)
Definition ns_ok (ns : Namespace) : Prop := no_colon (contract_part ns) /\ no_colon (issuer_part ns).

Lemma colon_split a b x y :
  no_colon a -> no_colon b -> a +:+ String ":" x = b +:+ String ":" y -> a = b /\ x = y.
Proof.
  intros Ha Hb H. apply (f_equal (split_once ":"%char)) in H.
  rewrite !split_once_app in H by done. by injection H.
Qed.

Lemma namespaced_split n n' ns ns' x y :
  no_colon n -> no_colon n' -> ns_ok ns -> ns_ok ns' ->
  n +:+ ":" +:+ contract_part ns +:+ ":" +:+ issuer_part ns +:+ String ":" x =
  n' +:+ ":" +:+ contract_part ns' +:+ ":" +:+ issuer_part ns' +:+ String ":" y ->
  n = n' /\ contract_part ns = contract_part ns' /\ issuer_part ns = issuer_part ns' /\ x = y.
Proof.
  intros Hn Hn' [Hc Hi] [Hc' Hi'] E.
  apply colon_split in E as [-> E]; [|done..].
  apply colon_split in E as [Ec E]; [|done..].
  by apply colon_split in E as [Ei ->].
Qed.

(** The keys one store uses, and their text under a strategy. *)
Inductive StoreKey :=
  | KToken (ns : Namespace) (public_hash : string)
  | KReplace (ns : Namespace) (op_id : string)
  | KBurn (ns : Namespace) (op_id : string)
  | KMining.

Definition render_key (K : KeyStrategy) (asset_name : string) (k : StoreKey) : string :=
  match k with
  | KToken ns h => @token_key K asset_name ns h
  | KReplace ns i => @replacement_key K asset_name ns i
  | KBurn ns i => @burn_key K asset_name ns i
  | KMining => @mining_state_key K asset_name
  end.

(** Namespaces made of a contract and an issuer without a colon. *)
Definition scoped_ok (ns : Namespace) : Prop :=
  exists c i, ns = scoped c i /\ no_colon (cid_str c) /\ no_colon (fp_str i).

Definition key_scoped (k : StoreKey) : Prop :=
  match k with
  | KToken ns _ | KReplace ns _ | KBurn ns _ => scoped_ok ns
  | KMining => True
  end.

(** The tail of a namespaced key after the asset name. *)
Definition key_tail (k : StoreKey) : string :=
  match k with
  | KToken ns h => contract_part ns +:+ ":" +:+ issuer_part ns +:+ ":token:" +:+ h
  | KReplace ns i => contract_part ns +:+ ":" +:+ issuer_part ns +:+ ":audit:replace:" +:+ i
  | KBurn ns i => contract_part ns +:+ ":" +:+ issuer_part ns +:+ ":audit:burn:" +:+ i
  | KMining => "mining:state"
  end.

Lemma render_namespaced n k : render_key NamespacedKeys n k = n +:+ ":" +:+ key_tail k.
Proof. by destruct k. Qed.

Lemma tail_not_mining c i x : no_colon c -> c +:+ ":" +:+ i +:+ String ":" x <> "mining:state".
Proof.
  intros Hc E. change "mining:state" with ("mining" +:+ String ":" "state") in E.
  apply colon_split in E as [_ E]; [|done..].
  apply (f_equal (str_all (fun c => negb (Ascii.eqb c ":"%char)))) in E.
  rewrite str_all_app in E. simpl in E. by rewrite andb_false_r in E.
Qed.

Lemma parts_inj c i c' i' x y :
  no_colon c -> no_colon c' -> no_colon i -> no_colon i' ->
  c +:+ ":" +:+ i +:+ String ":" x = c' +:+ ":" +:+ i' +:+ String ":" y ->
  c = c' /\ i = i' /\ x = y.
Proof.
  intros Hc Hc' Hi Hi' E. apply colon_split in E as [-> E]; [|done..].
  by apply colon_split in E as [-> ->].
Qed.

Lemma key_tail_inj k k' : key_scoped k -> key_scoped k' -> key_tail k = key_tail k' -> k = k'.
Proof.
  intros Hk Hk' E.
  destruct k as [ns h|ns h|ns h|], k' as [ns' h'|ns' h'|ns' h'|]; simpl in Hk, Hk', E; try done;
    try (destruct Hk as (c & i & -> & Hc & Hi)); try (destruct Hk' as (c' & i' & -> & Hc' & Hi'));
    unfold contract_part, issuer_part in E; simpl in E;
    try (exfalso; eapply tail_not_mining; [|exact E || (symmetry; exact E)]; done);
    apply parts_inj in E as (Ec & Ei & E); try done; destruct c, c', i, i'; simpl in *;
    by simplify_eq.
Qed.

(** Under [NamespacedKeys] two keys of any kind (token, replace audit,
    burn audit, mining state) of any two assets are equal only when they are
    the same key of the same asset: no namespace, asset or audit trail can
    write to the key of another. *)
Theorem namespaced_keys_injective n n' k k' :
  no_colon n -> no_colon n' -> key_scoped k -> key_scoped k' ->
  render_key NamespacedKeys n k = render_key NamespacedKeys n' k' -> n = n' /\ k = k'.
Proof.
  intros Hn Hn' Hk Hk'. rewrite !render_namespaced. intros E.
  apply colon_split in E as [-> E]; [|done..]. split; [done|]. by apply key_tail_inj.
Qed.

Lemma namespaced_keys_injective_witness :
  let ns := scoped (mk_cid "usd-t") (mk_fp "aa") in
  (KToken ns "h1" = KToken ns "h2" -> False) /\
  render_key NamespacedKeys "voucher" (KToken ns "h1") <>
    render_key NamespacedKeys "rgb-fungible" (KToken ns "h1").
Proof.
  split; [discriminate|]. intros E. apply namespaced_keys_injective in E as [E _].
  - discriminate E.
  - reflexivity.
  - reflexivity.
  - exists (mk_cid "usd-t"), (mk_fp "aa"). repeat split.
  - exists (mk_cid "usd-t"), (mk_fp "aa"). repeat split.
Defined.

(** The kind and payload of a key: all the legacy strategy keeps. *)
Definition key_payload (k : StoreKey) : nat * string :=
  match k with
  | KToken _ h => (0%nat, h)
  | KReplace _ i => (1%nat, i)
  | KBurn _ i => (2%nat, i)
  | KMining => (3%nat, EmptyString)
  end.

(** The legacy strategy ignores the asset and the namespace and nothing
    else: two of its keys are equal exactly when they have the same kind and
    the same hash or operation id. *)
Theorem legacy_keys_payload n n' k k' :
  render_key WebcashLegacyKeys n k = render_key WebcashLegacyKeys n' k' <->
  key_payload k = key_payload k'.
Proof.
  destruct k as [ns h|ns h|ns h|], k' as [ns' h'|ns' h'|ns' h'|]; simpl;
    split; intros E; simplify_eq; done.
Qed.
