(* ===== verification/Redis.v ===== *)
(** * The Redis backend

    [RedisStore] ([crates/storage/src/redis_backend.rs]): the two Lua scripts,
    transcribed statement by statement over the effects of [redis.call]; the
    commands the store sends; and the store's methods as a [LedgerStore].

    A Redis server is a parameter ([RedisService]): an opaque state and a
    [query] that runs a pipeline.  What the store relies on is [RedisLaws]: an
    abstract view of that state as a map, on which a successful pipeline has
    the documented effect of its commands one after the other, and a failed one
    that of some prefix of them. *)
From S2P Require Import Prelude Decimal Amount External AssetCore Storage.

(** ** Commands *)

Inductive rvalue :=
  | RStr (s : string)
  | RHash (h : gmap string string).

Notation rdb := (gmap string rvalue).

Inductive script := REPLACE_SHA | BURN_SHA | LEGACY_REPLACE_SHA.

Inductive rcmd :=
  | HSETNX (k f v : string)
  | HSET (k : string) (fvs : list (string * string))
  | HGETALL (k : string)
  | HGET (k f : string)
  | GET (k : string)
  | SET (k v : string)
  | EVALSHA (sha : script) (keys argv : list string).

Inductive rreply :=
  | RInt (n : Z)
  | RBulk (o : option string)
  | RFields (h : gmap string string)
  | RStatus (s : string)
  | RError (e : string).

Definition wrongtype : string := "WRONGTYPE".

Definition hset_fields (fvs : list (string * string)) (h : gmap string string) : gmap string string :=
  foldl (fun h p => <[p.1 := p.2]> h) h fvs.

(** ** Lua

    A script is a computation over the data that may return early with a reply
    or stop with an error; its earlier effects stay in both cases, since Redis
    has no rollback. *)
Inductive lua_res (A : Type) :=
  | Val (a : A)
  | Return (reply : string)
  | LuaErr (e : string).
Arguments Val {A} a.
Arguments Return {A} reply.
Arguments LuaErr {A} e.

Definition lua (A : Type) : Type := rdb -> lua_res A * rdb.

#[export] Instance lua_ret : MRet lua := fun A a db => (Val a, db).
#[export] Instance lua_bind : MBind lua := fun A B f m db =>
  match m db with
  | (Val a, db') => f a db'
  | (Return s, db') => (Return s, db')
  | (LuaErr e, db') => (LuaErr e, db')
  end.

Definition lua_return {A} (s : string) : lua A := fun db => (Return s, db).
Definition lua_error {A} (e : string) : lua A := fun db => (LuaErr e, db).

(** [for i = 1, n do body end], counting from [i]. *)
Fixpoint lua_for (i n : nat) (body : nat -> lua unit) : lua unit :=
  match n with
  | O => mret tt
  | S n' => body i ≫= fun _ => lua_for (S i) n' body
  end.

(** [T[i]] used as a string. *)
Definition lua_index (t : list string) (i : nat) : lua string :=
  match i with
  | O => lua_error "nil"
  | S j => match t !! j with Some s => mret s | None => lua_error "nil" end
  end.

Definition tonumber (s : string) : lua nat :=
  match parse_i64 s with
  | Some z => mret (Z.to_nat z)
  | None => lua_error "'for' limit must be a number"
  end.

(** [args[j] = T[base + j]] for [j = 1 .. n], then [unpack(args)]: the list
    stops at the end of [T]. *)
Definition lua_unpack (t : list string) (base n : nat) : list string := take n (drop base t).

Fixpoint pair_up (args : list string) : option (list (string * string)) :=
  match args with
  | [] => Some []
  | f :: v :: rest => cons (f, v) <$> pair_up rest
  | [_] => None
  end.

(** [redis.call]. *)
Definition call_exists (k : string) : lua Z := fun db =>
  (Val (if decide (is_Some (db !! k)) then 1 else 0), db).

Definition call_hget (k f : string) : lua (option string) := fun db =>
  match db !! k with
  | None => (Val None, db)
  | Some (RHash h) => (Val (h !! f), db)
  | Some (RStr _) => (LuaErr wrongtype, db)
  end.

Definition call_hset (k : string) (args : list string) : lua unit := fun db =>
  match pair_up args with
  | None | Some [] => (LuaErr "wrong number of arguments", db)
  | Some fvs =>
      match db !! k with
      | Some (RStr _) => (LuaErr wrongtype, db)
      | Some (RHash h) => (Val tt, <[k := RHash (hset_fields fvs h)]> db)
      | None => (Val tt, <[k := RHash (hset_fields fvs ∅)]> db)
      end
  end.

Definition call_set (k v : string) : lua unit := fun db => (Val tt, <[k := RStr v]> db).

(** ** The scripts *)

Definition REPLACE_LUA (KEYS ARGV : list string) : lua string :=
  ni ← lua_index ARGV 1 ≫= tonumber;
  no ← lua_index ARGV 2 ≫= tonumber;
  fields_per_output ← lua_index ARGV 3 ≫= tonumber;
  now ← lua_index ARGV 4;
  audit_key ← lua_index ARGV 5;
  audit_json ← lua_index ARGV 6;
  _ ← lua_for 1 ni (fun i =>
    k ← lua_index KEYS i;
    e ← call_exists k;
    if e =? 0 then lua_return ("ERR:input token not found: " +:+ k)
    else
      s ← call_hget k "spent";
      if decide (s = Some "1") then lua_return ("ERR:input token already spent: " +:+ k)
      else mret tt);
  _ ← lua_for 1 ni (fun i =>
    k ← lua_index KEYS i;
    call_hset k ["spent"; "1"; "spent_at"; now]);
  _ ← lua_for 1 no (fun i =>
    k ← lua_index KEYS (ni + i);
    e ← call_exists k;
    if e =? 1 then lua_return ("ERR:output token already exists: " +:+ k)
    else
      let base := (6 + (i - 1) * fields_per_output * 2)%nat in
      call_hset k (lua_unpack ARGV base (fields_per_output * 2)));
  _ ← call_set audit_key audit_json;
  mret "ok".

(** The replace script of the legacy server (crates/server/src/db/redis.rs):
    three arguments for each output instead of a table of fields.  Its burn
    script is [BURN_LUA]. *)
Definition LEGACY_REPLACE_LUA (KEYS ARGV : list string) : lua string :=
  ni ← lua_index ARGV 1 ≫= tonumber;
  no ← lua_index ARGV 2 ≫= tonumber;
  now ← lua_index ARGV 3;
  audit_key ← lua_index ARGV 4;
  audit_json ← lua_index ARGV 5;
  _ ← lua_for 1 ni (fun i =>
    k ← lua_index KEYS i;
    e ← call_exists k;
    if e =? 0 then lua_return ("ERR:input token not found: " +:+ k)
    else
      s ← call_hget k "spent";
      if decide (s = Some "1") then lua_return ("ERR:input token already spent: " +:+ k)
      else mret tt);
  _ ← lua_for 1 ni (fun i =>
    k ← lua_index KEYS i;
    call_hset k ["spent"; "1"; "spent_at"; now]);
  _ ← lua_for 1 no (fun i =>
    k ← lua_index KEYS (ni + i);
    e ← call_exists k;
    if e =? 1 then lua_return ("ERR:output token already exists: " +:+ k)
    else
      let base := (5 + (i - 1) * 3)%nat in
      amount_wats ← lua_index ARGV (base + 1);
      created_at ← lua_index ARGV (base + 2);
      origin ← lua_index ARGV (base + 3);
      call_hset k ["amount_wats"; amount_wats; "spent"; "0"; "created_at"; created_at; "origin"; origin]);
  _ ← call_set audit_key audit_json;
  mret "ok".

Definition BURN_LUA (KEYS ARGV : list string) : lua string :=
  tk ← lua_index KEYS 1;
  ak ← lua_index KEYS 2;
  now ← lua_index ARGV 1;
  aj ← lua_index ARGV 2;
  e ← call_exists tk;
  if e =? 0 then lua_return "ERR:token not found"
  else
    s ← call_hget tk "spent";
    if decide (s = Some "1") then lua_return "ERR:token already spent"
    else
      _ ← call_hset tk ["spent"; "1"; "spent_at"; now];
      _ ← call_set ak aj;
      mret "ok".

Definition run_script (sha : script) : list string -> list string -> lua string :=
  match sha with
  | REPLACE_SHA => REPLACE_LUA
  | BURN_SHA => BURN_LUA
  | LEGACY_REPLACE_SHA => LEGACY_REPLACE_LUA
  end.

(** The documented effect of one command. *)
Definition exec (c : rcmd) (db : rdb) : rreply * rdb :=
  match c with
  | HSETNX k f v =>
      match db !! k with
      | None => (RInt 1, <[k := RHash {[ f := v ]}]> db)
      | Some (RHash h) =>
          match h !! f with
          | Some _ => (RInt 0, db)
          | None => (RInt 1, <[k := RHash (<[f := v]> h)]> db)
          end
      | Some (RStr _) => (RError wrongtype, db)
      end
  | HSET k fvs =>
      match fvs, db !! k with
      | [], _ => (RError "wrong number of arguments", db)
      | _, Some (RStr _) => (RError wrongtype, db)
      | _, Some (RHash h) => (RInt (Z.of_nat (size (hset_fields fvs h) - size h)), <[k := RHash (hset_fields fvs h)]> db)
      | _, None => (RInt (Z.of_nat (size (hset_fields fvs ∅))), <[k := RHash (hset_fields fvs ∅)]> db)
      end
  | HGETALL k =>
      match db !! k with
      | None => (RFields ∅, db)
      | Some (RHash h) => (RFields h, db)
      | Some (RStr _) => (RError wrongtype, db)
      end
  | HGET k f =>
      match db !! k with
      | None => (RBulk None, db)
      | Some (RHash h) => (RBulk (h !! f), db)
      | Some (RStr _) => (RError wrongtype, db)
      end
  | GET k =>
      match db !! k with
      | None => (RBulk None, db)
      | Some (RStr s) => (RBulk (Some s), db)
      | Some (RHash _) => (RError wrongtype, db)
      end
  | SET k v => (RStatus "OK", <[k := RStr v]> db)
  | EVALSHA sha keys argv =>
      match run_script sha keys argv db with
      | (Val s, db') | (Return s, db') => (RBulk (Some s), db')
      | (LuaErr e, db') => (RError e, db')
      end
  end.

Fixpoint exec_all (cs : list rcmd) (db : rdb) : list rreply * rdb :=
  match cs with
  | [] => ([], db)
  | c :: cs' =>
      let '(r, db') := exec c db in
      let '(rs, db'') := exec_all cs' db' in (r :: rs, db'')
  end.

Definition not_error (r : rreply) : Prop := match r with RError _ => False | _ => True end.

Class RedisService := {
  rstate : Type;
  query : list rcmd -> rstate -> result string (list rreply) * rstate;
  debug_reply : rreply -> string;
  type_error : string;
}.

Class RedisLaws `{RedisService} := {
  rview : rstate -> rdb;
  query_ok : forall cs st rs st', query cs st = (Ok rs, st') ->
    exec_all cs (rview st) = (rs, rview st') /\ Forall not_error rs;
  query_err : forall cs st e st', query cs st = (Err e, st') ->
    exists n, rview st' = (exec_all (take n cs) (rview st)).2;
}.

(** ** The store *)

(** [redis::FromRedisValue] for [bool], [HashMap] and [Option<String>]. *)
Definition as_bool (r : rreply) : option bool :=
  match r with RInt 1 => Some true | RInt 0 => Some false | _ => None end.
Definition as_fields (r : rreply) : option (gmap string string) :=
  match r with RFields h => Some h | _ => None end.
Definition as_opt_string (r : rreply) : option (option string) :=
  match r with RBulk o => Some o | _ => None end.

Definition from_replies `{RedisService} {T} (conv : rreply -> option T) (rs : list rreply) : result string (list T) :=
  ok_or (mapM conv rs) type_error.

(** [entries.sort_by(|a, b| a.0.cmp(&b.0))] of a map's entries. *)
Definition field_le (a b : string * string) : Prop := String.leb a.1 b.1 = true.
#[export] Instance field_le_dec : RelDecision field_le.
Proof. intros a b. unfold field_le. apply _. Defined.

Definition sorted_fields (h : gmap string string) : list (string * string) :=
  merge_sort field_le (map_to_list h).

Definition flatten_fields (fvs : list (string * string)) : list string :=
  flat_map (fun p => [p.1; p.2]) fvs.

Section Store.
Context `{RedisService} `{Chrono} {A : Asset} `{!HashRecord Rec} {K : KeyStrategy}
  `{Serde ReplacementRecord} `{Serde BurnRecord} `{Serde MiningState}.

Definition record_key (r : Rec) : string := token_key NAME (record_namespace r) (record_hash r).

Definition redis_insert_tokens (records : list Rec) (st : rstate) : result string unit * rstate :=
  match records with
  | [] => (Ok tt, st)
  | _ =>
      let '(r, st) := query
        (map (fun r => HSETNX (record_key r) "amount_wats" (show_i64 (record_amount_wats r))) records) st in
      match r ≫= fun rs => from_replies as_bool rs with
      | Err e => (Err e, st)
      | Ok nx =>
          let set_pipe := omap (fun '(created, r) =>
            if (created : bool)
            then Some (HSET (record_key r) (map_to_list (delete "amount_wats" (to_fields r))))
            else None) (zip nx records) in
          let '(r, st) := match set_pipe with [] => (Ok [], st) | _ => query set_pipe st end in
          match r with
          | Err e => (Err e, st)
          | Ok _ =>
              match list_find (fun p => p.1 = false) (zip nx records) with
              | Some (_, (_, r)) => (Err ("token already exists: " +:+ record_hash r), st)
              | None => (Ok tt, st)
              end
          end
      end
  end.

Definition redis_get_tokens (now : DateTime) (ns : Namespace) (hashes : list string) (st : rstate)
  : result string (list (option Rec)) * rstate :=
  match hashes with
  | [] => (Ok [], st)
  | _ =>
      let '(r, st) := query (map (fun h => HGETALL (token_key NAME ns h)) hashes) st in
      (rs ← r;
       results ← from_replies as_fields rs;
       Ok (map (fun '(h, fields) =>
         if decide (fields = ∅) then None else from_fields now h fields) (zip hashes results)), st)
  end.

Definition redis_check_tokens (ns : Namespace) (hashes : list string) (st : rstate)
  : result string (list (string * option bool)) * rstate :=
  match hashes with
  | [] => (Ok [], st)
  | _ =>
      let '(r, st) := query (map (fun h => HGET (token_key NAME ns h) "spent") hashes) st in
      (rs ← r;
       results ← from_replies as_opt_string rs;
       Ok (map (fun '(h, s) => (h, option_map (fun v => String.eqb v "1") s))
         (zip hashes results)), st)
  end.

(** The [EVALSHA] command of one replace. *)
Definition replace_cmd (now : string) (ns : Namespace) (op : ReplaceOp Rec) : rcmd :=
  let ik := map (token_key NAME ns) (ro_inputs op) in
  let ok := map (fun o => token_key NAME ns (record_hash o)) (ro_outputs op) in
  let audit_key := replacement_key NAME ns (rr_id (ro_record op)) in
  let audit_json := to_json (ro_record op) in
  let fields_per_output :=
    match ro_outputs op with [] => O | first :: _ => size (to_fields first) end in
  EVALSHA REPLACE_SHA (ik ++ ok)
    ([show_u64 (Z.of_nat (length (ro_inputs op))); show_u64 (Z.of_nat (length (ro_outputs op)));
      show_u64 (Z.of_nat fields_per_output); now; audit_key; audit_json]
     ++ flat_map (fun o => flatten_fields (sorted_fields (to_fields o))) (ro_outputs op)).

Definition replace_reply (v : rreply) : ReplaceResult :=
  match v with
  | RStatus s | RBulk (Some s) =>
      if String.eqb s "ok" then ReplaceOk
      else match strip_prefix "ERR:" s with
           | Some err => ReplaceFailed err
           | None => ReplaceFailed s
           end
  | _ => ReplaceFailed ("unexpected: " +:+ debug_reply v)
  end.

Definition redis_batch_replace (now : DateTime) (ns : Namespace) (ops : list (ReplaceOp Rec))
    (st : rstate) : list ReplaceResult * rstate :=
  match ops with
  | [] => ([], st)
  | _ =>
      let '(r, st) := query (map (replace_cmd (to_rfc3339 now) ns) ops) st in
      (match r with
       | Ok values => map replace_reply values
       | Err e => map (fun _ => ReplaceFailed e) ops
       end, st)
  end.

Definition burn_cmd (now : string) (ns : Namespace) (op : string * BurnRecord) : rcmd :=
  EVALSHA BURN_SHA [token_key NAME ns op.1; burn_key NAME ns (br_id op.2)] [now; to_json op.2].

Definition burn_error (v : rreply) : option string :=
  match v with
  | RStatus s | RBulk (Some s) => option_map (fun e => "burn failed: " +:+ e) (strip_prefix "ERR:" s)
  | _ => None
  end.

Definition redis_batch_burn (now : DateTime) (ns : Namespace) (ops : list (string * BurnRecord))
    (st : rstate) : result string unit * rstate :=
  match ops with
  | [] => (Ok tt, st)
  | _ =>
      let '(r, st) := query (map (burn_cmd (to_rfc3339 now) ns) ops) st in
      (results ← map_err (fun e => "batch burn failed: " +:+ e) r;
       match head (omap burn_error results) with Some e => Err e | None => Ok tt end, st)
  end.

Definition redis_get_mining_state (st : rstate) : result string (option MiningState) * rstate :=
  let '(r, st) := query [GET (mining_state_key NAME)] st in
  (rs ← r;
   json ← ok_or (head rs ≫= as_opt_string) type_error;
   match json with
   | None => Ok None
   | Some j => m ← from_json j; Ok (Some m)
   end, st).

Definition redis_update_mining_state (state : MiningState) (st : rstate) : result string unit * rstate :=
  let '(r, st) := query [SET (mining_state_key NAME) (to_json state)] st in (_ ← r; Ok tt, st).

Definition RedisStore : LedgerStore Rec rstate := {|
  insert_tokens := redis_insert_tokens;
  get_tokens := redis_get_tokens;
  check_tokens := redis_check_tokens;
  batch_replace := redis_batch_replace;
  batch_burn := redis_batch_burn;
  get_mining_state := redis_get_mining_state;
  update_mining_state := redis_update_mining_state;
|}.
End Store.

(** ** What the replace script does

    The effect of [REPLACE_LUA] on the keys and fields it is sent, without the
    marshalling: the checks of all inputs, the marking of all inputs, then the
    outputs one by one. *)

Definition spent_hash (h : gmap string string) : bool := bool_decide (h !! "spent" = Some "1").

Fixpoint check_inputs (ks : list string) (db : rdb) : option string :=
  match ks with
  | [] => None
  | k :: ks' =>
      match db !! k with
      | Some (RHash h) =>
          if spent_hash h then Some ("ERR:input token already spent: " +:+ k) else check_inputs ks' db
      | _ => Some ("ERR:input token not found: " +:+ k)
      end
  end.

Definition mark_hash (now : string) (h : gmap string string) : gmap string string :=
  <["spent_at" := now]> (<["spent" := "1"]> h).

Definition mark_spent (now : string) (db : rdb) (k : string) : rdb :=
  match db !! k with
  | Some (RHash h) => <[k := RHash (mark_hash now h)]> db
  | _ => db
  end.

Fixpoint put_outputs (outs : list (string * gmap string string)) (db : rdb) : option string * rdb :=
  match outs with
  | [] => (None, db)
  | (k, h) :: outs' =>
      match db !! k with
      | Some _ => (Some ("ERR:output token already exists: " +:+ k), db)
      | None => put_outputs outs' (<[k := RHash h]> db)
      end
  end.

Definition replace_spec (ik : list string) (outs : list (string * gmap string string))
    (now ak aj : string) (db : rdb) : string * rdb :=
  match check_inputs ik db with
  | Some e => (e, db)
  | None =>
      match put_outputs outs (foldl (mark_spent now) db ik) with
      | (Some e, db') => (e, db')
      | (None, db') => ("ok", <[ak := RStr aj]> db')
      end
  end.

(** No string is stored at the keys [ks]. *)
Definition hash_keys (ks : list string) (db : rdb) : Prop :=
  forall k s, k ∈ ks -> db !! k <> Some (RStr s).

Lemma lua_step {A B} (m : lua A) (f : A -> lua B) db :
  (m ≫= f) db =
    match m db with
    | (Val a, db') => f a db'
    | (Return s, db') => (Return s, db')
    | (LuaErr e, db') => (LuaErr e, db')
    end.
Proof. done. Qed.

Lemma call_exists_some k v db : db !! k = Some v -> call_exists k db = (Val 1, db).
Proof. intros H. unfold call_exists. by rewrite decide_True by by eexists. Qed.

Lemma call_exists_none k db : db !! k = None -> call_exists k db = (Val 0, db).
Proof. intros H. unfold call_exists. rewrite decide_False; [done|]. rewrite H. by intros []. Qed.

Section Loops.
(** A counted loop over the indices of a list is a loop over the list. *)
Fixpoint lua_each {X} (l : list X) (f : X -> lua unit) : lua unit :=
  match l with
  | [] => mret tt
  | x :: l' => f x ≫= fun _ => lua_each l' f
  end.

Lemma lua_for_each {X} (l : list X) (f : X -> lua unit) body i db :
  (forall j x db', l !! j = Some x -> body (i + j)%nat db' = f x db') ->
  lua_for i (length l) body db = lua_each l f db.
Proof.
  revert i db. induction l as [|x l IH]; intros i db Hb; [done|].
  cbn [length lua_for lua_each]. unfold mbind, lua_bind.
  replace (body i db) with (f x db)
    by (symmetry; rewrite <- (Nat.add_0_r i) at 1; by apply (Hb 0%nat)).
  destruct (f x db) as [[[]|s|e] db']; [|done..].
  apply IH. intros j y d Hj. replace (S i + j)%nat with (i + S j)%nat by lia. by apply Hb.
Qed.

Lemma lua_index_app_l l r j k db : l !! j = Some k -> lua_index (l ++ r) (1 + j) db = (Val k, db).
Proof. intros H. simpl. by rewrite lookup_app_l_Some with (1 := H). Qed.

Lemma lua_index_app_r l r j k db :
  r !! j = Some k -> lua_index (l ++ r) (length l + (1 + j)) db = (Val k, db).
Proof.
  intros H. replace (length l + (1 + j))%nat with (S (length l + j)) by lia. simpl.
  rewrite lookup_app_r by lia. replace (length l + j - length l)%nat with j by lia. by rewrite H.
Qed.

Lemma tonumber_show n db : Z.of_nat n <= 2 ^ 53 -> tonumber (show_u64 (Z.of_nat n)) db = (Val n, db).
Proof.
  intros H. unfold tonumber.
  assert (parse_digits 0 (show_u64 (Z.of_nat n)) = Some (Z.of_nat n)) as E
    by (apply show_u64_parse; unfold u64_max; lia).
  destruct (show_u64_nonempty (Z.of_nat n)) as (c & s & Hs).
  assert (show_u64 (Z.of_nat n) <> EmptyString) as Hne by by rewrite Hs.
  rewrite (parse_i64_digits _ _ Hne E).
  rewrite i64_checked_in by (unfold i64_range, i64_min, i64_max; lia). by rewrite Nat2Z.id.
Qed.

(** The [j]th chunk of the marshalled fields, when all have the same size. *)
Lemma unpack_chunk (chunks : list (list string)) pre n j c :
  Forall (fun c => length c = n) chunks -> chunks !! j = Some c ->
  lua_unpack (pre ++ concat chunks) (length pre + j * n) n = c.
Proof.
  intros Hf Hj. unfold lua_unpack. rewrite <- drop_drop, drop_app_length.
  revert j Hj. induction Hf as [|d chunks Hd Hf IH]; intros [|j] Hj; simplify_eq/=.
  - by rewrite drop_0, take_app_length.
  - rewrite <- drop_drop, drop_app_length' by done. by apply IH.
Qed.

Lemma pair_up_flatten fvs : pair_up (flatten_fields fvs) = Some fvs.
Proof.
  induction fvs as [|[f v] fvs IH]; [done|].
  change (flatten_fields ((f, v) :: fvs)) with (f :: v :: flatten_fields fvs). simpl. by rewrite IH.
Qed.

Lemma flatten_length fvs : length (flatten_fields fvs) = (length fvs * 2)%nat.
Proof.
  induction fvs as [|p fvs IH]; [done|].
  change (flatten_fields (p :: fvs)) with (p.1 :: p.2 :: flatten_fields fvs). simpl. by rewrite IH.
Qed.

Lemma hset_fields_notin fvs h k : k ∉ fvs.*1 -> hset_fields fvs h !! k = h !! k.
Proof.
  revert h. induction fvs as [|[f v] fvs IH]; intros h Hk; simpl in *; [done|].
  rewrite not_elem_of_cons in Hk. destruct Hk as [Hkf Hk]. rewrite IH by done.
  by rewrite lookup_insert_ne.
Qed.

Lemma hset_fields_union fvs g : NoDup fvs.*1 -> hset_fields fvs g = list_to_map fvs ∪ g.
Proof.
  revert g. induction fvs as [|[f v] fvs IH]; intros g Hnd; simpl in *; [by rewrite map_empty_union|].
  apply NoDup_cons in Hnd as [Hn Hnd]. rewrite IH by done.
  rewrite <- insert_union_r by (by apply not_elem_of_list_to_map_1).
  by rewrite insert_union_l.
Qed.

Lemma hset_fields_map fvs h :
  fvs ≡ₚ map_to_list h -> hset_fields fvs ∅ = h.
Proof.
  intros Hp. assert (NoDup fvs.*1) as Hnd by (rewrite Hp; apply NoDup_fst_map_to_list).
  rewrite hset_fields_union, map_union_empty by done.
  rewrite (list_to_map_proper fvs (map_to_list h)) by done.
  apply list_to_map_to_list.
Qed.

Lemma sorted_fields_map h : hset_fields (sorted_fields h) ∅ = h.
Proof. apply hset_fields_map, merge_sort_Permutation. Qed.

Lemma sorted_fields_length h : length (sorted_fields h) = size h.
Proof.
  unfold sorted_fields. rewrite (merge_sort_Permutation field_le (map_to_list h)).
  apply length_map_to_list.
Qed.
End Loops.

Section Script.
Implicit Types (ik : list string) (db : rdb).

(** The bodies of the three loops, with the key in place of its index. *)
Definition check_body (k : string) : lua unit :=
  e ← call_exists k;
  if e =? 0 then lua_return ("ERR:input token not found: " +:+ k)
  else
    s ← call_hget k "spent";
    if decide (s = Some "1") then lua_return ("ERR:input token already spent: " +:+ k)
    else mret tt.

Definition mark_body (now k : string) : lua unit := call_hset k ["spent"; "1"; "spent_at"; now].

Definition put_body (o : string * list string) : lua unit :=
  e ← call_exists o.1;
  if e =? 1 then lua_return ("ERR:output token already exists: " +:+ o.1) else call_hset o.1 o.2.

Lemma check_body_spec k db :
  check_body k db =
    (match db !! k with
     | None => Return ("ERR:input token not found: " +:+ k)
     | Some (RStr _) => LuaErr wrongtype
     | Some (RHash h) =>
         if spent_hash h then Return ("ERR:input token already spent: " +:+ k) else Val tt
     end, db).
Proof.
  unfold check_body. rewrite lua_step. destruct (db !! k) as [v|] eqn:E.
  - rewrite (call_exists_some _ _ _ E). cbn [Z.eqb]. rewrite lua_step. unfold call_hget. rewrite E.
    destruct v as [s|h]; [done|]. unfold spent_hash. case_decide as Hs.
    + by rewrite (bool_decide_true _ Hs).
    + by rewrite (bool_decide_false _ Hs).
  - by rewrite (call_exists_none _ _ E).
Qed.

Lemma check_loop ik db :
  hash_keys ik db ->
  lua_each ik check_body db =
    (match check_inputs ik db with Some e => Return e | None => Val tt end, db).
Proof.
  intros Ht. induction ik as [|k ik IH]; [done|].
  assert (hash_keys ik db) as Ht' by (intros k' s Hk; apply Ht; by right).
  cbn [lua_each check_inputs]. rewrite lua_step, check_body_spec.
  destruct (db !! k) as [[s|h]|] eqn:E; [|destruct (spent_hash h); [done|by apply IH]|done].
  exfalso. apply (Ht k s); [by left|done].
Qed.

Lemma mark_spent_keys now k db k' : is_Some (mark_spent now db k !! k') <-> is_Some (db !! k').
Proof.
  unfold mark_spent. destruct (db !! k) as [[s|h]|] eqn:E; [done| |done].
  rewrite lookup_insert_is_Some'. split; [|by right]. intros [<-|?]; [by rewrite E|done].
Qed.

Lemma check_inputs_None ik db :
  check_inputs ik db = None <->
  forall k, k ∈ ik -> exists h, db !! k = Some (RHash h) /\ spent_hash h = false.
Proof.
  induction ik as [|k ik IH]; simpl.
  - split; [intros _ k Hk; by apply elem_of_nil in Hk|done].
  - split.
    + intros H k' [->|Hk']%elem_of_cons.
      * destruct (db !! k) as [[s|h]|]; try done. destruct (spent_hash h) eqn:E; [done|]. eauto.
      * apply IH; [|done]. destruct (db !! k) as [[s|h]|]; try done. by destruct (spent_hash h).
    + intros H. destruct (H k) as (h & -> & ->); [by left|]. apply IH. intros k' Hk'. apply H. by right.
Qed.

Lemma mark_spent_hash now k db k' h :
  db !! k' = Some (RHash h) ->
  mark_spent now db k !! k' = Some (RHash (if decide (k = k') then mark_hash now h else h)).
Proof.
  intros H. unfold mark_spent. destruct (decide (k = k')) as [->|Hk].
  - rewrite H. by rewrite lookup_insert_eq.
  - destruct (db !! k) as [[]|]; [done| |done]. by rewrite lookup_insert_ne.
Qed.

Lemma mark_loop now ik db :
  (forall k, k ∈ ik -> exists h, db !! k = Some (RHash h)) ->
  lua_each ik (mark_body now) db = (Val tt, foldl (mark_spent now) db ik).
Proof.
  revert db. induction ik as [|k ik IH]; intros db Ht; [done|].
  cbn [lua_each foldl]. rewrite lua_step.
  destruct (Ht k) as [h Hk]; [by left|].
  assert (mark_body now k db = (Val tt, mark_spent now db k)) as ->
    by (unfold mark_body, call_hset, mark_spent; by rewrite Hk).
  apply IH. intros k' Hk'. destruct (Ht k') as [h' H']; [by right|].
  eexists. by apply mark_spent_hash.
Qed.

(** The outputs as the script receives them: key, and its marshalled fields. *)
Definition wire_outputs (outs : list (string * gmap string string)) : list (string * list string) :=
  (fun o => (o.1, flatten_fields (sorted_fields o.2))) <$> outs.

(** Arguments of [HSET] that write a field map. *)
Definition marshals (o : string * gmap string string) (w : string * list string) : Prop :=
  w.1 = o.1 /\ exists fvs, w.2 = flatten_fields fvs /\ fvs <> [] /\ hset_fields fvs ∅ = o.2.

Lemma wire_marshals outs : Forall (fun o => o.2 <> ∅) outs -> Forall2 marshals outs (wire_outputs outs).
Proof.
  intros Hne. apply Forall2_fmap_r. induction Hne as [|o outs Ho _ IH]; constructor; [|done].
  split; [done|]. exists (sorted_fields o.2). split_and!; [done| |apply sorted_fields_map].
  intros El. apply Ho. rewrite <- (sorted_fields_map o.2). by rewrite El.
Qed.

Lemma call_hset_new k fvs db :
  fvs <> [] -> db !! k = None ->
  call_hset k (flatten_fields fvs) db = (Val tt, <[k := RHash (hset_fields fvs ∅)]> db).
Proof.
  intros Hf Hk. unfold call_hset. rewrite pair_up_flatten, Hk. by destruct fvs.
Qed.

Lemma put_loop outs wire db :
  Forall2 marshals outs wire ->
  lua_each wire put_body db =
    (match (put_outputs outs db).1 with Some e => Return e | None => Val tt end, (put_outputs outs db).2).
Proof.
  intros Hm. revert db. induction Hm as [|[k h] [k' args] outs wire (Ek & fvs & Ea & Hf & Eh) Hm IH]; intros db; [done|].
  cbn in Ek, Ea, Eh. subst k' args h.
  cbn [lua_each put_outputs]. rewrite lua_step. unfold put_body at 1. rewrite lua_step. cbn [fst snd].
  destruct (db !! k) as [v|] eqn:E; [by rewrite (call_exists_some _ _ _ E)|].
  rewrite (call_exists_none _ _ E). cbn [Z.eqb]. rewrite call_hset_new by done. apply IH.
Qed.

(** The reply of a script. *)
Definition script_reply (r : lua_res string * rdb) : rreply * rdb :=
  match r with
  | (Val s, db') | (Return s, db') => (RBulk (Some s), db')
  | (LuaErr e, db') => (RError e, db')
  end.

(** The part the replace scripts share, after they have read their scalar
    arguments. *)
Lemma replace_loops ik outs wire now ak aj (check mark put : nat -> lua unit) db :
  hash_keys ik db -> Forall2 marshals outs wire ->
  (forall j k d, ik !! j = Some k -> check (1 + j)%nat d = check_body k d) ->
  (forall j k d, ik !! j = Some k -> mark (1 + j)%nat d = mark_body now k d) ->
  (forall j w d, wire !! j = Some w -> put (1 + j)%nat d = put_body w d) ->
  script_reply ((_ ← lua_for 1 (length ik) check; _ ← lua_for 1 (length ik) mark;
    _ ← lua_for 1 (length outs) put; _ ← call_set ak aj; mret "ok") db) =
  (RBulk (Some (replace_spec ik outs now ak aj db).1), (replace_spec ik outs now ak aj db).2).
Proof.
  intros Ht Hm Hcheck Hmark Hput. unfold replace_spec.
  rewrite lua_step, (lua_for_each ik check_body) by (intros j k d; by apply Hcheck).
  rewrite check_loop by done. destruct (check_inputs ik db) as [e|] eqn:Ec; [done|].
  rewrite check_inputs_None in Ec.
  rewrite lua_step, (lua_for_each ik (mark_body now)) by (intros j k d; by apply Hmark).
  rewrite mark_loop by naive_solver.
  rewrite lua_step, (Forall2_length _ _ _ Hm), (lua_for_each wire put_body) by (intros j w d; by apply Hput).
  rewrite (put_loop outs) by done.
  by destruct (put_outputs outs (foldl (mark_spent now) db ik)) as [[e|] db'].
Qed.
End Script.

Section Refinement.
Context (ik : list string) (outs : list (string * gmap string string)) (now ak aj : string) (f : nat).
Hypothesis Hni : Z.of_nat (length ik) <= 2 ^ 53.
Hypothesis Hno : Z.of_nat (length outs) <= 2 ^ 53.
Hypothesis Hf : Z.of_nat f <= 2 ^ 53.
Hypothesis Hnonempty : Forall (fun o => o.2 <> ∅) outs.
Hypothesis Huniform : Forall (fun o => size o.2 = f) outs.

Definition replace_argv : list string :=
  [show_u64 (Z.of_nat (length ik)); show_u64 (Z.of_nat (length outs)); show_u64 (Z.of_nat f);
   now; ak; aj] ++ concat (wire_outputs outs).*2.

Lemma wire_chunk j k args db :
  wire_outputs outs !! j = Some (k, args) ->
  lua_index (ik ++ outs.*1) (length ik + (1 + j)) db = (Val k, db) /\
  lua_unpack replace_argv (6 + (1 + j - 1) * f * 2) (f * 2) = args.
Proof.
  intros Hj. split.
  - apply lua_index_app_r. unfold wire_outputs in Hj. rewrite list_lookup_fmap in Hj.
    rewrite list_lookup_fmap. destruct (outs !! j); simplify_eq/=. done.
  - unfold replace_argv. replace ((1 + j - 1) * f * 2)%nat with (j * (f * 2))%nat by nia.
    match goal with |- lua_unpack (?l ++ _) _ _ = _ => change 6%nat with (length l) end.
    apply unpack_chunk; [|by rewrite list_lookup_fmap, Hj].
    unfold wire_outputs. rewrite !Forall_fmap. eapply Forall_impl; [exact Huniform|].
    intros o Ho. simpl in *. rewrite flatten_length, sorted_fields_length. by rewrite Ho.
Qed.

(** The script on its marshalled arguments is [replace_spec]. *)
Lemma replace_lua_spec db :
  hash_keys ik db ->
  exec (EVALSHA REPLACE_SHA (ik ++ outs.*1) replace_argv) db =
    (RBulk (Some (replace_spec ik outs now ak aj db).1), (replace_spec ik outs now ak aj db).2).
Proof.
  intros Ht. unfold exec, run_script, REPLACE_LUA.
  rewrite lua_step. change (lua_index replace_argv 1) with (@mret lua _ _ (show_u64 (Z.of_nat (length ik)))).
  rewrite lua_step. cbn [mret lua_ret]. rewrite tonumber_show by done.
  rewrite lua_step. change (lua_index replace_argv 2) with (@mret lua _ _ (show_u64 (Z.of_nat (length outs)))).
  rewrite lua_step. cbn [mret lua_ret]. rewrite tonumber_show by done.
  rewrite lua_step. change (lua_index replace_argv 3) with (@mret lua _ _ (show_u64 (Z.of_nat f))).
  rewrite lua_step. cbn [mret lua_ret]. rewrite tonumber_show by done.
  do 3 (rewrite lua_step; simpl (lua_index replace_argv _); cbn [mret lua_ret]).
  apply (replace_loops _ _ (wire_outputs outs)); [done|by apply wire_marshals| | |].
  - intros j k d Hj. by rewrite lua_step, (lua_index_app_l _ _ _ _ _ Hj).
  - intros j k d Hj. by rewrite lua_step, (lua_index_app_l _ _ _ _ _ Hj).
  - intros j [k args] d Hj. destruct (wire_chunk _ _ _ d Hj) as [Hk Hargs].
    rewrite lua_step, Hk. unfold put_body. cbn [fst snd]. by rewrite <- Hargs.
Qed.
End Refinement.

(** ** The effect of a replace, key by key *)

Lemma check_inputs_error ik db e : check_inputs ik db = Some e -> exists m, e = "ERR:" +:+ m.
Proof.
  induction ik as [|k ik IH]; simpl; [done|].
  destruct (db !! k) as [[s|h]|]; [| |]; intros H; try (injection H as <-; by eexists).
  destruct (spent_hash h); [injection H as <-; by eexists|by apply IH].
Qed.

Lemma put_outputs_error outs db e : (put_outputs outs db).1 = Some e -> exists m, e = "ERR:" +:+ m.
Proof.
  revert db. induction outs as [|[k h] outs IH]; intros db; simpl; [done|].
  destruct (db !! k); [|apply IH]. intros [= <-]. by eexists.
Qed.

Lemma foldl_mark_lookup now ik db k :
  foldl (mark_spent now) db ik !! k =
    match db !! k with
    | Some (RHash h) => Some (RHash (if decide (k ∈ ik) then mark_hash now h else h))
    | o => o
    end.
Proof.
  revert db. induction ik as [|i ik IH]; intros db; cbn [foldl].
  - destruct (db !! k) as [[]|]; [done| |done]. by rewrite decide_False by apply not_elem_of_nil.
  - rewrite IH. unfold mark_spent. destruct (decide (i = k)) as [->|Hi].
    + destruct (db !! k) as [[s|h]|] eqn:E; [by rewrite E| |by rewrite E].
      rewrite lookup_insert_eq. rewrite (decide_True (P := k ∈ k :: ik)) by by left.
      case_decide; [|done]. do 2 f_equal. unfold mark_hash. apply map_eq. intros x.
      by rewrite !lookup_insert; repeat case_decide.
    + assert (forall v, (match db !! i with Some (RHash h) => <[i := RHash (mark_hash now h)]> db | _ => db end)
        !! k = v <-> db !! k = v) as Hv.
      { intros v. destruct (db !! i) as [[]|]; [done| |done]. by rewrite lookup_insert_ne. }
      rewrite (proj2 (Hv (db !! k)) eq_refl).
      destruct (db !! k) as [[]|]; [done| |done]. do 2 f_equal.
      destruct (decide (k ∈ ik)) as [Hk|Hk]; [rewrite decide_True; [done|by right]|].
      rewrite decide_False; [done|]. rewrite elem_of_cons. naive_solver.
Qed.

Lemma put_outputs_ok outs db db' :
  put_outputs outs db = (None, db') ->
  NoDup outs.*1 /\ (forall k, k ∈ outs.*1 -> db !! k = None) /\
  (forall k h, (k, h) ∈ outs -> db' !! k = Some (RHash h)) /\
  (forall k, k ∉ outs.*1 -> db' !! k = db !! k).
Proof.
  revert db. induction outs as [|[k h] outs IH]; intros db; cbn [put_outputs].
  - intros [= <-]. split_and!; [constructor|set_solver|set_solver|done].
  - destruct (db !! k) eqn:E; [done|]. intros (Hnd & Hfresh & Hin & Hout)%IH.
    assert (k ∉ outs.*1) as Hk.
    { intros Hk. specialize (Hfresh k Hk). by rewrite lookup_insert_eq in Hfresh. }
    split_and!.
    + by constructor.
    + intros k' [->|Hk']%elem_of_cons; [done|]. specialize (Hfresh k' Hk').
      rewrite lookup_insert_ne in Hfresh by naive_solver. done.
    + intros k' h' [[= -> ->]|Hk']%elem_of_cons; [|by apply Hin].
      rewrite Hout by done. by rewrite lookup_insert_eq.
    + intros k' Hk'. cbn in Hk'. rewrite not_elem_of_cons in Hk'. destruct Hk' as [Hne Hk'].
      rewrite Hout by done. by rewrite lookup_insert_ne.
Qed.

Lemma put_outputs_keep outs db k v : db !! k = Some v -> (put_outputs outs db).2 !! k = Some v.
Proof.
  revert db. induction outs as [|[k' h] outs IH]; intros db H; cbn [put_outputs]; [done|].
  destruct (db !! k') eqn:E; [done|]. apply IH. rewrite lookup_insert_ne; [done|]. intros ->. congruence.
Qed.

Lemma put_outputs_conflict outs db e :
  (put_outputs outs db).1 = Some e ->
  (exists k, k ∈ outs.*1 /\ is_Some (db !! k)) \/ ~ NoDup outs.*1.
Proof.
  revert db. induction outs as [|[k h] outs IH]; intros db; cbn [put_outputs]; [done|].
  destruct (db !! k) as [v|] eqn:E.
  - intros _. left. exists k. split; [by left|eauto].
  - intros [(k' & Hk' & Hs)|Hnd]%IH.
    + destruct (decide (k = k')) as [<-|Hne].
      * right. intros [Hn _]%NoDup_cons. done.
      * left. exists k'. rewrite lookup_insert_ne in Hs by done. split; [by right|done].
    + right. intros [_ ?]%NoDup_cons. done.
Qed.

(** The successful replace: every input was there and unspent and is now
    spent; every output was absent, is distinct from the others, and holds
    exactly its fields; the audit entry is written; nothing else changed. *)
Record replaced (ik : list string) (outs : list (string * gmap string string)) (now ak aj : string)
    (db db' : rdb) : Prop := {
  rp_input : forall k, k ∈ ik -> exists h, db !! k = Some (RHash h) /\ spent_hash h = false /\
    (k <> ak -> db' !! k = Some (RHash (mark_hash now h)));
  rp_distinct : NoDup outs.*1;
  rp_fresh : forall k, k ∈ outs.*1 -> db !! k = None;
  rp_output : forall k h, (k, h) ∈ outs -> k <> ak -> db' !! k = Some (RHash h);
  rp_audit : db' !! ak = Some (RStr aj);
  rp_frame : forall k, k ∉ ik -> k ∉ outs.*1 -> k <> ak -> db' !! k = db !! k;
}.

Lemma replace_spec_ok ik outs now ak aj db db' :
  replace_spec ik outs now ak aj db = ("ok", db') -> replaced ik outs now ak aj db db'.
Proof.
  unfold replace_spec. destruct (check_inputs ik db) as [e|] eqn:Ec.
  { intros [= -> _]. by apply check_inputs_error in Ec as [m Hm]. }
  rewrite check_inputs_None in Ec.
  destruct (put_outputs outs _) as [[e|] db1] eqn:Ep.
  { intros [= -> _]. assert ((put_outputs outs (foldl (mark_spent now) db ik)).1 = Some "ok") as Hp
      by by rewrite Ep. by apply put_outputs_error in Hp as [m Hm]. }
  intros [= <-]. apply put_outputs_ok in Ep as (Hnd & Hfresh & Hin & Hout).
  assert (forall k, k ∈ outs.*1 -> db !! k = None) as Hf.
  { intros k Hk. specialize (Hfresh k Hk). rewrite foldl_mark_lookup in Hfresh.
    by destruct (db !! k) as [[]|]. }
  assert (forall k, k ∈ ik -> k ∉ outs.*1) as Hdisj.
  { intros k Hk Ho. destruct (Ec k Hk) as (h & E & _). by rewrite Hf in E. }
  split; [|done|done| |by rewrite lookup_insert_eq|].
  - intros k Hk. destruct (Ec k Hk) as (h & E & Hs). exists h. split_and!; [done..|]. intros Hak.
    rewrite lookup_insert_ne, Hout, foldl_mark_lookup, E, decide_True by auto. done.
  - intros k h Hk Hak. rewrite lookup_insert_ne by done. by apply Hin.
  - intros k Hk Ho Hak. rewrite lookup_insert_ne, Hout, foldl_mark_lookup by done.
    destruct (db !! k) as [[s|h]|]; [done|by rewrite decide_False|done].
Qed.

(** The rejected replace: nothing changed, or some output was already taken
    and then every input is spent all the same. *)
Lemma replace_spec_err ik outs now ak aj db r db' :
  replace_spec ik outs now ak aj db = (r, db') -> r <> "ok" ->
  (check_inputs ik db = Some r /\ db' = db) \/
  (check_inputs ik db = None /\
   ((exists k, k ∈ outs.*1 /\ is_Some (db !! k)) \/ ~ NoDup outs.*1) /\
   forall k, k ∈ ik -> exists h, db' !! k = Some (RHash h) /\ spent_hash h = true).
Proof.
  unfold replace_spec. destruct (check_inputs ik db) as [e|] eqn:Ec.
  { intros [= <- <-] _. by left. }
  destruct (put_outputs outs _) as [[e|] db1] eqn:Ep; [|naive_solver].
  intros [= <- <-] _. right. split_and!; [done| |].
  - destruct (put_outputs_conflict outs (foldl (mark_spent now) db ik) e) as [(k & Hk & Hs)|];
      [by rewrite Ep| |by right].
    left. exists k. split; [done|]. rewrite foldl_mark_lookup in Hs. destruct (db !! k) as [[]|]; eauto.
  - intros k Hk. rewrite check_inputs_None in Ec. destruct (Ec k Hk) as (h & E & _).
    exists (mark_hash now h). split; [|unfold spent_hash, mark_hash; by rewrite lookup_insert_ne, lookup_insert_eq].
    replace db1 with (put_outputs outs (foldl (mark_spent now) db ik)).2 by by rewrite Ep.
    apply put_outputs_keep. by rewrite foldl_mark_lookup, E, decide_True.
Qed.

(** ** The burn script *)

Definition burn_spec (tk ak now aj : string) (db : rdb) : string * rdb :=
  match db !! tk with
  | Some (RHash h) =>
      if spent_hash h then ("ERR:token already spent", db)
      else ("ok", <[ak := RStr aj]> (mark_spent now db tk))
  | _ => ("ERR:token not found", db)
  end.

Lemma burn_lua_spec tk ak now aj db :
  hash_keys [tk] db ->
  exec (EVALSHA BURN_SHA [tk; ak] [now; aj]) db =
    (RBulk (Some (burn_spec tk ak now aj db).1), (burn_spec tk ak now aj db).2).
Proof.
  intros Ht. unfold exec, run_script, BURN_LUA, burn_spec.
  do 4 (rewrite lua_step; cbn [lua_index lookup list_lookup mret lua_ret]).
  rewrite lua_step. destruct (db !! tk) as [[s|h]|] eqn:E.
  - exfalso. apply (Ht tk s); [by left|done].
  - rewrite (call_exists_some _ _ _ E). cbn [Z.eqb]. rewrite lua_step.
    unfold call_hget at 1. rewrite E. unfold spent_hash. case_decide as Hs.
    + by rewrite (bool_decide_true _ Hs).
    + rewrite (bool_decide_false _ Hs). rewrite lua_step. unfold call_hset, mark_spent. cbn [pair_up].
      simpl. rewrite E. done.
  - by rewrite (call_exists_none _ _ E).
Qed.

(** ** The store *)

Section StoreSpec.
Context `{RedisLaws} `{Chrono} {A : Asset} `{!HashRecord Rec} {K : KeyStrategy} {KL : KeyLaws}
  `{Serde ReplacementRecord} `{Serde BurnRecord} `{Serde MiningState}.
Implicit Types (op : ReplaceOp Rec) (db : rdb) (ns : Namespace).

Definition in_keys ns op : list string := token_key NAME ns <$> ro_inputs op.
Definition out_entries ns op : list (string * gmap string string) :=
  (fun o => (token_key NAME ns (record_hash o), to_fields o)) <$> ro_outputs op.

(** What the script needs of a request: lengths a Lua number holds, and the
    comment of the store, "each output has the same set of fields". *)
Record op_wf op : Prop := {
  wf_inputs : Z.of_nat (length (ro_inputs op)) <= 2 ^ 53;
  wf_outputs : Z.of_nat (length (ro_outputs op)) <= 2 ^ 53;
  wf_fields : Forall (fun o => to_fields o <> ∅ /\ Z.of_nat (size (to_fields o)) <= 2 ^ 53) (ro_outputs op);
  wf_uniform : forall o o', o ∈ ro_outputs op -> o' ∈ ro_outputs op -> size (to_fields o) = size (to_fields o');
}.

(** Token keys of a namespace hold hashes. *)
Definition tokens_typed ns db : Prop := forall h s, db !! token_key NAME ns h <> Some (RStr s).

Definition replace_step (now : string) ns db op : ReplaceResult * rdb :=
  let r := replace_spec (in_keys ns op) (out_entries ns op) now
    (replacement_key NAME ns (rr_id (ro_record op))) (to_json (ro_record op)) db in
  (replace_reply (RBulk (Some r.1)), r.2).

Fixpoint replace_batch (now : string) ns (ops : list (ReplaceOp Rec)) db : list ReplaceResult * rdb :=
  match ops with
  | [] => ([], db)
  | op :: ops' =>
      let '(r, db1) := replace_step now ns db op in
      let '(rs, db2) := replace_batch now ns ops' db1 in (r :: rs, db2)
  end.

Lemma out_keys ns op : (out_entries ns op).*1 = (fun o => token_key NAME ns (record_hash o)) <$> ro_outputs op.
Proof. unfold out_entries. rewrite <- list_fmap_compose. done. Qed.

Lemma list_fmap_compose' ns (l : list Rec) :
  (fun o => token_key NAME ns (record_hash o)) <$> l = token_key NAME ns <$> (record_hash <$> l).
Proof. by rewrite <- list_fmap_compose. Qed.

Lemma check_inputs_bad ns op db e :
  check_inputs (in_keys ns op) db = Some e ->
  exists h : string, h ∈ ro_inputs op /\
    forall rec, db !! token_key NAME ns h = Some (RHash rec) -> spent_hash rec = true.
Proof.
  unfold in_keys. induction (ro_inputs op) as [|h l IH]; cbn [fmap list_fmap check_inputs]; [done|].
  destruct (db !! token_key NAME ns h) as [[s|rec]|] eqn:E.
  - intros _. exists h. split; [by left|congruence].
  - destruct (spent_hash rec) eqn:Es.
    + intros _. exists h. split; [by left|congruence].
    + intros (h' & Hh' & Hs)%IH. exists h'. split; [by right|done].
  - intros _. exists h. split; [by left|congruence].
Qed.

Lemma in_keys_elem ns op h : token_key NAME ns h ∈ in_keys ns op <-> h ∈ ro_inputs op.
Proof.
  unfold in_keys. rewrite list_elem_of_fmap. split; [|eauto].
  intros (h' & E & Hh). by apply token_key_inj in E as ->.
Qed.

Lemma out_keys_elem ns op h :
  token_key NAME ns h ∈ (out_entries ns op).*1 <-> h ∈ record_hash <$> ro_outputs op.
Proof.
  rewrite out_keys, !list_elem_of_fmap. split.
  - intros (o & E & Ho). apply token_key_inj in E as ->. eauto.
  - intros (o & -> & Ho). eauto.
Qed.

Definition output_fields op : nat :=
  match ro_outputs op with [] => O | first :: _ => size (to_fields first) end.

Lemma replace_cmd_marshal now ns op :
  replace_cmd now ns op = EVALSHA REPLACE_SHA (in_keys ns op ++ (out_entries ns op).*1)
    (replace_argv (in_keys ns op) (out_entries ns op) now
      (replacement_key NAME ns (rr_id (ro_record op))) (to_json (ro_record op)) (output_fields op)).
Proof.
  unfold replace_cmd, replace_argv, in_keys. rewrite out_keys. unfold wire_outputs, out_entries.
  rewrite <- !list_fmap_compose, !length_fmap, flat_map_concat_map. done.
Qed.

Lemma replace_cmd_exec now ns op db :
  op_wf op -> tokens_typed ns db ->
  exec (replace_cmd now ns op) db =
    let r := replace_spec (in_keys ns op) (out_entries ns op) now
      (replacement_key NAME ns (rr_id (ro_record op))) (to_json (ro_record op)) db in
    (RBulk (Some r.1), r.2).
Proof.
  intros [Hi Ho Hf Hu] Ht. rewrite replace_cmd_marshal. apply replace_lua_spec.
  - unfold in_keys. by rewrite length_fmap.
  - unfold out_entries. by rewrite length_fmap.
  - unfold output_fields. destruct Hf as [|o l [_ Ho'] _]; [lia|done].
  - unfold out_entries. rewrite Forall_fmap. eapply Forall_impl; [exact Hf|]. by intros o [? _].
  - unfold out_entries, output_fields. rewrite Forall_fmap, Forall_forall. intros o Hin. simpl.
    destruct (ro_outputs op) as [|o1 l]; [by apply elem_of_nil in Hin|]. apply Hu; [done|by left].
  - intros k s (h & -> & _)%list_elem_of_fmap. apply Ht.
Qed.

Lemma replace_cmd_spec now ns op db :
  op_wf op -> tokens_typed ns db ->
  exists r, exec (replace_cmd now ns op) db = (RBulk (Some r), (replace_step now ns db op).2) /\
    replace_reply (RBulk (Some r)) = (replace_step now ns db op).1.
Proof. intros Hwf Ht. rewrite replace_cmd_exec by done. eexists. split; reflexivity. Qed.

Lemma mark_spent_typed ns now db k : tokens_typed ns db -> tokens_typed ns (mark_spent now db k).
Proof.
  intros Ht h s E. unfold mark_spent in E. destruct (db !! k) as [[]|]; [by eapply Ht| |by eapply Ht].
  apply lookup_insert_Some in E as [[_ E]|[_ E]]; [done|by eapply Ht].
Qed.

Lemma put_outputs_typed ns outs db : tokens_typed ns db -> tokens_typed ns (put_outputs outs db).2.
Proof.
  revert db. induction outs as [|[k h] outs IH]; intros db Ht; cbn [put_outputs]; [done|].
  destruct (db !! k); [done|]. apply IH. intros h' s E.
  apply lookup_insert_Some in E as [[_ E]|[_ E]]; [done|by eapply Ht].
Qed.

Lemma replace_step_typed now ns op db : tokens_typed ns db -> tokens_typed ns (replace_step now ns db op).2.
Proof.
  intros Ht. unfold replace_step, replace_spec. cbn [snd]. destruct (check_inputs _ _); [done|].
  assert (tokens_typed ns (foldl (mark_spent now) db (in_keys ns op))) as Hm.
  { revert db Ht. induction (in_keys ns op) as [|k l IH]; intros db Ht; cbn [foldl]; [done|].
    apply IH. by apply mark_spent_typed. }
  pose proof (put_outputs_typed ns (out_entries ns op) _ Hm) as Hp.
  destruct (put_outputs _ _) as [[e|] db']; cbn in *; [done|].
  intros h s E. apply lookup_insert_Some in E as [[E _]|[_ E]]; [|by eapply Hp].
  symmetry in E. by apply token_not_replacement in E.
Qed.

Lemma replace_cmds_spec now ns ops db :
  Forall op_wf ops -> tokens_typed ns db ->
  map replace_reply (exec_all (map (replace_cmd now ns) ops) db).1 = (replace_batch now ns ops db).1 /\
  (exec_all (map (replace_cmd now ns) ops) db).2 = (replace_batch now ns ops db).2.
Proof.
  intros Hwf. revert db. induction Hwf as [|op ops Hop Hwf IH]; intros db Ht; [done|].
  cbn [map exec_all replace_batch]. destruct (replace_cmd_spec now ns op db Hop Ht) as (r & -> & Hr).
  destruct (IH _ (replace_step_typed now ns op db Ht)) as [Hl Hd].
  destruct (replace_step now ns db op) as [r1 db1]. cbn [fst snd] in *.
  destruct (exec_all _ db1) as [rs db2], (replace_batch now ns ops db1) as [rs' db2'].
  cbn in *. by rewrite Hl, Hd, <- Hr.
Qed.

(** C8: [batch_replace] is a refinement of running its requests one after
    the other through the marshalling-free [replace_spec], where every output of
    a request has the same number of fields ([op_wf]; RGB outputs of which only
    some are locked have not); when the connection fails every request is
    answered [Failed] and only some prefix of them has run. *)
Theorem batch_replace_refines now ns ops st res st' :
  Forall op_wf ops -> tokens_typed ns (rview st) ->
  redis_batch_replace now ns ops st = (res, st') ->
  (res, rview st') = replace_batch (to_rfc3339 now) ns ops (rview st) \/
  exists e n, res = map (fun _ => ReplaceFailed e) ops /\
    rview st' = (replace_batch (to_rfc3339 now) ns (take n ops) (rview st)).2.
Proof.
  intros Hwf Ht. unfold redis_batch_replace. destruct ops as [|op ops].
  { intros [= <- <-]. by left. }
  destruct (query _ st) as [[values|e] st1] eqn:Eq; intros [= <- <-].
  - left. apply query_ok in Eq as [Hq _].
    destruct (replace_cmds_spec (to_rfc3339 now) ns (op :: ops) (rview st) Hwf Ht) as [Hl Hd].
    rewrite Hq in Hl, Hd. cbn [fst snd] in Hl, Hd. rewrite Hl, Hd. by destruct (replace_batch _ _ _ _).
  - right. apply query_err in Eq as [n Hn]. exists e, n. split; [done|].
    rewrite Hn, <- fmap_take. apply replace_cmds_spec; [|done]. by apply Forall_take.
Qed.

Lemma replace_reply_ok r : replace_reply (RBulk (Some r)) = ReplaceOk <-> r = "ok".
Proof.
  unfold replace_reply. destruct (String.eqb_spec r "ok") as [->|Hne]; [done|].
  destruct (strip_prefix "ERR:" r); naive_solver.
Qed.

Lemma step_commits now ns db op db' :
  replace_step now ns db op = (ReplaceOk, db') ->
  (forall h : string, h ∈ ro_inputs op -> exists rec, db !! token_key NAME ns h = Some (RHash rec) /\
     spent_hash rec = false /\ db' !! token_key NAME ns h = Some (RHash (mark_hash now rec))) /\
  NoDup (record_hash <$> ro_outputs op) /\
  (forall o, o ∈ ro_outputs op -> db !! token_key NAME ns (record_hash o) = None /\
     db' !! token_key NAME ns (record_hash o) = Some (RHash (to_fields o))) /\
  db' !! replacement_key NAME ns (rr_id (ro_record op)) = Some (RStr (to_json (ro_record op))) /\
  (forall h : string, h ∉ ro_inputs op -> h ∉ record_hash <$> ro_outputs op ->
     db' !! token_key NAME ns h = db !! token_key NAME ns h).
Proof.
  unfold replace_step. destruct (replace_spec _ _ _ _ _ _) as [r db1] eqn:E. cbn [fst snd].
  intros [= Hr <-]. apply replace_reply_ok in Hr as ->. apply replace_spec_ok in E as [Hi Hd Hf Ho Ha Hfr].
  split_and!; [| | |done|].
  - intros h Hh. destruct (Hi (token_key NAME ns h)) as (rec & E & Hs & E'); [by apply in_keys_elem|].
    exists rec. split_and!; [done..|]. apply E', token_not_replacement.
  - rewrite out_keys, list_fmap_compose' in Hd. by apply NoDup_fmap_1 in Hd.
  - intros o Hin. split.
    + apply Hf, out_keys_elem, list_elem_of_fmap. eauto.
    + apply Ho; [|apply token_not_replacement]. apply list_elem_of_fmap. eauto.
  - intros h Hni Hno. apply Hfr; [by rewrite in_keys_elem|by rewrite out_keys_elem|apply token_not_replacement].
Qed.

Lemma step_rejects now ns db op m db' :
  replace_step now ns db op = (ReplaceFailed m, db') ->
  (db' = db /\ exists h : string, h ∈ ro_inputs op /\
     forall rec, db !! token_key NAME ns h = Some (RHash rec) -> spent_hash rec = true) \/
  (((exists o, o ∈ ro_outputs op /\ is_Some (db !! token_key NAME ns (record_hash o))) \/
    ~ NoDup (record_hash <$> ro_outputs op)) /\
   forall h : string, h ∈ ro_inputs op -> exists rec,
     db' !! token_key NAME ns h = Some (RHash rec) /\ spent_hash rec = true).
Proof.
  unfold replace_step. destruct (replace_spec _ _ _ _ _ _) as [r db1] eqn:E. cbn [fst snd].
  intros [= Hr <-]. assert (r <> "ok") as Hne by (intros ->; done).
  destruct (replace_spec_err _ _ _ _ _ _ _ _ E Hne) as [[Hc ->]|(_ & Hc & Hs)].
  - left. split; [done|]. by apply check_inputs_bad in Hc.
  - right. split; [|intros h Hh; apply Hs; by apply in_keys_elem].
    destruct Hc as [(k & Hk & Hsome)|Hnd].
    + left. rewrite out_keys in Hk. apply list_elem_of_fmap in Hk as (o & -> & Ho). eauto.
    + right. intros Hn. apply Hnd. rewrite out_keys, list_fmap_compose'. apply NoDup_fmap_2; [|done].
      intros h h'. apply token_key_inj.
Qed.

(** A replace command is a step of the specification. *)
Lemma replace_exec now ns db op r db' :
  op_wf op -> tokens_typed ns db -> exec (replace_cmd now ns op) db = (r, db') ->
  replace_step now ns db op = (replace_reply r, db').
Proof.
  intros Hwf Ht. destruct (replace_cmd_spec now ns op db Hwf Ht) as (s & -> & Hs). intros [= <- <-].
  rewrite Hs. reflexivity.
Qed.

(** C6: where every output has the same number of fields ([op_wf]; RGB outputs of
    which only some are locked have not), a replace command the server answers
    [Ok] spent inputs that were all recorded and unspent, created outputs none of which existed, with exactly the fields
    of their records and pairwise distinct hashes, wrote its audit entry, and
    changed no other token. *)
Theorem replace_commits now ns db op r db' :
  op_wf op -> tokens_typed ns db ->
  exec (replace_cmd now ns op) db = (r, db') -> replace_reply r = ReplaceOk ->
  (forall h : string, h ∈ ro_inputs op -> exists rec, db !! token_key NAME ns h = Some (RHash rec) /\
     spent_hash rec = false /\ db' !! token_key NAME ns h = Some (RHash (mark_hash now rec))) /\
  NoDup (record_hash <$> ro_outputs op) /\
  (forall o, o ∈ ro_outputs op -> db !! token_key NAME ns (record_hash o) = None /\
     db' !! token_key NAME ns (record_hash o) = Some (RHash (to_fields o))) /\
  db' !! replacement_key NAME ns (rr_id (ro_record op)) = Some (RStr (to_json (ro_record op))) /\
  (forall h : string, h ∉ ro_inputs op -> h ∉ record_hash <$> ro_outputs op ->
     db' !! token_key NAME ns h = db !! token_key NAME ns h).
Proof.
  intros Hwf Ht E Hr. apply (step_commits now ns db op db'). rewrite <- Hr. by apply replace_exec.
Qed.

(** C7: where every output has the same number of fields ([op_wf]; RGB outputs of
    which only some are locked have not), a replace command that is not answered
    [Ok] either found an input missing or spent and changed nothing, or passed the input checks and met an output
    hash already in use: then every one of its inputs is spent although the
    replace failed. *)
Theorem replace_rejects now ns db op r m db' :
  op_wf op -> tokens_typed ns db ->
  exec (replace_cmd now ns op) db = (r, db') -> replace_reply r = ReplaceFailed m ->
  (db' = db /\ exists h : string, h ∈ ro_inputs op /\
     forall rec, db !! token_key NAME ns h = Some (RHash rec) -> spent_hash rec = true) \/
  (((exists o, o ∈ ro_outputs op /\ is_Some (db !! token_key NAME ns (record_hash o))) \/
    ~ NoDup (record_hash <$> ro_outputs op)) /\
   forall h : string, h ∈ ro_inputs op -> exists rec,
     db' !! token_key NAME ns h = Some (RHash rec) /\ spent_hash rec = true).
Proof.
  intros Hwf Ht E Hr. apply (step_rejects now ns db op m db'). rewrite <- Hr. by apply replace_exec.
Qed.
End StoreSpec.
