(* ===== verification/RedisLedger.v ===== *)
(** * The Redis ledger under interleaved clients

    Each command of a pipeline and each script is one atomic step of the Redis
    server; the steps of several clients interleave in any order.  This file
    takes the store's commands as the steps of a transition system and proves
    the single-use property of token hashes over every interleaving, then the
    behaviour of the insert and read paths. *)
From S2P Require Import Prelude Decimal Amount External AssetCore Storage Redis.

Section Traces.
Context `{RedisService} `{Chrono} {A : Asset} `{!HashRecord Rec} {K : KeyStrategy} {KL : KeyLaws}
  `{Serde ReplacementRecord} `{Serde BurnRecord} `{Serde MiningState}.
Implicit Types (db : rdb) (ns : Namespace).

(** The commands the methods of the store send. *)
Inductive ledger_cmd :=
  | CReplace (now : string) (op : ReplaceOp Rec)
  | CBurn (now : string) (op : string * BurnRecord)
  | CInsertNew (r : Rec)
  | CInsertFields (r : Rec)
  | CGet (h : string)
  | CCheck (h : string)
  | CGetMining
  | CSetMining (m : MiningState).

Definition cmd_of ns (c : ledger_cmd) : rcmd :=
  match c with
  | CReplace now op => replace_cmd now ns op
  | CBurn now op => burn_cmd now ns op
  | CInsertNew r => HSETNX (record_key r) "amount_wats" (show_i64 (record_amount_wats r))
  | CInsertFields r => HSET (record_key r) (map_to_list (delete "amount_wats" (to_fields r)))
  | CGet h => HGETALL (token_key NAME ns h)
  | CCheck h => HGET (token_key NAME ns h) "spent"
  | CGetMining => GET (mining_state_key NAME)
  | CSetMining m => SET (mining_state_key NAME) (to_json m)
  end.

(** The hashes a command spends when it is accepted. *)
Definition consumed (c : ledger_cmd) : list string :=
  match c with
  | CReplace _ op => ro_inputs op
  | CBurn _ op => [op.1]
  | _ => []
  end.

Definition accepted (r : rreply) : bool :=
  match r with RBulk (Some s) => String.eqb s "ok" | _ => false end.

(** The accepted spends of [h] in a run of [cs] from [db]. *)
Fixpoint spends ns (h : string) (cs : list ledger_cmd) db : nat :=
  match cs with
  | [] => O
  | c :: cs' =>
      let '(r, db') := exec (cmd_of ns c) db in
      ((if decide (h ∈ consumed c) then if accepted r then 1 else 0 else 0) + spends ns h cs' db')%nat
  end.

Definition cmd_wf (c : ledger_cmd) : Prop :=
  match c with CReplace _ op => op_wf op | _ => True end.

(** [c] is not the second phase of an insert of the token at key [k]. *)
Definition no_refill (k : string) (c : ledger_cmd) : Prop :=
  match c with CInsertFields r => record_key r <> k | _ => True end.

Definition spent_at (k : string) db : Prop :=
  exists h, db !! k = Some (RHash h) /\ spent_hash h = true.

Lemma spent_at_insert k k' v db :
  k <> k' -> spent_at k db -> spent_at k (<[k' := v]> db).
Proof. intros Hk (h & E & Hs). exists h. by rewrite lookup_insert_ne. Qed.

Lemma mark_spent_at now k k' db : spent_at k db -> spent_at k (mark_spent now db k').
Proof.
  intros (h & E & Hs). unfold spent_at. rewrite (mark_spent_hash _ _ _ _ _ E). eexists. split; [done|].
  case_decide; [|done]. unfold spent_hash, mark_hash. by rewrite lookup_insert_ne, lookup_insert_eq.
Qed.

Lemma replace_spec_keeps ik outs now ak aj k db :
  k <> ak -> spent_at k db -> spent_at k (replace_spec ik outs now ak aj db).2.
Proof.
  intros Hk Hs. unfold replace_spec. destruct (check_inputs ik db); [done|].
  assert (spent_at k (foldl (mark_spent now) db ik)) as Hm.
  { clear -Hs. revert db Hs. induction ik as [|i ik IH]; intros db Hs; cbn [foldl]; [done|].
    by apply IH, mark_spent_at. }
  destruct Hm as (h & E & Hh). apply (put_outputs_keep outs) in E.
  destruct (put_outputs _ _) as [[e|] db']; cbn in *; [by exists h|].
  exists h. by rewrite lookup_insert_ne.
Qed.

Lemma replace_spec_consumes ik outs now ak aj k db :
  k <> ak -> k ∈ ik -> (replace_spec ik outs now ak aj db).1 = "ok" ->
  ~ spent_at k db /\ spent_at k (replace_spec ik outs now ak aj db).2.
Proof.
  destruct (replace_spec _ _ _ _ _ _) as [r db'] eqn:E. cbn [fst snd]. intros Hk Hin ->.
  apply replace_spec_ok in E as [Hi _ _ _ _ _]. destruct (Hi k Hin) as (h & E & Hs & E'). split.
  - intros (h' & E1 & Hs'). congruence.
  - exists (mark_hash now h). split; [by apply E'|].
    unfold spent_hash, mark_hash. by rewrite lookup_insert_ne, lookup_insert_eq.
Qed.

Lemma replace_typed now ns op db :
  tokens_typed ns db -> op_wf op -> tokens_typed ns (exec (replace_cmd now ns op) db).2.
Proof.
  intros Ht Hwf. destruct (replace_cmd_spec now ns op db Hwf Ht) as (r & -> & _).
  by apply replace_step_typed.
Qed.

Lemma burn_exec now ns (op : string * BurnRecord) db :
  tokens_typed ns db ->
  exec (burn_cmd now ns op) db =
    (let r := burn_spec (token_key NAME ns op.1) (burn_key NAME ns (br_id op.2)) now (to_json op.2) db in
     (RBulk (Some r.1), r.2)).
Proof.
  intros Ht. unfold burn_cmd. rewrite burn_lua_spec; [done|].
  intros k s ->%list_elem_of_singleton. apply Ht.
Qed.

Lemma insert_typed ns k v db :
  (forall s h, v = RStr s -> k <> token_key NAME ns h) ->
  tokens_typed ns db -> tokens_typed ns (<[k := v]> db).
Proof.
  intros Hv Ht h s E. apply lookup_insert_Some in E as [[-> ->]|[_ E]]; [by eapply Hv|by eapply Ht].
Qed.

(** Every command keeps token keys free of strings. *)
Lemma exec_typed ns c db :
  cmd_wf c -> tokens_typed ns db -> tokens_typed ns (exec (cmd_of ns c) db).2.
Proof.
  intros Hwf Ht. destruct c as [now op|now op|r|r|h|h| |m]; cbn [cmd_of].
  - by apply replace_typed.
  - rewrite burn_exec by done. cbn. unfold burn_spec. destruct (db !! _) as [[s|h]|]; [done| |done].
    destruct (spent_hash h); [done|]. apply insert_typed; [|by apply mark_spent_typed].
    intros s h' _ E. symmetry in E. by apply token_not_burn in E.
  - cbn [exec]. destruct (db !! _) as [[s|h]|]; [done| |by apply insert_typed].
    destruct (h !! "amount_wats"); [done|]. by apply insert_typed.
  - cbn [exec]. destruct (map_to_list _); [done|].
    destruct (db !! _) as [[s|h]|]; [done| |]; by apply insert_typed.
  - cbn [exec]. by destruct (db !! _) as [[s|h']|].
  - cbn [exec]. by destruct (db !! _) as [[s|h']|].
  - cbn [exec]. by destruct (db !! _) as [[s|h']|].
  - cbn. apply insert_typed; [|done]. intros s h _ E. symmetry in E. by apply token_not_mining in E.
Qed.

Lemma hset_spent_hash fvs h : spent_hash h = true -> "spent" ∉ fvs.*1 -> spent_hash (hset_fields fvs h) = true.
Proof. unfold spent_hash. intros Hh Hn. by rewrite hset_fields_notin. Qed.

(** Once spent, spent for ever: no command but the second phase of an insert
    of the same token clears the mark. *)
Lemma exec_keeps_spent ns c db h :
  cmd_wf c -> tokens_typed ns db -> no_refill (token_key NAME ns h) c ->
  spent_at (token_key NAME ns h) db -> spent_at (token_key NAME ns h) (exec (cmd_of ns c) db).2.
Proof.
  intros Hwf Ht Hnr Hs. destruct c as [now op|now op|r|r|h'|h'| |m]; cbn [cmd_of].
  - destruct (replace_cmd_spec now ns op db Hwf Ht) as (r & -> & _). cbn [snd].
    apply replace_spec_keeps; [apply token_not_replacement|done].
  - rewrite burn_exec by done. cbn. unfold burn_spec. destruct (db !! _) as [[s|h1]|]; [done| |done].
    destruct (spent_hash h1); [done|]. apply spent_at_insert; [apply token_not_burn|by apply mark_spent_at].
  - cbn [exec]. destruct Hs as (h1 & E & Hh). destruct (decide (record_key r = token_key NAME ns h)) as [->|Hk].
    + rewrite E. destruct (h1 !! "amount_wats"); [by exists h1|].
      exists (<["amount_wats" := show_i64 (record_amount_wats r)]> h1). cbn [snd]. rewrite lookup_insert_eq. split; [done|].
      revert Hh. unfold spent_hash. by rewrite lookup_insert_ne.
    + destruct (db !! record_key r) as [[s|h2]|]; [by exists h1| |by apply spent_at_insert; [|exists h1]].
      destruct (h2 !! "amount_wats"); [by exists h1|]. by apply spent_at_insert; [|exists h1].
  - cbn [exec]. simpl in Hnr. destruct (map_to_list _); [done|].
    destruct (db !! record_key r) as [[s|h2]|]; [done| |]; by apply spent_at_insert.
  - cbn [exec]. by destruct (db !! token_key NAME ns h') as [[s|h1]|].
  - cbn [exec]. by destruct (db !! token_key NAME ns h') as [[s|h1]|].
  - cbn [exec]. by destruct (db !! mining_state_key NAME) as [[s|h1]|].
  - cbn. apply spent_at_insert; [apply token_not_mining|done].
Qed.

(** An accepted spend finds the token unspent and leaves it spent. *)
Lemma exec_consumes ns c db h :
  cmd_wf c -> tokens_typed ns db -> h ∈ consumed c ->
  accepted (exec (cmd_of ns c) db).1 = true ->
  ~ spent_at (token_key NAME ns h) db /\ spent_at (token_key NAME ns h) (exec (cmd_of ns c) db).2.
Proof.
  intros Hwf Ht Hin Ha. destruct c as [now op|now op|r|r|h'|h'| |m]; cbn [cmd_of] in *;
    try (by apply elem_of_nil in Hin).
  - rewrite replace_cmd_marshal in *. destruct (replace_cmd_spec now ns op db Hwf Ht) as (r & E & Hr).
    rewrite replace_cmd_marshal in E. rewrite E in *. cbn [fst snd accepted] in *.
    apply String.eqb_eq in Ha as ->. unfold replace_step in *. cbn [fst snd] in *.
    assert (replace_reply (RBulk (Some (replace_spec (in_keys ns op) (out_entries ns op) now
      (replacement_key NAME ns (rr_id (ro_record op))) (to_json (ro_record op)) db).1)) = ReplaceOk)
      as Hok%replace_reply_ok by (rewrite <- Hr; done).
    apply replace_spec_consumes; [apply token_not_replacement|by apply in_keys_elem|done].
  - rewrite burn_exec in * by done. cbn in Ha, Hin |- *. apply list_elem_of_singleton in Hin as ->.
    unfold burn_spec in *. destruct (db !! token_key NAME ns op.1) as [[s|h1]|] eqn:E; try done.
    destruct (spent_hash h1) eqn:Es; [done|]. split.
    + intros (h2 & E2 & Es2). congruence.
    + cbn [snd]. apply spent_at_insert; [apply token_not_burn|]. unfold spent_at.
      rewrite (mark_spent_hash _ _ _ _ _ E), decide_True by done. eexists. split; [done|].
      unfold spent_hash, mark_hash. by rewrite lookup_insert_ne, lookup_insert_eq.
Qed.

Lemma spends_spent ns h cs db :
  Forall cmd_wf cs -> Forall (no_refill (token_key NAME ns h)) cs -> tokens_typed ns db ->
  spent_at (token_key NAME ns h) db -> spends ns h cs db = O.
Proof.
  intros Hwf. revert db. induction Hwf as [|c cs Hc Hwf IH]; intros db Hnr Ht Hs; [done|].
  apply Forall_cons in Hnr as [Hn Hnr]. cbn [spends].
  pose proof (exec_typed ns c db Hc Ht) as Ht'. pose proof (exec_keeps_spent ns c db h Hc Ht Hn Hs) as Hs'.
  pose proof (exec_consumes ns c db h Hc Ht) as Hcons.
  destruct (exec (cmd_of ns c) db) as [r db']. cbn [fst snd] in *.
  rewrite (IH db' Hnr Ht' Hs'). case_decide as Hin; [|done].
  destruct (accepted r); [|done]. exfalso. by apply (Hcons Hin eq_refl).
Qed.

Lemma spends_once ns h cs db :
  Forall cmd_wf cs -> Forall (no_refill (token_key NAME ns h)) cs -> tokens_typed ns db ->
  (spends ns h cs db <= 1)%nat.
Proof.
  intros Hwf. revert db. induction Hwf as [|c cs Hc Hwf IH]; intros db Hnr Ht; [cbn; lia|].
  apply Forall_cons in Hnr as [Hn Hnr]. cbn [spends].
  pose proof (exec_typed ns c db Hc Ht) as Ht'. pose proof (exec_consumes ns c db h Hc Ht) as Hcons.
  destruct (exec (cmd_of ns c) db) as [r db']. cbn [fst snd] in *.
  specialize (IH db' Hnr Ht'). case_decide as Hin; [|lia].
  destruct (accepted r) eqn:Ha; [|lia]. destruct (Hcons Hin eq_refl) as [_ Hs].
  rewrite spends_spent by done. lia.
Qed.

End Traces.

(** ** Inserting and reading *)

Section Inserts.
Context `{RedisLaws} `{Chrono} {A : Asset} `{!HashRecord Rec} {HL : HashRecordLaws Rec}
  {K : KeyStrategy} {KL : KeyLaws}.
Implicit Types (db : rdb) (ns : Namespace) (records : list Rec).

(** A record key is free or holds a hash with an amount: what every write of
    the store leaves behind when its outputs are uniform. *)
Definition keys_sound records db : Prop :=
  forall r, r ∈ records -> db !! record_key r = None \/
    exists h, db !! record_key r = Some (RHash h) /\ is_Some (h !! "amount_wats").

Definition new_cmd (r : Rec) : rcmd :=
  HSETNX (record_key r) "amount_wats" (show_i64 (record_amount_wats r)).
Definition fill_cmd (r : Rec) : rcmd :=
  HSET (record_key r) (map_to_list (delete "amount_wats" (to_fields r))).
Definition amount_hash (r : Rec) : gmap string string :=
  {[ "amount_wats" := show_i64 (record_amount_wats r) ]}.

Lemma exec_new_none r db :
  db !! record_key r = None ->
  exec (new_cmd r) db = (RInt 1, <[record_key r := RHash (amount_hash r)]> db).
Proof. intros H'. unfold new_cmd. cbn [exec]. by rewrite H'. Qed.

Lemma exec_new_some r h db :
  db !! record_key r = Some (RHash h) -> is_Some (h !! "amount_wats") ->
  exec (new_cmd r) db = (RInt 0, db).
Proof. intros H' [v Hv]. unfold new_cmd. cbn [exec]. by rewrite H', Hv. Qed.

Lemma keys_sound_insert records r db :
  keys_sound records db -> keys_sound records (<[record_key r := RHash (amount_hash r)]> db).
Proof.
  intros Hs r' Hr'. destruct (decide (record_key r = record_key r')) as [E|Hne].
  - right. exists (amount_hash r). rewrite E, lookup_insert_eq. split; [done|].
    unfold amount_hash. rewrite lookup_singleton_eq. eauto.
  - rewrite lookup_insert_ne by done. by apply Hs.
Qed.

(** The first phase, when every record was new. *)
Lemma new_all records db rs db' :
  keys_sound records db ->
  exec_all (map new_cmd records) db = (rs, db') -> mapM as_bool rs = Some (replicate (length records) true) ->
  NoDup (record_key <$> records) /\ (forall r, r ∈ records -> db !! record_key r = None) /\
  (forall r, r ∈ records -> db' !! record_key r = Some (RHash (amount_hash r))) /\
  (forall k, k ∉ record_key <$> records -> db' !! k = db !! k).
Proof.
  revert db rs. induction records as [|r records IH]; intros db rs Hs; cbn [map exec_all].
  { intros [= <- <-] _. split_and!; [constructor|set_solver|set_solver|done]. }
  destruct (Hs r) as [Hnone|(h & Eh & Hh)]; [by left| |].
  - rewrite exec_new_none by done. destruct (exec_all _ _) as [rs1 db1] eqn:E. intros [= <- <-]. simpl. intros Hm.
    apply bind_Some in Hm as (bs & Hm & [= ->]).
    destruct (IH _ _ (keys_sound_insert _ r _ (fun r' Hr' => Hs r' (list_elem_of_further _ _ _ Hr'))) E Hm)
      as (Hnd & Hfresh & Hin & Hout).
    assert (record_key r ∉ record_key <$> records) as Hr.
    { intros (r' & Er & Hr')%list_elem_of_fmap. specialize (Hfresh r' Hr').
      by rewrite <- Er, lookup_insert_eq in Hfresh. }
    split_and!.
    + by constructor.
    + intros r' [->|Hr']%elem_of_cons; [done|]. specialize (Hfresh r' Hr').
      rewrite lookup_insert_ne in Hfresh; [done|]. intros Er. apply Hr. rewrite Er. by apply list_elem_of_fmap_2.
    + intros r' [->|Hr']%elem_of_cons; [|by apply Hin]. by rewrite Hout, lookup_insert_eq.
    + intros k Hk. cbn in Hk. apply not_elem_of_cons in Hk as [Hne Hk]. by rewrite Hout, lookup_insert_ne.
  - rewrite (exec_new_some r h) by done. destruct (exec_all _ _) as [rs1 db1]. intros [= <- <-]. simpl.
    intros (bs & _ & Hm)%bind_Some. discriminate Hm.
Qed.

Lemma fill_fields r : hset_fields (map_to_list (delete "amount_wats" (to_fields r))) (amount_hash r) = to_fields r.
Proof.
  apply map_eq. intros f. destruct (decide (f = "amount_wats")) as [->|Hf].
  - rewrite hset_fields_notin.
    + unfold amount_hash. by rewrite lookup_singleton_eq, fields_amount.
    + intros ([? v] & -> & Hin)%list_elem_of_fmap. apply elem_of_map_to_list in Hin. simpl in Hin.
      by rewrite lookup_delete_eq in Hin.
  - rewrite (hset_fields_union _ (amount_hash r)) by apply NoDup_fst_map_to_list.
    rewrite list_to_map_to_list, lookup_union_l.
    + by rewrite lookup_delete_ne.
    + unfold amount_hash. by rewrite lookup_singleton_ne.
Qed.

(** The second phase over hashes the first one created. *)
Lemma fill_all records db rs db' :
  NoDup (record_key <$> records) ->
  (forall r, r ∈ records -> db !! record_key r = Some (RHash (amount_hash r))) ->
  exec_all (map fill_cmd records) db = (rs, db') ->
  (forall r, r ∈ records -> db' !! record_key r = Some (RHash (to_fields r))) /\
  (forall k, k ∉ record_key <$> records -> db' !! k = db !! k).
Proof.
  revert db rs. induction records as [|r records IH]; intros db rs Hnd Hdb; cbn [map exec_all].
  { intros [= <- <-]. split; [set_solver|done]. }
  apply NoDup_cons in Hnd as [Hr Hnd].
  assert (exec (fill_cmd r) db =
    (RInt (Z.of_nat (size (to_fields r) - size (amount_hash r))),
     <[record_key r := RHash (to_fields r)]> db)) as ->.
  { unfold fill_cmd. cbn [exec]. rewrite Hdb by by left. rewrite fill_fields.
    destruct (map_to_list _) eqn:E; [|done]. exfalso. apply map_to_list_empty_iff in E.
    destruct (fields_spent r) as [v Hv]. assert (delete "amount_wats" (to_fields r) !! "spent" = Some v) as Hd
      by by rewrite lookup_delete_ne. by rewrite E in Hd. }
  destruct (exec_all _ _) as [rs1 db1] eqn:E. intros [= <- <-].
  destruct (IH (<[record_key r := RHash (to_fields r)]> db) rs1 Hnd) as [Hin Hout]; [|exact E|].
  { intros r' Hr'. rewrite lookup_insert_ne; [apply Hdb; by right|]. intros Er. apply Hr. rewrite Er.
    by apply list_elem_of_fmap_2. }
  split.
  - intros r' [->|Hr']%elem_of_cons; [|by apply Hin]. by rewrite Hout, lookup_insert_eq.
  - intros k Hk. cbn in Hk. apply not_elem_of_cons in Hk as [Hne Hk]. by rewrite Hout, lookup_insert_ne.
Qed.

Lemma exec_all_length cs db : length (exec_all cs db).1 = length cs.
Proof.
  revert db. induction cs as [|c cs IH]; intros db; cbn [exec_all]; [done|].
  destruct (exec c db) as [r db1]. specialize (IH db1). destruct (exec_all cs db1). cbn in *. by f_equal.
Qed.

(** Every slot of the reply of the first phase says the record was new. *)
Lemma all_created nx records :
  length nx = length records -> list_find (fun p => p.1 = false) (zip nx records) = None ->
  nx = replicate (length records) true.
Proof.
  revert records. induction nx as [|b nx IH]; intros [|r records] Hl; simpl in *; try done.
  case_decide as Hb; [done|]. intros Hf. destruct b; [|done].
  f_equal. apply IH; [lia|]. by destruct (list_find _ (zip nx records)) as [[]|].
Qed.

Lemma created_set_pipe records :
  omap (fun '(created, r) => if (created : bool) then Some (fill_cmd r) else None)
    (zip (replicate (length records) true) records) = map fill_cmd records.
Proof. induction records as [|r records IH]; simpl; [done|]. f_equal. exact IH. Qed.

(** An insert that succeeds created every record of the batch: no two of
    them share a key, none of the keys was in use, each now holds exactly the
    fields of its record, and nothing else changed. *)
Theorem insert_tokens_creates records st st' :
  keys_sound records (rview st) ->
  redis_insert_tokens records st = (Ok tt, st') ->
  NoDup (record_key <$> records) /\
  (forall r, r ∈ records -> rview st !! record_key r = None /\
     rview st' !! record_key r = Some (RHash (to_fields r))) /\
  (forall k, k ∉ record_key <$> records -> rview st' !! k = rview st !! k).
Proof.
  intros Hs. unfold redis_insert_tokens. destruct records as [|r0 records0] eqn:Er.
  { intros [= <-]. split_and!; [constructor|set_solver|done]. }
  rewrite <- Er in *. destruct (query _ st) as [[rs|e] st1] eqn:E1; cbn [mbind result_bind]; [|done].
  apply query_ok in E1 as [E1 _]. pose proof (exec_all_length (map new_cmd records) (rview st)) as Hlen.
  change (exec_all (map new_cmd records) (rview st) = (rs, rview st1)) in E1.
  rewrite E1, length_map in Hlen. cbn in Hlen. unfold from_replies.
  destruct (mapM as_bool rs) as [nx|] eqn:Enx; cbn [ok_or]; [|done].
  pose proof (length_mapM _ _ _ Enx) as Hnx.
  destruct (match omap _ (zip nx records) with [] => _ | _ => _ end) as [[rs2|e] st2] eqn:E2; [|done].
  destruct (list_find _ (zip nx records)) as [[i [b r]]|] eqn:Ef; [done|]. intros [= <-].
  assert (nx = replicate (length records) true) as Hall by (apply all_created; [congruence|done]).
  subst nx. destruct (new_all _ _ _ _ Hs E1 Enx) as (Hnd & Hfresh & Hin & Hout).
  change (fun '(created, r) => if created : bool
    then Some (HSET (record_key r) (map_to_list (delete "amount_wats" (to_fields r)))) else None)
    with (fun '(created, r) => if (created : bool) then Some (fill_cmd r) else None) in E2.
  rewrite created_set_pipe in E2. assert (map fill_cmd records <> []) as Hne by by rewrite Er.
  destruct (map fill_cmd records) as [|c cs] eqn:Ec; [done|]. rewrite <- Ec in E2.
  apply query_ok in E2 as [E2 _]. destruct (fill_all _ _ _ _ Hnd Hin E2) as [Hin' Hout'].
  split_and!; [done|auto|]. intros k Hk. by rewrite Hout', Hout.
Qed.

(** The fields stored for [h]; a missing key reads as no field at all. *)
Definition stored ns (h : string) db : gmap string string :=
  match db !! token_key NAME ns h with Some (RHash f) => f | _ => ∅ end.

Lemma exec_hgetall ns hashes db rs db' :
  exec_all (map (fun h => HGETALL (token_key NAME ns h)) hashes) db = (rs, db') ->
  Forall not_error rs -> db' = db /\ mapM as_fields rs = Some ((fun h => stored ns h db) <$> hashes).
Proof.
  revert rs. induction hashes as [|h hashes IH]; intros rs; cbn [map exec_all]; [by intros [= <- <-]|].
  assert ((exec (HGETALL (token_key NAME ns h)) db).2 = db) as Hdb
    by (cbn [exec]; by destruct (db !! _) as [[]|]).
  destruct (exec (HGETALL (token_key NAME ns h)) db) as [r db1] eqn:E. cbn in Hdb. subst db1.
  destruct (exec_all _ db) as [rs1 db1]. intros [= <- <-] [Hr Hrs]%Forall_cons.
  destruct (IH rs1 eq_refl Hrs) as [-> Hm]. split; [done|]. cbn.
  assert (as_fields r = Some (stored ns h db)) as ->; [|by rewrite Hm].
  revert E Hr. unfold stored. cbn [exec]. destruct (db !! _) as [[]|]; by intros [= <-].
Qed.

Lemma exec_hget ns hashes db rs db' :
  exec_all (map (fun h => HGET (token_key NAME ns h) "spent") hashes) db = (rs, db') ->
  Forall not_error rs -> db' = db /\ mapM as_opt_string rs = Some ((fun h => stored ns h db !! "spent") <$> hashes).
Proof.
  revert rs. induction hashes as [|h hashes IH]; intros rs; cbn [map exec_all]; [by intros [= <- <-]|].
  assert ((exec (HGET (token_key NAME ns h) "spent") db).2 = db) as Hdb
    by (cbn [exec]; by destruct (db !! _) as [[]|]).
  destruct (exec (HGET (token_key NAME ns h) "spent") db) as [r db1] eqn:E. cbn in Hdb. subst db1.
  destruct (exec_all _ db) as [rs1 db1]. intros [= <- <-] [Hr Hrs]%Forall_cons.
  destruct (IH rs1 eq_refl Hrs) as [-> Hm]. split; [done|]. cbn.
  assert (as_opt_string r = Some (stored ns h db !! "spent")) as ->; [|by rewrite Hm].
  revert E Hr. unfold stored. cbn [exec]. destruct (db !! _) as [[]|]; by intros [= <-].
Qed.

Lemma zip_map {X Y Z} (f : X -> Y) (g : X * Y -> Z) (l : list X) :
  map g (zip l (f <$> l)) = (fun x => g (x, f x)) <$> l.
Proof. induction l as [|x l IH]; simpl; [done|]. f_equal. exact IH. Qed.

Definition read_record now ns (h : string) db : option Rec :=
  if decide (stored ns h db = ∅) then None else from_fields now h (stored ns h db).
Definition read_spent ns (h : string) db : option bool :=
  option_map (fun v => String.eqb v "1") (stored ns h db !! "spent").

Lemma get_tokens_read now ns hashes st res st' :
  redis_get_tokens now ns hashes st = (Ok res, st') ->
  rview st' = rview st /\ res = (fun h => read_record now ns h (rview st)) <$> hashes.
Proof.
  unfold redis_get_tokens. destruct hashes as [|h0 hashes0] eqn:Eh; [by intros [= <- <-]|].
  rewrite <- Eh. destruct (query _ st) as [[rs|e] st1] eqn:E; cbn [mbind result_bind]; [|done].
  apply query_ok in E as [E Hn]. apply exec_hgetall in E as [Hv Hm]; [|done].
  unfold from_replies. rewrite Hm. cbn [ok_or]. intros [= <- <-]. by rewrite zip_map.
Qed.

Lemma check_tokens_read ns hashes st res st' :
  redis_check_tokens ns hashes st = (Ok res, st') ->
  rview st' = rview st /\ res = (fun h => (h, read_spent ns h (rview st))) <$> hashes.
Proof.
  unfold redis_check_tokens. destruct hashes as [|h0 hashes0] eqn:Eh; [by intros [= <- <-]|].
  rewrite <- Eh. destruct (query _ st) as [[rs|e] st1] eqn:E; cbn [mbind result_bind]; [|done].
  apply query_ok in E as [E Hn]. apply exec_hget in E as [Hv Hm]; [|done].
  unfold from_replies. rewrite Hm. cbn [ok_or]. intros [= <- <-]. by rewrite zip_map.
Qed.

(** The read paths change nothing and answer one slot per hash in
    order: [get_tokens] the record read back from the stored fields,
    [check_tokens] whether the stored flag is ["1"], and nothing for a hash
    that is not stored. *)
Theorem reads_exact now ns hashes st :
  (forall res st', redis_get_tokens now ns hashes st = (Ok res, st') ->
     rview st' = rview st /\ res = (fun h => read_record now ns h (rview st)) <$> hashes) /\
  (forall res st', redis_check_tokens ns hashes st = (Ok res, st') ->
     rview st' = rview st /\ res = (fun h => (h, read_spent ns h (rview st))) <$> hashes).
Proof. split; intros res st'; [apply get_tokens_read|apply check_tokens_read]. Qed.
End Inserts.
