(* ===== verification/Htlc.v ===== *)
(** * Hash-time-locked outputs

    [asset_rgb::htlc] ([crates/asset-rgb/src/htlc/]): the state stamped on a
    locked output, the witness of a replace that targets it, and the predicate
    the server evaluates with its own clock. *)
From S2P Require Import Prelude Decimal External.

Record HtlcState := {
  committed_h_hex : string;
  refund_after_unix : Z;
  claim_owner_hash_hex : string;
  refund_owner_hash_hex : string;
}.

#[export] Instance htlc_state_eq_dec : EqDecision HtlcState.
Proof. solve_decision. Defined.

Record HtlcWitness := {
  provided_x_hex : option string;
  output_owner_hash_hex : string;
}.

Record LockRequest := {
  lr_committed_h_hex : string;
  refund_after_seconds_from_now : Z;
  claim_owner_secret_hex : string;
  refund_owner_secret_hex : string;
}.

Inductive PredicateResult := Claim | Refund.

Inductive PredicateError :=
  | PreimageMismatch
  | ClaimOwnerMismatch
  | RefundLocked (delta : Z)
  | RefundOwnerMismatch
  | NeitherPath
  | BadPreimageHex (e : string).

(** [Display] of the error, the text a wallet is shown. *)
Definition show_predicate_error (e : PredicateError) : string :=
  match e with
  | PreimageMismatch => "htlc: provided preimage does not match committed hash"
  | ClaimOwnerMismatch => "htlc: claim-path output owner mismatch"
  | RefundLocked delta =>
      "htlc: refund window not yet open (" +:+ show_u64 delta +:+ " seconds remaining)"
  | RefundOwnerMismatch => "htlc: refund-path output owner mismatch"
  | NeitherPath => "htlc: witness satisfies neither claim nor refund path"
  | BadPreimageHex e => "htlc: malformed preimage hex: " +:+ e
  end.

Section Ops.
Context `{Hashing}.

Definition sha256_hex_of_ascii (s : string) : string := sha256_hex s.

Definition for_swap (h : string) (refund_after : Z) (claim_secret refund_secret : string) : HtlcState := {|
  committed_h_hex := h;
  refund_after_unix := refund_after;
  claim_owner_hash_hex := sha256_hex_of_ascii claim_secret;
  refund_owner_hash_hex := sha256_hex_of_ascii refund_secret |}.

Definition stamp_into_state (req : LockRequest) (server_now_unix : Z) : HtlcState := {|
  committed_h_hex := lr_committed_h_hex req;
  refund_after_unix := u64_saturating_add server_now_unix (refund_after_seconds_from_now req);
  claim_owner_hash_hex := sha256_hex_of_ascii (claim_owner_secret_hex req);
  refund_owner_hash_hex := sha256_hex_of_ascii (refund_owner_secret_hex req) |}.

Definition evaluate (state : HtlcState) (witness : HtlcWitness) (current_unix : Z)
  : result PredicateError PredicateResult :=
  match provided_x_hex witness with
  | Some x_hex =>
      _ ← map_err BadPreimageHex (hex_decode x_hex);
      let computed := sha256_hex x_hex in
      if negb (String.eqb computed (committed_h_hex state)) then
        if (refund_after_unix state <=? current_unix) &&
           String.eqb (output_owner_hash_hex witness) (refund_owner_hash_hex state)
        then Ok Refund
        else Err PreimageMismatch
      else if negb (String.eqb (output_owner_hash_hex witness) (claim_owner_hash_hex state))
      then Err ClaimOwnerMismatch
      else Ok Claim
  | None =>
      if current_unix <? refund_after_unix state then
        Err (RefundLocked (refund_after_unix state - current_unix))
      else if negb (String.eqb (output_owner_hash_hex witness) (refund_owner_hash_hex state))
      then Err RefundOwnerMismatch
      else Ok Refund
  end.

Definition execute_predicate := evaluate.
End Ops.

Section Properties.
Context `{Hashing}.

(** The two ways a witness opens a lock. *)
Definition opens_claim (state : HtlcState) (w : HtlcWitness) : Prop :=
  exists x, provided_x_hex w = Some x /\ is_ok (hex_decode x) = true /\
    sha256_hex x = committed_h_hex state /\
    output_owner_hash_hex w = claim_owner_hash_hex state.

Definition opens_refund (state : HtlcState) (w : HtlcWitness) (now : Z) : Prop :=
  refund_after_unix state <= now /\ output_owner_hash_hex w = refund_owner_hash_hex state /\
  (provided_x_hex w = None \/
   exists x, provided_x_hex w = Some x /\ is_ok (hex_decode x) = true /\
     sha256_hex x <> committed_h_hex state).

Lemma evaluate_accepts state w now r :
  evaluate state w now = Ok r <->
  (r = Claim /\ opens_claim state w) \/ (r = Refund /\ opens_refund state w now).
Proof.
  unfold evaluate, opens_claim, opens_refund. destruct (provided_x_hex w) as [x|].
  - assert (forall x', Some x = Some x' -> is_ok (hex_decode x') = is_ok (hex_decode x)) as Hx
      by by intros x' [= <-].
    destruct (hex_decode x) as [b|e] eqn:Ex; simpl in *.
    2:{ split; [done|]. intros [[_ (x' & E & Hok & _)]|[_ (_ & _ & [E|(x' & E & Hok & _)])]];
          [|done|]; rewrite (Hx _ E) in Hok; done. }
    destruct (String.eqb_spec (sha256_hex x) (committed_h_hex state)) as [Hh|Hh]; simpl.
    + destruct (String.eqb_spec (output_owner_hash_hex w) (claim_owner_hash_hex state)) as [Ho|Ho]; simpl.
      * split; [intros [= <-]; left; split; [done|]; exists x; by rewrite Ex|].
        intros [[-> _]|[_ (_ & _ & [?|(x' & [= <-] & _ & ?)])]]; done.
      * split; [done|]. intros [[_ (x' & _ & _ & _ & ?)]|[_ (_ & _ & [?|(x' & [= <-] & _ & ?)])]]; done.
    + destruct (Z.leb_spec (refund_after_unix state) now); simpl;
        [|split; [done|intros [[_ (x' & [= <-] & _ & ? & _)]|[_ (? & _)]]; [done|lia]]].
      destruct (String.eqb_spec (output_owner_hash_hex w) (refund_owner_hash_hex state)) as [Ho|Ho]; simpl.
      * split; [intros [= <-]; right; split_and!; [done..|right; exists x; by rewrite Ex]|].
        intros [[_ (x' & [= <-] & _ & ? & _)]|[-> _]]; done.
      * split; [done|]. intros [[_ (x' & [= <-] & _ & ? & _)]|[_ (_ & ? & _)]]; done.
  - destruct (Z.ltb_spec now (refund_after_unix state));
      [split; [done|intros [[_ (? & ? & _)]|[_ (? & _)]]; [done|lia]]|].
    destruct (String.eqb_spec (output_owner_hash_hex w) (refund_owner_hash_hex state)) as [Ho|Ho]; simpl.
    + split; [intros [= <-]; right; split_and!; auto|]. by intros [[_ (? & ? & _)]|[-> _]].
    + split; [done|]. by intros [[_ (? & ? & _)]|[_ (_ & ? & _)]].
Qed.

(** C31: the predicate accepts on the claim path exactly when the witness
    carries a hexadecimal preimage of the committed hash and names the claim
    owner, and on the refund path exactly when the deadline has passed, it
    names the refund owner and offers no preimage, or a wrong one. *)
Theorem evaluate_exact state w now r :
  execute_predicate state w now = Ok r <->
  (r = Claim /\ opens_claim state w) \/ (r = Refund /\ opens_refund state w now).
Proof. apply evaluate_accepts. Qed.

(** C32: an output locked by a request stays closed before the deadline the
    server stamped to everyone but a holder of the preimage, who can only
    name the claim owner the request committed to; the deadline is the
    server's clock plus the requested delay and never wraps. *)
Theorem lock_holds req now0 w now r :
  u64_range now0 -> u64_range (refund_after_seconds_from_now req) -> u64_range now ->
  now < u64_max -> now < now0 + refund_after_seconds_from_now req ->
  evaluate (stamp_into_state req now0) w now = Ok r ->
  r = Claim /\ output_owner_hash_hex w = sha256_hex (claim_owner_secret_hex req) /\
  exists x, provided_x_hex w = Some x /\ sha256_hex x = lr_committed_h_hex req.
Proof.
  intros Hn0 Hd Hn Hmax Hlt [[-> (x & Hx & _ & Hh & Ho)]|[-> (Ht & _)]]%evaluate_accepts.
  - split_and!; [done|done|]. by exists x.
  - simpl in Ht. unfold u64_saturating_add, u64_range in *. lia.
Qed.

(** The waiting time reported is positive and exact. *)
Lemma refund_locked_delta state w now d :
  evaluate state w now = Err (RefundLocked d) -> 0 < d /\ d = refund_after_unix state - now.
Proof.
  unfold evaluate. destruct (provided_x_hex w) as [x|].
  - destruct (hex_decode x); simpl; [|done]. repeat case_match; done.
  - destruct (Z.ltb_spec now (refund_after_unix state)); [|by case_match].
    intros [= <-]. lia.
Qed.
End Properties.

(** ** Concrete locks *)

Definition lock_1 : LockRequest := {|
  lr_committed_h_hex := sha256_hex "aabb"; refund_after_seconds_from_now := 1800;
  claim_owner_secret_hex := "11"; refund_owner_secret_hex := "22" |}.
Definition claim_1 : HtlcWitness :=
  {| provided_x_hex := Some "aabb"; output_owner_hash_hex := sha256_hex "11" |}.

Lemma lock_holds_witness :
  evaluate (stamp_into_state lock_1 1000) claim_1 2000 = Ok Claim /\
  output_owner_hash_hex claim_1 = sha256_hex "11".
Proof.
  assert (evaluate (stamp_into_state lock_1 1000) claim_1 2000 = Ok Claim) as E
    by (vm_compute; reflexivity).
  split; [exact E|].
  refine (proj1 (proj2 (lock_holds lock_1 1000 claim_1 2000 Claim _ _ _ _ _ E)));
    unfold u64_range, u64_max; simpl; lia.
Defined.

(** The documented rule is [claim OR refund]; a witness that satisfies the
    refund side and also carries the right preimage, or a malformed one, is
    nevertheless refused. *)
Example refund_with_right_preimage :
  let w := {| provided_x_hex := Some "aabb"; output_owner_hash_hex := sha256_hex "22" |} in
  refund_after_unix (stamp_into_state lock_1 1000) <= 9000 /\
  output_owner_hash_hex w = refund_owner_hash_hex (stamp_into_state lock_1 1000) /\
  evaluate (stamp_into_state lock_1 1000) w 9000 = Err ClaimOwnerMismatch.
Proof. vm_compute. split_and!; [discriminate|reflexivity..]. Qed.
