(* ===== verification/Mining.v ===== *)
(** * Proof of work and difficulty

    [mining] ([crates/mining/src/lib.rs]) and the reference backend of
    [compute] ([crates/compute/src/lib.rs]): configuration, the leading-zero
    count of a digest, its check against a target and the difficulty
    adjustment, with IEEE binary64 ratios as in the source. *)
From S2P Require Import Prelude Decimal External.
From Stdlib Require Import Floats.SpecFloat.

(** ** Configuration *)

Inductive MiningMode :=
  | Disabled
  | Fixed (difficulty : Z)
  | Dynamic (initial target_secs reports_per_epoch : Z).

Definition webcash_production : MiningMode := Dynamic 24 1000 1000.
Definition webcash_testnet : MiningMode := Fixed 16.
Definition issued_default : MiningMode := webcash_production.

Record MiningConfig := {
  mode : MiningMode;
  mining_amount_wats : Z;
  subsidy_amount_wats : Z;
  max_issuance : option Z;
  require_pow_for_issuance : bool;
}.

Definition default_mining_config : MiningConfig := {|
  mode := webcash_production;
  mining_amount_wats := 19531250000;
  subsidy_amount_wats := 976562500;
  max_issuance := None;
  require_pow_for_issuance := false |}.

Definition current_difficulty (c : MiningConfig) : option Z :=
  match mode c with
  | Disabled => None
  | Fixed difficulty => Some difficulty
  | Dynamic initial _ _ => Some initial
  end.

(** ** Leading zeros *)

(** [u8::leading_zeros]. *)
Definition u8_leading_zeros (b : Z) : Z := if b =? 0 then 8 else 7 - Z.log2 b.

(** [hash.iter().take_while(|&&b| b == 0).count()]. *)
Fixpoint zero_bytes (hash : string) : nat :=
  match hash with
  | String c h => if byte_val c =? 0 then S (zero_bytes h) else O
  | EmptyString => O
  end.

Definition leading_zero_bits (hash : string) : Z :=
  let full_zero_bytes := zero_bytes hash in
  match String.get full_zero_bytes hash with
  | Some b => u8_leading_zeros (byte_val b)
  | None => 0
  end + Z.of_nat full_zero_bytes * 8.

Section Pow.
Context `{Hashing}.

Definition verify_pow (preimage : string) (difficulty_bits : Z) : bool :=
  difficulty_bits <=? leading_zero_bits (sha256 preimage).

(** [CpuBackend]. *)
Record PowResult := { pow_leading_zero_bits : Z; satisfies : bool }.

Definition count_leading_zero_bits (hash : string) : Z :=
  let full_zero_bytes := zero_bytes hash in
  match String.get full_zero_bytes hash with
  | Some b => u8_leading_zeros (byte_val b)
  | None => 0
  end + Z.of_nat full_zero_bytes * 8.

Definition sha256_batch (inputs : list string) : list string := map sha256 inputs.

Definition verify_pow_batch (inputs : list (string * Z)) : list PowResult :=
  map (fun '(preimage, target_bits) =>
    let hash := sha256 preimage in
    let lz := count_leading_zero_bits hash in
    {| pow_leading_zero_bits := lz; satisfies := target_bits <=? lz |}) inputs.

Definition derive_public_hash_batch (secrets : list string) : list string :=
  map (fun secret => hex_encode (sha256 secret)) secrets.
End Pow.

(** ** Difficulty adjustment *)

(** [x as f64], [/] and the comparisons on binary64. *)
Definition f64_of_u64 (x : Z) : spec_float := binary_normalize 53 1024 x 0 false.
Definition f64_div : spec_float -> spec_float -> spec_float := SFdiv 53 1024.
Definition f64_one : spec_float := f64_of_u64 1.
Definition f64_le (a b : spec_float) : bool := SFleb a b.

(** [Ord::clamp], which panics when [min > max]. *)
Definition clamp (x min max : Z) : option Z :=
  if max <? min then None else Some (if x <? min then min else if max <? x then max else x).

Definition adjust_difficulty (current_difficulty actual_time_secs target_time_secs
    actual_reports expected_reports : Z) : option Z :=
  let time_ratio := f64_div (f64_of_u64 actual_time_secs) (f64_of_u64 target_time_secs) in
  let report_ratio := f64_div (f64_of_u64 actual_reports) (f64_of_u64 expected_reports) in
  let new_diff :=
    if f64_le time_ratio f64_one && f64_le f64_one report_ratio then
      u32_saturating_add current_difficulty 1
    else if f64_le f64_one time_ratio && f64_le report_ratio f64_one then
      Z.max (u32_saturating_sub current_difficulty 1) 1
    else current_difficulty in
  let max := u32_saturating_add current_difficulty 2 in
  let min := Z.max (u32_saturating_sub current_difficulty 2) 1 in
  clamp new_diff min max.

(** ** The count is the target test *)

(** A digest as a big-endian number. *)
Fixpoint be_val (s : string) : Z :=
  match s with
  | EmptyString => 0
  | String c s' => byte_val c * 2 ^ (8 * Z.of_nat (String.length s')) + be_val s'
  end.

Lemma be_val_bounds s : 0 <= be_val s < 2 ^ (8 * Z.of_nat (String.length s)).
Proof.
  induction s as [|c s IH]; cbn [be_val String.length]; [simpl; lia|].
  pose proof (byte_val_range c). rewrite Nat2Z.inj_succ.
  replace (8 * Z.succ (Z.of_nat (String.length s))) with (8 + 8 * Z.of_nat (String.length s)) by lia.
  rewrite Z.pow_add_r by lia. change (2 ^ 8) with 256. nia.
Qed.

Lemma lz_cons_zero c s : byte_val c = 0 -> leading_zero_bits (String c s) = leading_zero_bits s + 8.
Proof.
  intros H. unfold leading_zero_bits. cbn [zero_bytes]. rewrite H. cbn [Z.eqb String.get].
  destruct (String.get (zero_bytes s) s); lia.
Qed.

Lemma lz_cons_nonzero c s :
  byte_val c <> 0 -> leading_zero_bits (String c s) = 7 - Z.log2 (byte_val c).
Proof.
  intros H. unfold leading_zero_bits. cbn [zero_bytes].
  rewrite (proj2 (Z.eqb_neq _ _)) by done. cbn [String.get]. unfold u8_leading_zeros.
  rewrite (proj2 (Z.eqb_neq _ _)) by done. lia.
Qed.

(** A first byte [b] other than zero decides the comparison by itself. *)
Lemma lz_byte b d n v :
  0 < b < 256 -> 0 <= v < 2 ^ n -> 0 <= n -> 0 <= d <= 8 + n ->
  (d <= 7 - Z.log2 b <-> b * 2 ^ n + v < 2 ^ (8 + n - d)).
Proof.
  intros Hb Hv Hn Hd.
  assert (d <= 7 - Z.log2 b <-> d <= 8 /\ b < 2 ^ (8 - d)) as ->.
  { pose proof (Z.log2_nonneg b). split.
    - intros Hl. split; [lia|]. apply Z.log2_lt_pow2; lia.
    - intros [Hd8 Hl]. apply Z.log2_lt_pow2 in Hl; lia. }
  split.
  - intros [Hd8 Hl]. replace (8 + n - d) with ((8 - d) + n) by lia. rewrite Z.pow_add_r by lia. nia.
  - intros Hl. destruct (Z.le_gt_cases d 8) as [Hd8|Hd8].
    + split; [done|]. replace (8 + n - d) with ((8 - d) + n) in Hl by lia.
      rewrite Z.pow_add_r in Hl by lia. nia.
    + exfalso. assert (2 ^ (8 + n - d) <= 2 ^ n) by (apply Z.pow_le_mono_r; lia). nia.
Qed.

Lemma leading_zero_bits_target s d :
  0 <= d <= 8 * Z.of_nat (String.length s) ->
  (d <= leading_zero_bits s <-> be_val s < 2 ^ (8 * Z.of_nat (String.length s) - d)).
Proof.
  revert d. induction s as [|c s IH]; intros d Hd; cbn [be_val String.length] in *.
  { replace d with 0 by lia. unfold leading_zero_bits. simpl. lia. }
  rewrite Nat2Z.inj_succ in *. set (n := 8 * Z.of_nat (String.length s)) in *.
  replace (8 * Z.succ (Z.of_nat (String.length s))) with (8 + n) in * by lia.
  pose proof (byte_val_range c). pose proof (be_val_bounds s) as Hv. fold n in Hv.
  destruct (Z.eq_dec (byte_val c) 0) as [H0|H0].
  - rewrite lz_cons_zero, H0, Z.mul_0_l, Z.add_0_l by done.
    destruct (Z.le_gt_cases 8 d) as [Hd8|Hd8].
    + replace (8 + n - d) with (n - (d - 8)) by lia. rewrite <- IH by lia. lia.
    + split; intros _.
      * eapply Z.lt_le_trans; [apply Hv|]. apply Z.pow_le_mono_r; lia.
      * assert (0 <= leading_zero_bits s) by (apply IH; [lia|]; rewrite Z.sub_0_r; apply Hv). lia.
  - rewrite lz_cons_nonzero by done. apply lz_byte; lia.
Qed.

Section Properties.
Context `{HashingLaws}.

(** A preimage passes the proof of work exactly when its SHA-256
    digest, read as a 256-bit big-endian number, is below [2 ^ (256 - d)];
    the batch backend agrees with the single check on every input. *)
Theorem pow_is_target preimage d inputs :
  0 <= d <= 256 ->
  (verify_pow preimage d = true <-> be_val (sha256 preimage) < 2 ^ (256 - d)) /\
  map satisfies (verify_pow_batch inputs) = map (fun '(p, bits) => verify_pow p bits) inputs.
Proof.
  intros Hd. split; [|unfold verify_pow_batch; rewrite map_map; apply map_ext; by intros []].
  unfold verify_pow. rewrite Z.leb_le.
  rewrite leading_zero_bits_target by (rewrite sha256_length; lia).
  by rewrite sha256_length.
Qed.
End Properties.

Lemma pow_is_target_witness :
  verify_pow (String (ascii_of_nat 0) (String (ascii_of_nat 31) EmptyString)) 11 = true /\
  be_val (sha256 (String (ascii_of_nat 0) (String (ascii_of_nat 31) EmptyString))) < 2 ^ (256 - 11).
Proof.
  split; [vm_compute; reflexivity|].
  apply (proj1 (proj1 (pow_is_target _ 11 [] ltac:(lia)))). vm_compute. reflexivity.
Defined.

Lemma adjust_bounded cur actual target reports expected :
  u32_range cur ->
  exists d, adjust_difficulty cur actual target reports expected = Some d /\
    1 <= d <= u32_max /\ (1 <= cur -> cur - 1 <= d <= cur + 1).
Proof.
  intros Hc. unfold adjust_difficulty, clamp, u32_saturating_add, u32_saturating_sub.
  unfold u32_range, u32_max in *.
  destruct (_ && _); [|destruct (_ && _)];
    (destruct (Z.ltb_spec (Z.min (2 ^ 32 - 1) (cur + 2)) (Z.max (Z.max 0 (cur - 2)) 1)); [lia|]);
    repeat case_match; bools; eexists; (split; [reflexivity|]); lia.
Qed.

(** An adjustment never panics, stays in the range of [u32], never goes
    below one bit and moves by at most one bit from a difficulty of at least
    one. *)
Theorem adjust_difficulty_bounded cur actual target reports expected :
  u32_range cur ->
  exists d, adjust_difficulty cur actual target reports expected = Some d /\
    1 <= d <= u32_max /\ (1 <= cur -> cur - 1 <= d <= cur + 1).
Proof. apply adjust_bounded. Qed.

Lemma adjust_difficulty_bounded_witness :
  adjust_difficulty 24 500 1000 1000 1000 = Some 25 /\
  exists d, adjust_difficulty 24 500 1000 1000 1000 = Some d /\ 1 <= d <= u32_max /\
    (1 <= 24 -> 24 - 1 <= d <= 24 + 1).
Proof.
  split; [vm_compute; reflexivity|]. apply adjust_difficulty_bounded.
  unfold u32_range, u32_max. lia.
Defined.

(** A slow epoch lowers the target, an idle one without a target keeps it. *)
Example adjust_slow : adjust_difficulty 24 4000 1000 1000 1000 = Some 23.
Proof. vm_compute. reflexivity. Qed.
Example adjust_nan : adjust_difficulty 24 0 0 0 0 = Some 24.
Proof. vm_compute. reflexivity. Qed.
