(* ===== verification/Records.v ===== *)
(** * Assets: records, codecs and hooks

    The ledger records of the four asset flavors with their string-field
    codecs, and the asset traits each flavor implements
    ([crates/asset-webcash/src/lib.rs], [crates/asset-rgb/src/lib.rs],
    [crates/asset-voucher/src/lib.rs]). *)
From S2P Require Import Prelude Decimal Amount External AssetCore Parsers Tokens Storage Htlc Mining.

(** ** JSON bodies

    [serde_json] on a request body: the parsed value, its members, and the
    typed readings the hooks and the mint make of them; an error is the
    decoder's message. *)
Record HtlcWitnessEntry := { we_input_index : nat; we_witness : HtlcWitness }.
Record HtlcLockEntry := { le_output_index : nat; le_request : LockRequest }.
Record MiningPreimageJson := { mp_webcash : list string; mp_subsidy : list string }.

Class JsonBody := {
  Value : Type;
  json_from_slice : string -> result string Value;
  json_get : Value -> string -> option Value;
  json_witnesses : Value -> result string (list HtlcWitnessEntry);
  json_locks : Value -> result string (list HtlcLockEntry);
  json_preimage : string -> result string MiningPreimageJson;
}.

(** ** Field codecs shared by the flavors *)

Definition flag (b : bool) : string := if b then "1" else "0".

(** [if let Some(ts) = ... { fields.insert(name, ..) }]. *)
Definition insert_opt (name : string) (v : option string) (m : gmap string string) : gmap string string :=
  match v with Some s => <[name := s]> m | None => m end.

Section Fields.
Context `{Chrono}.
Definition spent_field (fields : gmap string string) : bool :=
  match fields !! "spent" with Some s => String.eqb s "1" | None => false end.
Definition time_field (name : string) (fields : gmap string string) : option DateTime :=
  fields !! name ≫= parse_from_rfc3339.
Definition created_field (now : DateTime) (fields : gmap string string) : DateTime :=
  default now (time_field "created_at" fields).
Definition amount_field_of (fields : gmap string string) : option Z :=
  fields !! "amount_wats" ≫= parse_i64.
End Fields.

(** ** Webcash *)

Inductive WebcashOrigin := WMined | WReplaced.
Definition show_webcash_origin (o : WebcashOrigin) : string :=
  match o with WMined => "mined" | WReplaced => "replaced" end.

Section WebcashRecords.
Context `{Chrono}.

Record WebcashRecord := {
  w_public_hash : string;
  w_amount_wats : Z;
  w_spent : bool;
  w_created_at : DateTime;
  w_spent_at : option DateTime;
  w_origin : WebcashOrigin;
}.

Definition webcash_to_fields (r : WebcashRecord) : gmap string string :=
  <["origin" := show_webcash_origin (w_origin r)]>
  (insert_opt "spent_at" (to_rfc3339 <$> w_spent_at r)
  (<["created_at" := to_rfc3339 (w_created_at r)]>
  (<["spent" := flag (w_spent r)]>
  (<["amount_wats" := show_i64 (w_amount_wats r)]> ∅)))).

Definition webcash_from_fields (now : DateTime) (public_hash : string) (fields : gmap string string)
  : option WebcashRecord :=
  amount ← amount_field_of fields;
  Some {| w_public_hash := public_hash;
          w_amount_wats := amount;
          w_spent := spent_field fields;
          w_created_at := created_field now fields;
          w_spent_at := time_field "spent_at" fields;
          w_origin := match fields !! "origin" with
                      | Some "replaced" => WReplaced
                      | _ => WMined
                      end |}.

#[export] Instance webcash_hash_record : HashRecord WebcashRecord := {|
  record_hash := w_public_hash;
  record_amount_wats := w_amount_wats;
  record_namespace _ := unscoped;
  to_fields := webcash_to_fields;
  from_fields := webcash_from_fields;
|}.
End WebcashRecords.

(** ** RGB *)

Inductive RgbOrigin := RMined | RIssued | RReplaced.
Definition show_rgb_origin (o : RgbOrigin) : string :=
  match o with RMined => "mined" | RIssued => "issued" | RReplaced => "replaced" end.
(** ["transferred"] is the spelling of old rows. *)
Definition parse_rgb_origin (o : option string) : RgbOrigin :=
  match o with
  | Some "issued" => RIssued
  | Some "replaced" | Some "transferred" => RReplaced
  | _ => RMined
  end.
Definition rgb_origin_of (o : RecordOrigin) : RgbOrigin :=
  match o with Mined => RMined | Replaced => RReplaced end.

Section RgbRecords.
Context `{Chrono} `{Serde HtlcState}.

Record RgbFungibleRecord := {
  rf_public_hash : string;
  rf_amount_wats : Z;
  rf_spent : bool;
  rf_created_at : DateTime;
  rf_spent_at : option DateTime;
  rf_origin : RgbOrigin;
  rf_contract_id : ContractId;
  rf_issuer_fp : PgpFingerprint;
  rf_htlc_state : option HtlcState;
}.

Record RgbCollectibleRecord := {
  rc_public_hash : string;
  rc_spent : bool;
  rc_created_at : DateTime;
  rc_spent_at : option DateTime;
  rc_origin : RgbOrigin;
  rc_contract_id : ContractId;
  rc_issuer_fp : PgpFingerprint;
  rc_htlc_state : option HtlcState;
}.

Definition rgb_fungible_to_fields (r : RgbFungibleRecord) : gmap string string :=
  insert_opt "htlc_state" (to_json <$> rf_htlc_state r)
  (<["issuer_fp" := fp_str (rf_issuer_fp r)]>
  (<["contract_id" := cid_str (rf_contract_id r)]>
  (<["origin" := show_rgb_origin (rf_origin r)]>
  (insert_opt "spent_at" (to_rfc3339 <$> rf_spent_at r)
  (<["created_at" := to_rfc3339 (rf_created_at r)]>
  (<["spent" := flag (rf_spent r)]>
  (<["amount_wats" := show_i64 (rf_amount_wats r)]> ∅))))))).

Definition rgb_fungible_from_fields (now : DateTime) (public_hash : string) (fields : gmap string string)
  : option RgbFungibleRecord :=
  amount ← amount_field_of fields;
  contract ← fields !! "contract_id";
  iss ← fields !! "issuer_fp";
  Some {| rf_public_hash := public_hash;
          rf_amount_wats := amount;
          rf_spent := spent_field fields;
          rf_created_at := created_field now fields;
          rf_spent_at := time_field "spent_at" fields;
          rf_origin := parse_rgb_origin (fields !! "origin");
          rf_contract_id := mk_cid contract;
          rf_issuer_fp := mk_fp iss;
          rf_htlc_state := j ← fields !! "htlc_state"; result_ok (from_json j) |}.

Definition rgb_collectible_to_fields (r : RgbCollectibleRecord) : gmap string string :=
  insert_opt "htlc_state" (to_json <$> rc_htlc_state r)
  (<["issuer_fp" := fp_str (rc_issuer_fp r)]>
  (<["contract_id" := cid_str (rc_contract_id r)]>
  (<["origin" := show_rgb_origin (rc_origin r)]>
  (insert_opt "spent_at" (to_rfc3339 <$> rc_spent_at r)
  (<["created_at" := to_rfc3339 (rc_created_at r)]>
  (<["spent" := flag (rc_spent r)]>
  (<["amount_wats" := "0"]> ∅))))))).

Definition rgb_collectible_from_fields (now : DateTime) (public_hash : string)
    (fields : gmap string string) : option RgbCollectibleRecord :=
  contract ← fields !! "contract_id";
  iss ← fields !! "issuer_fp";
  Some {| rc_public_hash := public_hash;
          rc_spent := spent_field fields;
          rc_created_at := created_field now fields;
          rc_spent_at := time_field "spent_at" fields;
          rc_origin := parse_rgb_origin (fields !! "origin");
          rc_contract_id := mk_cid contract;
          rc_issuer_fp := mk_fp iss;
          rc_htlc_state := j ← fields !! "htlc_state"; result_ok (from_json j) |}.

#[export] Instance rgb_fungible_hash_record : HashRecord RgbFungibleRecord := {|
  record_hash := rf_public_hash;
  record_amount_wats := rf_amount_wats;
  record_namespace r := scoped (rf_contract_id r) (rf_issuer_fp r);
  to_fields := rgb_fungible_to_fields;
  from_fields := rgb_fungible_from_fields;
|}.

#[export] Instance rgb_collectible_hash_record : HashRecord RgbCollectibleRecord := {|
  record_hash := rc_public_hash;
  record_amount_wats _ := 0;
  record_namespace r := scoped (rc_contract_id r) (rc_issuer_fp r);
  to_fields := rgb_collectible_to_fields;
  from_fields := rgb_collectible_from_fields;
|}.
End RgbRecords.

(** ** Vouchers *)

Inductive VoucherOrigin := VMined | VIssued | VReplaced.
Definition show_voucher_origin (o : VoucherOrigin) : string :=
  match o with VMined => "mined" | VIssued => "issued" | VReplaced => "replaced" end.

Section VoucherRecords.
Context `{Chrono}.

Record VoucherRecord := {
  v_public_hash : string;
  v_amount_wats : Z;
  v_spent : bool;
  v_created_at : DateTime;
  v_spent_at : option DateTime;
  v_origin : VoucherOrigin;
  v_contract_id : ContractId;
  v_issuer_fp : PgpFingerprint;
}.

Definition voucher_to_fields (r : VoucherRecord) : gmap string string :=
  <["issuer_fp" := fp_str (v_issuer_fp r)]>
  (<["contract_id" := cid_str (v_contract_id r)]>
  (<["origin" := show_voucher_origin (v_origin r)]>
  (insert_opt "spent_at" (to_rfc3339 <$> v_spent_at r)
  (<["created_at" := to_rfc3339 (v_created_at r)]>
  (<["spent" := flag (v_spent r)]>
  (<["amount_wats" := show_i64 (v_amount_wats r)]> ∅)))))).

Definition voucher_from_fields (now : DateTime) (public_hash : string) (fields : gmap string string)
  : option VoucherRecord :=
  amount ← amount_field_of fields;
  contract ← fields !! "contract_id";
  iss ← fields !! "issuer_fp";
  Some {| v_public_hash := public_hash;
          v_amount_wats := amount;
          v_spent := spent_field fields;
          v_created_at := created_field now fields;
          v_spent_at := time_field "spent_at" fields;
          v_origin := match fields !! "origin" with
                      | Some "issued" => VIssued
                      | Some "replaced" => VReplaced
                      | _ => VMined
                      end;
          v_contract_id := mk_cid contract;
          v_issuer_fp := mk_fp iss |}.

#[export] Instance voucher_hash_record : HashRecord VoucherRecord := {|
  record_hash := v_public_hash;
  record_amount_wats := v_amount_wats;
  record_namespace r := scoped (v_contract_id r) (v_issuer_fp r);
  to_fields := voucher_to_fields;
  from_fields := voucher_from_fields;
|}.
End VoucherRecords.

(** ** The codecs lose nothing *)

Lemma insert_opt_lookup name v m : insert_opt name v m !! name = from_option Some (m !! name) v.
Proof. destruct v; simpl; [apply lookup_insert_eq|done]. Qed.

Lemma insert_opt_ne name v m k : name <> k -> insert_opt name v m !! k = m !! k.
Proof. intros Hk. destruct v; simpl; [by apply lookup_insert_ne|done]. Qed.

(** Reads a field through the inserts of a codec. *)
Ltac read_fields :=
  repeat first
    [ rewrite lookup_insert_eq | rewrite lookup_insert_ne by done
    | rewrite insert_opt_lookup | rewrite insert_opt_ne by done
    | rewrite lookup_empty ].

Lemma flag_eqb b : String.eqb (flag b) "1" = b.
Proof. by destruct b. Qed.

Section Roundtrip.
Context `{ChronoLaws} `{SerdeLaws HtlcState}.

Lemma time_opt (o : option DateTime) :
  from_option Some None (to_rfc3339 <$> o) ≫= parse_from_rfc3339 = o.
Proof. destruct o; simpl; [apply parse_to_rfc3339|done]. Qed.

Lemma htlc_opt (o : option HtlcState) : (j ← from_option Some None (to_json <$> o); result_ok (from_json j)) = o.
Proof. destruct o; simpl; [by rewrite from_to_json|done]. Qed.

Ltac roundtrip :=
  unfold amount_field_of, spent_field, created_field, time_field;
  read_fields; cbn [mbind option_bind];
  rewrite ?show_i64_parse by done; cbn [mbind option_bind];
  rewrite ?time_opt, ?htlc_opt, ?flag_eqb, ?parse_to_rfc3339; cbn [default from_option id].

#[export] Program Instance webcash_record_laws : HashRecordLaws WebcashRecord :=
  {| record_wf r := i64_range (w_amount_wats r) |}.
Next Obligation. intros r. simpl. unfold webcash_to_fields. by read_fields. Qed.
Next Obligation. intros r. simpl. unfold webcash_to_fields. read_fields. by eexists. Qed.
Next Obligation.
  intros now r Hr. simpl. unfold webcash_from_fields, webcash_to_fields. roundtrip.
  by destruct r as [? ? ? ? ? []].
Qed.

#[export] Program Instance rgb_fungible_record_laws : HashRecordLaws RgbFungibleRecord :=
  {| record_wf r := i64_range (rf_amount_wats r) |}.
Next Obligation. intros r. simpl. unfold rgb_fungible_to_fields. by read_fields. Qed.
Next Obligation. intros r. simpl. unfold rgb_fungible_to_fields. read_fields. by eexists. Qed.
Next Obligation.
  intros now r Hr. simpl. unfold rgb_fungible_from_fields, rgb_fungible_to_fields. roundtrip.
  by destruct r as [? ? ? ? ? [] [] [] ?].
Qed.

#[export] Program Instance rgb_collectible_record_laws : HashRecordLaws RgbCollectibleRecord :=
  {| record_wf _ := True |}.
Next Obligation. intros r. simpl. unfold rgb_collectible_to_fields. by read_fields. Qed.
Next Obligation. intros r. simpl. unfold rgb_collectible_to_fields. read_fields. by eexists. Qed.
Next Obligation.
  intros now r Hr. simpl. unfold rgb_collectible_from_fields, rgb_collectible_to_fields. roundtrip.
  by destruct r as [? ? ? ? [] [] [] ?].
Qed.

#[export] Program Instance voucher_record_laws : HashRecordLaws VoucherRecord :=
  {| record_wf r := i64_range (v_amount_wats r) |}.
Next Obligation. intros r. simpl. unfold voucher_to_fields. by read_fields. Qed.
Next Obligation. intros r. simpl. unfold voucher_to_fields. read_fields. by eexists. Qed.
Next Obligation.
  intros now r Hr. simpl. unfold voucher_from_fields, voucher_to_fields. roundtrip.
  by destruct r as [? ? ? ? ? [] [] []].
Qed.
End Roundtrip.

(** C40: reading back the fields of a record gives the record, for every
    flavor, with the spent flag, both timestamps, the origin and the lock
    state; an amount is only required to be an [i64]. *)
Theorem record_codecs_roundtrip `{ChronoLaws} `{SerdeLaws HtlcState} now :
  (forall r, i64_range (w_amount_wats r) ->
     webcash_from_fields now (w_public_hash r) (webcash_to_fields r) = Some r) /\
  (forall r, i64_range (rf_amount_wats r) ->
     rgb_fungible_from_fields now (rf_public_hash r) (rgb_fungible_to_fields r) = Some r) /\
  (forall r, rgb_collectible_from_fields now (rc_public_hash r) (rgb_collectible_to_fields r) = Some r) /\
  (forall r, i64_range (v_amount_wats r) ->
     voucher_from_fields now (v_public_hash r) (voucher_to_fields r) = Some r).
Proof.
  split_and!; intros r.
  - exact (@from_to_fields _ _ _ webcash_record_laws now r).
  - exact (@from_to_fields _ _ _ rgb_fungible_record_laws now r).
  - exact (@from_to_fields _ _ _ rgb_collectible_record_laws now r I).
  - exact (@from_to_fields _ _ _ voucher_record_laws now r).
Qed.

(** ** The asset flavors *)

Module WebcashAsset.
Section Defs.
Context `{Nom, Hashing, Chrono, JsonBody}.

#[export] Instance asset : Asset := {|
  NAME := "webcash";
  Secret := Webcash.SecretWebcash;
  Public := Webcash.PublicWebcash;
  Rec := WebcashRecord;
  parse_secret s := map_err (fun e => Parse ("webcash secret: " +:+ e)) (Webcash.secret_from_str s);
  parse_public s := map_err (fun e => Parse ("webcash public: " +:+ e)) (Webcash.public_from_str s);
  to_public := Webcash.to_public;
  secret_wire_form := Webcash.show_secret;
  secret_hex := Webcash.s_secret;
  public_wire_form := Webcash.show_public;
  public_hash := Webcash.p_hash;
|}.

#[export] Instance splittable : SplittableAsset := {|
  amount := Webcash.s_amount;
  amount_public := Webcash.p_amount |}.

#[export] Instance hook : ReplaceHook := {|
  validate_replace_request := default_validate;
  augment_output_records := default_augment |}.

Definition record_from_secret (now : DateTime) (s : Webcash.SecretWebcash) (origin : RecordOrigin)
  : WebcashRecord :=
  let public := Webcash.to_public s in
  {| w_public_hash := Webcash.p_hash public;
     w_amount_wats := wats (Webcash.s_amount s);
     w_spent := false;
     w_created_at := now;
     w_spent_at := None;
     w_origin := match origin with Mined => WMined | Replaced => WReplaced end |}.

#[export] Instance builder : RecordBuilder := {|
  AssetCore.record_from_secret := record_from_secret;
  namespace_envelope _ := None;
  public_namespace_envelope _ := None |}.

Record WebcashMiningReport := { preimage : string; difficulty_target_bits : Z }.

Definition leading_zero_bits (hash : string) : Z :=
  let full := zero_bytes hash in
  match String.get full hash with Some b => u8_leading_zeros (byte_val b) | None => 0 end
  + Z.of_nat full * 8.

Definition verify_issuance (ctx : WebcashMiningReport) : result AssetError unit :=
  if difficulty_target_bits ctx <=? leading_zero_bits (sha256 (preimage ctx)) then Ok tt
  else Err (Invariant ("proof-of-work below target (" +:+ show_u64 (difficulty_target_bits ctx) +:+ " bits)")).

(** The records of the tokens of the preimage, in order, failing on the
    first that does not parse. *)
Fixpoint mined_records (now : DateTime) (tokens : list string) : result AssetError (list WebcashRecord) :=
  match tokens with
  | [] => Ok []
  | token :: rest =>
      s ← map_err (fun e => Parse ("mined token " +:+ debug_str token +:+ ": " +:+ e)) (Webcash.secret_from_str token);
      rs ← mined_records now rest;
      Ok (record_from_secret now s Mined :: rs)
  end.

Definition build_records (now : DateTime) (ctx : WebcashMiningReport) : result AssetError (list WebcashRecord) :=
  pre ← map_err (fun e => Parse ("preimage JSON: " +:+ e)) (json_preimage (preimage ctx));
  mined_records now (mp_webcash pre ++ mp_subsidy pre).
End Defs.
End WebcashAsset.

(** [parse_htlc_witnesses], [parse_htlc_locks] and the hook bodies, which the
    two RGB flavors share word for word: [get] and [set] are the lock field of
    the flavor's record. *)
Module RgbHooks.
Section Defs.
Context `{JsonBody, Hashing} {R : Type} (get : R -> option HtlcState) (set : HtlcState -> R -> R).

Definition parse_htlc_witnesses (body : string) : result AssetError (list HtlcWitnessEntry) :=
  v ← map_err (fun e => Parse ("htlc: request body: " +:+ e)) (json_from_slice body);
  match json_get v "htlc_witnesses" with
  | None => Ok []
  | Some arr => map_err (fun e => Parse ("htlc_witnesses: " +:+ e)) (json_witnesses arr)
  end.

Definition parse_htlc_locks (body : string) : result AssetError (list HtlcLockEntry) :=
  v ← map_err (fun e => Parse ("htlc: request body: " +:+ e)) (json_from_slice body);
  match json_get v "htlc_locks" with
  | None => Ok []
  | Some arr => map_err (fun e => Parse ("htlc_locks: " +:+ e)) (json_locks arr)
  end.

Definition show_nat (n : nat) : string := show_u64 (Z.of_nat n).

(** The loop over the input records, from index [idx]. *)
Fixpoint check_locked (witnesses : list HtlcWitnessEntry) (now : Z) (idx : nat) (recs : list R)
  : result AssetError unit :=
  match recs with
  | [] => Ok tt
  | rec :: recs' =>
      match get rec with
      | None => check_locked witnesses now (S idx) recs'
      | Some state =>
          match List.find (fun w => (we_input_index w =? idx)%nat) witnesses with
          | None => Err (Invariant ("htlc: input " +:+ show_nat idx +:+
                      " is HTLC-locked but no htlc_witnesses entry was supplied"))
          | Some entry =>
              _ ← map_err (fun e => Invariant ("htlc input " +:+ show_nat idx +:+ ": " +:+ show_predicate_error e))
                    (execute_predicate state (we_witness entry) now);
              check_locked witnesses now (S idx) recs'
          end
      end
  end.

Definition validate_replace_request {S : Type} (body : string) (input_records : list R)
    (_output_secrets : list S) (server_now_unix : Z) : result AssetError unit :=
  witnesses ← parse_htlc_witnesses body;
  check_locked witnesses server_now_unix 0 input_records.

Fixpoint apply_locks (locks : list HtlcLockEntry) (now : Z) (recs : list R) : result AssetError (list R) :=
  match locks with
  | [] => Ok recs
  | entry :: locks' =>
      let idx := le_output_index entry in
      match recs !! idx with
      | None => Err (Invariant ("htlc: htlc_locks references output_index " +:+ show_nat idx +:+
                  " but only " +:+ show_nat (length recs) +:+ " outputs"))
      | Some rec =>
          apply_locks locks' now (<[idx := set (stamp_into_state (le_request entry) now) rec]> recs)
      end
  end.

Definition augment_output_records (body : string) (output_records : list R) (server_now_unix : Z)
  : result AssetError (list R) :=
  locks ← parse_htlc_locks body;
  apply_locks locks server_now_unix output_records.
End Defs.
End RgbHooks.

(** The loop of the two [verify_issuance] that check the batch: every record
    shares the namespace of the first. *)
Fixpoint same_namespace (c : ContractId) (i : PgpFingerprint) (l : list (ContractId * PgpFingerprint))
  : result AssetError unit :=
  match l with
  | [] => Ok tt
  | (c', i') :: l' =>
      if negb (bool_decide (c' = c)) then
        Err (Invariant ("issuance batch crosses contract_id: " +:+ cid_str c +:+ " vs " +:+ cid_str c'))
      else if negb (bool_decide (i' = i)) then
        Err (Invariant ("issuance batch crosses issuer_fp: " +:+ fp_str i +:+ " vs " +:+ fp_str i'))
      else same_namespace c i l'
  end.

Definition verify_batch (l : list (ContractId * PgpFingerprint)) : result AssetError unit :=
  match l with [] => Ok tt | (c, i) :: l' => same_namespace c i l' end.

Module RgbFungible.
Section Defs.
Context `{Nom, Hashing, Unicode, Chrono, JsonBody} `{Serde HtlcState}.

#[export] Instance asset : Asset := {|
  NAME := "rgb-fungible";
  Secret := Rgb.SecretFungible;
  Public := Rgb.PublicFungible;
  Rec := RgbFungibleRecord;
  parse_secret s := map_err (fun e => Parse ("rgb20 secret: " +:+ e)) (Rgb.secret_fungible_from_str s);
  parse_public s := map_err (fun e => Parse ("rgb20 public: " +:+ e)) (Rgb.public_fungible_from_str s);
  to_public := Rgb.fungible_to_public;
  secret_wire_form := Rgb.show_secret_fungible;
  secret_hex := Rgb.sf_secret;
  public_wire_form := Rgb.show_public_fungible;
  public_hash := Rgb.pf_hash;
|}.

#[export] Instance splittable : SplittableAsset := {|
  amount := Rgb.sf_amount;
  amount_public := Rgb.pf_amount |}.

#[export] Instance issued : IssuedAsset := {|
  issuer := Rgb.sf_issuer_fp;
  issuer_public := Rgb.pf_issuer_fp;
  contract_id := Rgb.sf_contract_id;
  contract_id_public := Rgb.pf_contract_id |}.

Definition set_lock (st : HtlcState) (r : RgbFungibleRecord) : RgbFungibleRecord := {|
  rf_public_hash := rf_public_hash r; rf_amount_wats := rf_amount_wats r; rf_spent := rf_spent r;
  rf_created_at := rf_created_at r; rf_spent_at := rf_spent_at r; rf_origin := rf_origin r;
  rf_contract_id := rf_contract_id r; rf_issuer_fp := rf_issuer_fp r; rf_htlc_state := Some st |}.

#[export] Instance hook : ReplaceHook := {|
  validate_replace_request body recs outs now :=
    RgbHooks.validate_replace_request rf_htlc_state body recs outs now;
  augment_output_records body recs now := RgbHooks.augment_output_records set_lock body recs now |}.

Definition record_from_secret (now : DateTime) (s : Rgb.SecretFungible) (origin : RecordOrigin)
  : RgbFungibleRecord :=
  let public := Rgb.fungible_to_public s in
  {| rf_public_hash := Rgb.pf_hash public;
     rf_amount_wats := wats (Rgb.sf_amount s);
     rf_spent := false;
     rf_created_at := now;
     rf_spent_at := None;
     rf_origin := rgb_origin_of origin;
     rf_contract_id := Rgb.sf_contract_id s;
     rf_issuer_fp := Rgb.sf_issuer_fp s;
     rf_htlc_state := None |}.

#[export] Instance builder : RecordBuilder := {|
  AssetCore.record_from_secret := record_from_secret;
  namespace_envelope s := Some (cid_str (Rgb.sf_contract_id s), fp_str (Rgb.sf_issuer_fp s));
  public_namespace_envelope p := Some (cid_str (Rgb.pf_contract_id p), fp_str (Rgb.pf_issuer_fp p)) |}.

#[export] Instance mintable : MintableAsset := {|
  IssuanceContext := list RgbFungibleRecord;
  verify_issuance records := verify_batch (map (fun r => (rf_contract_id r, rf_issuer_fp r)) records);
  build_records records := Ok records |}.
End Defs.
End RgbFungible.

Module RgbCollectible.
Section Defs.
Context `{Nom, Hashing, Unicode, Chrono, JsonBody} `{Serde HtlcState}.

#[export] Instance asset : Asset := {|
  NAME := "rgb-collectible";
  Secret := Rgb.SecretCollectible;
  Public := Rgb.PublicCollectible;
  Rec := RgbCollectibleRecord;
  parse_secret s := map_err (fun e => Parse ("rgb21 secret: " +:+ e)) (Rgb.secret_collectible_from_str s);
  parse_public s := map_err (fun e => Parse ("rgb21 public: " +:+ e)) (Rgb.public_collectible_from_str s);
  to_public := Rgb.collectible_to_public;
  secret_wire_form := Rgb.show_secret_collectible;
  secret_hex := Rgb.sc_secret;
  public_wire_form := Rgb.show_public_collectible;
  public_hash := Rgb.pc_hash;
|}.

#[export] Instance issued : IssuedAsset := {|
  issuer := Rgb.sc_issuer_fp;
  issuer_public := Rgb.pc_issuer_fp;
  contract_id := Rgb.sc_contract_id;
  contract_id_public := Rgb.pc_contract_id |}.

Definition set_lock (st : HtlcState) (r : RgbCollectibleRecord) : RgbCollectibleRecord := {|
  rc_public_hash := rc_public_hash r; rc_spent := rc_spent r;
  rc_created_at := rc_created_at r; rc_spent_at := rc_spent_at r; rc_origin := rc_origin r;
  rc_contract_id := rc_contract_id r; rc_issuer_fp := rc_issuer_fp r; rc_htlc_state := Some st |}.

#[export] Instance hook : ReplaceHook := {|
  validate_replace_request body recs outs now :=
    RgbHooks.validate_replace_request rc_htlc_state body recs outs now;
  augment_output_records body recs now := RgbHooks.augment_output_records set_lock body recs now |}.

#[export] Instance transferable : TransferableAsset := {|
  validate_transfer input output :=
    if negb (bool_decide (Rgb.sc_contract_id input = Rgb.sc_contract_id output)) then
      Err (Invariant ("contract_id mismatch: " +:+ cid_str (Rgb.sc_contract_id input) +:+ " vs " +:+
                      cid_str (Rgb.sc_contract_id output)))
    else if negb (bool_decide (Rgb.sc_issuer_fp input = Rgb.sc_issuer_fp output)) then
      Err (Invariant ("issuer_fp mismatch: " +:+ fp_str (Rgb.sc_issuer_fp input) +:+ " vs " +:+
                      fp_str (Rgb.sc_issuer_fp output)))
    else Ok tt |}.

Definition record_from_secret (now : DateTime) (s : Rgb.SecretCollectible) (origin : RecordOrigin)
  : RgbCollectibleRecord :=
  let public := Rgb.collectible_to_public s in
  {| rc_public_hash := Rgb.pc_hash public;
     rc_spent := false;
     rc_created_at := now;
     rc_spent_at := None;
     rc_origin := rgb_origin_of origin;
     rc_contract_id := Rgb.sc_contract_id s;
     rc_issuer_fp := Rgb.sc_issuer_fp s;
     rc_htlc_state := None |}.

#[export] Instance builder : RecordBuilder := {|
  AssetCore.record_from_secret := record_from_secret;
  namespace_envelope s := Some (cid_str (Rgb.sc_contract_id s), fp_str (Rgb.sc_issuer_fp s));
  public_namespace_envelope p := Some (cid_str (Rgb.pc_contract_id p), fp_str (Rgb.pc_issuer_fp p)) |}.

#[export] Instance mintable : MintableAsset := {|
  IssuanceContext := list RgbCollectibleRecord;
  verify_issuance _ := Ok tt;
  build_records records := Ok records |}.
End Defs.
End RgbCollectible.

Module VoucherAsset.
Section Defs.
Context `{Nom, Hashing, Unicode, Chrono}.

#[export] Instance asset : Asset := {|
  NAME := "voucher";
  Secret := Voucher.SecretVoucher;
  Public := Voucher.PublicVoucher;
  Rec := VoucherRecord;
  parse_secret s := map_err (fun e => Parse ("voucher secret: " +:+ e)) (Voucher.secret_from_str s);
  parse_public s := map_err (fun e => Parse ("voucher public: " +:+ e)) (Voucher.public_from_str s);
  to_public := Voucher.to_public;
  secret_wire_form := Voucher.show_secret;
  secret_hex := Voucher.sv_secret;
  public_wire_form := Voucher.show_public;
  public_hash := Voucher.pv_hash;
|}.

#[export] Instance splittable : SplittableAsset := {|
  amount := Voucher.sv_amount;
  amount_public := Voucher.pv_amount |}.

#[export] Instance issued : IssuedAsset := {|
  issuer := Voucher.sv_issuer_fp;
  issuer_public := Voucher.pv_issuer_fp;
  contract_id := Voucher.sv_contract_id;
  contract_id_public := Voucher.pv_contract_id |}.

#[export] Instance hook : ReplaceHook := {|
  validate_replace_request := default_validate;
  augment_output_records := default_augment |}.

Definition record_from_secret (now : DateTime) (s : Voucher.SecretVoucher) (origin : RecordOrigin)
  : VoucherRecord :=
  let public := Voucher.to_public s in
  {| v_public_hash := Voucher.pv_hash public;
     v_amount_wats := wats (Voucher.sv_amount s);
     v_spent := false;
     v_created_at := now;
     v_spent_at := None;
     v_origin := match origin with Mined => VMined | Replaced => VReplaced end;
     v_contract_id := Voucher.sv_contract_id s;
     v_issuer_fp := Voucher.sv_issuer_fp s |}.

#[export] Instance builder : RecordBuilder := {|
  AssetCore.record_from_secret := record_from_secret;
  namespace_envelope s := Some (cid_str (Voucher.sv_contract_id s), fp_str (Voucher.sv_issuer_fp s));
  public_namespace_envelope p := Some (cid_str (Voucher.pv_contract_id p), fp_str (Voucher.pv_issuer_fp p)) |}.

#[export] Instance mintable : MintableAsset := {|
  IssuanceContext := list VoucherRecord;
  verify_issuance records := verify_batch (map (fun r => (v_contract_id r, v_issuer_fp r)) records);
  build_records records := Ok records |}.
End Defs.
End VoucherAsset.

(** ** What the RGB hooks enforce *)

Section HookFacts.
Context `{JsonBody, Hashing} {R : Type} (get : R -> option HtlcState) (set : HtlcState -> R -> R).

Lemma check_locked_Ok ws now i recs :
  RgbHooks.check_locked get ws now i recs = Ok tt <->
  forall j rec st, recs !! j = Some rec -> get rec = Some st ->
    exists e r, List.find (fun w => (we_input_index w =? i + j)%nat) ws = Some e /\
      execute_predicate st (we_witness e) now = Ok r.
Proof.
  revert i. induction recs as [|rec recs IH]; intros i; cbn [RgbHooks.check_locked].
  { split; [done|]. intros _. done. }
  assert ((forall j r st, (rec :: recs) !! j = Some r -> get r = Some st ->
      exists e v, List.find (fun w => (we_input_index w =? i + j)%nat) ws = Some e /\
        execute_predicate st (we_witness e) now = Ok v) <->
    (forall st, get rec = Some st -> exists e v,
      List.find (fun w => (we_input_index w =? i)%nat) ws = Some e /\
        execute_predicate st (we_witness e) now = Ok v) /\
    (forall j r st, recs !! j = Some r -> get r = Some st ->
      exists e v, List.find (fun w => (we_input_index w =? S i + j)%nat) ws = Some e /\
        execute_predicate st (we_witness e) now = Ok v)) as ->.
  { split.
    - intros Hall. split; [intros st Hst|intros j r st Hj Hst].
      + specialize (Hall 0%nat rec st eq_refl Hst). by rewrite Nat.add_0_r in Hall.
      + specialize (Hall (S j) r st Hj Hst). by rewrite Nat.add_succ_r in Hall.
    - intros [Hz Hs] [|j] r st Hj Hst; [injection Hj as <-; rewrite Nat.add_0_r; by apply Hz|].
      rewrite Nat.add_succ_r. by apply (Hs j r st). }
  rewrite <- IH. destruct (get rec) as [st|]; [|split; [by split|by intros [_ ?]]].
  destruct (List.find _ ws) as [e|] eqn:Ef.
  2:{ split; [done|]. intros [Hst _]. destruct (Hst st eq_refl) as (e & v & E & _). congruence. }
  destruct (execute_predicate st (we_witness e) now) as [v|err] eqn:Ee; cbn [map_err mbind result_bind].
  - split; [intros Hc|by intros [_ ?]]. split; [|done]. intros st' [= <-]. by exists e, v.
  - split; [done|]. intros [Hst _]. destruct (Hst st eq_refl) as (e' & v & E & Ev). congruence.
Qed.

(** The last lock the request names for an output index. *)
Fixpoint lock_for (locks : list HtlcLockEntry) (j : nat) : option LockRequest :=
  match locks with
  | [] => None
  | e :: locks' =>
      match lock_for locks' j with
      | Some r => Some r
      | None => if (le_output_index e =? j)%nat then Some (le_request e) else None
      end
  end.

Lemma apply_locks_Ok locks now recs recs' :
  (forall a b r, set a (set b r) = set a r) ->
  RgbHooks.apply_locks set locks now recs = Ok recs' ->
  Forall (fun e => (le_output_index e < length recs)%nat) locks /\
  forall j, recs' !! j = (fun rec => match lock_for locks j with
                                    | Some req => set (stamp_into_state req now) rec
                                    | None => rec
                                    end) <$> recs !! j.
Proof.
  intros Hset. revert recs. induction locks as [|e locks IH]; intros recs; cbn [RgbHooks.apply_locks lock_for].
  { intros [= <-]. split; [done|]. intros j. by destruct (recs !! j). }
  destruct (recs !! le_output_index e) as [rec|] eqn:E; [|done].
  intros [Hf Hl]%IH. rewrite length_insert in Hf. split.
  { constructor; [by eapply lookup_lt_Some|done]. }
  intros j. rewrite Hl. destruct (Nat.eqb_spec (le_output_index e) j) as [<-|Hne].
  - rewrite list_lookup_insert_eq by by eapply lookup_lt_Some. rewrite E. cbn. f_equal.
    destruct (lock_for locks (le_output_index e)); [apply Hset|done].
  - rewrite list_lookup_insert_ne by done. destruct (recs !! j); [|done]. cbn. by destruct (lock_for locks j).
Qed.
End HookFacts.

Section HookProperties.
Context `{Nom, Hashing, Unicode, Chrono, JsonBody} `{Serde HtlcState}.

(** C33: the RGB replace hook accepts only when every locked input record,
    of either flavor, comes with a witness for its index that the predicate
    accepts at the server's clock; unlocked inputs need none. *)
Theorem hook_enforces_locks body now :
  (forall recs outs, AssetCore.validate_replace_request (ReplaceHook := RgbFungible.hook) body recs outs now = Ok tt ->
     exists ws, RgbHooks.parse_htlc_witnesses body = Ok ws /\
     forall j rec st, recs !! j = Some rec -> rf_htlc_state rec = Some st ->
       exists e r, List.find (fun w => (we_input_index w =? j)%nat) ws = Some e /\
         evaluate st (we_witness e) now = Ok r) /\
  (forall recs outs, AssetCore.validate_replace_request (ReplaceHook := RgbCollectible.hook) body recs outs now = Ok tt ->
     exists ws, RgbHooks.parse_htlc_witnesses body = Ok ws /\
     forall j rec st, recs !! j = Some rec -> rc_htlc_state rec = Some st ->
       exists e r, List.find (fun w => (we_input_index w =? j)%nat) ws = Some e /\
         evaluate st (we_witness e) now = Ok r).
Proof.
  split; intros recs outs (ws & Hws & Hc)%bind_Ok; exists ws; (split; [done|]);
    by apply (check_locked_Ok _ ws now 0).
Qed.

(** Stamping locks keeps the number and order of the outputs, refuses an
    index past the end, gives every output the request locks the state
    stamped with the server's clock (the last entry wins) and leaves the
    others and all remaining fields alone. *)
Theorem hook_stamps_locks body recs now recs' :
  AssetCore.augment_output_records (ReplaceHook := RgbFungible.hook) body recs now = Ok recs' ->
  exists locks, RgbHooks.parse_htlc_locks body = Ok locks /\
    Forall (fun e => (le_output_index e < length recs)%nat) locks /\
    forall j, recs' !! j = (fun rec => match lock_for locks j with
                                      | Some req => RgbFungible.set_lock (stamp_into_state req now) rec
                                      | None => rec
                                      end) <$> recs !! j.
Proof.
  intros (locks & Hl & Ha)%bind_Ok. exists locks. split; [done|].
  by apply apply_locks_Ok in Ha.
Qed.

Lemma same_namespace_Ok c i l : same_namespace c i l = Ok tt <-> Forall (fun p => p = (c, i)) l.
Proof.
  induction l as [|[c' i'] l IH]; cbn [same_namespace]; [by split|].
  rewrite Forall_cons, <- IH. repeat case_bool_decide; simpl; naive_solver.
Qed.

(** An RGB20 or voucher issuance is accepted exactly when all its
    records are in one namespace; the records to insert are then the batch
    itself. *)
Theorem issuance_one_namespace :
  (forall recs, verify_issuance (MintableAsset := RgbFungible.mintable) recs = Ok tt <->
     forall r r', r ∈ recs -> r' ∈ recs -> record_namespace r = record_namespace r') /\
  (forall recs, verify_issuance (MintableAsset := VoucherAsset.mintable) recs = Ok tt <->
     forall r r', r ∈ recs -> r' ∈ recs -> record_namespace r = record_namespace r').
Proof.
  split; intros recs; (destruct recs as [|r0 recs]; [split; [set_solver|done]|]); simpl;
    rewrite same_namespace_Ok, Forall_map, Forall_forall; split.
  - intros Hall. assert (forall r, r ∈ r0 :: recs -> (rf_contract_id r, rf_issuer_fp r) = (rf_contract_id r0, rf_issuer_fp r0))
      as Hr by (intros r [->|Hr]%elem_of_cons; [done|by apply Hall]).
    intros r r' [= -> ->]%Hr [= -> ->]%Hr. done.
  - intros Hall r Hr. assert (scoped (rf_contract_id r) (rf_issuer_fp r) = scoped (rf_contract_id r0) (rf_issuer_fp r0))
      as [= -> ->] by (apply Hall; [by right|by left]). done.
  - intros Hall. assert (forall r, r ∈ r0 :: recs -> (v_contract_id r, v_issuer_fp r) = (v_contract_id r0, v_issuer_fp r0))
      as Hr by (intros r [->|Hr]%elem_of_cons; [done|by apply Hall]).
    intros r r' [= -> ->]%Hr [= -> ->]%Hr. done.
  - intros Hall r Hr. assert (scoped (v_contract_id r) (v_issuer_fp r) = scoped (v_contract_id r0) (v_issuer_fp r0))
      as [= -> ->] by (apply Hall; [by right|by left]). done.
Qed.
End HookProperties.
