(* ===== verification/Auth.v ===== *)
(** * Issuer authentication

    [auth] ([crates/auth/src/lib.rs]): the registry of issuer keys, the
    verification of a detached signature over a request body, and the nonce
    cache that rejects replays.  Ed25519 and OpenPGP are parameters; the lock
    around the cache is not modelled, an operation runs under it as one step. *)
From S2P Require Import Prelude Decimal External AssetCore.

Inductive AuthError :=
  | UnknownIssuer (fp : string)
  | InvalidSignature
  | ReplayedNonce
  | MalformedSignature (msg : string)
  | MalformedPubkey (msg : string).

Definition show_auth_error (e : AuthError) : string :=
  match e with
  | UnknownIssuer fp => "issuer fingerprint not registered: " +:+ fp
  | InvalidSignature => "invalid signature"
  | ReplayedNonce => "nonce already seen (replay)"
  | MalformedSignature m => "malformed signature: " +:+ m
  | MalformedPubkey m => "malformed pubkey: " +:+ m
  end.

(** The public parameters of an OpenPGP primary key. *)
Inductive PublicParams := PEd25519 (key : string) | PEdDSALegacy | POther (debug : string).

Class Pgp := {
  PgpCert : Type;
  pgp_from_string : string -> result string PgpCert;
  public_params : PgpCert -> PublicParams;
  cert_fingerprint : PgpCert -> string;
}.

Definition show_len (s : string) : string := show_u64 (Z.of_nat (String.length s)).

Section Registry.
Context `{Hashing, Unicode, Ed25519, Pgp}.

Record IssuerRegistry := { keys : gmap string VerifyingKey }.

Definition new_registry : IssuerRegistry := {| keys := ∅ |}.

Definition add (r : IssuerRegistry) (fp pubkey_bytes : string) : result AuthError IssuerRegistry :=
  if negb (String.length pubkey_bytes =? 32)%nat then
    Err (MalformedPubkey ("expected 32 bytes, got " +:+ show_len pubkey_bytes))
  else
    key ← map_err MalformedPubkey (vk_from_bytes pubkey_bytes);
    Ok {| keys := <[to_lowercase fp := key]> (keys r) |}.

Definition add_hex (r : IssuerRegistry) (fp pubkey_hex : string) : result AuthError IssuerRegistry :=
  bytes ← map_err (fun e => MalformedPubkey ("hex: " +:+ e)) (hex_decode pubkey_hex);
  add r fp bytes.

Definition verify (r : IssuerRegistry) (fp : PgpFingerprint) (body_bytes sig_bytes : string)
  : result AuthError unit :=
  key ← ok_or (keys r !! to_lowercase (fp_str fp)) (UnknownIssuer (fp_str fp));
  if negb (String.length sig_bytes =? 64)%nat then
    Err (MalformedSignature ("expected 64 bytes, got " +:+ show_len sig_bytes))
  else if ed_verify key body_bytes sig_bytes then Ok tt else Err InvalidSignature.

Definition is_empty (r : IssuerRegistry) : bool := bool_decide (keys r = ∅).
Definition len (r : IssuerRegistry) : nat := size (keys r).

Definition add_pgp_armored (r : IssuerRegistry) (cert_armored : string)
  : result AuthError (string * IssuerRegistry) :=
  cert ← map_err (fun e => MalformedPubkey ("pgp parse: " +:+ e)) (pgp_from_string cert_armored);
  pubkey_bytes ← match public_params cert with
    | PEd25519 key => Ok key
    | PEdDSALegacy =>
        Err (MalformedPubkey "legacy EdDSA cert; please re-export with RFC 9580 Ed25519 packet")
    | POther other =>
        Err (MalformedPubkey ("unsupported primary key algorithm; need Ed25519, got " +:+ other))
    end;
  let fp_hex := hex_encode (cert_fingerprint cert) in
  r' ← add r fp_hex pubkey_bytes;
  Ok (fp_hex, r').
End Registry.

(** ** Nonces *)

Record NonceCache := { seen : gset string; max_size : nat }.

Definition with_capacity (n : nat) : NonceCache := {| seen := ∅; max_size := n |}.
(** [NonceCache::default()]. *)
Definition default_nonces : NonceCache := with_capacity (Z.to_nat 100000).

Definition nonce_key (fp : PgpFingerprint) (nonce : string) : string := fp_str fp +:+ ":" +:+ nonce.

Definition check_and_insert (c : NonceCache) (fp : PgpFingerprint) (nonce : string)
  : result AuthError unit * NonceCache :=
  let s := if (max_size c <=? size (seen c))%nat then ∅ else seen c in
  let key := nonce_key fp nonce in
  if bool_decide (key ∈ s) then (Err ReplayedNonce, {| seen := s; max_size := max_size c |})
  else (Ok tt, {| seen := {[ key ]} ∪ s; max_size := max_size c |}).

(** ** Facts *)

Section Facts.
Context `{Hashing, Unicode, Ed25519}.

(** What an accepted signature says. *)
Lemma verify_Ok r fp body sig :
  verify r fp body sig = Ok tt <->
  exists key, keys r !! to_lowercase (fp_str fp) = Some key /\
    String.length sig = 64%nat /\ ed_verify key body sig = true.
Proof.
  unfold verify. destruct (keys r !! to_lowercase (fp_str fp)) as [key|]; cbn [ok_or mbind result_bind].
  - destruct (Nat.eqb_spec (String.length sig) 64); cbn [negb].
    + destruct (ed_verify key body sig) eqn:E; split; try done; [by exists key|].
      intros (k & [= <-] & _ & ?). congruence.
    + split; [done|]. by intros (k & _ & ? & _).
  - split; [done|]. by intros (k & ? & _).
Qed.

(** A signature is accepted exactly when a key is registered under the
    lower-cased fingerprint and verifies a 64-byte signature of the whole
    body; a registered key replaces the earlier one of its fingerprint and
    leaves every other issuer alone. *)
Theorem registry_verifies_registered r fp body sig :
  (verify r fp body sig = Ok tt <->
     exists key, keys r !! to_lowercase (fp_str fp) = Some key /\
       String.length sig = 64%nat /\ ed_verify key body sig = true) /\
  (forall fp' bytes r', add r fp' bytes = Ok r' ->
     String.length bytes = 32%nat /\
     exists key, vk_from_bytes bytes = Ok key /\ keys r' !! to_lowercase fp' = Some key /\
       forall other, other <> to_lowercase fp' -> keys r' !! other = keys r !! other).
Proof.
  split; [apply verify_Ok|]. intros fp' bytes r'. unfold add.
  destruct (Nat.eqb_spec (String.length bytes) 32); cbn [negb]; [|done].
  destruct (vk_from_bytes bytes) as [key|]; cbn; [|done]. intros [= <-]. split; [done|].
  exists key. cbn. split_and!; [done|by rewrite lookup_insert_eq|].
  intros other Ho. by rewrite lookup_insert_ne.
Qed.
End Facts.

Lemma registry_verifies_registered_witness :
  let key := str_repeat "k"%char 32 in
  let r := Build_IssuerRegistry {[ "aa" := key ]} in
  exists r', add r "BB" key = Ok r' /\ verify r' (mk_fp "bb") "body" (str_repeat " "%char 64) = Err InvalidSignature /\
    keys r' !! "aa" = Some key.
Proof.
  set (key := str_repeat "k"%char 32). set (r := Build_IssuerRegistry {[ "aa" := key ]}).
  exists (Build_IssuerRegistry (<["bb" := key]> {[ "aa" := key ]})).
  assert (add r "BB" key = Ok (Build_IssuerRegistry (<["bb" := key]> {[ "aa" := key ]}))) as E
    by (vm_compute; reflexivity).
  split; [exact E|]. split; [vm_compute; reflexivity|].
  destruct (proj2 (registry_verifies_registered r (mk_fp "bb") "body" "sig") _ _ _ E) as (_ & k & _ & _ & Ho).
  transitivity (keys r !! "aa"); [apply Ho|]; vm_compute; [discriminate|reflexivity].
Defined.

(** The nonces that count as seen: all, until the cache is full, when it is
    emptied. *)
Definition nonces_seen (c : NonceCache) : gset string :=
  if (max_size c <=? size (seen c))%nat then ∅ else seen c.

(** What an accepted nonce says. *)
Lemma check_and_insert_Ok c fp n c' :
  check_and_insert c fp n = (Ok tt, c') ->
  nonce_key fp n ∉ nonces_seen c /\ seen c' = {[ nonce_key fp n ]} ∪ nonces_seen c /\ max_size c' = max_size c.
Proof. unfold check_and_insert. fold (nonces_seen c). case_bool_decide; [done|]. by intros [= <-]. Qed.

Lemma nonce_key_inj fp fp' n n' :
  str_all (fun c => negb (Ascii.eqb c ":"%char)) (fp_str fp) = true ->
  str_all (fun c => negb (Ascii.eqb c ":"%char)) (fp_str fp') = true ->
  nonce_key fp n = nonce_key fp' n' -> fp = fp' /\ n = n'.
Proof.
  unfold nonce_key. intros Hf Hf' E. apply (f_equal (split_once ":"%char)) in E.
  change (":" +:+ ?m) with (String ":" m) in E.
  rewrite !split_once_app in E by done. destruct fp, fp'; simpl in *. by simplify_eq.
Qed.

(** Sequences of requests through one cache. *)
Fixpoint run_nonces (c : NonceCache) (l : list (PgpFingerprint * string)) : list bool * NonceCache :=
  match l with
  | [] => ([], c)
  | (fp, n) :: l' =>
      let '(r, c1) := check_and_insert c fp n in
      let '(rs, c2) := run_nonces c1 l' in (is_ok r :: rs, c2)
  end.

(** While the cache is below its capacity, a pair that was accepted is
    refused for ever: along any sequence of requests no key is accepted twice
    before the cache has filled up; and the cache never holds more than its
    capacity. *)
Theorem nonces_not_replayed c l fp n rs c' :
  nonce_key fp n ∈ seen c -> (size (seen c) + length l < max_size c)%nat ->
  run_nonces c l = (rs, c') ->
  (size (seen c') <= max_size c')%nat /\ fst (check_and_insert c' fp n) = Err ReplayedNonce /\
  forall i, l !! i = Some (fp, n) -> rs !! i = Some false.
Proof.
  revert c rs. induction l as [|[fp1 n1] l IH]; intros c rs Hin Hsz; cbn [run_nonces].
  - intros [= <- <-]. cbn [length] in Hsz. split_and!; [lia| |done]. unfold check_and_insert.
    destruct (Nat.leb_spec (max_size c) (size (seen c))); [lia|]. by rewrite bool_decide_true.
  - cbn [length] in Hsz. destruct (check_and_insert c fp1 n1) as [r c1] eqn:E.
    destruct (run_nonces c1 l) as [rs1 c2] eqn:E2. intros [= <- <-].
    unfold check_and_insert in E. destruct (Nat.leb_spec (max_size c) (size (seen c))); [lia|].
    destruct (IH c1 rs1) as (Hs & Hr & Hi).
    + case_bool_decide; injection E as <- <-; cbn; [done|]. set_solver.
    + case_bool_decide as Hk; injection E as <- <-; cbn; [lia|]. rewrite size_union by set_solver.
      rewrite size_singleton. lia.
    + done.
    + split_and!; [done..|]. intros [|i]; cbn; [|apply Hi]. intros [= -> ->].
      rewrite bool_decide_true in E by done. by injection E as <- <-.
Qed.

Lemma nonces_not_replayed_witness :
  let fp := mk_fp "aa" in
  let c := snd (check_and_insert (with_capacity 10) fp "n1") in
  fst (run_nonces c [(fp, "n2"); (fp, "n1")]) = [true; false] /\
  fst (check_and_insert (snd (run_nonces c [(fp, "n2"); (fp, "n1")])) fp "n1") = Err ReplayedNonce.
Proof.
  set (fp := mk_fp "aa"). set (c := snd (check_and_insert (with_capacity 10) fp "n1")).
  split; [vm_compute; reflexivity|].
  refine (proj1 (proj2 (nonces_not_replayed c [(fp, "n2"); (fp, "n1")] fp "n1"
    (fst (run_nonces c [(fp, "n2"); (fp, "n1")])) _ _ _ _))).
  - unfold c, check_and_insert. simpl. set_solver.
  - apply Nat.ltb_lt. vm_compute. reflexivity.
  - apply surjective_pairing.
Defined.

(** At capacity the whole cache is dropped, so the pair that filled it can be
    replayed at once: the cache is not an LRU. *)
Example full_cache_replays :
  let fp := mk_fp "aa" in
  fst (run_nonces (with_capacity 2) [(fp, "n1"); (fp, "n2"); (fp, "n2")]) = [true; true; true].
Proof. vm_compute. reflexivity. Qed.
