(* ===== verification/Server.v ===== *)
(** * The asset server

    [server-core] ([crates/server-core/src/lib.rs]): the request handlers and
    the routes, over any asset and any ledger store.  A handler is a
    computation over the state of the server (the data behind the store and the
    nonce cache) that ends in a response; [return server_error(..)] is its
    failure.  HTTP, JSON and base64 are parameters, and the instants and the
    random identifier read while one request is handled are its [Env]. *)
From S2P Require Import Prelude Decimal Amount External AssetCore Storage Mining Auth.
From Stdlib Require Import Floats.SpecFloat.

(** ** Requests and responses *)

Record Request := {
  req_method : string;
  req_path : string;
  req_signature : option string;
  req_body : result string string;
}.

(** A response: status, body, and the message the server logs with a 500. *)
Record Response := { resp_status : Z; resp_body : string; resp_log : option string }.

Record Env `{Chrono} := { now_unix : Z; now : DateTime; new_uuid : string }.

Record ReplaceBody := {
  rb_webcashes : list string; rb_new_webcashes : list string; rb_legalese : option bool }.
Record BurnBody := { bb_webcash : string; bb_legalese : option bool }.
Record MiningReportBody := { mb_preimage : string; mb_legalese : option bool }.
Record MiningPreimage := { mi_webcash : list string; mi_subsidy : list string; mi_timestamp : Z }.
Record IssueBody := {
  ib_issuer_fp : string; ib_outputs : list string; ib_nonce : string; ib_ts : Z;
  ib_legalese : option bool }.

(** The decoders of the bodies, with serde's error text; base64; the text of
    a float. *)
Class ServerJson := {
  json_tokens : string -> result string (list string);
  json_replace_body : string -> result string ReplaceBody;
  json_burn_body : string -> result string BurnBody;
  json_mining_body : string -> result string MiningReportBody;
  json_mining_preimage : string -> result string MiningPreimage;
  json_issue_body : string -> result string IssueBody;
  base64_decode : string -> option string;
  show_f64 : spec_float -> string;
}.

(** ** Text *)

Definition quoted (s : string) : string := dquote +:+ s +:+ dquote.

Definition SERVER_SCALE : Z := 100000000.

Fixpoint trim_zeros (s : string) : string :=
  match s with
  | EmptyString => EmptyString
  | String c s' =>
      match trim_zeros s' with
      | EmptyString => if Ascii.eqb c "0"%char then EmptyString else String c EmptyString
      | t => String c t
      end
  end.

Definition wats_to_string (wats : Z) : string :=
  let abs := Z.abs wats in
  let whole := abs / SERVER_SCALE in
  let frac := abs mod SERVER_SCALE in
  let sign := if wats <? 0 then "-" else EmptyString in
  if frac =? 0 then sign +:+ show_u64 whole
  else sign +:+ show_u64 whole +:+ "." +:+ trim_zeros (show_pad8 frac).

Definition normalize_amount_str (s : string) : string :=
  match split_once "."%char s with
  | Some (whole, frac) =>
      if str_all (fun c => Ascii.eqb c "0"%char) frac && negb (String.eqb frac EmptyString)
      then whole else s
  | None => s
  end.

Definition production_normalize_public (token : string) : string :=
  match strip_prefix "e" token with
  | Some rest =>
      match split_once ":"%char rest with
      | Some (amt, suffix) => "e" +:+ normalize_amount_str amt +:+ ":" +:+ suffix
      | None => token
      end
  | None => token
  end.

(** UTF-8 well-formedness ([String::from_utf8]). *)
Definition in_range (lo hi : Z) (c : ascii) : bool :=
  (lo <=? byte_val c) && (byte_val c <=? hi).
Fixpoint utf8_valid (s : string) : bool :=
  match s with
  | EmptyString => true
  | String a s1 =>
      if in_range 0 127 a then utf8_valid s1
      else match s1 with
      | EmptyString => false
      | String b s2 =>
          if in_range 194 223 a then in_range 128 191 b && utf8_valid s2
          else match s2 with
          | EmptyString => false
          | String c s3 =>
              if in_range 224 239 a then
                (if in_range 224 224 a then in_range 160 191 b
                 else if in_range 237 237 a then in_range 128 159 b else in_range 128 191 b)
                && in_range 128 191 c && utf8_valid s3
              else match s3 with
              | EmptyString => false
              | String d s4 =>
                  in_range 240 244 a &&
                  (if in_range 240 240 a then in_range 144 191 b
                   else if in_range 244 244 a then in_range 128 143 b else in_range 128 191 b)
                  && in_range 128 191 c && in_range 128 191 d && utf8_valid s4
              end
          end
      end
  end.

Definition base64_try_decode `{ServerJson} (s : string) : option string :=
  b ← base64_decode s; if utf8_valid b then Some b else None.

Definition show_amount_error (e : AmountError) : string :=
  match e with
  | InvalidFormat i => "invalid amount format: " +:+ i
  | Overflow => "amount overflow"
  | TooManyDecimals => "too many decimal places (max 8)"
  end.

Definition show_asset_error (e : AssetError) : string :=
  match e with
  | Parse m => "parse error: " +:+ m
  | Invariant m => "invariant violated: " +:+ m
  | AmountErr e => "amount error: " +:+ show_amount_error e
  | Unimplemented w => "unimplemented: " +:+ w
  end.

(** ** Responses *)

Definition not_found : Response := {|
  resp_status := 404;
  resp_body := "<html><title>404: Not Found</title><body>404: Not Found</body></html>";
  resp_log := None |}.
Definition ok_text_html_json (body : string) : Response :=
  {| resp_status := 200; resp_body := body; resp_log := None |}.
Definition server_error (msg : string) : Response := {|
  resp_status := 500;
  resp_body := "<html><title>500: Internal Server Error</title><body>500: Internal Server Error</body></html>";
  resp_log := Some msg |}.
(** [{"status": "success"}] *)
Definition success : Response :=
  ok_text_html_json ("{" +:+ quoted "status" +:+ ": " +:+ quoted "success" +:+ "}").

Definition terms : Response :=
  ok_text_html_json ("Webycash Terms of Service" +:+ String (ascii_of_nat 10) (String (ascii_of_nat 10)
    ("Placeholder; full text wired in M1 follow-up." +:+ String (ascii_of_nat 10) EmptyString))).

(** ** The handler monad *)

Record ServerState (S : Type) := { data : S; nonces : NonceCache }.
Arguments data {S} _.
Arguments nonces {S} _.
Arguments Build_ServerState {S} _ _.

Definition handler (S A : Type) : Type := ServerState S -> result Response A * ServerState S.

#[export] Instance handler_ret {S} : MRet (handler S) := fun A a st => (Ok a, st).
#[export] Instance handler_bind {S} : MBind (handler S) := fun A B f m st =>
  match m st with
  | (Ok a, st') => f a st'
  | (Err r, st') => (Err r, st')
  end.

Definition fail {S A} (msg : string) : handler S A := fun st => (Err (server_error msg), st).
Definition try {S E A} (r : result E A) (msg : E -> string) : handler S A := fun st =>
  match r with Ok a => (Ok a, st) | Err e => (Err (server_error (msg e)), st) end.
Definition with_store {S A} (f : S -> A * S) : handler S A := fun st =>
  let '(a, s) := f (data st) in (Ok a, {| data := s; nonces := nonces st |}).

(** The response of a handler and the state it leaves. *)
Definition respond {S} (h : handler S Response) (st : ServerState S) : Response * ServerState S :=
  match h st with (Ok r, st') | (Err r, st') => (r, st') end.

Definition terms_ok (l : option bool) : bool := match l with Some b => b | None => false end.

(** ** Handlers *)

Section Handlers.
Context {A : Asset} `{Chrono} `{!HashRecord Rec} {S : Type} `{!LedgerStore Rec S} `{ServerJson}.

Definition collect_body (req : Request) : result string string := req_body req.

(** [for token in tokens { A::parse_public(token) .. }]. *)
Fixpoint parse_publics (tokens : list string) : result string (list Public) :=
  match tokens with
  | [] => Ok []
  | token :: rest =>
      p ← map_err (fun _ => "invalid token: " +:+ token) (parse_public token);
      ps ← parse_publics rest;
      Ok (p :: ps)
  end.

Definition envelope_ns (e : option (string * string)) : Namespace :=
  match e with Some (c, i) => scoped (mk_cid c) (mk_fp i) | None => unscoped end.

(** [by_ns.entry(ns).or_default().push(item)], over an association list. *)
Fixpoint push_ns (ns : Namespace) (item : nat * string) (m : list (Namespace * list (nat * string)))
  : list (Namespace * list (nat * string)) :=
  match m with
  | [] => [(ns, [item])]
  | (ns', items) :: m' =>
      if bool_decide (ns' = ns) then (ns', items ++ [item]) :: m' else (ns', items) :: push_ns ns item m'
  end.

(** [lookups[orig_idx] = v] for the items of one bucket and their answers. *)
Fixpoint fill_lookups {V} (items : list (nat * string)) (vs : list V) (lookups : list V) : list V :=
  match items, vs with
  | (idx, _) :: items', v :: vs' => fill_lookups items' vs' (<[idx := v]> lookups)
  | _, _ => lookups
  end.

(** A JSON string body with quotes and backslashes escaped. *)
Fixpoint json_escape (s : string) : string :=
  match s with
  | EmptyString => EmptyString
  | String c s' =>
      (if Ascii.eqb c (ascii_of_nat 34) then String (ascii_of_nat 92) dquote
       else if Ascii.eqb c (ascii_of_nat 92)
       then String (ascii_of_nat 92) (String (ascii_of_nat 92) EmptyString)
       else String c EmptyString) +:+ json_escape s'
  end.

Definition json_spent (s : option bool) : string :=
  match s with None => "null" | Some true => "true" | Some false => "false" end.

Fixpoint join_comma (l : list string) : string :=
  match l with
  | [] => EmptyString
  | [x] => x
  | x :: l' => x +:+ ", " +:+ join_comma l'
  end.

Definition results_body (entries : list string) : string :=
  "{" +:+ quoted "status" +:+ ": " +:+ quoted "success" +:+ ", " +:+ quoted "results" +:+ ": {" +:+
  join_comma entries +:+ "}}".

Definition health_entry (e : (string * option bool * option Z) * string) : string :=
  let '((_, spent, amount), key) := e in
  quoted (json_escape key) +:+ ": {" +:+ quoted "spent" +:+ ": " +:+ json_spent spent +:+
  match spent, amount with
  | Some false, Some wats => ", " +:+ quoted "amount" +:+ ": " +:+ quoted (wats_to_string wats)
  | Some true, _ => ", " +:+ quoted "amount" +:+ ": null"
  | _, _ => EmptyString
  end +:+ "}".

Definition health_entry_collectible (e : (string * option bool) * string) : string :=
  let '((_, spent), key) := e in
  quoted (json_escape key) +:+ ": {" +:+ quoted "spent" +:+ ": " +:+ json_spent spent +:+ "}".

Section Generic.
Context {RB : RecordBuilder} (env : Env).

Definition public_ns (p : Public) : Namespace := envelope_ns (public_namespace_envelope p).
Definition secret_ns (s : Secret) : Namespace := envelope_ns (namespace_envelope s).

Definition group_by_ns (hashes : list string) (publics : list Public)
  : list (Namespace * list (nat * string)) :=
  foldl (fun m '(idx, (h, p)) => push_ns (public_ns p) (idx, h) m) []
    (zip (seq 0 (length hashes)) (zip hashes publics)).

Fixpoint health_lookup (groups : list (Namespace * list (nat * string)))
    (lookups : list (string * option bool * option Z)) : handler S (list (string * option bool * option Z)) :=
  match groups with
  | [] => mret lookups
  | (ns, items) :: groups' =>
      let bucket_hashes := map snd items in
      ra ← with_store (get_tokens (now env) ns bucket_hashes);
      amounts ← try ra (fun e => "storage: " +:+ e);
      rs ← with_store (check_tokens ns bucket_hashes);
      spents ← try rs (fun e => "storage: " +:+ e);
      let vs := map (fun '((h, spent), record) => (h, spent, option_map record_amount_wats record))
                    (zip spents amounts) in
      health_lookup groups' (fill_lookups items vs lookups)
  end.

Definition health_check (req : Request) : handler S Response :=
  body ← try (collect_body req) (fun e => "body: " +:+ e);
  tokens ← try (json_tokens body) (fun e => "parse: " +:+ e);
  publics ← try (parse_publics tokens) (fun e => e);
  let hashes := map public_hash publics in
  let canonical := map production_normalize_public tokens in
  lookups ← health_lookup (group_by_ns hashes publics) (replicate (length hashes) (EmptyString, None, None));
  mret (ok_text_html_json (results_body (map health_entry (zip lookups canonical)))).

Fixpoint health_lookup_collectible (groups : list (Namespace * list (nat * string)))
    (lookups : list (string * option bool)) : handler S (list (string * option bool)) :=
  match groups with
  | [] => mret lookups
  | (ns, items) :: groups' =>
      rs ← with_store (check_tokens ns (map snd items));
      res ← try rs (fun e => "storage: " +:+ e);
      health_lookup_collectible groups' (fill_lookups items res lookups)
  end.

Definition health_check_collectible (req : Request) : handler S Response :=
  body ← try (collect_body req) (fun e => "body: " +:+ e);
  tokens ← try (json_tokens body) (fun e => "parse: " +:+ e);
  publics ← try (parse_publics tokens) (fun e => e);
  let hashes := map public_hash publics in
  lookups ← health_lookup_collectible (group_by_ns hashes publics)
              (replicate (length hashes) (EmptyString, None));
  mret (ok_text_html_json (results_body (map health_entry_collectible (zip lookups tokens)))).

(** The input and the output loop of [replace]: parse and sum. *)
Fixpoint parse_sum {SA : SplittableAsset} (kind : string) (tokens : list string) (total : Amount)
  : result string (list Secret * Amount) :=
  match tokens with
  | [] => Ok ([], total)
  | token :: rest =>
      s ← map_err (fun e => "invalid " +:+ kind +:+ " token: " +:+ show_asset_error e) (parse_secret token);
      total' ← ok_or (checked_add total (amount s)) (kind +:+ " amount overflow");
      '(ss, t) ← parse_sum kind rest total';
      Ok (s :: ss, t)
  end.

(** Every input must be in the store. *)
Fixpoint all_found (records : list (option Rec)) (hashes : list string) : result string (list Rec) :=
  match records with
  | [] => Ok []
  | None :: _ => Err ("input token not found: " +:+ default EmptyString (head hashes))
  | Some r :: records' => rs ← all_found records' (tail hashes); Ok (r :: rs)
  end.

Definition replace_outcome (results : list ReplaceResult) (none_msg : string) : result string Response :=
  match head results with
  | Some ReplaceOk => Ok success
  | Some (ReplaceFailed e) => Err ("replace failed: " +:+ e)
  | None => Err none_msg
  end.

Definition replace {SA : SplittableAsset} {RH : ReplaceHook} (req : Request) : handler S Response :=
  body ← try (collect_body req) (fun e => "body: " +:+ e);
  parsed ← try (json_replace_body body) (fun e => "parse: " +:+ e);
  if negb (terms_ok (rb_legalese parsed)) then fail "legalese.terms must be true"
  else if (length (rb_webcashes parsed) =? 0)%nat && (length (rb_new_webcashes parsed) =? 0)%nat
  then mret success
  else
    '(input_secrets, input_total) ← try (parse_sum "input" (rb_webcashes parsed) ZERO) (fun e => e);
    '(output_secrets, output_total) ← try (parse_sum "output" (rb_new_webcashes parsed) ZERO) (fun e => e);
    if negb (bool_decide (input_total = output_total)) then
      fail ("amount mismatch: inputs=" +:+ to_string input_total +:+ " outputs=" +:+ to_string output_total)
    else
      let ns := envelope_ns (head input_secrets ≫= namespace_envelope) in
      if negb (forallb (fun s => bool_decide (secret_ns s = ns)) (input_secrets ++ output_secrets)) then
        fail "namespace mismatch: all inputs and outputs must share the same (contract_id, issuer_fp)"
      else
        let input_hashes := map (fun s => public_hash (to_public s)) input_secrets in
        rr ← with_store (get_tokens (now env) ns input_hashes);
        input_records_full ← try rr (fun e => "storage: " +:+ e);
        concrete_inputs ← try (all_found input_records_full input_hashes) (fun e => e);
        _ ← try (validate_replace_request body concrete_inputs output_secrets (now_unix env)) show_asset_error;
        let outputs := map (fun s => record_from_secret (now env) s Replaced) output_secrets in
        outputs ← try (augment_output_records body outputs (now_unix env)) show_asset_error;
        let record := {|
          rr_id := new_uuid env;
          rr_input_hashes := input_hashes;
          rr_output_hashes := map record_hash outputs;
          rr_total_amount_wats := wats input_total;
          rr_created_at := now env |} in
        let op := {| ro_inputs := input_hashes; ro_outputs := outputs; ro_record := record |} in
        results ← with_store (batch_replace (now env) ns [op]);
        try (replace_outcome results "no result from batch_replace") (fun e => e).

Definition replace_collectible {TA : TransferableAsset} {IA : IssuedAsset} {RH : ReplaceHook}
    (req : Request) : handler S Response :=
  body ← try (collect_body req) (fun e => "body: " +:+ e);
  parsed ← try (json_replace_body body) (fun e => "parse: " +:+ e);
  if negb (terms_ok (rb_legalese parsed)) then fail "legalese.terms must be true"
  else
    match rb_webcashes parsed, rb_new_webcashes parsed with
    | [input_token], [output_token] =>
        input ← try (parse_secret input_token) (fun e => "invalid input: " +:+ show_asset_error e);
        output ← try (parse_secret output_token) (fun e => "invalid output: " +:+ show_asset_error e);
        if negb (bool_decide (issuer input = issuer output)) ||
           negb (bool_decide (contract_id input = contract_id output))
        then fail "namespace mismatch (input/output)"
        else
          _ ← try (validate_transfer input output) (fun e => "rejected: " +:+ show_asset_error e);
          let ns := secret_ns input in
          let input_hash := public_hash (to_public input) in
          rr ← with_store (get_tokens (now env) ns [input_hash]);
          input_records_full ← try rr (fun e => "storage: " +:+ e);
          concrete_inputs ← match head input_records_full with
            | Some (Some r) => mret [r]
            | _ => fail ("input token not found: " +:+ input_hash)
            end;
          _ ← try (validate_replace_request body concrete_inputs [output] (now_unix env)) show_asset_error;
          outputs ← try (augment_output_records body [record_from_secret (now env) output Replaced]
                           (now_unix env)) show_asset_error;
          let record := {|
            rr_id := new_uuid env;
            rr_input_hashes := [input_hash];
            rr_output_hashes := map record_hash outputs;
            rr_total_amount_wats := 0;
            rr_created_at := now env |} in
          let op := {| ro_inputs := [input_hash]; ro_outputs := outputs; ro_record := record |} in
          results ← with_store (batch_replace (now env) ns [op]);
          try (replace_outcome results "no result") (fun e => e)
    | _, _ => fail "non-splittable replace requires exactly 1 input and 1 output"
    end.

(** [burn] and [burn_collectible]: the amount recorded is the token's, or
    0 for a collectible. *)
Definition burn_with (wats_of : Secret -> Z) (req : Request) : handler S Response :=
  body ← try (collect_body req) (fun e => "body: " +:+ e);
  parsed ← try (json_burn_body body) (fun e => "parse: " +:+ e);
  if negb (terms_ok (bb_legalese parsed)) then fail "legalese.terms must be true"
  else
    secret ← try (parse_secret (bb_webcash parsed)) (fun e => "invalid token: " +:+ show_asset_error e);
    let hash := public_hash (to_public secret) in
    let record := {|
      br_id := new_uuid env;
      br_public_hash := hash;
      br_amount_wats := wats_of secret;
      br_burned_at := now env |} in
    r ← with_store (batch_burn (now env) (secret_ns secret) [(hash, record)]);
    _ ← try r (fun e => "burn failed: " +:+ e);
    mret success.

Definition burn {SA : SplittableAsset} : Request -> handler S Response :=
  burn_with (fun s => wats (amount s)).
Definition burn_collectible : Request -> handler S Response := burn_with (fun _ => 0).
End Generic.
End Handlers.

Record ServeConfig := { bind_addr : string; mining : MiningConfig }.
Definition testnet_default : ServeConfig := {|
  bind_addr := "0.0.0.0:8080";
  mining := {|
    mode := webcash_testnet;
    Mining.mining_amount_wats := Mining.mining_amount_wats default_mining_config;
    Mining.subsidy_amount_wats := Mining.subsidy_amount_wats default_mining_config;
    max_issuance := max_issuance default_mining_config;
    require_pow_for_issuance := require_pow_for_issuance default_mining_config |} |}.

Section Endpoints.
Context {A : Asset} `{Chrono} `{!HashRecord Rec} {S : Type} `{!LedgerStore Rec S} `{ServerJson}
  `{Hashing, Unicode, Ed25519} {RB : RecordBuilder}
  (cfg : ServeConfig) (issuers : option IssuerRegistry) (env : Env).

(** [A::parse_secret] on every mined token, as [Mined] records. *)
Fixpoint mined_records (tokens : list string) : result string (list Rec) :=
  match tokens with
  | [] => Ok []
  | token :: rest =>
      s ← map_err (fun e => "invalid mined token: " +:+ show_asset_error e) (parse_secret token);
      rs ← mined_records rest;
      Ok (record_from_secret (now env) s Mined :: rs)
  end.

(** [MiningState::default()]. *)
Definition default_mining_state : MiningState := {|
  ms_total_circulation_wats := 0; ms_mining_reports_count := 0; ms_difficulty_target_bits := 0;
  ms_epoch := 0; ms_mining_amount_wats := 0; ms_subsidy_amount_wats := 0;
  ms_epoch_started_at := unix_epoch; ms_aggregate_work := 0 |}.

(** The update of the mining state after an accepted report. *)
Definition after_report (target_bits : Z) (records : list Rec) (s : MiningState) : MiningState :=
  let added := i64_wrap (foldr (fun r z => record_amount_wats r + z) 0 records) in
  {| ms_total_circulation_wats := i64_saturating_add (ms_total_circulation_wats s) added;
     ms_mining_reports_count := u64_saturating_add (ms_mining_reports_count s) 1;
     ms_difficulty_target_bits := target_bits;
     ms_epoch := ms_epoch s;
     ms_mining_amount_wats := Mining.mining_amount_wats (mining cfg);
     ms_subsidy_amount_wats := Mining.subsidy_amount_wats (mining cfg);
     ms_epoch_started_at := ms_epoch_started_at s;
     ms_aggregate_work := ms_aggregate_work s |}.

Definition mining_report (req : Request) : handler S Response :=
  body ← try (collect_body req) (fun e => "body: " +:+ e);
  report ← try (json_mining_body body) (fun e => "parse: " +:+ e);
  if negb (terms_ok (mb_legalese report)) then fail "legalese.terms must be true"
  else
    match current_difficulty (mining cfg) with
    | None => fail "mining is disabled on this server"
    | Some target_bits =>
        if negb (verify_pow (mb_preimage report) target_bits) then
          fail ("proof-of-work below target (" +:+ show_u64 target_bits +:+ " bits)")
        else
          let preimage_json := default (mb_preimage report) (base64_try_decode (mb_preimage report)) in
          preimage ← try (json_mining_preimage preimage_json) (fun e => "invalid preimage: " +:+ e);
          records ← try (mined_records (mi_webcash preimage ++ mi_subsidy preimage)) (fun e => e);
          ri ← with_store (insert_tokens records);
          _ ← try ri (fun e => "insert: " +:+ e);
          rm ← with_store get_mining_state;
          let state_now := match rm with Ok (Some s) => s | _ => default_mining_state end in
          _ ← with_store (update_mining_state (after_report target_bits records state_now));
          mret success
    end.

Definition stats : handler S Response :=
  r ← with_store get_stats;
  let st := match r with Ok s => s | Err _ => default_stats end in
  let field name v := quoted name +:+ ": " +:+ v in
  mret (ok_text_html_json ("{" +:+ join_comma [
    field "total_circulation" (quoted (wats_to_string (es_total_circulation_wats st)));
    field "mining_reports_count" (show_u64 (es_mining_reports_count st));
    field "difficulty_target_bits" (show_u64 (es_difficulty_target_bits st));
    field "epoch" (show_u64 (es_epoch st));
    field "mining_amount" (quoted (wats_to_string (es_mining_amount_wats st)));
    field "mining_subsidy_amount" (quoted (wats_to_string (es_subsidy_amount_wats st)))] +:+ "}")).

(** The sum is an [i64] addition, here in a build without overflow checks. *)
Definition target : handler S Response :=
  let m := mining cfg in
  let difficulty := default 1 (current_difficulty m) in
  let total := Z.max (i64_wrap (Mining.mining_amount_wats m + Mining.subsidy_amount_wats m)) 1 in
  let ratio := f64_div (f64_of_u64 (Mining.mining_amount_wats m)) (f64_of_u64 total) in
  let field name v := quoted name +:+ ": " +:+ v in
  mret (ok_text_html_json ("{" +:+ join_comma [
    field "difficulty_target_bits" (show_u64 difficulty);
    field "ratio" (show_f64 ratio);
    field "mining_amount" (quoted (wats_to_string (Mining.mining_amount_wats m)));
    field "mining_subsidy_amount" (quoted (wats_to_string (Mining.subsidy_amount_wats m)));
    field "epoch" "0"] +:+ "}")).

(** Under the nonce cache's lock. *)
Definition with_nonces (f : NonceCache -> result AuthError unit * NonceCache) : handler S unit := fun st =>
  let '(r, c) := f (nonces st) in
  try r (fun e => "nonce: " +:+ show_auth_error e) {| data := data st; nonces := c |}.

(** Parses the outputs and checks their issuer against the envelope's. *)
Fixpoint parse_issued {IA : IssuedAsset} (iss : PgpFingerprint) (tokens : list string)
  : result string (list Secret) :=
  match tokens with
  | [] => Ok []
  | token :: rest =>
      s ← map_err (fun e => "invalid output: " +:+ show_asset_error e) (parse_secret token);
      if negb (bool_decide (issuer s = iss)) then Err "output issuer fingerprint must match envelope issuer_fp"
      else ss ← parse_issued iss rest; Ok (s :: ss)
  end.

Definition one_contract {IA : IssuedAsset} (secrets : list Secret) : bool :=
  match secrets with
  | [] => true
  | first :: rest => forallb (fun s => bool_decide (contract_id s = contract_id first)) rest
  end.

(** [issue] and [issue_collectible]: the first also requires one contract. *)
Definition issue_with {IA : IssuedAsset} (contract_check : bool) (req : Request) : handler S Response :=
  match issuers with
  | None => fail "issuer registry not configured"
  | Some registry =>
      sig_hex ← try (ok_or (req_signature req) "missing X-Issuer-Signature header") (fun e => e);
      sig_bytes ← try (hex_decode sig_hex) (fun e => "signature hex: " +:+ e);
      body ← try (collect_body req) (fun e => "body: " +:+ e);
      parsed ← try (json_issue_body body) (fun e => "parse: " +:+ e);
      if negb (terms_ok (ib_legalese parsed)) then fail "legalese.terms must be true"
      else
        let iss := mk_fp (to_lowercase (ib_issuer_fp parsed)) in
        _ ← try (verify registry iss body sig_bytes) (fun e => "auth: " +:+ show_auth_error e);
        _ ← with_nonces (fun c => check_and_insert c iss (ib_nonce parsed));
        secrets ← try (parse_issued iss (ib_outputs parsed)) (fun e => e);
        if contract_check && negb (one_contract secrets) then fail "all outputs must share one contract_id"
        else
          let records := map (fun s => record_from_secret (now env) s Replaced) secrets in
          r ← with_store (insert_tokens records);
          _ ← try r (fun e => "insert: " +:+ e);
          mret success
  end.

Definition issue {IA : IssuedAsset} : Request -> handler S Response := issue_with true.
Definition issue_collectible {IA : IssuedAsset} : Request -> handler S Response := issue_with false.

(** ** Routes *)

Definition is_route (req : Request) (m p : string) : bool :=
  String.eqb (req_method req) m && String.eqb (req_path req) p.

Definition route {SA : SplittableAsset} {RH : ReplaceHook} (req : Request) : handler S Response :=
  if is_route req "GET" "/api/v1/target" then target
  else if is_route req "GET" "/terms" || is_route req "GET" "/terms/text" then mret terms
  else if is_route req "POST" "/api/v1/health_check" then health_check env req
  else if is_route req "POST" "/api/v1/replace" then replace env req
  else if is_route req "POST" "/api/v1/mining_report" then mining_report req
  else if is_route req "POST" "/api/v1/burn" then burn env req
  else if is_route req "GET" "/api/v1/stats" then stats
  else mret not_found.

Definition route_issued {SA : SplittableAsset} {RH : ReplaceHook} {IA : IssuedAsset} (req : Request)
  : handler S Response :=
  if is_route req "POST" "/api/v1/issue" then issue req else route req.

Definition route_collectible {TA : TransferableAsset} {RH : ReplaceHook} {IA : IssuedAsset} (req : Request)
  : handler S Response :=
  if is_route req "GET" "/api/v1/target" then target
  else if is_route req "GET" "/terms" || is_route req "GET" "/terms/text" then mret terms
  else if is_route req "POST" "/api/v1/health_check" then health_check_collectible req
  else if is_route req "POST" "/api/v1/replace" then replace_collectible env req
  else if is_route req "POST" "/api/v1/burn" then burn_collectible env req
  else if is_route req "POST" "/api/v1/issue" then issue_collectible req
  else mret not_found.
End Endpoints.
