(* ===== verification/ServerFacts.v ===== *)
(** * What the handlers guarantee

    The contract of every state-changing endpoint of [Server], proved against
    the interfaces [Asset], [ReplaceHook], [RecordBuilder] and [LedgerStore]
    only, so that it holds for every flavor over every backend. *)
From S2P Require Import Prelude Decimal Amount External AssetCore Storage Mining Auth Server.

(** ** Reading a handler backwards *)

Section Inversion.
Context {S : Type}.

Lemma hbind_Ok {A B} (m : handler S A) (f : A -> handler S B) st b st' :
  (m ≫= f) st = (Ok b, st') <-> exists a st1, m st = (Ok a, st1) /\ f a st1 = (Ok b, st').
Proof.
  unfold mbind, handler_bind. destruct (m st) as [[a|r] st1]; split.
  - intros E. by exists a, st1.
  - by intros (? & ? & [= <- <-] & ?).
  - done.
  - by intros (? & ? & ? & _).
Qed.

Lemma try_Ok {E A} (r : result E A) msg (st : ServerState S) a st' :
  try r msg st = (Ok a, st') <-> r = Ok a /\ st' = st.
Proof. unfold try. destruct r; split; [by intros [= <- <-]|by intros [[= <-] ->]|done|by intros [? _]]. Qed.

Lemma hret_Ok {A} (a : A) (st : ServerState S) b st' :
  (mret a : handler S A) st = (Ok b, st') <-> b = a /\ st' = st.
Proof. split; [by intros [= <- <-]|by intros [-> ->]]. Qed.

Lemma with_store_Ok {A} (f : S -> A * S) st a st' :
  with_store f st = (Ok a, st') <-> f (data st) = (a, data st') /\ nonces st' = nonces st.
Proof.
  unfold with_store. destruct (f (data st)) as [x s]. split.
  - by intros [= <- <-].
  - intros [[= <- ->] Hn]. destruct st'; simpl in *. by subst.
Qed.

Lemma if_fail_Ok {A} (b : bool) msg (h : handler S A) st a st' :
  (if b then fail msg else h) st = (Ok a, st') -> b = false /\ h st = (Ok a, st').
Proof. by destruct b. Qed.
End Inversion.

Lemma terms_ok_true l : negb (terms_ok l) = false -> l = Some true.
Proof. destruct l as [b|]; [|intros E; discriminate E]. destruct b; [done|intros E; discriminate E]. Qed.

Section Failures.
Context {S : Type}.

Lemma hbind_Err {A B} (m : handler S A) (f : A -> handler S B) st r st' :
  (m ≫= f) st = (Err r, st') <->
  m st = (Err r, st') \/ exists a st1, m st = (Ok a, st1) /\ f a st1 = (Err r, st').
Proof.
  unfold mbind, handler_bind. destruct (m st) as [[a|r'] st1]; split.
  - intros E. right. by exists a, st1.
  - by intros [?|(? & ? & [= <- <-] & ?)].
  - intros [= -> ->]. by left.
  - by intros [[= -> ->]|(? & ? & ? & _)].
Qed.

Lemma try_Err {E A} (r : result E A) msg (st : ServerState S) resp st' :
  try r msg st = (Err resp, st') -> (exists m, resp = server_error m) /\ st' = st.
Proof. unfold try. destruct r; [done|]. intros [= <- <-]. eauto. Qed.

Lemma fail_Err {A} msg (st : ServerState S) resp st' :
  (fail msg : handler S A) st = (Err resp, st') -> (exists m, resp = server_error m) /\ st' = st.
Proof. intros [= <- <-]. eauto. Qed.

Lemma with_store_Err {A} (f : S -> A * S) st resp st' : with_store f st = (Err resp, st') -> False.
Proof. unfold with_store. by destruct (f (data st)). Qed.
End Failures.

(** Follows a failing handler statement by statement; [close] ends the branch
    in which the current one fails. *)
Ltac step_err H close :=
  lazymatch type of H with
  | (try _ _ ≫= _) _ = (Err _, _) =>
      let E := fresh "E" in
      apply hbind_Err in H as [H|(? & ? & [E ->]%try_Ok & H)];
      [apply try_Err in H as [? ->]; close|]
  | (with_store _ ≫= _) _ = (Err _, _) =>
      let E := fresh "E" in let N := fresh "N" in
      apply hbind_Err in H as [[]%with_store_Err|(? & ? & [E N]%with_store_Ok & H)]
  | try _ _ _ = (Err _, _) => apply try_Err in H as [? ->]; close
  | fail _ _ = (Err _, _) => apply fail_Err in H as [? ->]; close
  | (if ?b then fail _ else _) _ = (Err _, _) =>
      let G := fresh "G" in destruct b eqn:G; [apply fail_Err in H as [? ->]; close|]
  end; cbv beta zeta in H.

(** Peels the statements of a handler off the hypothesis [H]. *)
Ltac step H :=
  lazymatch type of H with
  | (try _ _ ≫= _) _ = (Ok _, _) =>
      let E := fresh "E" in
      apply hbind_Ok in H as (? & ? & [E ->]%try_Ok & H)
  | (with_store _ ≫= _) _ = (Ok _, _) =>
      let E := fresh "E" in let N := fresh "N" in
      apply hbind_Ok in H as (? & ? & [E N]%with_store_Ok & H)
  | try _ _ _ = (Ok _, _) => let E := fresh "E" in apply try_Ok in H as [E ->]
  | (if _ then fail _ else _) _ = (Ok _, _) =>
      let G := fresh "G" in apply if_fail_Ok in H as [G H]
  end; cbv beta zeta in H.

(** The two ways a failing replace ends: before and after the read. *)
Ltac close_same := split_and!; [done|done|by left].
Ltac close_read ns0 hs0 := split_and!; [done|congruence|right; exists ns0, hs0; by left].

Section Replace.
Context {A : Asset} `{Chrono} `{!HashRecord Rec} {S : Type} `{!LedgerStore Rec S} `{ServerJson}
  {RB : RecordBuilder}.

(** The tokens parse, one by one, to the secrets. *)
Definition parsed_as (tokens : list string) (secrets : list Secret) : Prop :=
  Forall2 (fun t s => parse_secret t = Ok s) tokens secrets.

Lemma parsed_as_inj tokens (ss ss' : list Secret) : parsed_as tokens ss -> parsed_as tokens ss' -> ss = ss'.
Proof.
  intros Hs. revert ss'. induction Hs as [|t s ts ss E _ IH]; intros ss' Hs'; inversion Hs'; subst; [done|].
  f_equal; [congruence|auto].
Qed.

Definition total {SA : SplittableAsset} (l : list Secret) : Z := zsum (map amount l).

Lemma parse_sum_Ok {SA : SplittableAsset} kind tokens acc ss t :
  parse_sum kind tokens acc = Ok (ss, t) ->
  parsed_as tokens ss /\ wats t = wats acc + total ss.
Proof.
  unfold total. revert acc ss. induction tokens as [|token rest IH]; intros acc ss; cbn [parse_sum].
  - intros [= <- <-]. split; [constructor|]. simpl. lia.
  - intros (s & Es%map_err_Ok & Hk)%bind_Ok. apply bind_Ok in Hk as (acc' & Ea%ok_or_Ok & Hk).
    apply bind_Ok in Hk as ([ss' t'] & Hr & [= <- <-]).
    destruct (IH _ _ Hr) as [Hp Ht]. split; [by constructor|].
    unfold checked_add in Ea. apply fmap_Some in Ea as (z & Hz & ->).
    apply i64_checked_Some in Hz as [-> _]. simpl in *. lia.
Qed.

Lemma all_found_Ok records hashes rs : all_found records hashes = Ok rs -> records = map Some rs.
Proof.
  revert hashes rs. induction records as [|[r|] records IH]; intros hashes rs; cbn [all_found]; [by intros [= <-]| |done].
  intros (rs' & E & [= <-])%bind_Ok. simpl. f_equal. by eapply IH.
Qed.

Lemma outcome_Ok results m r : replace_outcome results m = Ok r -> r = success /\ head results = Some ReplaceOk.
Proof. unfold replace_outcome. destruct (head results) as [[]|]; by intros [= <-]. Qed.

(** An accepted, non-empty replace, from the request to the ledger. *)
Record replace_accepted {SA : SplittableAsset} {RH : ReplaceHook} (env : Env) (body : string)
    (parsed : ReplaceBody) (st st' : ServerState S)
    (ns : Namespace) (ins outs : list Secret) (recs : list Rec) (op : ReplaceOp Rec) : Prop := {
  ra_inputs : parsed_as (rb_webcashes parsed) ins;
  ra_outputs : parsed_as (rb_new_webcashes parsed) outs;
  ra_conserved : total ins = total outs;
  ra_namespace : forall s, s ∈ ins ++ outs -> secret_ns s = ns;
  ra_hook : validate_replace_request body recs outs (now_unix env) = Ok tt;
  ra_built : augment_output_records body
    (map (fun s => record_from_secret (now env) s Replaced) outs) (now_unix env) = Ok (ro_outputs op);
  ra_op_inputs : ro_inputs op = map (fun s => public_hash (to_public s)) ins;
  ra_audit : rr_total_amount_wats (ro_record op) = total ins /\
    rr_input_hashes (ro_record op) = ro_inputs op /\
    rr_output_hashes (ro_record op) = map record_hash (ro_outputs op);
  ra_commit : exists s1, get_tokens (now env) ns (ro_inputs op) (data st) = (Ok (map Some recs), s1) /\
    exists rest, batch_replace (now env) ns [op] s1 = (ReplaceOk :: rest, data st');
  ra_nonces : nonces st' = nonces st;
}.

Lemma replace_inv {SA : SplittableAsset} {RH : ReplaceHook} env req st r st' :
  replace env req st = (Ok r, st') ->
  r = success /\ exists body parsed, req_body req = Ok body /\ json_replace_body body = Ok parsed /\
    rb_legalese parsed = Some true /\
    ((rb_webcashes parsed = [] /\ rb_new_webcashes parsed = [] /\ st' = st) \/
     exists ns ins outs recs op, replace_accepted env body parsed st st' ns ins outs recs op).
Proof.
  unfold replace. intros Hr. step Hr. step Hr. step Hr. rename x into body, x0 into parsed.
  pose proof (terms_ok_true _ G) as Hl.
  destruct ((length (rb_webcashes parsed) =? 0)%nat && (length (rb_new_webcashes parsed) =? 0)%nat) eqn:Ee.
  { apply hret_Ok in Hr as [-> ->]. split; [done|]. exists body, parsed. split_and!; [done..|]. left.
    apply andb_true_iff in Ee as [Ei%Nat.eqb_eq Eo%Nat.eqb_eq].
    split_and!; [by apply nil_length_inv..|done]. }
  step Hr. destruct x as [ins tin]. step Hr. destruct x as [outs tout]. step Hr. step Hr.
  step Hr. step Hr. step Hr. step Hr. step Hr. step Hr. step Hr.
  repeat match goal with X : unit |- _ => destruct X end.
  apply parse_sum_Ok in E1 as [Hin Htin], E2 as [Hout Htout]. bools. subst tout.
  match goal with X : replace_outcome _ _ = Ok _ |- _ => apply outcome_Ok in X as [-> Hh] end.
  split; [done|]. exists body, parsed. split_and!; [done..|]. right.
  match type of E8 with batch_replace _ ?ns [?op] _ = _ => exists ns, ins, outs, x2, op end.
  apply all_found_Ok in E5 as ->. subst x. destruct x5 as [|[] rest]; try done.
  split; cbn [ro_inputs ro_outputs ro_record rr_total_amount_wats rr_input_hashes rr_output_hashes]; try done.
  - unfold ZERO in *. simpl in *. lia.
  - intros s Hs. rewrite forallb_forall in G1. specialize (G1 s). rewrite <- list_elem_of_In in G1.
    apply G1 in Hs. by apply bool_decide_eq_true_1 in Hs.
  - eexists. split; [eassumption|]. eauto.
  - congruence.
Qed.

(** C5: [/replace] answers success only to a body that accepts the terms.
    An empty replace changes nothing; any other one had all its tokens parse,
    conserved the exact sum of the amounts, stayed in one namespace, found
    every input in the store, passed the asset's hook, and was committed by
    the ledger with an audit entry of the conserved total. *)
Theorem replace_sound {SA : SplittableAsset} {RH : ReplaceHook} env req st r st' :
  replace env req st = (Ok r, st') ->
  r = success /\ exists body parsed, req_body req = Ok body /\ json_replace_body body = Ok parsed /\
    rb_legalese parsed = Some true /\
    ((rb_webcashes parsed = [] /\ rb_new_webcashes parsed = [] /\ st' = st) \/
     exists ns ins outs recs op, replace_accepted env body parsed st st' ns ins outs recs op).
Proof. apply replace_inv. Qed.

(** What a rejected request may have done to the data of the server: nothing,
    a read, or a read and a replace the ledger refused. *)
Definition rejected_data (env : Env) (d d' : S) : Prop :=
  d' = d \/ exists ns hashes, d' = (get_tokens (now env) ns hashes d).2 \/
    exists op results, batch_replace (now env) ns [op] (get_tokens (now env) ns hashes d).2 = (results, d') /\
      head results <> Some ReplaceOk.

(** A replace that is not a success is a logged 500, never touches the
    nonce cache, and asks the ledger for a write at most once, a write that
    the ledger itself rejected. *)
Theorem replace_rejected {SA : SplittableAsset} {RH : ReplaceHook} env req st r st' :
  replace env req st = (Err r, st') ->
  (exists m, r = server_error m) /\ nonces st' = nonces st /\ rejected_data env (data st) (data st').
Proof.
  unfold replace. intros Hr.
  step_err Hr close_same. step_err Hr close_same. step_err Hr close_same.
  destruct (_ && _); [done|].
  step_err Hr close_same. destruct x1 as [ins tin]. step_err Hr close_same. destruct x1 as [outs tout].
  step_err Hr close_same. step_err Hr close_same.
  step_err Hr close_same. rename x1 into rr, x2 into st1.
  match type of E3 with get_tokens _ ?ns ?hs _ = _ => set (ns0 := ns) in *; set (hs0 := hs) in * end.
  assert (data st1 = (get_tokens (now env) ns0 hs0 (data st)).2) as Hd by by rewrite E3.
  step_err Hr ltac:(close_read ns0 hs0). step_err Hr ltac:(close_read ns0 hs0).
  step_err Hr ltac:(close_read ns0 hs0). step_err Hr ltac:(close_read ns0 hs0).
  step_err Hr ltac:(close_read ns0 hs0). rename E8 into Eb.
  match type of Eb with batch_replace _ _ [?op] _ = (?rs, _) => set (op0 := op) in *; rename rs into results end.
  unfold try in Hr. destruct (replace_outcome results _) as [|e] eqn:Eo; [done|]. injection Hr as <- <-.
  split_and!; [eauto|congruence|]. right. exists ns0, hs0. right. exists op0, results. rewrite <- Hd.
  split; [done|]. unfold replace_outcome in Eo. destruct (head results) as [[]|]; congruence.
Qed.
End Replace.

(** The gate of an endpoint without, and with, a signed envelope. *)
Ltac decoded Href req decode :=
  destruct (req_body req) as [body|e] eqn:Eb; [|eauto];
  destruct (Href body Eb) as (Hr & Hb & Hm & Hi);
  destruct (decode body) eqn:E; [|eauto];
  first [rewrite (Hr _ eq_refl)|rewrite (Hb _ eq_refl)|rewrite (Hm _ eq_refl)|rewrite (Hi _ eq_refl)]; eauto.
Ltac signed Href issuers req :=
  destruct issuers as [registry|]; [|eauto];
  destruct (req_signature req) as [sh|]; cbn [ok_or]; [|eauto]; destruct (hex_decode sh); [|eauto].

Section Others.
Context {A : Asset} `{Chrono} `{!HashRecord Rec} {S : Type} `{!LedgerStore Rec S} `{ServerJson}
  `{Hashing, Unicode, Ed25519} {RB : RecordBuilder}.

(** The collectible [/replace] succeeds only for exactly one input and
    one output of the same issuer and contract that pass the asset's
    transfer check and hook, with the input in the store, and then the ledger
    has replaced that input by the output records in the input's
    namespace. *)
Theorem replace_collectible_sound {TA : TransferableAsset} {IA : IssuedAsset} {RH : ReplaceHook}
    env req st r st' :
  replace_collectible env req st = (Ok r, st') ->
  r = success /\ nonces st' = nonces st /\
  exists body parsed tin tout input output rec op s1 rest,
    req_body req = Ok body /\ json_replace_body body = Ok parsed /\ rb_legalese parsed = Some true /\
    rb_webcashes parsed = [tin] /\ rb_new_webcashes parsed = [tout] /\
    parse_secret tin = Ok input /\ parse_secret tout = Ok output /\
    issuer input = issuer output /\ contract_id input = contract_id output /\
    validate_transfer input output = Ok tt /\
    validate_replace_request body [rec] [output] (now_unix env) = Ok tt /\
    augment_output_records body [record_from_secret (now env) output Replaced] (now_unix env) = Ok (ro_outputs op) /\
    ro_inputs op = [public_hash (to_public input)] /\
    (exists tl, get_tokens (now env) (secret_ns input) (ro_inputs op) (data st) = (Ok (Some rec :: tl), s1)) /\
    batch_replace (now env) (secret_ns input) [op] s1 = (ReplaceOk :: rest, data st').
Proof.
  unfold replace_collectible. intros Hr. step Hr. step Hr. step Hr. rename x into body, x0 into parsed.
  destruct (rb_webcashes parsed) as [|tin [|? ?]] eqn:Ein; try done.
  destruct (rb_new_webcashes parsed) as [|tout [|? ?]] eqn:Eout; try done.
  step Hr. rename x into input. step Hr. rename x into output. step Hr. step Hr. step Hr. step Hr.
  apply hbind_Ok in Hr as (recs & st2 & Hm & Hr).
  match goal with X : ?v = Ok ?l, Y : get_tokens _ _ _ _ = (?v, _) |- _ => subst v; rename Y into Eg, l into found end.
  destruct found as [|[rec|] tl]; cbn [head hd_error] in Hm; [done| |done].
  apply hret_Ok in Hm as [-> ->]. step Hr. step Hr. step Hr.
  match goal with X : batch_replace _ _ [?o] _ = (?rs, _) |- _ => rename X into Eb, rs into results; set (op := o) in * end.
  step Hr. repeat match goal with X : unit |- _ => destruct X end.
  match goal with X : replace_outcome _ _ = Ok _ |- _ => apply outcome_Ok in X as [-> Hh] end.
  bools. destruct results as [|[] rest]; try done.
  split; [done|]. split; [congruence|].
  exists body, parsed, tin, tout, input, output, rec, op, (data x1), rest.
  split_and!; try done; [by (apply terms_ok_true; rewrite G)|]. by exists tl.
Qed.

(** A burn succeeds only for a parsed token and accepted terms, through
    one [batch_burn] of that token's own hash in its own namespace. *)
Theorem burn_sound {SA : SplittableAsset} env req st r st' :
  burn env req st = (Ok r, st') ->
  r = success /\ nonces st' = nonces st /\
  exists body parsed s rec, req_body req = Ok body /\ json_burn_body body = Ok parsed /\
    bb_legalese parsed = Some true /\ parse_secret (bb_webcash parsed) = Ok s /\
    br_public_hash rec = public_hash (to_public s) /\ br_amount_wats rec = wats (amount s) /\
    batch_burn (now env) (secret_ns s) [(public_hash (to_public s), rec)] (data st) = (Ok tt, data st').
Proof.
  unfold burn, burn_with. intros Hr. step Hr. step Hr. step Hr. step Hr. step Hr. step Hr.
  apply hret_Ok in Hr as [-> ->]. subst. destruct x4.
  match goal with X : batch_burn _ _ [(_, ?rc)] _ = _ |- _ => rename X into Eb; set (rec := rc) in * end.
  split; [done|]. split; [done|]. exists x, x0, x1, rec. split_and!; try done. by apply terms_ok_true.
Qed.

Lemma mined_records_Ok env tokens rs :
  mined_records env tokens = Ok rs ->
  exists secrets, parsed_as tokens secrets /\ rs = map (fun s => record_from_secret (now env) s Mined) secrets.
Proof.
  revert rs. induction tokens as [|t tokens IH]; intros rs; cbn [mined_records].
  - intros [= <-]. exists []. by split; [constructor|].
  - intros (s & Es%map_err_Ok & Hk)%bind_Ok. apply bind_Ok in Hk as (rs' & Hr & [= <-]).
    destruct (IH _ Hr) as (ss & Hp & ->). exists (s :: ss). by split; [constructor|].
Qed.

(** A mining report is accepted only when mining is enabled, the terms
    are accepted and the preimage as submitted meets the configured
    difficulty; what it inserts are exactly the [Mined] records of the tokens
    of the decoded preimage, in order. *)
Theorem mining_report_sound cfg env req st r st' :
  mining_report cfg env req st = (Ok r, st') ->
  r = success /\ nonces st' = nonces st /\
  exists body report bits pre secrets s1,
    req_body req = Ok body /\ json_mining_body body = Ok report /\ mb_legalese report = Some true /\
    current_difficulty (mining cfg) = Some bits /\ verify_pow (mb_preimage report) bits = true /\
    json_mining_preimage (default (mb_preimage report) (base64_try_decode (mb_preimage report))) = Ok pre /\
    parsed_as (mi_webcash pre ++ mi_subsidy pre) secrets /\
    insert_tokens (map (fun s => record_from_secret (now env) s Mined) secrets) (data st) = (Ok tt, s1).
Proof.
  unfold mining_report. intros Hr. step Hr. step Hr. step Hr. rename x into body, x0 into report.
  destruct (current_difficulty (mining cfg)) as [bits|] eqn:Ed; [|done].
  step Hr. step Hr. rename x into pre. step Hr. rename x into records.
  match goal with X : mined_records _ _ = Ok _ |- _ => apply mined_records_Ok in X as (secrets & Hp & ->) end.
  step Hr. step Hr. step Hr. apply hbind_Ok in Hr as (u & st2 & Hu & Hr).
  apply with_store_Ok in Hu as [Hu Hn]. apply hret_Ok in Hr as [-> ->]. subst.
  match goal with X : insert_tokens _ _ = (Ok ?u, data ?s) |- _ => destruct u; rename X into Ei, s into sti end.
  bools. split; [done|]. split; [congruence|].
  exists body, report, bits, pre, secrets, (data sti). split_and!; try done. by (apply terms_ok_true; rewrite G).
Qed.

Lemma parse_issued_Ok {IA : IssuedAsset} iss tokens ss :
  parse_issued iss tokens = Ok ss -> parsed_as tokens ss /\ forall s, s ∈ ss -> issuer s = iss.
Proof.
  revert ss. induction tokens as [|t tokens IH]; intros ss; cbn [parse_issued].
  - intros [= <-]. split; [constructor|set_solver].
  - intros (s & Es%map_err_Ok & Hk)%bind_Ok. case_bool_decide as Hi; cbn [negb] in Hk; [|done].
    apply bind_Ok in Hk as (ss' & Hr & [= <-]). destruct (IH _ Hr) as [Hp Hall]. split; [by constructor|].
    intros s' [->|Hs']%elem_of_cons; [done|by apply Hall].
Qed.

Lemma with_nonces_Ok f (st : ServerState S) u st' :
  with_nonces f st = (Ok u, st') -> f (nonces st) = (Ok u, nonces st') /\ data st' = data st.
Proof. unfold with_nonces. destruct (f (nonces st)) as [rr c]. by intros [-> ->]%try_Ok. Qed.

(** C37: [/issue] mints only when a registry is configured, the signature
    header holds 64 bytes that verify under the registered key of the envelope's
    issuer over the very bytes of the body, the nonce is none of those the issuer
    used since the cache was last emptied, which it is when full, every output
    names that issuer and, where the endpoint checks it, as it does for a
    splittable asset, one contract; it then inserts exactly the records of those
    outputs and remembers the nonce. *)
Theorem issue_sound {IA : IssuedAsset} issuers env check req st r st' :
  issue_with issuers env check req st = (Ok r, st') ->
  r = success /\
  exists registry sig_hex sig body parsed secrets,
    issuers = Some registry /\ req_signature req = Some sig_hex /\ hex_decode sig_hex = Ok sig /\
    req_body req = Ok body /\ json_issue_body body = Ok parsed /\ ib_legalese parsed = Some true /\
    let iss := mk_fp (to_lowercase (ib_issuer_fp parsed)) in
    (exists key, keys registry !! to_lowercase (fp_str iss) = Some key /\
       String.length sig = 64%nat /\ ed_verify key body sig = true) /\
    nonce_key iss (ib_nonce parsed) ∉ nonces_seen (nonces st) /\
    seen (nonces st') = {[ nonce_key iss (ib_nonce parsed) ]} ∪ nonces_seen (nonces st) /\
    parsed_as (ib_outputs parsed) secrets /\
    (forall s, s ∈ secrets -> issuer s = iss) /\
    (check = true -> forall s s', s ∈ secrets -> s' ∈ secrets -> contract_id s = contract_id s') /\
    insert_tokens (map (fun s => record_from_secret (now env) s Replaced) secrets) (data st) = (Ok tt, data st').
Proof.
  unfold issue_with. destruct issuers as [registry|]; [|done]. intros Hr.
  step Hr. step Hr. step Hr. step Hr. step Hr. step Hr.
  rename x into sig_hex, x0 into sig, x1 into body, x2 into parsed, E into Esig.
  apply ok_or_Ok in Esig. apply hbind_Ok in Hr as (u & st1 & [En Ed]%with_nonces_Ok & Hr).
  step Hr. rename x into secrets. step Hr. step Hr. step Hr. apply hret_Ok in Hr as [-> ->]. subst.
  repeat match goal with X : unit |- _ => destruct X end.
  match goal with X : parse_issued _ _ = Ok _ |- _ => apply parse_issued_Ok in X as [Hp Hiss] end.
  split; [done|]. exists registry, sig_hex, sig, body, parsed, secrets.
  apply check_and_insert_Ok in En as (Hnew & Hseen & _).
  assert (verify registry (mk_fp (to_lowercase (ib_issuer_fp parsed))) body sig = Ok tt) as Hsig by congruence.
  apply verify_Ok in Hsig.
  cbv zeta. split_and!; try done; try congruence; [by apply terms_ok_true|].
  intros ->. simpl in G0. bools. unfold one_contract in *.
  destruct secrets as [|s0 secrets]; [by intros s s' Hs%elem_of_nil|].
  assert (forall s, s ∈ s0 :: secrets -> contract_id s = contract_id s0) as Hall.
  { intros s [->|Hs]%elem_of_cons; [done|]. rewrite forallb_forall in G0.
    specialize (G0 s). rewrite <- list_elem_of_In in G0. apply G0 in Hs. by apply bool_decide_eq_true_1 in Hs. }
  intros s s' Hs Hs'. by rewrite (Hall s Hs), (Hall s' Hs').
Qed.

(** The terms a body accepts, whatever the endpoint. *)
Definition refuses_terms (req : Request) : Prop :=
  forall body, req_body req = Ok body ->
    (forall p, json_replace_body body = Ok p -> terms_ok (rb_legalese p) = false) /\
    (forall p, json_burn_body body = Ok p -> terms_ok (bb_legalese p) = false) /\
    (forall p, json_mining_body body = Ok p -> terms_ok (mb_legalese p) = false) /\
    (forall p, json_issue_body body = Ok p -> terms_ok (ib_legalese p) = false).

(** Without [legalese.terms = true] every state-changing endpoint of
    every flavor answers a 500 and leaves the whole state as it was. *)
Theorem terms_gate {SA : SplittableAsset} {RH : ReplaceHook} {TA : TransferableAsset} {IA : IssuedAsset}
    cfg issuers env req st (h : handler S Response) :
  refuses_terms req ->
  h ∈ [replace env req; replace_collectible env req; burn env req; burn_collectible env req;
       mining_report cfg env req; issue issuers env req; issue_collectible issuers env req] ->
  exists m, respond (h : handler S Response) st = (server_error m, st).
Proof.
  intros Href Hh. assert (forall m st1, respond (fail m : handler S Response) st1 = (server_error m, st1)) as Hf by done.
  repeat (apply elem_of_cons in Hh as [->|Hh]); [..|by apply elem_of_nil in Hh];
    unfold replace, replace_collectible, burn, burn_collectible, burn_with, mining_report, issue,
      issue_collectible, issue_with, respond, mbind, handler_bind, try, collect_body.
  - decoded Href req json_replace_body.
  - decoded Href req json_replace_body.
  - decoded Href req json_burn_body.
  - decoded Href req json_burn_body.
  - decoded Href req json_mining_body.
  - signed Href issuers req. decoded Href req json_issue_body.
  - signed Href issuers req. decoded Href req json_issue_body.
Qed.
End Others.

(** ** The text of amounts *)

Lemma trim_zeros_spec s : exists k, s = trim_zeros s +:+ str_repeat "0"%char k.
Proof.
  induction s as [|c s [k IH]]; cbn [trim_zeros]; [by exists O|].
  destruct (trim_zeros s) as [|d t] eqn:E.
  - destruct (Ascii.eqb_spec c "0"%char) as [->|_].
    + exists (S k). simpl. by rewrite IH at 1.
    + exists k. simpl. by rewrite IH at 1.
  - exists k. rewrite IH at 1. done.
Qed.

Lemma trim_zeros_value s v :
  parse_digits 0 s = Some v ->
  exists vt, parse_digits 0 (trim_zeros s) = Some vt /\
    (String.length (trim_zeros s) <= String.length s)%nat /\
    v = vt * 10 ^ Z.of_nat (String.length s - String.length (trim_zeros s)).
Proof.
  intros Hv. destruct (trim_zeros_spec s) as [k Hs].
  pose proof (parse_digits_digits _ _ _ Hv) as Hd. rewrite Hs, str_all_app in Hd. bools.
  apply (parse_digits_all 0) in H as [vt Ht]. exists vt. split; [done|].
  assert (String.length s = String.length (trim_zeros s) + k)%nat as Hl
    by (rewrite Hs at 1; by rewrite str_length_app, str_length_repeat).
  split; [lia|]. rewrite Hs, (parse_digits_app _ _ _ vt Ht), parse_zeros in Hv. injection Hv as <-.
  do 3 f_equal. lia.
Qed.

Lemma wats_to_string_neg w : w < 0 -> wats_to_string w = String "-"%char (wats_to_string (- w)).
Proof.
  intros H. unfold wats_to_string. rewrite Z.abs_opp.
  destruct (Z.ltb_spec w 0); [|lia]. destruct (Z.ltb_spec (- w) 0); [lia|].
  by destruct (Z.abs w mod SERVER_SCALE =? 0).
Qed.

Lemma wats_to_string_nonneg w :
  0 <= w <= i64_max ->
  parse_amount_str (wats_to_string w) = Ok (from_wats w) /\
  exists c s, wats_to_string w = String c s /\ is_digit c = true.
Proof.
  intros H. unfold wats_to_string. rewrite Z.abs_eq by lia. destruct (Z.ltb_spec w 0); [lia|].
  change SERVER_SCALE with SCALE. cbn [String.app].
  pose proof (Z.mod_pos_bound w SCALE). pose proof (Z.div_pos w SCALE). pose proof (Z.div_mod w SCALE).
  assert (w / SCALE <= w) by (apply Z.div_le_upper_bound; i64_lia).
  assert (parse_digits 0 (show_u64 (w / SCALE)) = Some (w / SCALE)) as Hw by (apply show_u64_parse; i64_lia).
  pose proof (parse_digits_digits _ _ _ Hw) as Hd.
  destruct (show_u64_nonempty (w / SCALE)) as (c & s & Hs). rewrite Hs in *. simpl in Hd. bools.
  destruct (Z.eqb_spec (w mod SCALE) 0) as [Hz|Hz]; cbn [String.app].
  - split; [|by exists c, s]. unfold parse_amount_str. rewrite strip_sign_digit by done.
    unfold parse_wats. rewrite str_split_none by (apply digits_no_dot; simpl; by apply andb_true_iff).
    rewrite (parse_i64_digits _ (w / SCALE)) by done.
    rewrite i64_checked_in by i64_lia. cbn [ok_or mbind result_bind]. unfold i64_checked_mul.
    rewrite i64_checked_in by i64_lia. cbn [ok_or mbind result_bind]. do 2 f_equal. i64_lia.
  - split; [|by eexists _, _].
    assert (parse_digits 0 (show_pad8 (w mod SCALE)) = Some (w mod SCALE)) as Hp by (apply show_pad8_parse; i64_lia).
    pose proof (show_pad8_length (w mod SCALE)) as Hl.
    destruct (trim_zeros_value _ _ Hp) as (vt & Ht & Hlt & Hv). rewrite Hl in * by i64_lia.
    destruct (parse_decimal_value (String c s) (trim_zeros (show_pad8 (w mod SCALE))) _ _ ltac:(done) Hw Ht Hlt)
      as [Hok _]. rewrite <- Hv in Hok.
    replace (w / SCALE * SCALE + w mod SCALE) with w in Hok by i64_lia. apply Hok. lia.
Qed.

(** The minimal decimal form the endpoints print is read back by the
    amount parser as the same amount, for every [i64] but the least. *)
Theorem wats_to_string_roundtrip w :
  i64_range w -> w <> i64_min -> Amount.from_str (wats_to_string w) = Ok (from_wats w).
Proof.
  intros H Hm. destruct (Z.ltb_spec w 0).
  - rewrite wats_to_string_neg by done.
    destruct (wats_to_string_nonneg (- w)) as [Hp (c & s & Hs & Hc)]; [i64_lia|].
    rewrite Hs in *. unfold from_str. rewrite parse_neg, Hp by done. simpl. unfold from_wats. do 2 f_equal. lia.
  - apply wats_to_string_nonneg. i64_lia.
Qed.

Lemma wats_to_string_roundtrip_witness :
  wats_to_string 19531250000 = "195.3125" /\
  Amount.from_str (wats_to_string 19531250000) = Ok (from_wats 19531250000).
Proof.
  split; [vm_compute; reflexivity|].
  apply wats_to_string_roundtrip; [unfold i64_range, i64_min, i64_max; lia|discriminate].
Defined.
