(* ===== verification/Conservation.v ===== *)
(** * Conservation of the supply

    The end-to-end contract of [/replace] on the Redis ledger: the handler of
    [Server], the record builders of [Records] and the script of [Redis]
    together keep the sum of the recorded, unspent amounts of a namespace, for
    a request whose inputs are distinct and whose tokens claim the recorded
    amounts (neither of which the server checks). *)
From S2P Require Import Prelude Decimal Amount External AssetCore Tokens Storage Redis RedisLedger Htlc Mining Records Auth Server ServerFacts.

(** ** What a record builder promises to the ledger *)

Class BuilderLaws {A : Asset} `{Chrono} `{!HashRecord Rec} {SA : SplittableAsset} {RB : RecordBuilder}
    {RH : ReplaceHook} : Prop := {
  parsed_range : forall t s, parse_secret t = Ok s -> 0 <= wats (amount s) <= i64_max;
  built_hash : forall now s o, record_hash (record_from_secret now s o) = public_hash (to_public s);
  built_amount : forall now s o, record_amount_wats (record_from_secret now s o) = wats (amount s);
  built_unspent : forall now s o, to_fields (record_from_secret now s o) !! "spent" = Some "0";
  augment_keeps : forall body recs now recs', augment_output_records body recs now = Ok recs' ->
    Forall2 (fun r r' => record_hash r' = record_hash r /\ record_amount_wats r' = record_amount_wats r /\
                         to_fields r' !! "spent" = to_fields r !! "spent") recs recs';
}.

Lemma same_keeps {R} `{Chrono} `{!HashRecord R} (recs : list R) :
  Forall2 (fun r r' => record_hash r' = record_hash r /\ record_amount_wats r' = record_amount_wats r /\
                       to_fields r' !! "spent" = to_fields r !! "spent") recs recs.
Proof. induction recs; by constructor. Qed.

Section Flavors.
Context `{NomLaws, HashingLaws, UnicodeLaws, Chrono, JsonBody} `{Serde HtlcState}.

#[export] Instance webcash_builder_laws :
  BuilderLaws (A := WebcashAsset.asset) (HashRecord0 := webcash_hash_record)
    (SA := WebcashAsset.splittable) (RB := WebcashAsset.builder) (RH := WebcashAsset.hook).
Proof.
  split; [|done|done| |].
  - intros t s (amt & _ & Ha & _)%map_err_Ok%webcash_secret_Ok. by apply amount_field_nonneg in Ha.
  - intros t s o. simpl. unfold webcash_to_fields. simpl. by read_fields.
  - intros body recs t recs' E. injection E as <-. apply (same_keeps recs).
Qed.

#[export] Instance voucher_builder_laws :
  BuilderLaws (A := VoucherAsset.asset) (HashRecord0 := voucher_hash_record)
    (SA := VoucherAsset.splittable) (RB := VoucherAsset.builder) (RH := VoucherAsset.hook).
Proof.
  split; [|done|done| |].
  - intros t s (amt & ? & _ & Ha & _)%map_err_Ok%voucher_secret_Ok. by apply amount_field_nonneg in Ha.
  - intros t s o. simpl. unfold voucher_to_fields. simpl. by read_fields.
  - intros body recs t recs' E. injection E as <-. apply (same_keeps recs).
Qed.

#[export] Instance rgb_builder_laws :
  BuilderLaws (A := RgbFungible.asset) (HashRecord0 := rgb_fungible_hash_record)
    (SA := RgbFungible.splittable) (RB := RgbFungible.builder) (RH := RgbFungible.hook).
Proof.
  split; [|done|done| |].
  - intros t s (amt & ? & _ & Ha & _)%map_err_Ok%rgb_secret_fungible_Ok. by apply amount_field_nonneg in Ha.
  - intros t s o. simpl. unfold rgb_fungible_to_fields. simpl. by read_fields.
  - intros body recs t recs' (locks & _ & [_ Ha]%apply_locks_Ok)%bind_Ok; [|done].
    apply Forall2_lookup. intros j. rewrite Ha. destruct (recs !! j) as [r|]; cbn; constructor.
    destruct (lock_for locks j); [|done]. split_and!; [done|done|].
    simpl. unfold rgb_fungible_to_fields. by read_fields.
Qed.
End Flavors.

(** ** The supply of a namespace *)

Definition sum_of {X} (f : X -> Z) (l : list X) : Z := foldr (fun x z => f x + z) 0 l.

Lemma sum_of_app {X} (f : X -> Z) l k : sum_of f (l ++ k) = sum_of f l + sum_of f k.
Proof. induction l as [|x l IH]; simpl; [done|]. rewrite IH. lia. Qed.

Lemma sum_of_perm {X} (f : X -> Z) l k : l ≡ₚ k -> sum_of f l = sum_of f k.
Proof. induction 1; simpl; lia. Qed.

Lemma sum_of_ext {X} (f g : X -> Z) l : (forall x, x ∈ l -> f x = g x) -> sum_of f l = sum_of g l.
Proof.
  induction l as [|x l IH]; intros Hf; simpl; [done|].
  rewrite (Hf x), IH; [done| |by left]. intros y Hy. apply Hf. by right.
Qed.

Lemma sum_of_zero {X} (f : X -> Z) l : (forall x, x ∈ l -> f x = 0) -> sum_of f l = 0.
Proof. intros Hf. rewrite (sum_of_ext f (fun _ => 0)) by done. clear Hf. induction l; simpl; lia. Qed.

Lemma sum_of_fmap {X Y} (f : Y -> Z) (g : X -> Y) l : sum_of f (g <$> l) = sum_of (fun x => f (g x)) l.
Proof. induction l as [|x l IH]; simpl; [done|]. by rewrite <- IH. Qed.

(** Replacing the distinct hashes [ins], whose values vanish, by the distinct
    and so far worthless [outs] keeps the sum over any set that has them all. *)
Lemma sum_of_exchange (v v' : string -> Z) ins outs l :
  NoDup l -> NoDup ins -> NoDup outs -> (forall h, h ∈ ins -> h ∉ outs) ->
  (forall h, h ∈ ins ++ outs -> h ∈ l) ->
  (forall h, h ∈ ins -> v' h = 0) -> (forall h, h ∈ outs -> v h = 0) ->
  (forall h, h ∉ ins -> h ∉ outs -> v' h = v h) ->
  sum_of v ins = sum_of v' outs -> sum_of v' l = sum_of v l.
Proof.
  intros Hl Hi Ho Hd Hsub Hv' Hv Hrest Heq.
  assert (NoDup (ins ++ outs)) as Hio by (apply NoDup_app; split_and!; done).
  destruct (submseteq_Permutation (ins ++ outs) l) as [k Hk]; [by apply NoDup_submseteq|].
  rewrite (sum_of_perm v' _ _ Hk), (sum_of_perm v _ _ Hk), !sum_of_app.
  rewrite (sum_of_zero v' ins), (sum_of_zero v outs) by done.
  rewrite (sum_of_ext v' v k); [lia|]. rewrite Hk in Hl. apply NoDup_app in Hl as (_ & Hn & _).
  intros h Hh. apply Hrest; intros Hin; apply (Hn h); [|done| |done]; apply elem_of_app; auto.
Qed.

Section Supply.
Context `{RedisLaws} `{Chrono} {A : Asset} `{!HashRecord Rec} {HL : HashRecordLaws Rec}
  {K : KeyStrategy} {KL : KeyLaws}
  `{Serde ReplacementRecord} `{Serde BurnRecord} `{Serde MiningState}.
Implicit Types (ns : Namespace) (db : rdb) (op : ReplaceOp Rec).

(** What a hash is worth: its recorded amount while it is unspent. *)
Definition token_value ns db (h : string) : Z :=
  match db !! token_key NAME ns h with
  | Some (RHash f) => if spent_hash f then 0 else default 0 (f !! "amount_wats" ≫= parse_i64)
  | _ => 0
  end.

Definition supply ns (hashes : list string) db : Z := sum_of (token_value ns db) hashes.

Lemma step_supply now ns db op db' l :
  replace_step now ns db op = (ReplaceOk, db') ->
  NoDup (ro_inputs op) -> NoDup l -> (forall h, h ∈ ro_inputs op ++ (record_hash <$> ro_outputs op) -> h ∈ l) ->
  (forall o, o ∈ ro_outputs op -> i64_range (record_amount_wats o) /\ to_fields o !! "spent" = Some "0") ->
  supply ns (ro_inputs op) db = sum_of record_amount_wats (ro_outputs op) ->
  supply ns l db' = supply ns l db.
Proof.
  unfold replace_step. destruct (replace_spec _ _ _ _ _ _) as [r db1] eqn:E. cbn [fst snd].
  intros [= Hr <-] Hin Hl Hsub Houts Heq. apply replace_reply_ok in Hr as ->.
  apply replace_spec_ok in E as [Hi Hd Hf Ho Ha Hfr].
  assert (NoDup (record_hash <$> ro_outputs op)) as Hnd.
  { rewrite out_keys, list_fmap_compose' in Hd. by apply NoDup_fmap_1 in Hd. }
  assert (forall o, o ∈ ro_outputs op ->
    db1 !! token_key NAME ns (record_hash o) = Some (RHash (to_fields o))) as Hout.
  { intros o Hino. apply Ho; [|apply token_not_replacement]. apply list_elem_of_fmap. eauto. }
  unfold supply. apply (sum_of_exchange _ _ (ro_inputs op) (record_hash <$> ro_outputs op)); try done.
  - intros h Hh Hoh. destruct (Hi (token_key NAME ns h)) as (f & Ef & _); [by apply in_keys_elem|].
    by rewrite Hf in Ef by by apply out_keys_elem.
  - intros h Hh. destruct (Hi (token_key NAME ns h)) as (f & _ & _ & E'); [by apply in_keys_elem|].
    unfold token_value. rewrite E' by apply token_not_replacement.
    unfold spent_hash, mark_hash. rewrite lookup_insert_ne, lookup_insert_eq by done. done.
  - intros h Hh. unfold token_value. by rewrite Hf by by apply out_keys_elem.
  - intros h Hni Hno. unfold token_value.
    rewrite Hfr; [done|by rewrite in_keys_elem|by rewrite out_keys_elem|apply token_not_replacement].
  - unfold supply in Heq. rewrite Heq, sum_of_fmap. apply sum_of_ext. intros o Hino.
    destruct (Houts o Hino) as [Hr Hs]. unfold token_value. rewrite Hout, fields_amount by done.
    unfold spent_hash. rewrite Hs. cbn. by rewrite show_i64_parse.
Qed.

Lemma batch_one now ns op st rest st' :
  op_wf op -> tokens_typed ns (rview st) ->
  redis_batch_replace now ns [op] st = (ReplaceOk :: rest, st') ->
  replace_step (to_rfc3339 now) ns (rview st) op = (ReplaceOk, rview st').
Proof.
  intros Hwf Ht. unfold redis_batch_replace. destruct (query _ st) as [[values|e] st1] eqn:E; [|done].
  apply query_ok in E as [E _]. intros [= Hm <-].
  destruct (replace_cmds_spec (to_rfc3339 now) ns [op] (rview st)) as [Hl Hd]; [by constructor|done|].
  rewrite E in Hl, Hd. cbn [fst snd] in Hl, Hd. rewrite Hm in Hl. cbn [replace_batch] in Hl, Hd.
  destruct (replace_step _ _ _ _) as [r db1]. cbn in Hl, Hd. injection Hl as <- _. by rewrite Hd.
Qed.
End Supply.

(** ** The request *)

Section EndToEnd.
Context `{RedisLaws} `{Chrono} {A : Asset} `{!HashRecord Rec} {HL : HashRecordLaws Rec}
  {K : KeyStrategy} {KL : KeyLaws}
  `{Serde ReplacementRecord} `{Serde BurnRecord} `{Serde MiningState} `{ServerJson}
  {SA : SplittableAsset} {RB : RecordBuilder} {RH : ReplaceHook} {BL : BuilderLaws}.

Definition token_hash (s : Secret) : string := public_hash (to_public s).

(** The outputs of the request give the script records it can unmarshal. *)
Definition marshals (env : Env) (body : string) (outs : list Secret) : Prop :=
  forall recs, augment_output_records body
      (map (fun s => record_from_secret (now env) s Replaced) outs) (now_unix env) = Ok recs ->
    Forall (fun o => to_fields o <> ∅ /\ Z.of_nat (size (to_fields o)) <= 2 ^ 53) recs /\
    (forall o o', o ∈ recs -> o' ∈ recs -> size (to_fields o) = size (to_fields o')).

Lemma zsum_sum_of (l : list Secret) : total l = sum_of (fun s => wats (amount s)) l.
Proof. unfold total. induction l as [|s l IH]; simpl; [done|]. by rewrite IH. Qed.

(** The records the ledger receives, against the secrets they come from. *)
Lemma built_outputs env body outs recs :
  augment_output_records body (map (fun s => record_from_secret (now env) s Replaced) outs) (now_unix env) = Ok recs ->
  Forall2 (fun s r => record_hash r = token_hash s /\ record_amount_wats r = wats (amount s) /\
                      to_fields r !! "spent" = Some "0") outs recs.
Proof.
  intros Ha%augment_keeps. change (map ?f outs) with (f <$> outs) in Ha. apply Forall2_fmap_l in Ha.
  eapply Forall2_impl; [exact Ha|]. intros s r (-> & -> & ->).
  by rewrite built_hash, built_amount, built_unspent.
Qed.

(** A request the script can hold: at most [2 ^ 53] tokens a side, and
    outputs that marshal. *)
Definition request_fits (env : Env) (req : Request) : Prop :=
  forall body parsed, req_body req = Ok body -> json_replace_body body = Ok parsed ->
    Z.of_nat (length (rb_webcashes parsed)) <= 2 ^ 53 /\ Z.of_nat (length (rb_new_webcashes parsed)) <= 2 ^ 53 /\
    forall outs, parsed_as (rb_new_webcashes parsed) outs -> marshals env body outs.

Lemma accepted_op_wf env body parsed st st' ns ins outs recs op :
  replace_accepted (S := rstate) (LedgerStore0 := RedisStore) env body parsed st st' ns ins outs recs op ->
  Z.of_nat (length (rb_webcashes parsed)) <= 2 ^ 53 -> Z.of_nat (length (rb_new_webcashes parsed)) <= 2 ^ 53 ->
  marshals env body outs -> op_wf op.
Proof.
  intros [Hi Ho _ _ _ Hb Hop _ _ _] Hli Hlo Hm. destruct (Hm _ Hb) as [Hf Hu].
  apply built_outputs, Forall2_length in Hb. apply Forall2_length in Hi, Ho. split; [| |done|done].
  - rewrite Hop, length_map. by rewrite <- Hi.
  - rewrite <- Hb. by rewrite <- Ho.
Qed.

(** C1: Conservation: over the Redis ledger, an accepted [/replace] whose tokens
    all lie in one namespace, with distinct inputs that claim what the ledger has
    recorded for them, leaves the supply of that namespace exactly as it was,
    over any set of hashes that holds those of the request.  The request has at
    most [2 ^ 53] tokens a side and outputs whose records have the same number of
    fields ([request_fits]), which a RGB request that locks only some of its
    outputs has not. *)
Theorem replace_conserves_supply env req (st : ServerState rstate) r st' :
  replace (LedgerStore0 := RedisStore) env req st = (Ok r, st') ->
  request_fits env req -> (forall ns, tokens_typed ns (rview (data st))) ->
  exists body parsed ns ins outs,
    req_body req = Ok body /\ json_replace_body body = Ok parsed /\
    parsed_as (rb_webcashes parsed) ins /\ parsed_as (rb_new_webcashes parsed) outs /\
    (forall s, s ∈ ins ++ outs -> secret_ns s = ns) /\
    (NoDup (token_hash <$> ins) ->
     (forall s, s ∈ ins -> token_value ns (rview (data st)) (token_hash s) = wats (amount s)) ->
     forall l, NoDup l -> (forall s, s ∈ ins ++ outs -> token_hash s ∈ l) ->
       supply ns l (rview (data st')) = supply ns l (rview (data st))).
Proof.
  intros [_ (body & parsed & Hb & Hp & _ & Hcase)]%replace_inv Hfit Ht.
  destruct (Hfit body parsed Hb Hp) as (Hli & Hlo & Hm).
  destruct Hcase as [(Ei & Eo & ->)|(ns & ins & outs & recs & op & Hacc)].
  { exists body, parsed, unscoped, [], []. rewrite Ei, Eo. split_and!; try done; [constructor..|].
    by intros s ?%elem_of_nil. }
  exists body, parsed, ns, ins, outs. pose proof (accepted_op_wf _ _ _ _ _ _ _ _ _ _ Hacc Hli Hlo) as Hwf.
  destruct Hacc as [Hi Ho Hcons Hns _ Hbuilt Hop _ (s1 & Hg & rest & Hbr) _].
  split_and!; try done. clear Hns. intros Hnd Hval l Hl Hsub.
  assert (forall x, x ∈ map (fun s => public_hash (to_public s)) ins <-> x ∈ token_hash <$> ins) as Hmap by done.
  pose proof (proj1 (get_tokens_read _ _ _ _ _ _ Hg)) as Hview.
  apply batch_one in Hbr; [|by apply Hwf, Hm|by rewrite Hview]. rewrite Hview in Hbr.
  apply built_outputs in Hbuilt.
  eapply step_supply; [exact Hbr|by rewrite Hop|done| | |].
  - intros h [Hh|Hh]%elem_of_app.
    + rewrite Hop in Hh. apply list_elem_of_fmap in Hh as (s & -> & Hs). apply Hsub, elem_of_app. by left.
    + apply list_elem_of_fmap in Hh as (o & -> & Hoo).
      apply list_elem_of_lookup in Hoo as [i Hoo].
      destruct (Forall2_lookup_r _ _ _ _ _ Hbuilt Hoo) as (s & Hs & -> & _).
      apply Hsub, elem_of_app. right. by eapply list_elem_of_lookup_2.
  - intros o [i Hoo]%list_elem_of_lookup.
    destruct (Forall2_lookup_r _ _ _ _ _ Hbuilt Hoo) as (s & Hs & _ & -> & Hsp). split; [|done].
    destruct (Forall2_lookup_r _ _ _ _ _ Ho Hs) as (t & _ & Hpt). apply parsed_range in Hpt. i64_lia.
  - rewrite Hop. unfold supply. change (map ?f ins) with (f <$> ins). rewrite sum_of_fmap.
    rewrite (sum_of_ext _ (fun s => wats (amount s)) ins) by exact Hval.
    rewrite <- zsum_sum_of, Hcons, zsum_sum_of. clear -Hbuilt. induction Hbuilt as [|s o outs os (_ & Ha & _) _ IH]; [done|].
    simpl. rewrite IH, Ha. done.
Qed.
End EndToEnd.
