(* ===== verification/HealthCheck.v ===== *)
(** * The health check

    [health_check] groups the tokens of a request by namespace, reads each
    group in two pipelines and puts the answers back in request order.  Over
    the Redis ledger this is the same as looking up one token at a time. *)
From S2P Require Import Prelude Decimal Amount External AssetCore Storage Redis RedisLedger Mining Auth Server ServerFacts.

(** ** Grouping *)

(** The items of the groups with their namespace. *)
Definition flat_groups (m : list (Namespace * list (nat * string))) : list (Namespace * (nat * string)) :=
  flat_map (fun g => (fun it => (g.1, it)) <$> g.2) m.

Lemma push_ns_flat ns it m : flat_groups (push_ns ns it m) ≡ₚ flat_groups m ++ [(ns, it)].
Proof.
  induction m as [|[ns' items] m IH]; [done|]. cbn [push_ns]. case_bool_decide as E.
  - subst. unfold flat_groups. cbn [flat_map fst snd]. rewrite fmap_app. cbn. by rewrite <- !(assoc_L (++)), (comm (++) [_]).
  - unfold flat_groups in *. cbn [flat_map fst snd]. rewrite IH. by rewrite (assoc_L (++)).
Qed.

(** A list written at distinct positions. *)
Fixpoint write_all {V} (ws : list (nat * V)) (l : list V) : list V :=
  match ws with
  | [] => l
  | w :: ws' => write_all ws' (<[w.1 := w.2]> l)
  end.

Lemma write_all_length {V} ws (l : list V) : length (write_all ws l) = length l.
Proof. revert l. induction ws as [|w ws IH]; intros l; cbn; [done|]. rewrite IH. apply length_insert. Qed.

Lemma write_all_notin {V} ws (l : list V) i : i ∉ ws.*1 -> write_all ws l !! i = l !! i.
Proof.
  revert l. induction ws as [|[j v] ws IH]; intros l Hi; cbn in *; [done|].
  apply not_elem_of_cons in Hi as [Hne Hi]. rewrite IH by done. by rewrite list_lookup_insert_ne.
Qed.

Lemma write_all_in {V} ws (l : list V) i v :
  NoDup ws.*1 -> (i, v) ∈ ws -> (i < length l)%nat -> write_all ws l !! i = Some v.
Proof.
  revert l. induction ws as [|[j w] ws IH]; intros l Hnd Hin Hlt; [by apply elem_of_nil in Hin|].
  cbn in Hnd. apply NoDup_cons in Hnd as [Hj Hnd]. apply elem_of_cons in Hin as [[= <- <-]|Hin]; cbn.
  - rewrite write_all_notin by done. by rewrite list_lookup_insert_eq.
  - apply IH; [done|done|]. by rewrite length_insert.
Qed.

Lemma write_all_app {V} ws ws' (l : list V) : write_all (ws ++ ws') l = write_all ws' (write_all ws l).
Proof. revert l. induction ws as [|w ws IH]; intros l; cbn; [done|apply IH]. Qed.

Lemma NoDup_imap_index {X} (l : list X) : NoDup (imap (fun i _ => i) l).
Proof.
  apply NoDup_alt. intros i j x. rewrite !list_lookup_imap, !fmap_Some.
  by intros (? & _ & ->) (? & _ & ->).
Qed.

Lemma fill_lookups_write {V} (items : list (nat * string)) (f : string -> V) l :
  fill_lookups items (f <$> items.*2) l = write_all ((fun it => (it.1, f it.2)) <$> items) l.
Proof. revert l. induction items as [|[i h] items IH]; intros l; cbn; [done|]. apply IH. Qed.

(** ** The handler *)

Section HealthCheck.
Context `{RedisLaws} `{Chrono} {A : Asset} `{!HashRecord Rec} {HL : HashRecordLaws Rec}
  {K : KeyStrategy} {KL : KeyLaws}
  `{Serde ReplacementRecord} `{Serde BurnRecord} `{Serde MiningState} `{ServerJson} {RB : RecordBuilder}.
#[local] Existing Instance RedisStore.

(** What the ledger knows of one token. *)
Definition look_up (t : DateTime) (db : rdb) (ns : Namespace) (h : string) : string * option bool * option Z :=
  (h, read_spent ns h db, option_map record_amount_wats (read_record t ns h db)).

Lemma bucket_values t ns (hs : list string) db :
  map (fun '((h, spent), record) => (h, spent, option_map record_amount_wats record))
    (zip ((fun h => (h, read_spent ns h db)) <$> hs) ((fun h => read_record t ns h db) <$> hs)) =
  look_up t db ns <$> hs.
Proof. induction hs as [|h hs IH]; cbn; [done|]. f_equal. exact IH. Qed.

Lemma health_lookup_Ok env groups lookups (st : ServerState rstate) res st' :
  health_lookup env groups lookups st = (Ok res, st') ->
  rview (data st') = rview (data st) /\ nonces st' = nonces st /\
  res = write_all ((fun g => (g.2.1, look_up (now env) (rview (data st)) g.1 g.2.2)) <$> flat_groups groups) lookups.
Proof.
  revert lookups st. induction groups as [|[ns items] groups IH]; intros lookups st; cbn [health_lookup].
  { by intros [-> ->]%hret_Ok. }
  intros Hr. step Hr. step Hr. step Hr. step Hr. subst.
  match goal with X : get_tokens _ _ _ _ = _ |- _ => apply get_tokens_read in X as [Hv1 ->] end.
  match goal with X : check_tokens _ _ _ = _ |- _ => apply check_tokens_read in X as [Hv2 ->] end.
  change (map snd items) with (items.*2) in *. rewrite Hv1, bucket_values, fill_lookups_write in Hr.
  apply IH in Hr as (Hv & Hn & ->). split_and!; [congruence..|].
  unfold flat_groups at 2. cbn [flat_map fst snd]. rewrite fmap_app, write_all_app, Hv2, Hv1.
  f_equal. by rewrite <- list_fmap_compose.
Qed.

Lemma parse_publics_Ok tokens ps :
  parse_publics tokens = Ok ps -> Forall2 (fun t p => parse_public t = Ok p) tokens ps.
Proof.
  revert ps. induction tokens as [|t tokens IH]; intros ps; cbn [parse_publics]; [by intros [= <-]|].
  intros (p & Hp%map_err_Ok & Hk)%bind_Ok. apply bind_Ok in Hk as (ps' & Hps & [= <-]). constructor; auto.
Qed.

(** The indexed tokens of the request, each with its namespace. *)
Definition indexed (publics : list Public) : list (Namespace * (nat * string)) :=
  imap (fun i p => (public_ns p, (i, public_hash p))) publics.

Lemma group_flat publics :
  flat_groups (group_by_ns (map public_hash publics) publics) ≡ₚ indexed publics.
Proof.
  unfold group_by_ns, indexed. rewrite length_map.
  assert (forall m k, flat_groups (foldl (fun m '(idx, (h, p)) => push_ns (public_ns p) (idx, h) m) m
      (zip (seq k (length publics)) (zip (map public_hash publics) publics))) ≡ₚ
    flat_groups m ++ imap (fun i p => (public_ns p, ((k + i)%nat, public_hash p))) publics) as Hg.
  { induction publics as [|p publics IH]; intros m k; cbn [map length seq zip zip_with foldl imap].
    - by rewrite app_nil_r.
    - fold (zip (map public_hash publics) publics). rewrite IH, push_ns_flat, <- (assoc_L (++)), Nat.add_0_r.
      apply Permutation_app_head. cbn. apply Permutation_cons; [done|].
      erewrite imap_ext; [reflexivity|]. intros i x _. cbn. by rewrite Nat.add_succ_r. }
  rewrite Hg. done.
Qed.

(** Health check: an answered [/health_check] has changed nothing, and its
    body lists, in request order and under the normalised token texts, what
    the ledger knows of each token in the token's own namespace. *)
Theorem health_check_exact env req (st : ServerState rstate) r st' :
  health_check env req st = (Ok r, st') ->
  rview (data st') = rview (data st) /\ nonces st' = nonces st /\
  exists body tokens publics, req_body req = Ok body /\ json_tokens body = Ok tokens /\
    Forall2 (fun t p => parse_public t = Ok p) tokens publics /\
    r = ok_text_html_json (results_body (map health_entry
      (zip (map (fun p => look_up (now env) (rview (data st)) (public_ns p) (public_hash p)) publics)
           (map production_normalize_public tokens)))).
Proof.
  unfold health_check. intros Hr. step Hr. step Hr. step Hr. rename x into body, x0 into tokens, x1 into publics.
  apply hbind_Ok in Hr as (lookups & st1 & Hl & Hr). apply hret_Ok in Hr as [-> ->].
  apply health_lookup_Ok in Hl as (Hv & Hn & Hl). split_and!; [done..|].
  exists body, tokens, publics. split_and!; [done|done|by apply parse_publics_Ok|].
  do 5 f_equal. rewrite Hl. clear Hl. set (db := rview (data st)).
  set (ws := (fun g : Namespace * (nat * string) => (g.2.1, look_up (now env) db g.1 g.2.2)) <$>
    flat_groups (group_by_ns (map public_hash publics) publics)).
  assert (ws ≡ₚ imap (fun i p => (i, look_up (now env) db (public_ns p) (public_hash p))) publics) as Hws.
  { unfold ws. rewrite group_flat. unfold indexed. by rewrite fmap_imap. }
  assert (NoDup ws.*1) as Hnd.
  { rewrite Hws, fmap_imap. cbn. erewrite imap_ext; [apply (NoDup_imap_index publics)|done]. }
  apply list_eq. intros i. change (map ?f publics) with (f <$> publics). rewrite list_lookup_fmap.
  destruct (publics !! i) as [p|] eqn:Ep; cbn.
  - apply write_all_in; [done| |].
    + rewrite Hws. apply elem_of_lookup_imap. by exists i, p.
    + rewrite length_replicate, length_fmap. by eapply lookup_lt_Some.
  - apply lookup_ge_None in Ep. apply lookup_ge_None. by rewrite write_all_length, length_replicate, length_fmap.
Qed.
End HealthCheck.
