(* ===== verification/LegacyProtocol.v ===== *)
(** * The legacy server: protocol

    [crates/server/src/protocol] (token.rs, mining.rs) of the single-asset
    predecessor of the servers in [Server].  Its amounts, token types, [nom]
    parsers, leading-zero count and difficulty adjustment have the text of
    [asset-core], [asset-webcash] and [mining]; the models of those are used
    here.  The readers of whole tokens are not the same: they drop what the
    parser leaves over. *)
From S2P Require Import Prelude Decimal Amount External Parsers Tokens AssetCore Storage Mining Auth Server.
From Stdlib Require Import Floats.SpecFloat.

(** ** Tokens *)

Module Legacy.
Section Tokens.
Context `{Nom, Hashing}.

Definition parse_secret : parser Webcash.SecretWebcash := Webcash.parse_secret_webcash.
Definition parse_public : parser Webcash.PublicWebcash := Webcash.parse_public_webcash.

(** [.map(|(_, wc)| wc)]: what follows the token is dropped. *)
Definition secret_from_str (s : string) : result string Webcash.SecretWebcash :=
  match parse_secret s with Ok (_, wc) => Ok wc | Err _ => Err (InvalidFormat s) end.
Definition public_from_str (s : string) : result string Webcash.PublicWebcash :=
  match parse_public s with Ok (_, wc) => Ok wc | Err _ => Err (InvalidFormat s) end.
End Tokens.

(** ** Mining data *)

(** A JSON value, as far as the reader of a timestamp looks into it:
    [Number::as_u64] and [Number::as_f64]. *)
Inductive timestamp_value :=
  | TNumber (as_u64 : option Z) (as_f64 : option spec_float)
  | TOther.

(** [f as u64]: truncated, saturating, 0 for NaN. *)
Definition f64_as_u64 (f : spec_float) : Z :=
  match f with
  | S754_finite false m e =>
      Z.min u64_max (if 0 <=? e then Zpos m * 2 ^ e else Zpos m / 2 ^ (- e))
  | S754_infinity false => u64_max
  | _ => 0
  end.

Definition deserialize_timestamp (v : timestamp_value) : result string Z :=
  match v with
  | TNumber (Some i) _ => Ok i
  | TNumber None (Some f) => Ok (f64_as_u64 f)
  | _ => Err "timestamp must be a number"
  end.

Record MiningPreimage := {
  pi_webcash : list string;
  pi_subsidy : list string;
  pi_timestamp : Z;
  pi_difficulty : Z;
}.

(** serde on the members of a preimage, before the reader of the timestamp. *)
Class PreimageJson := {
  json_members : string -> result string (list string * list string * timestamp_value * Z);
}.

Definition json_preimage `{PreimageJson} (s : string) : result string MiningPreimage :=
  '(webcash, subsidy, ts, difficulty) ← json_members s;
  timestamp ← deserialize_timestamp ts;
  Ok {| pi_webcash := webcash; pi_subsidy := subsidy; pi_timestamp := timestamp; pi_difficulty := difficulty |}.

Section Mining.
Context `{Hashing} `{ServerJson} `{PreimageJson}.

(** The base64 form is tried first, then the text itself. *)
Definition verify_and_parse (preimage_str : string) (difficulty_bits : Z) : result string MiningPreimage :=
  if negb (verify_pow preimage_str difficulty_bits) then
    Err ("proof-of-work does not meet difficulty target of " +:+ show_u64 difficulty_bits +:+ " bits")
  else
    match (json_str ← base64_try_decode preimage_str; result_ok (json_preimage json_str)) with
    | Some preimage => Ok preimage
    | None => map_err (fun e => "invalid preimage (not base64 or JSON): " +:+ e) (json_preimage preimage_str)
    end.
End Mining.

Section State.
Context `{Chrono}.

Record MiningState := {
  ms_difficulty_target_bits : Z;
  ms_epoch : Z;
  ms_total_circulation_wats : Z;
  ms_mining_reports_count : Z;
  ms_mining_amount_wats : Z;
  ms_subsidy_amount_wats : Z;
  ms_last_adjustment_at : DateTime;
  ms_aggregate_work : spec_float;
}.

Definition initial (now : DateTime) (difficulty mining_amount_wats subsidy_amount_wats : Z) : MiningState := {|
  ms_difficulty_target_bits := difficulty;
  ms_epoch := 0;
  ms_total_circulation_wats := 0;
  ms_mining_reports_count := 0;
  ms_mining_amount_wats := mining_amount_wats;
  ms_subsidy_amount_wats := subsidy_amount_wats;
  ms_last_adjustment_at := now;
  ms_aggregate_work := S754_zero false |}.

Record TargetInfo := {
  ti_difficulty_target_bits : Z;
  ti_epoch : Z;
  ti_mining_amount : Amount;
  ti_mining_subsidy_amount : Amount;
  ti_ratio : spec_float;
}.

Definition to_target_info (s : MiningState) : TargetInfo :=
  let total := i64_wrap (ms_mining_amount_wats s + ms_subsidy_amount_wats s) in
  {| ti_difficulty_target_bits := ms_difficulty_target_bits s;
     ti_epoch := ms_epoch s;
     ti_mining_amount := from_wats (ms_mining_amount_wats s);
     ti_mining_subsidy_amount := from_wats (ms_subsidy_amount_wats s);
     ti_ratio := if 0 <? total
                 then f64_div (f64_of_u64 (ms_mining_amount_wats s)) (f64_of_u64 total)
                 else f64_one |}.
End State.
End Legacy.

(** ** The language of the token readers *)

Section Language.
Context `{NomLaws} `{HashingLaws} `{UnicodeLaws}.

Lemma legacy_secret_Ok s t :
  Legacy.secret_from_str s = Ok t <->
  exists u rest, s = u +:+ rest /\ plain_text ":secret:" (Webcash.s_amount t) (Webcash.s_secret t) u.
Proof.
  unfold Legacy.secret_from_str, Legacy.parse_secret. split.
  - destruct (Webcash.parse_secret_webcash s) as [[rest wc]|] eqn:E; [|done]. intros [= ->].
    apply (plain_parser_rest "secret:" Webcash.mk_secret) in E as (a & h & u & -> & -> & Hu). eauto.
  - intros (u & rest & -> & Hu).
    assert (Webcash.parse_secret_webcash (u +:+ rest) = Ok (rest, t)) as ->; [|done].
    apply (plain_parser_rest "secret:" Webcash.mk_secret). destruct t as [a h].
    exists a, h, u. done.
Qed.

Lemma legacy_public_Ok s t :
  Legacy.public_from_str s = Ok t <->
  exists u rest, s = u +:+ rest /\ plain_text ":public:" (Webcash.p_amount t) (Webcash.p_hash t) u.
Proof.
  unfold Legacy.public_from_str, Legacy.parse_public. split.
  - destruct (Webcash.parse_public_webcash s) as [[rest wc]|] eqn:E; [|done]. intros [= ->].
    apply (plain_parser_rest "public:" Webcash.mk_public) in E as (a & h & u & -> & -> & Hu). eauto.
  - intros (u & rest & -> & Hu).
    assert (Webcash.parse_public_webcash (u +:+ rest) = Ok (rest, t)) as ->; [|done].
    apply (plain_parser_rest "public:" Webcash.mk_public). destruct t as [a h].
    exists a, h, u. done.
Qed.

Lemma legacy_secret_range s t : Legacy.secret_from_str s = Ok t -> 0 <= wats (Webcash.s_amount t) <= i64_max.
Proof. intros (u & rest & _ & amt & _ & Ha & _)%legacy_secret_Ok. by eapply amount_field_nonneg. Qed.

(** The legacy reader of a secret extends that of [asset-webcash]: it reads
    every Webcash secret the same way, and besides exactly the texts that have
    one as a prefix, whatever follows it. *)
Theorem legacy_reads_prefixes s t :
  Legacy.secret_from_str s = Ok t <->
  exists u rest, s = u +:+ rest /\ Webcash.secret_from_str u = Ok t.
Proof.
  rewrite legacy_secret_Ok. split; intros (u & rest & -> & Hu); exists u, rest; (split; [done|]);
    by apply webcash_secret_Ok.
Qed.
End Language.
