(* ===== verification/LegacyStore.v ===== *)
(** * The legacy server: store contract and effects

    [crates/server/src/db/mod.rs] (records, the batch-native trait, the
    single-operation wrappers) and [crates/server/src/effects]: a free monad of
    ledger effects and its interpreter over a store. *)
From S2P Require Import Prelude Decimal Amount External Storage LegacyProtocol.

Module Db.
Inductive TokenOrigin := Mined | Replaced.
#[export] Instance token_origin_eq_dec : EqDecision TokenOrigin.
Proof. solve_decision. Defined.

Section Data.
Context `{Chrono}.

Record TokenRecord := {
  public_hash : string;
  amount_wats : Z;
  spent : bool;
  created_at : DateTime;
  spent_at : option DateTime;
  origin : TokenOrigin;
}.

Record ReplacementRecord := {
  rr_id : string;
  rr_input_hashes : list string;
  rr_output_hashes : list string;
  rr_total_amount_wats : Z;
  rr_created_at : DateTime;
}.

Record BurnRecord := {
  br_id : string;
  br_public_hash : string;
  br_amount_wats : Z;
  br_burned_at : DateTime;
}.

Record ReplaceOp := {
  ro_inputs : list string;
  ro_outputs : list TokenRecord;
  ro_record : ReplacementRecord;
}.

(** ** The trait

    As in [Storage]: a method passes the state of the store, and takes the
    instant when it reads the clock. *)
Class LedgerStore (S : Type) := {
  insert_tokens : list TokenRecord -> S -> result string unit * S;
  get_tokens : DateTime -> list string -> S -> result string (list (option TokenRecord)) * S;
  check_tokens : list string -> S -> result string (list (string * option bool)) * S;
  batch_replace : DateTime -> list ReplaceOp -> S -> list ReplaceResult * S;
  batch_burn : DateTime -> list (string * BurnRecord) -> S -> result string unit * S;
  get_mining_state : S -> result string (option Legacy.MiningState) * S;
  update_mining_state : Legacy.MiningState -> S -> result string unit * S;
}.

Definition stats_of (s : Legacy.MiningState) : EconomyStats := {|
  es_total_circulation_wats := Legacy.ms_total_circulation_wats s;
  es_mining_reports_count := Legacy.ms_mining_reports_count s;
  es_difficulty_target_bits := Legacy.ms_difficulty_target_bits s;
  es_epoch := Legacy.ms_epoch s;
  es_mining_amount_wats := Legacy.ms_mining_amount_wats s;
  es_subsidy_amount_wats := Legacy.ms_subsidy_amount_wats s |}.
End Data.

Section Wrappers.
Context `{Chrono} {S : Type} `{!LedgerStore S}.

Definition get_stats (st : S) : result string EconomyStats * S :=
  let '(r, st') := get_mining_state st in (s ← r; Ok (default default_stats (stats_of <$> s)), st').

(** ** Single operations as batches of one *)

Definition insert_token (record : TokenRecord) (st : S) : result string unit * S := insert_tokens [record] st.

Definition first_token (r : result string (list (option TokenRecord))) : result string (option TokenRecord) :=
  tokens ← r; Ok (default None (head tokens)).

Definition get_token (now : DateTime) (hash : string) (st : S) : result string (option TokenRecord) * S :=
  let '(r, st') := get_tokens now [hash] st in (first_token r, st').

Definition first_result (results : list ReplaceResult) : result string unit :=
  match head results with
  | Some ReplaceOk => Ok tt
  | Some (ReplaceFailed e) => Err e
  | None => Err "no result from batch_replace"
  end.

Definition atomic_replace (now : DateTime) (inputs : list string) (outputs : list TokenRecord)
    (record : ReplacementRecord) (st : S) : result string unit * S :=
  let '(results, st') := batch_replace now
    [{| ro_inputs := inputs; ro_outputs := outputs; ro_record := record |}] st in
  (first_result results, st').

Definition burn_token (now : DateTime) (hash : string) (record : BurnRecord) (st : S) : result string unit * S :=
  batch_burn now [(hash, record)] st.

(** A token is marked spent by a burn with a made-up record. *)
Definition mark_spent (now : DateTime) (new_uuid hash : string) (st : S) : result string bool * S :=
  match get_token now hash st with
  | (Err e, st) => (Err e, st)
  | (Ok None, st) => (Ok false, st)
  | (Ok (Some t), st) =>
      if spent t then (Ok false, st)
      else
        let record := {| br_id := new_uuid; br_public_hash := hash; br_amount_wats := 0; br_burned_at := now |} in
        let '(r, st) := batch_burn now [(hash, record)] st in (_ ← r; Ok true, st)
  end.
End Wrappers.
End Db.

(** ** Effects *)

Module Effects.
Section Effects.
Context `{Chrono}.

Inductive LedgerEffect (A : Type) :=
  | Pure (a : A)
  | GetToken (hash : string) (next : option Db.TokenRecord -> LedgerEffect A)
  | InsertToken (record : Db.TokenRecord) (next : unit -> LedgerEffect A)
  | MarkSpent (hash : string) (next : bool -> LedgerEffect A)
  | GetMiningState (next : option Legacy.MiningState -> LedgerEffect A)
  | UpdateMiningState (state : Legacy.MiningState) (next : unit -> LedgerEffect A)
  | AtomicReplace (inputs : list string) (outputs : list Db.TokenRecord) (record : Db.ReplacementRecord)
      (next : unit -> LedgerEffect A)
  | Fail (error : string).
Arguments Pure {A} _.
Arguments GetToken {A} _ _.
Arguments InsertToken {A} _ _.
Arguments MarkSpent {A} _ _.
Arguments GetMiningState {A} _.
Arguments UpdateMiningState {A} _ _.
Arguments AtomicReplace {A} _ _ _ _.
Arguments Fail {A} _.

Fixpoint bind {A B} (m : LedgerEffect A) (f : A -> LedgerEffect B) : LedgerEffect B :=
  match m with
  | Pure a => f a
  | Fail error => Fail error
  | GetToken hash next => GetToken hash (fun tok => bind (next tok) f)
  | InsertToken record next => InsertToken record (fun u => bind (next u) f)
  | MarkSpent hash next => MarkSpent hash (fun ok => bind (next ok) f)
  | GetMiningState next => GetMiningState (fun s => bind (next s) f)
  | UpdateMiningState state next => UpdateMiningState state (fun u => bind (next u) f)
  | AtomicReplace inputs outputs record next => AtomicReplace inputs outputs record (fun u => bind (next u) f)
  end.

(** The smart constructors. *)
Definition get_token (hash : string) : LedgerEffect (option Db.TokenRecord) := GetToken hash Pure.
Definition insert_token (record : Db.TokenRecord) : LedgerEffect unit := InsertToken record Pure.
Definition mark_spent (hash : string) : LedgerEffect bool := MarkSpent hash Pure.
Definition get_mining_state : LedgerEffect (option Legacy.MiningState) := GetMiningState Pure.
Definition update_mining_state (state : Legacy.MiningState) : LedgerEffect unit := UpdateMiningState state Pure.
Definition atomic_replace (inputs : list string) (outputs : list Db.TokenRecord) (record : Db.ReplacementRecord)
  : LedgerEffect unit := AtomicReplace inputs outputs record Pure.

(** The instants and identifiers the calls of a run read: the [n]-th call
    reads the [n]-th. *)
Record Ticks := { instant : nat -> DateTime; fresh_id : nat -> string }.

Section Interpreter.
Context {S : Type} `{!Db.LedgerStore S} (tk : Ticks).

(** One turn of the loop: the answer of a call goes to the continuation, an
    error ends the run. *)
Definition turn {R A} (call : S -> result string R * S) (next : R -> nat -> S -> result string A * nat * S)
    (n : nat) (st : S) : result string A * nat * S :=
  match call st with
  | (Ok r, st') => next r (Datatypes.S n) st'
  | (Err e, st') => (Err e, Datatypes.S n, st')
  end.

(** [interpret]: the answer, the number of calls made and the state left. *)
Fixpoint interpret {A} (effect : LedgerEffect A) (n : nat) (st : S) : result string A * nat * S :=
  match effect with
  | Pure a => (Ok a, n, st)
  | Fail error => (Err error, n, st)
  | GetToken hash next => turn (Db.get_token (instant tk n) hash) (fun r => interpret (next r)) n st
  | InsertToken record next => turn (Db.insert_token record) (fun r => interpret (next r)) n st
  | MarkSpent hash next =>
      turn (Db.mark_spent (instant tk n) (fresh_id tk n) hash) (fun r => interpret (next r)) n st
  | GetMiningState next => turn Db.get_mining_state (fun r => interpret (next r)) n st
  | UpdateMiningState state next => turn (Db.update_mining_state state) (fun r => interpret (next r)) n st
  | AtomicReplace inputs outputs record next =>
      turn (Db.atomic_replace (instant tk n) inputs outputs record) (fun r => interpret (next r)) n st
  end.
End Interpreter.

(** ** Programs up to their continuations

    Two programs are equal when they make the same calls and their
    continuations are equal on every answer. *)
Inductive eff_eq {A} : LedgerEffect A -> LedgerEffect A -> Prop :=
  | eq_pure a : eff_eq (Pure a) (Pure a)
  | eq_fail e : eff_eq (Fail e) (Fail e)
  | eq_get_token h k k' : (forall r, eff_eq (k r) (k' r)) -> eff_eq (GetToken h k) (GetToken h k')
  | eq_insert t k k' : (forall r, eff_eq (k r) (k' r)) -> eff_eq (InsertToken t k) (InsertToken t k')
  | eq_mark h k k' : (forall r, eff_eq (k r) (k' r)) -> eff_eq (MarkSpent h k) (MarkSpent h k')
  | eq_get_state k k' : (forall r, eff_eq (k r) (k' r)) -> eff_eq (GetMiningState k) (GetMiningState k')
  | eq_update s k k' : (forall r, eff_eq (k r) (k' r)) -> eff_eq (UpdateMiningState s k) (UpdateMiningState s k')
  | eq_replace i o r k k' : (forall u, eff_eq (k u) (k' u)) ->
      eff_eq (AtomicReplace i o r k) (AtomicReplace i o r k').

#[local] Hint Constructors eff_eq : core.

#[export] Instance eff_eq_equiv {A} : Equivalence (@eff_eq A).
Proof.
  split.
  - intros m. induction m; auto.
  - intros m m' E. induction E; auto.
  - intros m m' m'' E. revert m''. induction E; intros m'' E'; inversion E'; subst; auto.
Qed.

#[export] Instance bind_proper {A B} :
  Proper (eff_eq ==> pointwise_relation A eff_eq ==> eff_eq) (@bind A B).
Proof. intros m m' E f f' Ef. induction E; cbn [bind]; auto. Qed.

Lemma bind_pure_r {A} (m : LedgerEffect A) : eff_eq (bind m Pure) m.
Proof. induction m; cbn [bind]; auto. Qed.

Lemma bind_assoc {A B C} (m : LedgerEffect A) (f : A -> LedgerEffect B) (g : B -> LedgerEffect C) :
  eff_eq (bind (bind m f) g) (bind m (fun a => bind (f a) g)).
Proof. induction m; cbn [bind]; auto. reflexivity. Qed.

Section Laws.
Context {S : Type} `{!Db.LedgerStore S} (tk : Ticks).

Lemma turn_ext {R A} (call : S -> result string R * S) (k k' : R -> nat -> S -> result string A * nat * S) n st :
  (forall r n st, k r n st = k' r n st) -> turn call k n st = turn call k' n st.
Proof. intros E. unfold turn. destruct (call st) as [[r|e] st']; [apply E|done]. Qed.

#[export] Instance interpret_proper {A} : Proper (eff_eq ==> eq ==> eq ==> eq) (@interpret S _ tk A).
Proof.
  intros m m' E n ? <- st ? <-. revert n st.
  induction E; intros n st; cbn [interpret]; try done; apply turn_ext; eauto.
Qed.

(** What runs after a program: the continuation on a value, nothing on an
    error. *)
Definition continue {A B} (f : A -> nat -> S -> result string B * nat * S)
    (o : result string A * nat * S) : result string B * nat * S :=
  match o with (Ok a, n, st) => f a n st | (Err e, n, st) => (Err e, n, st) end.

Lemma turn_continue {R A B} (call : S -> result string R * S) (k : R -> nat -> S -> result string A * nat * S)
    (f : A -> nat -> S -> result string B * nat * S) n st :
  continue f (turn call k n st) = turn call (fun r n st => continue f (k r n st)) n st.
Proof. unfold turn. by destruct (call st) as [[r|e] st']. Qed.

(** The programs form a monad up to [eff_eq], and the interpreter maps it to
    sequencing: the run of [m.bind(f)] is the run of [m], then that of what [f]
    makes of its value, over the state and the calls [m] has left; an error of
    [m] is the answer and nothing of [f] runs. *)
Theorem interpret_bind {A B C} (m : LedgerEffect A) (f : A -> LedgerEffect B) (g : B -> LedgerEffect C) n st :
  interpret tk (bind m f) n st = continue (fun a => interpret tk (f a)) (interpret tk m n st) /\
  eff_eq (bind m Pure) m /\ (forall a, bind (Pure a) f = f a) /\
  eff_eq (bind (bind m f) g) (bind m (fun a => bind (f a) g)).
Proof.
  split; [|split_and!; [apply bind_pure_r|done|apply bind_assoc]].
  revert n st. induction m; intros n st; cbn [bind interpret]; try done;
    rewrite turn_continue; apply turn_ext; auto.
Qed.
End Laws.
End Effects.
End Effects.
