(* ===== verification/LegacyReplace.v ===== *)
(** * The legacy server: replace

    [crates/server/src/effects/replace.rs], the validation of a replace and its
    single call of the store, and [crates/server/src/actors/batcher.rs], the
    actor that collects concurrent replaces and runs them as one batch. *)
From S2P Require Import Prelude Decimal Amount External Parsers Tokens AssetCore Storage LegacyProtocol LegacyStore.

Module Replace.
Section Validation.
Context `{Nom} `{Hashing} `{Chrono}.

(** The folds of [parse_inputs] and [parse_outputs] over the hashes or the
    records so far and their total. *)
Fixpoint parse_inputs_from (webcashes hashes : list string) (total : Amount)
  : result string (list string * Amount) :=
  match webcashes with
  | [] => Ok (hashes, total)
  | wc_str :: rest =>
      secret ← map_err (fun e => "invalid input webcash: " +:+ e) (Legacy.secret_from_str wc_str);
      if negb (is_positive (Webcash.s_amount secret)) then Err "input amount must be positive"
      else
        new_total ← ok_or (checked_add total (Webcash.s_amount secret)) "input amount overflow";
        parse_inputs_from rest (hashes ++ [Webcash.p_hash (Webcash.to_public secret)]) new_total
  end.
Definition parse_inputs (webcashes : list string) : result string (list string * Amount) :=
  parse_inputs_from webcashes [] ZERO.

Definition output_record (now : DateTime) (secret : Webcash.SecretWebcash) : Db.TokenRecord := {|
  Db.public_hash := Webcash.p_hash (Webcash.to_public secret);
  Db.amount_wats := wats (Webcash.s_amount secret);
  Db.spent := false;
  Db.created_at := now;
  Db.spent_at := None;
  Db.origin := Db.Replaced |}.

Fixpoint parse_outputs_from (new_webcashes : list string) (now : DateTime) (records : list Db.TokenRecord)
    (total : Amount) : result string (list Db.TokenRecord * Amount) :=
  match new_webcashes with
  | [] => Ok (records, total)
  | wc_str :: rest =>
      secret ← map_err (fun e => "invalid output webcash: " +:+ e) (Legacy.secret_from_str wc_str);
      if negb (is_positive (Webcash.s_amount secret)) then Err "output amount must be positive"
      else
        new_total ← ok_or (checked_add total (Webcash.s_amount secret)) "output amount overflow";
        parse_outputs_from rest now (records ++ [output_record now secret]) new_total
  end.
Definition parse_outputs (new_webcashes : list string) (now : DateTime)
  : result string (list Db.TokenRecord * Amount) := parse_outputs_from new_webcashes now [] ZERO.

Record ReplaceValidated := {
  input_hashes : list string;
  output_records : list Db.TokenRecord;
  record : Db.ReplacementRecord;
}.

Definition into_op (v : ReplaceValidated) : Db.ReplaceOp := {|
  Db.ro_inputs := input_hashes v; Db.ro_outputs := output_records v; Db.ro_record := record v |}.

Definition parse_and_validate_replace (now : DateTime) (new_uuid : string) (webcashes new_webcashes : list string)
  : result string ReplaceValidated :=
  '(hashes, input_total) ← parse_inputs webcashes;
  '(records, output_total) ← parse_outputs new_webcashes now;
  if negb (bool_decide (input_total = output_total)) then
    Err ("amount mismatch: inputs=" +:+ to_string input_total +:+ " outputs=" +:+ to_string output_total)
  else if negb (is_positive input_total) then Err "replacement must have positive amount"
  else Ok {| input_hashes := hashes;
             output_records := records;
             record := {| Db.rr_id := new_uuid;
                          Db.rr_input_hashes := hashes;
                          Db.rr_output_hashes := map Db.public_hash records;
                          Db.rr_total_amount_wats := wats input_total;
                          Db.rr_created_at := now |} |}.

Definition execute_replace {S} `{!Db.LedgerStore S} (now : DateTime) (new_uuid : string)
    (webcashes new_webcashes : list string) (st : S) : result string unit * S :=
  match parse_and_validate_replace now new_uuid webcashes new_webcashes with
  | Err e => (Err e, st)
  | Ok v => Db.atomic_replace now (input_hashes v) (output_records v) (record v) st
  end.

(** ** What validation accepts *)

Definition total_wats (l : list Webcash.SecretWebcash) : Z := foldr Z.add 0 (map (fun t => wats (Webcash.s_amount t)) l).
Definition hash_of (t : Webcash.SecretWebcash) : string := Webcash.p_hash (Webcash.to_public t).

(** The texts read as these secrets, each of a positive amount. *)
Definition read_positive (texts : list string) (ts : list Webcash.SecretWebcash) : Prop :=
  Forall2 (fun s t => Legacy.secret_from_str s = Ok t /\ 0 < wats (Webcash.s_amount t)) texts ts.

Lemma total_nonneg texts ts : read_positive texts ts -> 0 <= total_wats ts.
Proof. intros Hr. induction Hr as [|s t texts ts [_ Hp] _ IH]; cbn in *; [lia|]. unfold total_wats in IH. lia. Qed.

Lemma total_pos texts ts : read_positive texts ts -> 0 < total_wats ts <-> texts <> [].
Proof.
  intros [|s t texts' ts' [_ Hp] Hr]; [by split|]. pose proof (total_nonneg _ _ Hr) as Hn.
  cbn. unfold total_wats in Hn. split; [done|lia].
Qed.

Lemma positive_wats a : negb (is_positive a) = false <-> 0 < wats a.
Proof. unfold is_positive. rewrite negb_false_iff. by rewrite Z.ltb_lt. Qed.

(** Both folds, over what they keep of each secret. *)
Section Fold.
Context {X : Type} (fold : list string -> list X -> Amount -> result string (list X * Amount))
  (keep : Webcash.SecretWebcash -> X) (invalid : string -> string) (low over : string).
Hypothesis fold_nil : forall l total, fold [] l total = Ok (l, total).
Hypothesis fold_cons : forall s rest l total, fold (s :: rest) l total =
  (secret ← map_err invalid (Legacy.secret_from_str s);
   if negb (is_positive (Webcash.s_amount secret)) then Err low
   else new_total ← ok_or (checked_add total (Webcash.s_amount secret)) over;
        fold rest (l ++ [keep secret]) new_total).

Lemma fold_Ok texts l total l' total' :
  i64_range (wats total) -> 0 <= wats total ->
  fold texts l total = Ok (l', total') <->
  exists ts, read_positive texts ts /\ l' = l ++ map keep ts /\
    wats total' = wats total + total_wats ts /\ i64_range (wats total').
Proof.
  revert l total. induction texts as [|s texts IH]; intros l total Hr Hn.
  - rewrite fold_nil. split.
    + intros [= <- <-]. exists []. split_and!; [constructor|by rewrite app_nil_r|cbn; lia|done].
    + intros (ts & Hts%Forall2_nil_inv_l & -> & Ht & _). subst ts. cbn in Ht. rewrite app_nil_r. do 2 f_equal.
      destruct total, total'. cbn in *. f_equal. lia.
  - rewrite fold_cons, bind_Ok. split.
    + intros (t & Et & E). apply map_err_Ok in Et. destruct (negb (is_positive _)) eqn:Ep; [done|].
      apply positive_wats in Ep. apply bind_Ok in E as (nt & Ent & E). apply ok_or_Ok, fmap_Some in Ent as (w & Ew & ->).
      apply i64_checked_Some in Ew as [-> Hw]. apply IH in E as (ts & Hts & -> & Ht & Hr'); [|done|cbn; lia].
      exists (t :: ts). split_and!; [by constructor|by rewrite <- app_assoc|cbn in *; unfold total_wats in *; lia|done].
    + intros (ts' & Hts & -> & Ht & Hr'). inversion Hts as [|? t ? ts [Et Hp] Hts']; subst. clear Hts.
      pose proof (total_nonneg _ _ Hts') as Hn'. change (total_wats (t :: ts)) with (wats (Webcash.s_amount t) + total_wats ts) in Ht.
      exists t. split; [by rewrite Et|]. rewrite (proj2 (positive_wats _) Hp).
      assert (i64_range (wats total + wats (Webcash.s_amount t))) as Hw by (unfold i64_range in *; lia).
      unfold checked_add, i64_checked_add. rewrite (i64_checked_in _ Hw). cbn [fmap option_fmap option_map ok_or mbind result_bind].
      apply IH; [done|cbn; lia|]. exists ts. rewrite <- app_assoc. split_and!; [done|done|cbn; lia|done].
Qed.
End Fold.

Lemma zero_range : i64_range (wats ZERO).
Proof. by vm_compute. Qed.

Lemma parse_inputs_Ok texts hs total :
  parse_inputs texts = Ok (hs, total) <->
  exists ts, read_positive texts ts /\ hs = map hash_of ts /\ wats total = total_wats ts /\ total_wats ts <= i64_max.
Proof.
  unfold parse_inputs. rewrite (fold_Ok parse_inputs_from hash_of (fun e => "invalid input webcash: " +:+ e)
    "input amount must be positive" "input amount overflow") by (done || apply zero_range).
  split; intros (ts & Hts & -> & Ht & Hr); exists ts; pose proof (total_nonneg _ _ Hts); cbn in *;
    split_and!; try done; unfold i64_range, i64_min in *; lia.
Qed.

Lemma parse_outputs_Ok texts now rs total :
  parse_outputs texts now = Ok (rs, total) <->
  exists ts, read_positive texts ts /\ rs = map (output_record now) ts /\ wats total = total_wats ts /\
    total_wats ts <= i64_max.
Proof.
  unfold parse_outputs. rewrite (fold_Ok (fun t l a => parse_outputs_from t now l a) (output_record now)
    (fun e => "invalid output webcash: " +:+ e) "output amount must be positive" "output amount overflow")
    by (done || apply zero_range).
  split; intros (ts & Hts & -> & Ht & Hr); exists ts; pose proof (total_nonneg _ _ Hts); cbn in *;
    split_and!; try done; unfold i64_range, i64_min in *; lia.
Qed.

Lemma validated_Ok now id ins outs v :
  parse_and_validate_replace now id ins outs = Ok v <->
  exists ss ts, read_positive ins ss /\ read_positive outs ts /\ ins <> [] /\
    total_wats ss = total_wats ts /\ total_wats ss <= i64_max /\
    v = {| input_hashes := map hash_of ss;
           output_records := map (output_record now) ts;
           record := {| Db.rr_id := id;
                        Db.rr_input_hashes := map hash_of ss;
                        Db.rr_output_hashes := map hash_of ts;
                        Db.rr_total_amount_wats := total_wats ss;
                        Db.rr_created_at := now |} |}.
Proof.
  assert (forall ts, map Db.public_hash (map (output_record now) ts) = map hash_of ts) as Ho
    by (intros ts; by rewrite map_map).
  unfold parse_and_validate_replace. rewrite bind_Ok. split.
  - intros ([hs it] & (ss & Hss & -> & Hit & Hi)%parse_inputs_Ok & E).
    apply bind_Ok in E as ([rs ot] & (ts & Hts & -> & Hot & Hm)%parse_outputs_Ok & E).
    case_bool_decide as Heq; [|done]. subst ot. cbn [negb] in E.
    destruct (negb (is_positive it)) eqn:Ep; [done|]. apply positive_wats in Ep. injection E as <-.
    exists ss, ts. split_and!; [done..|apply (total_pos _ _ Hss); lia|lia|done|]. by rewrite Ho, Hit.
  - intros (ss & ts & Hss & Hts & Hne & Heq & Hm & ->).
    exists (map hash_of ss, from_wats (total_wats ss)). split; [apply parse_inputs_Ok; by exists ss|].
    apply bind_Ok. exists (map (output_record now) ts, from_wats (total_wats ss)).
    split; [apply parse_outputs_Ok; exists ts; by rewrite <- Heq|].
    rewrite bool_decide_true by done. cbn [negb].
    rewrite (proj2 (positive_wats _)) by (cbn; by apply (total_pos _ _ Hss)). by rewrite Ho.
Qed.

(** A replace is valid exactly when every text reads as a secret of a
    positive amount, there is an input, and the inputs and the outputs add up
    to the same total, which an [i64] holds; the request then names the hash of
    every input in order, a fresh unspent record of every output, and the
    total. *)
Theorem validated_exactly now id ins outs v :
  parse_and_validate_replace now id ins outs = Ok v <->
  exists ss ts, read_positive ins ss /\ read_positive outs ts /\ ins <> [] /\
    total_wats ss = total_wats ts /\ total_wats ss <= i64_max /\
    v = {| input_hashes := map hash_of ss;
           output_records := map (output_record now) ts;
           record := {| Db.rr_id := id;
                        Db.rr_input_hashes := map hash_of ss;
                        Db.rr_output_hashes := map hash_of ts;
                        Db.rr_total_amount_wats := total_wats ss;
                        Db.rr_created_at := now |} |}.
Proof. apply validated_Ok. Qed.
End Validation.

(** ** The batcher

    The channel holds the requests sent and not yet taken; a reply channel is
    the identifier of its request. *)
Section Batcher.
Context `{Chrono} {S : Type} `{!Db.LedgerStore S}.

Record PendingReplace := { op : Db.ReplaceOp; reply : nat }.

Definition reply_of (r : ReplaceResult) : result string unit :=
  match r with ReplaceOk => Ok tt | ReplaceFailed e => Err e end.

(** What a turn of the loop does with the batch it has taken: the replies it
    sends and the state it leaves. *)
Definition run_batch (now : DateTime) (batch : list PendingReplace) (st : S)
  : list (nat * result string unit) * S :=
  let '(results, st') := Db.batch_replace now (map op batch) st in
  (zip (map reply batch) (map reply_of results), st').

Record BatcherState := { channel : list PendingReplace; sent : list (nat * result string unit); data : S }.

(** A request is sent to the channel, or the loop takes all that is there: it
    waits while the channel is empty. *)
Inductive event := Arrives (p : PendingReplace) | Drains (now : DateTime).

Definition batcher_step (e : event) (b : BatcherState) : BatcherState :=
  match e with
  | Arrives p => {| channel := channel b ++ [p]; sent := sent b; data := data b |}
  | Drains now =>
      match channel b with
      | [] => b
      | batch =>
          let '(replies, st') := run_batch now batch (data b) in
          {| channel := []; sent := sent b ++ replies; data := st' |}
      end
  end.
Definition batcher_run (evs : list event) (b : BatcherState) : BatcherState :=
  foldl (fun b e => batcher_step e b) b evs.

Definition started (st : S) : BatcherState := {| channel := []; sent := []; data := st |}.
Definition arrivals (evs : list event) : list PendingReplace :=
  omap (fun e => match e with Arrives p => Some p | Drains _ => None end) evs.

(** ** What a store promises of a batch

    Over the data a client can see, a batch is its requests run one after the
    other; when the store cannot be reached some prefix of them has run and
    every request is answered as failed. *)
Fixpoint run_seq {V} (step : DateTime -> Db.ReplaceOp -> V -> ReplaceResult * V) (now : DateTime)
    (ops : list Db.ReplaceOp) (v : V) : list ReplaceResult * V :=
  match ops with
  | [] => ([], v)
  | o :: ops' =>
      let '(r, v1) := step now o v in
      let '(rs, v2) := run_seq step now ops' v1 in (r :: rs, v2)
  end.

Class SequentialStore := {
  visible : Type;
  view : S -> visible;
  step_replace : DateTime -> Db.ReplaceOp -> visible -> ReplaceResult * visible;
  sound : visible -> Prop;
  admissible : Db.ReplaceOp -> Prop;
  step_sound : forall now o v, admissible o -> sound v -> sound (step_replace now o v).2;
  batch_sequential : forall now ops st res st',
    Forall admissible ops -> sound (view st) -> Db.batch_replace now ops st = (res, st') ->
    (res, view st') = run_seq step_replace now ops (view st) \/
    exists e n, res = map (fun _ => ReplaceFailed e) ops /\
      view st' = (run_seq step_replace now (take n ops) (view st)).2;
}.

Context {SQ : SequentialStore}.

(** A request in the order the loop took it, the instant of its batch, and
    its result if it ran. *)
Record entry := { at_time : DateTime; request : PendingReplace; ran : option ReplaceResult }.

(** The entries that ran, one after the other. *)
Fixpoint replays (h : list entry) (v v' : visible) : Prop :=
  match h with
  | [] => v' = v
  | e :: h' =>
      match ran e with
      | None => replays h' v v'
      | Some r =>
          let '(r', v1) := step_replace (at_time e) (op (request e)) v in
          r' = r /\ replays h' v1 v'
      end
  end.

(** A reply is the result of its request, or a failure. *)
Definition answers (e : entry) (a : nat * result string unit) : Prop :=
  a.1 = reply (request e) /\ (option_map reply_of (ran e) = Some a.2 \/ exists m, a.2 = Err m).

Lemma replays_app h1 h2 v v1 v2 : replays h1 v v1 -> replays h2 v1 v2 -> replays (h1 ++ h2) v v2.
Proof.
  revert v. induction h1 as [|e h1 IH]; intros v; cbn [replays app]; [by intros ->|].
  destruct (ran e); [|apply IH]. destruct (step_replace _ _ _). intros [-> H1] H2. split; [done|]. by apply IH.
Qed.

Definition entries (now : DateTime) (ps : list PendingReplace) (rs : list (option ReplaceResult)) : list entry :=
  zip_with (fun p r => {| at_time := now; request := p; ran := r |}) ps rs.

Lemma entries_requests now ps rs : length rs = length ps -> map request (entries now ps rs) = ps.
Proof.
  revert rs. induction ps as [|p ps IH]; intros [|r rs]; try done. intros [= Hl]. cbn. f_equal. by apply IH.
Qed.

Lemma run_seq_length now ops (v : visible) : length (run_seq step_replace now ops v).1 = length ops.
Proof.
  revert v. induction ops as [|o ops IH]; intros v; cbn [run_seq]; [done|].
  destruct (step_replace now o v) as [r v1]. specialize (IH v1). destruct (run_seq _ _ _ v1). cbn in *. by f_equal.
Qed.

Lemma run_seq_sound now ops (v : visible) :
  Forall admissible ops -> sound v -> sound (run_seq step_replace now ops v).2.
Proof.
  intros Ha. revert v. induction Ha as [|o ops Ho Ha IH]; intros v Hs; cbn [run_seq]; [done|].
  pose proof (step_sound now o v Ho Hs) as Hs1. destruct (step_replace now o v) as [r v1].
  specialize (IH v1 Hs1). by destruct (run_seq _ _ _ v1).
Qed.

Lemma run_seq_replays now ps (v : visible) :
  replays (entries now ps (map Some (run_seq step_replace now (map op ps) v).1)) v
    (run_seq step_replace now (map op ps) v).2.
Proof.
  revert v. induction ps as [|p ps IH]; intros v; [done|]. cbn [map run_seq].
  destruct (step_replace now (op p) v) as [r v1] eqn:E. specialize (IH v1).
  destruct (run_seq _ _ _ v1) as [rs v2]. cbn. by rewrite E.
Qed.

Lemma replays_idle now ps v : replays (entries now ps (map (fun _ => None) ps)) v v.
Proof. induction ps; done. Qed.

Lemma entries_answers now ps rs :
  length rs = length ps -> Forall2 answers (entries now ps (map Some rs)) (zip (map reply ps) (map reply_of rs)).
Proof.
  revert rs. induction ps as [|p ps IH]; intros [|r rs]; try done.
  intros [= Hl]. constructor; [split; [done|by left]|by apply IH].
Qed.

Lemma entries_failed now ps rs e :
  length rs = length ps ->
  Forall2 answers (entries now ps rs)
    (zip (map reply ps) (map reply_of (map (fun _ => ReplaceFailed e) (map op ps)))).
Proof.
  revert rs. induction ps as [|p ps IH]; intros [|r rs]; try done.
  intros [= Hl]. constructor; [split; [done|right; by eexists]|by apply IH].
Qed.

Lemma entries_app now ps qs rs ss :
  length rs = length ps -> entries now (ps ++ qs) (rs ++ ss) = entries now ps rs ++ entries now qs ss.
Proof. intros Hl. unfold entries. by rewrite zip_with_app. Qed.

(** One batch: every request is answered once, in order, and those that ran
    ran one after the other. *)
Lemma run_batch_entries now batch st replies st' :
  Forall admissible (map op batch) -> sound (view st) -> run_batch now batch st = (replies, st') ->
  exists h, map request h = batch /\ Forall2 answers h replies /\ replays h (view st) (view st') /\ sound (view st').
Proof.
  intros Ha Hs. unfold run_batch. destruct (Db.batch_replace _ _ _) as [res st1] eqn:E. intros [= <- <-].
  destruct (batch_sequential _ _ _ _ _ Ha Hs E) as [E'|(e & n & -> & Ev)]; clear E; [rename E' into E|].
  - pose proof (run_seq_length now (map op batch) (view st)) as Hl. rewrite length_map in Hl.
    pose proof (run_seq_replays now batch (view st)) as Hr.
    pose proof (run_seq_sound now _ _ Ha Hs) as Hs'. rewrite <- E in Hl, Hr, Hs'. cbn [fst snd] in *.
    exists (entries now batch (map Some res)). split_and!; [|by apply entries_answers|done|done].
    apply entries_requests. by rewrite length_map.
  - change (take n (map op batch)) with (take n (op <$> batch)) in Ev. rewrite <- fmap_take in Ev.
    pose proof (run_seq_length now (map op (take n batch)) (view st)) as Hl. rewrite length_map in Hl.
    set (rs := map Some (run_seq step_replace now (map op (take n batch)) (view st)).1 ++
               map (fun _ => None) (drop n batch)).
    assert (length rs = length batch) as Hrs.
    { unfold rs. rewrite length_app, !length_map, Hl, <- length_app. by rewrite take_drop. }
    exists (entries now batch rs). split_and!.
    + by apply entries_requests.
    + by apply entries_failed.
    + rewrite <- (take_drop n batch) at 1. unfold rs. rewrite entries_app by by rewrite length_map.
      eapply replays_app; [apply run_seq_replays|]. rewrite Ev. apply replays_idle.
    + rewrite Ev. apply run_seq_sound; [|done]. rewrite fmap_take. by apply Forall_take.
Qed.
End Batcher.
End Replace.
