(* ===== verification/LegacyMiner.v ===== *)
(** * The legacy server: mining reports

    [crates/server/src/actors/miner.rs] and the parts of
    [crates/server/src/config.rs] it reads: the actor that owns the mining
    state, checks a report, and writes the next state and the new tokens.

    The actor handles one message at a time.  Arithmetic that is not checked in
    the source wraps, as it does in a release build; [None] is a panic. *)
From S2P Require Import Prelude Decimal Amount External Parsers Tokens AssetCore Storage Mining Auth Server LegacyProtocol LegacyStore.
From Stdlib Require Import Floats.SpecFloat.

Module Miner.

(** ** Configuration *)

Inductive NetworkMode := Testnet | Production.
#[export] Instance network_mode_eq_dec : EqDecision NetworkMode.
Proof. solve_decision. Defined.

Record MiningConfig := {
  testnet_difficulty : Z;
  initial_difficulty : Z;
  reports_per_epoch : Z;
  target_epoch_seconds : Z;
  initial_mining_amount_wats : Z;
  initial_subsidy_amount_wats : Z;
}.

(** The network mode of [Config], with its mining section. *)
Definition effective_difficulty (mode : NetworkMode) (c : MiningConfig) : Z :=
  match mode with Testnet => testnet_difficulty c | Production => initial_difficulty c end.

(** ** Numbers *)

Definition u64_wrap (z : Z) : Z := z mod 2 ^ 64.
Definition u32_wrap (z : Z) : Z := z mod 2 ^ 32.
Definition u64_saturating_sub (a b : Z) : Z := Z.max 0 (a - b).

(** [.sum()] of [i64]s. *)
Definition i64_sum (l : list Z) : Z := foldl (fun acc x => i64_wrap (acc + x)) 0 l.

(** [d as i32] and [2f64.powi(d as i32)]. *)
Definition u32_as_i32 (d : Z) : Z := if 2 ^ 31 <=? d then d - 2 ^ 32 else d.
Definition f64_powi2 (d : Z) : spec_float := binary_normalize 53 1024 1 (u32_as_i32 d) false.
Definition f64_add : spec_float -> spec_float -> spec_float := SFadd 53 1024.

(** chrono on instants: Unix seconds, and the whole seconds from one to
    another. *)
Class Instants `{Chrono} := {
  timestamp : DateTime -> Z;
  num_seconds : DateTime -> DateTime -> Z;
}.

Definition MAX_TIMESTAMP_DRIFT_SECS : Z := 300.
Definition MIN_TIMESTAMP_AGE_SECS : Z := 300.

Section Actor.
Context `{Instants} `{Nom} `{Hashing} `{ServerJson} `{!Legacy.PreimageJson}.
Implicit Types (s : Legacy.MiningState).

(** The four readings of the clock in one report. *)
Record Clock := { checked_at : DateTime; recorded_at : DateTime; elapsed_at : DateTime; adjusted_at : DateTime }.

(** ** Outputs *)

Definition mined_record (now : DateTime) (secret : Webcash.SecretWebcash) : Db.TokenRecord := {|
  Db.public_hash := Webcash.p_hash (Webcash.to_public secret);
  Db.amount_wats := wats (Webcash.s_amount secret);
  Db.spent := false;
  Db.created_at := now;
  Db.spent_at := None;
  Db.origin := Db.Mined |}.

Definition webcash_record (now : DateTime) (wc_str : string) : result string Db.TokenRecord :=
  secret ← map_err (fun e => "invalid webcash in preimage: " +:+ e) (Legacy.secret_from_str wc_str);
  Ok (mined_record now secret).

Definition subsidy_record (now : DateTime) s (sub_str : string) : result string Db.TokenRecord :=
  secret ← map_err (fun e => "invalid subsidy in preimage: " +:+ e) (Legacy.secret_from_str sub_str);
  if (0 <? Legacy.ms_subsidy_amount_wats s) &&
     negb (wats (Webcash.s_amount secret) =? Legacy.ms_subsidy_amount_wats s)
  then Err ("subsidy amount " +:+ to_string (Webcash.s_amount secret) +:+ " does not match expected subsidy "
            +:+ to_string (from_wats (Legacy.ms_subsidy_amount_wats s)))
  else Ok (mined_record now secret).

(** The [BTreeMap] of the reversed list, by hash; its values in key order. *)
Definition btree_of (l : list Db.TokenRecord) : gmap string Db.TokenRecord :=
  foldl (fun m r => <[Db.public_hash r := r]> m) ∅ (rev l).
Definition hash_le (a b : string * Db.TokenRecord) : Prop := String.leb a.1 b.1 = true.
#[local] Instance hash_le_dec a b : Decision (hash_le a b).
Proof. unfold hash_le. apply _. Defined.
Definition dedupe (l : list Db.TokenRecord) : list Db.TokenRecord := (merge_sort hash_le (map_to_list (btree_of l))).*2.

(** ** A report

    Everything that is checked before the first write: the records to insert
    and the new circulation. *)
Definition validate_report (ck : Clock) (preimage_str : string) s : result string (list Db.TokenRecord * Z) :=
  let difficulty := Legacy.ms_difficulty_target_bits s in
  preimage ← Legacy.verify_and_parse preimage_str difficulty;
  if negb (Legacy.pi_difficulty preimage =? difficulty) then
    Err ("preimage difficulty " +:+ show_u64 (Legacy.pi_difficulty preimage) +:+ " does not match server target "
         +:+ show_u64 difficulty)
  else
  let now_secs := u64_wrap (timestamp (checked_at ck)) in
  let ts := Legacy.pi_timestamp preimage in
  if ts =? 0 then Err "preimage timestamp must not be zero"
  else if u64_wrap (now_secs + MAX_TIMESTAMP_DRIFT_SECS) <? ts then
    Err ("preimage timestamp " +:+ show_u64 ts +:+ " is too far in the future (server time: " +:+ show_u64 now_secs +:+ ")")
  else if ts <? u64_saturating_sub now_secs MIN_TIMESTAMP_AGE_SECS then
    Err ("preimage timestamp " +:+ show_u64 ts +:+ " is too far in the past (server time: " +:+ show_u64 now_secs +:+ ")")
  else if bool_decide (Legacy.pi_webcash preimage = []) then Err "preimage must contain at least 1 webcash output"
  else
  let now := recorded_at ck in
  webcash_records ← mapM (webcash_record now) (Legacy.pi_webcash preimage);
  let webcash_total_wats := i64_sum (map Db.amount_wats webcash_records) in
  if negb (webcash_total_wats =? Legacy.ms_mining_amount_wats s) then
    Err ("webcash total " +:+ to_string (from_wats webcash_total_wats) +:+ " does not match mining amount "
         +:+ to_string (from_wats (Legacy.ms_mining_amount_wats s)))
  else
  subsidy_records ← mapM (subsidy_record now s) (Legacy.pi_subsidy preimage);
  let token_records := dedupe (webcash_records ++ subsidy_records) in
  subsidy_total ← ok_or (i64_checked_mul (Legacy.ms_subsidy_amount_wats s) (Z.of_nat (length (Legacy.pi_subsidy preimage))))
    "subsidy multiplication overflow";
  total_mined ← ok_or (i64_checked_add (Legacy.ms_mining_amount_wats s) subsidy_total) "mining amount overflow";
  new_circulation ← ok_or (i64_checked_add (Legacy.ms_total_circulation_wats s) total_mined) "circulation overflow";
  Ok (token_records, new_circulation).

Definition next_state (mode : NetworkMode) (cfg : MiningConfig) (ck : Clock) (new_circulation : Z) s
  : option Legacy.MiningState :=
  let next_count := u64_wrap (Legacy.ms_mining_reports_count s + 1) in
  epoch_ends ← match mode with
    | Production => if reports_per_epoch cfg =? 0 then None else Some (next_count mod reports_per_epoch cfg =? 0)
    | Testnet => Some false
    end;
  '(new_difficulty, new_epoch, new_adj_time) ←
    (if (epoch_ends : bool) then
      let elapsed := Z.abs (num_seconds (Legacy.ms_last_adjustment_at s) (elapsed_at ck)) in
      d ← adjust_difficulty (Legacy.ms_difficulty_target_bits s) elapsed (target_epoch_seconds cfg)
            (reports_per_epoch cfg) (reports_per_epoch cfg);
      Some (d, u32_wrap (Legacy.ms_epoch s + 1), adjusted_at ck)
    else Some (Legacy.ms_difficulty_target_bits s, Legacy.ms_epoch s, Legacy.ms_last_adjustment_at s));
  Some {| Legacy.ms_difficulty_target_bits := new_difficulty;
          Legacy.ms_epoch := new_epoch;
          Legacy.ms_total_circulation_wats := new_circulation;
          Legacy.ms_mining_reports_count := next_count;
          Legacy.ms_mining_amount_wats := Legacy.ms_mining_amount_wats s;
          Legacy.ms_subsidy_amount_wats := Legacy.ms_subsidy_amount_wats s;
          Legacy.ms_last_adjustment_at := new_adj_time;
          Legacy.ms_aggregate_work :=
            f64_add (Legacy.ms_aggregate_work s) (f64_powi2 (Legacy.ms_difficulty_target_bits s)) |}.

Context {S : Type} `{!Db.LedgerStore S} (mode : NetworkMode) (cfg : MiningConfig).

(** The answer, the state in memory and the store after a report. *)
Definition handle_mining_report (ck : Clock) (preimage_str : string) s (st : S)
  : option (result string Z * Legacy.MiningState * S) :=
  match validate_report ck preimage_str s with
  | Err e => Some (Err e, s, st)
  | Ok (token_records, new_circulation) =>
      new_state ← next_state mode cfg ck new_circulation s;
      match Db.update_mining_state new_state st with
      | (Err e, st1) => Some (Err e, s, st1)
      | (Ok _, st1) =>
          match Db.insert_tokens token_records st1 with
          | (Err e, st2) => Some (Err e, s, st2)
          | (Ok _, st2) => Some (Ok (Legacy.ms_difficulty_target_bits new_state), new_state, st2)
          end
      end
  end.

Definition pre_start (now : DateTime) (st : S) : result string Legacy.MiningState * S :=
  match Db.get_mining_state st with
  | (Err e, st) => (Err e, st)
  | (Ok (Some state), st) => (Ok state, st)
  | (Ok None, st) =>
      let initial := Legacy.initial now (testnet_difficulty cfg) (initial_mining_amount_wats cfg)
        (initial_subsidy_amount_wats cfg) in
      match Db.update_mining_state initial st with
      | (Err e, st) => (Err e, st)
      | (Ok _, st) => (Ok initial, st)
      end
  end.

Definition get_target s : Legacy.TargetInfo := Legacy.to_target_info s.

(** ** The actor over its life

    Reports, and the starts of the actor by its supervisor; a panic stops it. *)
Inductive miner_event := Report (ck : Clock) (preimage_str : string) | Start (now : DateTime).

Definition miner_step (sys : option Legacy.MiningState * S) (ev : miner_event) : option Legacy.MiningState * S :=
  let '(mem, st) := sys in
  match ev, mem with
  | Report ck p, Some s =>
      match handle_mining_report ck p s st with Some (_, s', st') => (Some s', st') | None => (None, st) end
  | Report _ _, None => (None, st)
  | Start now, _ => match pre_start now st with (Ok s, st') => (Some s, st') | (Err _, st') => (None, st') end
  end.
Definition miner_run (evs : list miner_event) (sys : option Legacy.MiningState * S) : option Legacy.MiningState * S :=
  foldl miner_step sys evs.
End Actor.
End Miner.
