(* ===== verification/LegacyMinerFacts.v ===== *)
(** * The legacy server: what mining keeps true

    Facts about [LegacyMiner]: the supply a report accounts for, the counters
    along a chain of reports, and the agreement of the actor's memory with the
    stored state over any sequence of reports and restarts. *)
From S2P Require Import Prelude Decimal Amount External Parsers Tokens AssetCore Storage Mining Auth Server LegacyProtocol LegacyStore LegacyMiner.
From Stdlib Require Import Floats.SpecFloat.

Module MinerFacts.
Import Miner.

Definition sum (l : list Z) : Z := foldr Z.add 0 l.

Lemma sum_app l1 l2 : sum (l1 ++ l2) = sum l1 + sum l2.
Proof. unfold sum. induction l1; cbn; lia. Qed.

#[export] Instance sum_perm : Proper (Permutation ==> eq) sum.
Proof. intros l l' Hp. unfold sum. induction Hp; cbn; lia. Qed.

Lemma sum_nonneg l : Forall (fun x => 0 <= x) l -> 0 <= sum l.
Proof. intros Hl. unfold sum. induction Hl; cbn; lia. Qed.

(** A wrapping sum is exact as long as the exact sum of its non-negative
    terms is in range. *)
Lemma i64_sum_exact l : Forall (fun x => 0 <= x) l -> sum l <= i64_max -> i64_sum l = sum l.
Proof.
  intros Hl Hm. unfold i64_sum.
  assert (forall acc, 0 <= acc -> acc + sum l <= i64_max ->
    foldl (fun a x => i64_wrap (a + x)) acc l = acc + sum l) as G.
  { clear Hm. induction Hl as [|x l Hx Hl IH]; intros acc Ha Hm; cbn in *; [lia|].
    pose proof (sum_nonneg l Hl) as Hn. unfold sum in *.
    rewrite i64_wrap_in by (unfold i64_range, i64_min; lia). rewrite IH; lia. }
  rewrite G; lia.
Qed.

(** ** Outputs without repetition *)

Section Outputs.
Context `{Chrono}.
Implicit Types (l : list Db.TokenRecord).

Lemma btree_of_eq l : btree_of l = list_to_map (map (fun r => (Db.public_hash r, r)) l).
Proof.
  unfold btree_of. induction l as [|r l IH]; [done|]. cbn [rev]. rewrite foldl_app. cbn. by rewrite IH.
Qed.

(** A record as a report makes it. *)
Definition fresh_mined (r : Db.TokenRecord) : Prop :=
  Db.spent r = false /\ Db.spent_at r = None /\ Db.origin r = Db.Mined.

Lemma dedupe_subset l r : r ∈ dedupe l -> r ∈ l.
Proof.
  unfold dedupe. rewrite merge_sort_Permutation, btree_of_eq. intros ([h x] & -> & Hx)%list_elem_of_fmap. cbn.
  apply elem_of_map_to_list, elem_of_list_to_map_2 in Hx. by apply list_elem_of_fmap in Hx as (x' & [= _ ->] & Hx).
Qed.

Lemma dedupe_distinct l : NoDup (Db.public_hash <$> l) -> dedupe l ≡ₚ l.
Proof.
  intros Hn. unfold dedupe. rewrite merge_sort_Permutation, btree_of_eq.
  assert ((map (fun r => (Db.public_hash r, r)) l).*1 = Db.public_hash <$> l) as E by by rewrite <- list_fmap_compose.
  rewrite map_to_list_to_map by by rewrite E.
  rewrite <- list_fmap_compose. rewrite list_fmap_id. done.
Qed.
End Outputs.

(** ** The supply *)

Section Supply.
Context `{Instants} `{NomLaws} `{HashingLaws} `{UnicodeLaws} `{ServerJson} `{!Legacy.PreimageJson}.
Implicit Types (s : Legacy.MiningState) (ss us : list Webcash.SecretWebcash).

Lemma dedupe_fresh now ts : Forall fresh_mined (dedupe (map (mined_record now) ts)).
Proof. apply Forall_forall. by intros r (t & -> & _)%dedupe_subset%list_elem_of_fmap. Qed.

Definition reads (texts : list string) ss : Prop := Forall2 (fun x t => Legacy.secret_from_str x = Ok t) texts ss.
Definition values ss : list Z := map (fun t => wats (Webcash.s_amount t)) ss.

Lemma reads_map texts now rs :
  Forall2 (fun x r => exists t, Legacy.secret_from_str x = Ok t /\ r = mined_record now t) texts rs <->
  exists ss, reads texts ss /\ rs = map (mined_record now) ss.
Proof.
  split.
  - intros Hf. induction Hf as [|x r texts rs (t & Et & ->) _ (ss' & Hr & ->)]; [by exists []; split; [constructor|]|].
    exists (t :: ss'). split; [by constructor|done].
  - intros (ss' & Hr & ->). induction Hr as [|x t texts ss' Et Hr IH]; constructor; [by exists t|done].
Qed.

Lemma webcash_records_Ok now texts rs :
  mapM (webcash_record now) texts = Ok rs <-> exists ss, reads texts ss /\ rs = map (mined_record now) ss.
Proof.
  rewrite mapM_Ok, <- reads_map.
  assert (forall x r, webcash_record now x = Ok r <->
    exists t, Legacy.secret_from_str x = Ok t /\ r = mined_record now t) as E.
  { intros x r. unfold webcash_record. rewrite bind_Ok. setoid_rewrite map_err_Ok. naive_solver. }
  split; intros Hf; (eapply Forall2_impl; [exact Hf|]); intros x r; apply E.
Qed.

(** A subsidy output is of the subsidy amount, when there is one. *)
Lemma subsidy_records_Ok now s texts rs :
  mapM (subsidy_record now s) texts = Ok rs <->
  exists us, reads texts us /\ rs = map (mined_record now) us /\
    (0 < Legacy.ms_subsidy_amount_wats s -> Forall (fun w => w = Legacy.ms_subsidy_amount_wats s) (values us)).
Proof.
  rewrite mapM_Ok. split.
  - intros Hf. induction Hf as [|x r texts rs E _ (us & Hr & -> & Hv)].
    { exists []. split_and!; constructor. }
    unfold subsidy_record in E. apply bind_Ok in E as (t & Et%map_err_Ok & E).
    destruct (_ && _) eqn:Ec; [done|]. injection E as <-. exists (t :: us).
    split_and!; [by constructor|done|]. intros Hp. constructor; [|by apply Hv].
    apply andb_false_iff in Ec as [Ec|Ec]; bools; lia.
  - intros (us & Hr & -> & Hv). induction Hr as [|x t texts us Et Hr IH]; [constructor|].
    constructor; [|apply IH; intros Hp; exact (proj2 (proj1 (Forall_cons _ _ _) (Hv Hp)))].
    unfold subsidy_record. rewrite Et. cbn [map_err mbind result_bind].
    destruct (_ && _) eqn:Ec; [|done]. apply andb_true_iff in Ec as [Ec1 Ec2]. bools.
    destruct (proj1 (Forall_cons _ _ _) (Hv Ec1)) as [Hw _]. lia.
Qed.

Lemma reads_nonneg texts ss : reads texts ss -> Forall (fun x => 0 <= x) (values ss).
Proof.
  intros Hr. induction Hr as [|x t texts ss Et _ IH]; constructor; [|done]. exact (proj1 (legacy_secret_range _ _ Et)).
Qed.

Lemma sum_const k l : Forall (fun w => w = k) l -> sum l = k * Z.of_nat (length l).
Proof. intros Hl. unfold sum. induction Hl as [|? l -> _ IH]; cbn [foldr length]; lia. Qed.

(** What a report that passes validation has shown. *)
Record passed (ck : Clock) (p : string) s (recs : list Db.TokenRecord) (circ : Z)
    (pre : Legacy.MiningPreimage) ss us : Prop := {
  ps_parse : Legacy.verify_and_parse p (Legacy.ms_difficulty_target_bits s) = Ok pre;
  ps_difficulty : Legacy.pi_difficulty pre = Legacy.ms_difficulty_target_bits s;
  ps_stamped : Legacy.pi_timestamp pre <> 0;
  ps_window : let now := u64_wrap (timestamp (checked_at ck)) in
    u64_saturating_sub now 300 <= Legacy.pi_timestamp pre <= u64_wrap (now + 300);
  ps_some : Legacy.pi_webcash pre <> [];
  ps_webcash : reads (Legacy.pi_webcash pre) ss;
  ps_subsidy : reads (Legacy.pi_subsidy pre) us;
  ps_reward : i64_sum (values ss) = Legacy.ms_mining_amount_wats s;
  ps_each : 0 < Legacy.ms_subsidy_amount_wats s ->
    Forall (fun w => w = Legacy.ms_subsidy_amount_wats s) (values us);
  ps_records : recs = dedupe (map (mined_record (recorded_at ck)) (ss ++ us));
  ps_circ : circ = Legacy.ms_total_circulation_wats s +
    (Legacy.ms_mining_amount_wats s + Legacy.ms_subsidy_amount_wats s * Z.of_nat (length us));
  ps_range : i64_range circ;
}.

Lemma validate_passed ck p s recs circ :
  validate_report ck p s = Ok (recs, circ) -> exists pre ss us, passed ck p s recs circ pre ss us.
Proof.
  unfold validate_report. intros (pre & Ep & E)%bind_Ok.
  destruct (negb (_ =? _)) eqn:Ed in E; [done|]. destruct (_ =? 0) eqn:Ez in E; [done|].
  destruct (_ <? _) eqn:Ef in E; [done|]. destruct (_ <? u64_saturating_sub _ _) eqn:Eo in E; [done|].
  case_bool_decide as En; [done|]. apply bind_Ok in E as (wr & (ss & Hss & ->)%webcash_records_Ok & E).
  rewrite map_map in E. change (map _ ss) with (values ss) in E at 1.
  destruct (negb (_ =? _)) eqn:Es in E; [done|].
  apply bind_Ok in E as (sr & (us & Hus & -> & Hv)%subsidy_records_Ok & E).
  apply bind_Ok in E as (st & (-> & _)%ok_or_Ok%i64_checked_Some & E).
  apply bind_Ok in E as (tm & (-> & _)%ok_or_Ok%i64_checked_Some & E).
  apply bind_Ok in E as (nc & (-> & Hc)%ok_or_Ok%i64_checked_Some & [= <- <-]).
  rewrite (Forall2_length _ _ _ Hus) in *. exists pre, ss, us. bools. split; cbn; try done.
  by rewrite map_app.
Qed.

(** C20: a report that passes has the work, names the current difficulty and an
    instant at most five minutes away, and its webcash outputs add up to the
    reward; when their exact total is an [i64], every subsidy output is of a
    counted amount and no hash repeats, the circulation it computes grows by
    exactly what the records to insert are worth. *)
Theorem report_supply ck p s recs circ :
  validate_report ck p s = Ok (recs, circ) ->
  exists pre ss us,
    verify_pow p (Legacy.ms_difficulty_target_bits s) = true /\
    passed ck p s recs circ pre ss us /\ Forall fresh_mined recs /\
    (sum (values ss) <= i64_max -> (0 < Legacy.ms_subsidy_amount_wats s \/ us = []) ->
     NoDup (Db.public_hash <$> map (mined_record (recorded_at ck)) (ss ++ us)) ->
     circ = Legacy.ms_total_circulation_wats s + sum (Db.amount_wats <$> recs)).
Proof.
  intros E. destruct (validate_passed _ _ _ _ _ E) as (pre & ss & us & Hp). exists pre, ss, us.
  split; [|split; [done|split]].
  - destruct Hp as [Hv _ _ _ _ _ _ _ _ _ _ _]. unfold Legacy.verify_and_parse in Hv. by destruct (verify_pow _ _).
  - rewrite (ps_records _ _ _ _ _ _ _ _ Hp). apply dedupe_fresh.
  - intros Hm Hu Hn. rewrite (ps_records _ _ _ _ _ _ _ _ Hp), (ps_circ _ _ _ _ _ _ _ _ Hp).
    rewrite dedupe_distinct by done. rewrite <- (ps_reward _ _ _ _ _ _ _ _ Hp).
    rewrite i64_sum_exact by (done || eapply reads_nonneg, ps_webcash, Hp).
    assert (Db.amount_wats <$> map (mined_record (recorded_at ck)) (ss ++ us) = values ss ++ values us) as ->.
    { unfold values. rewrite <- map_app, <- list_fmap_compose. done. }
    rewrite sum_app. destruct Hu as [Hu| ->]; [|cbn; lia].
    rewrite (sum_const _ _ (ps_each _ _ _ _ _ _ _ _ Hp Hu)). unfold values. rewrite length_map. lia.
Qed.
End Supply.

(** ** A chain of reports *)

Section Chain.
Context `{Instants} `{NomLaws} `{HashingLaws} `{UnicodeLaws} `{ServerJson} `{!Legacy.PreimageJson}
  (mode : NetworkMode) (cfg : MiningConfig).
Implicit Types (s : Legacy.MiningState).

(** The report of some miner at some time takes the one state to the other. *)
Definition report_step s s' : Prop :=
  exists ck p recs circ, validate_report ck p s = Ok (recs, circ) /\ next_state mode cfg ck circ s = Some s'.

Definition epoch_end (c : Z) : bool :=
  match mode with Production => c mod reports_per_epoch cfg =? 0 | Testnet => false end.

Lemma next_state_spec ck circ s s' :
  next_state mode cfg ck circ s = Some s' ->
  Legacy.ms_mining_reports_count s' = u64_wrap (Legacy.ms_mining_reports_count s + 1) /\
  Legacy.ms_total_circulation_wats s' = circ /\
  Legacy.ms_mining_amount_wats s' = Legacy.ms_mining_amount_wats s /\
  Legacy.ms_subsidy_amount_wats s' = Legacy.ms_subsidy_amount_wats s /\
  (mode = Production -> reports_per_epoch cfg <> 0) /\
  if epoch_end (Legacy.ms_mining_reports_count s') then
    Legacy.ms_epoch s' = u32_wrap (Legacy.ms_epoch s + 1) /\
    exists elapsed, adjust_difficulty (Legacy.ms_difficulty_target_bits s) elapsed (target_epoch_seconds cfg)
      (reports_per_epoch cfg) (reports_per_epoch cfg) = Some (Legacy.ms_difficulty_target_bits s')
  else Legacy.ms_epoch s' = Legacy.ms_epoch s /\
    Legacy.ms_difficulty_target_bits s' = Legacy.ms_difficulty_target_bits s.
Proof.
  unfold next_state, epoch_end. destruct mode.
  - intros [= <-]. done.
  - destruct (_ =? 0) eqn:Er; [done|]. cbn [mbind option_bind]. destruct (_ mod _ =? 0) eqn:Em.
    + destruct (adjust_difficulty _ _ _ _ _) as [d|] eqn:Ea; [|done]. intros [= <-]. cbn. rewrite Em. bools. naive_solver.
    + intros [= <-]. cbn. rewrite Em. bools. naive_solver.
Qed.

(** One more report crosses a boundary exactly when it ends an epoch. *)
Lemma epoch_step c r : 0 < r -> (c + 1) / r = c / r + (if (c + 1) mod r =? 0 then 1 else 0).
Proof.
  intros Hr. destruct (Z.eqb_spec ((c + 1) mod r) 0) as [E|E].
  - symmetry. apply Z.div_unique_pos with (r := 0); [lia|]. apply Z.div_exact in E; [|lia].
    assert (c / r = (c + 1) / r - 1) as ->; [|lia].
    symmetry. apply Z.div_unique_pos with (r := r - 1); lia.
  - rewrite Z.add_0_r. symmetry. apply (Z.div_unique_pos (c + 1) r (c / r) (c mod r + 1)); pose proof (Z.mod_pos_bound c r Hr);
      pose proof (Z.div_mod c r ltac:(lia)); [|lia].
    split; [lia|]. destruct (Z.eq_dec (c mod r + 1) r) as [El|]; [|lia]. exfalso. apply E.
    replace (c + 1) with ((c / r + 1) * r) by lia. apply Z.mod_mul. lia.
Qed.

(** Counters in range, a difficulty of at least one bit. *)
Definition state_in_range (n : nat) s : Prop :=
  0 <= Legacy.ms_mining_reports_count s /\ Legacy.ms_mining_reports_count s + Z.of_nat n <= u64_max /\
  0 <= Legacy.ms_epoch s /\ Legacy.ms_epoch s + Z.of_nat n <= u32_max /\
  1 <= Legacy.ms_difficulty_target_bits s <= u32_max /\
  i64_range (Legacy.ms_total_circulation_wats s).

Lemma report_step_range n s s' :
  report_step s s' -> state_in_range (S n) s ->
  state_in_range n s' /\
  Legacy.ms_mining_reports_count s' = Legacy.ms_mining_reports_count s + 1 /\
  (exists k, 0 <= k /\ Legacy.ms_total_circulation_wats s' = Legacy.ms_total_circulation_wats s +
     (Legacy.ms_mining_amount_wats s + Legacy.ms_subsidy_amount_wats s * k)) /\
  Legacy.ms_mining_amount_wats s' = Legacy.ms_mining_amount_wats s /\
  Legacy.ms_subsidy_amount_wats s' = Legacy.ms_subsidy_amount_wats s /\
  (mode = Production -> reports_per_epoch cfg <> 0) /\
  Legacy.ms_epoch s' = Legacy.ms_epoch s + (if epoch_end (Legacy.ms_mining_reports_count s') then 1 else 0) /\
  Z.abs (Legacy.ms_difficulty_target_bits s' - Legacy.ms_difficulty_target_bits s) <=
    (if epoch_end (Legacy.ms_mining_reports_count s') then 1 else 0).
Proof.
  intros (ck & p & recs & circ & Hv & Hn) (Hc & Hc' & He & He' & Hd & _).
  destruct (validate_passed _ _ _ _ _ Hv) as (pre & ss & us & Hp).
  pose proof (ps_circ _ _ _ _ _ _ _ _ Hp) as Ec. pose proof (ps_range _ _ _ _ _ _ _ _ Hp) as Hr.
  apply next_state_spec in Hn as (En & <- & Em & Es & Ep & Hif).
  rewrite Nat2Z.inj_succ in *. assert (Legacy.ms_mining_reports_count s' = Legacy.ms_mining_reports_count s + 1) as En'
    by (rewrite En; unfold u64_wrap, u64_max in *; apply Z.mod_small; lia).
  split; [|split; [done|split; [exists (Z.of_nat (length us)); split; [lia|done]|]]]; unfold state_in_range;
    destruct (epoch_end _).
  - destruct Hif as (-> & el & Ha). destruct (adjust_bounded (Legacy.ms_difficulty_target_bits s) el
      (target_epoch_seconds cfg) (reports_per_epoch cfg) (reports_per_epoch cfg)) as (d & Ed & Hd1 & _);
      [unfold u32_range; lia|]. rewrite Ed in Ha. injection Ha as <-.
    unfold u32_wrap. unfold u32_max, u64_max in *. rewrite Z.mod_small by lia. split_and!; try lia; apply Hr.
  - destruct Hif as (-> & ->). split_and!; try lia; apply Hr.
  - destruct Hif as (-> & el & Ha). destruct (adjust_bounded (Legacy.ms_difficulty_target_bits s) el
      (target_epoch_seconds cfg) (reports_per_epoch cfg) (reports_per_epoch cfg)) as (d & Ed & _ & Hd2);
      [unfold u32_range; lia|]. rewrite Ed in Ha. injection Ha as <-. specialize (Hd2 ltac:(lia)).
    unfold u32_wrap. unfold u32_max in *. rewrite Z.mod_small by lia. split_and!; try done; lia.
  - destruct Hif as (-> & ->). split_and!; try done; lia.
Qed.

(** C23: along any chain of accepted reports the count goes up by one each, the
    circulation is the start plus the reward and the counted subsidies of every
    report and never leaves [i64], the reward does not change, and the
    difficulty stays within [u32] and at least one bit: fixed on the test
    network, and in production moved by at most one bit at each multiple of
    [reports_per_epoch] that the count has passed, which is what the epoch
    counts. *)
Theorem chain_accounts n s0 s :
  nsteps report_step n s0 s -> state_in_range n s0 -> 0 <= reports_per_epoch cfg ->
  Legacy.ms_mining_reports_count s = Legacy.ms_mining_reports_count s0 + Z.of_nat n /\
  (exists ks, length ks = n /\ Forall (fun k => 0 <= k) ks /\
     Legacy.ms_total_circulation_wats s = Legacy.ms_total_circulation_wats s0 +
       sum (map (fun k => Legacy.ms_mining_amount_wats s0 + Legacy.ms_subsidy_amount_wats s0 * k) ks)) /\
  i64_range (Legacy.ms_total_circulation_wats s) /\
  Legacy.ms_mining_amount_wats s = Legacy.ms_mining_amount_wats s0 /\
  Legacy.ms_subsidy_amount_wats s = Legacy.ms_subsidy_amount_wats s0 /\
  1 <= Legacy.ms_difficulty_target_bits s <= u32_max /\
  Z.abs (Legacy.ms_difficulty_target_bits s - Legacy.ms_difficulty_target_bits s0) <=
    Legacy.ms_epoch s - Legacy.ms_epoch s0 /\
  Legacy.ms_epoch s - Legacy.ms_epoch s0 =
    match mode with
    | Testnet => 0
    | Production => Legacy.ms_mining_reports_count s / reports_per_epoch cfg -
                    Legacy.ms_mining_reports_count s0 / reports_per_epoch cfg
    end.
Proof.
  intros Hs. revert s0 Hs. induction n as [|n IH]; intros s0 Hs Hw Hr; inversion Hs as [|? ? s1 ? Hstep Hs']; subst.
  { destruct Hw as (_ & _ & _ & _ & Hd & Hi). split_and!; try done; try lia; [|destruct mode; lia].
    exists []. split_and!; [done|constructor|cbn; lia]. }
  destruct (report_step_range _ _ _ Hstep Hw) as (Hw1 & Hc & (k & Hk & Hcirc) & Hm & Hsub & Hp & He & Hd).
  destruct (IH _ Hs' Hw1 Hr) as (Hc' & (ks & Hl & Hks & Hcirc') & Hi & Hm' & Hsub' & Hd' & Hdd & Hee).
  split_and!; try done; try lia; try congruence.
  - exists (k :: ks). split_and!; [by cbn; rewrite Hl|by constructor|].
    rewrite Hm, Hsub in Hcirc'. cbn [map sum foldr] in *. unfold sum in *. lia.
  - unfold epoch_end in He. destruct mode; [lia|]. specialize (Hp eq_refl).
    pose proof (epoch_step (Legacy.ms_mining_reports_count s0) (reports_per_epoch cfg) ltac:(lia)) as Hes.
    rewrite <- Hc in Hes. lia.
Qed.
End Chain.

(** ** Memory and store

    What a store promises of the mining state, in a state that fits (its
    tables have the keys they were declared with): a read answers what is stored,
    a confirmed update is stored, an unconfirmed one may be, and inserting
    tokens leaves it alone. *)
Class MiningStore `{Chrono} (S : Type) `{!Db.LedgerStore S} := {
  fits : S -> Prop;
  stored : S -> option Legacy.MiningState;
  get_mining_ok : forall st m st', fits st -> Db.get_mining_state st = (Ok m, st') ->
    m = stored st /\ stored st' = stored st;
  get_mining_err : forall st e st', fits st -> Db.get_mining_state st = (Err e, st') -> stored st' = stored st;
  update_mining_ok : forall m st u st', fits st -> Db.update_mining_state m st = (Ok u, st') -> stored st' = Some m;
  update_mining_err : forall m st e st', fits st -> Db.update_mining_state m st = (Err e, st') ->
    stored st' = stored st \/ stored st' = Some m;
  insert_keeps_mining : forall l st, fits st -> stored (Db.insert_tokens l st).2 = stored st;
  get_mining_fits : forall st r st', fits st -> Db.get_mining_state st = (r, st') -> fits st';
  update_mining_fits : forall m st r st', fits st -> Db.update_mining_state m st = (r, st') -> fits st';
  insert_fits : forall l st r st', fits st -> Db.insert_tokens l st = (r, st') -> fits st';
}.

Section Run.
Context `{Instants} `{NomLaws} `{HashingLaws} `{UnicodeLaws} `{ServerJson} `{!Legacy.PreimageJson}
  {S : Type} `{!Db.LedgerStore S} {MS : MiningStore S} (mode : NetworkMode) (cfg : MiningConfig).
Implicit Types (s : Legacy.MiningState) (st : S).

(** The state a fresh store starts from, at some instant. *)
Definition genesis s : Prop :=
  exists now, s = Legacy.initial now (testnet_difficulty cfg) (initial_mining_amount_wats cfg) (initial_subsidy_amount_wats cfg).

(** [s] follows from what was there first, or from a genesis. *)
Definition reached (start : option Legacy.MiningState) s : Prop :=
  exists s0, (match start with Some m => s0 = m | None => genesis s0 end) /\ rtc (report_step mode cfg) s0 s.

Record consistent (start : option Legacy.MiningState) (sys : option Legacy.MiningState * S) : Prop := {
  co_stored : match stored sys.2 with Some s => reached start s | None => start = None /\ sys.1 = None end;
  co_memory : forall m, sys.1 = Some m -> reached start m /\
    exists s, stored sys.2 = Some s /\ (s = m \/ report_step mode cfg m s);
  co_fits : fits sys.2;
}.

Lemma reached_step start s s' : reached start s -> report_step mode cfg s s' -> reached start s'.
Proof. intros (s0 & H0' & Hr) Hs. exists s0. split; [done|]. by eapply rtc_r. Qed.

Lemma handle_consistent start ck p s st r s' st' :
  consistent start (Some s, st) -> handle_mining_report mode cfg ck p s st = Some (r, s', st') ->
  consistent start (Some s', st') /\
  (match r with Ok d => report_step mode cfg s s' /\ stored st' = Some s' /\ d = Legacy.ms_difficulty_target_bits s'
   | Err _ => s' = s end).
Proof.
  intros [Hst Hme Hfi] Hh. cbn [fst snd] in *. destruct (Hme s eq_refl) as (Hrs & x & Hx & Hxs).
  unfold handle_mining_report in Hh. destruct (validate_report ck p s) as [[recs circ]|e] eqn:Ev.
  2: { injection Hh as <- <- <-. by split; [split|]. }
  destruct (next_state mode cfg ck circ s) as [ns|] eqn:En; [|done]. cbn [mbind option_bind] in Hh.
  assert (report_step mode cfg s ns) as Hstep by by exists ck, p, recs, circ.
  destruct (Db.update_mining_state ns st) as [[u|e] st1] eqn:Eu.
  - pose proof (update_mining_fits _ _ _ _ Hfi Eu) as Hf1. apply update_mining_ok in Eu; [|done].
    pose proof (insert_keeps_mining recs st1 Hf1) as Ei. destruct (Db.insert_tokens recs st1) as [v st2] eqn:Et.
    pose proof (insert_fits _ _ _ _ Hf1 Et) as Hf2.
    destruct v as [v|e]; injection Hh as <- <- <-; cbn [snd] in Ei; rewrite Eu in Ei;
      (split; [split; cbn [fst snd]; rewrite ?Ei|]); try done; try by eapply reached_step.
    + intros m [= <-]. split; [by eapply reached_step|]. exists ns. by split; [|left].
    + intros m [= <-]. split; [done|]. exists ns. by split; [|right].
  - injection Hh as <- <- <-. split; [|done]. pose proof (update_mining_fits _ _ _ _ Hfi Eu) as Hf1.
    destruct (update_mining_err _ _ _ _ Hfi Eu) as [E|E]; split; cbn [fst snd]; rewrite ?E; try done.
    + by eapply reached_step.
    + intros m [= <-]. split; [done|]. exists ns. by split; [|right].
Qed.

Lemma pre_start_consistent start now mem st r st' :
  consistent start (mem, st) -> pre_start cfg now st = (r, st') ->
  consistent start (match r with Ok s => Some s | Err _ => None end, st').
Proof.
  intros [Hst Hme Hfi] Hp. cbn [fst snd] in *. unfold pre_start in Hp.
  destruct (Db.get_mining_state st) as [r1 st1] eqn:Eg. pose proof (get_mining_fits _ _ _ Hfi Eg) as Hf1.
  destruct r1 as [[m|]|e].
  - apply get_mining_ok in Eg as [Em Es]; [|done]. injection Hp as <- <-. rewrite <- Em in *.
    split; cbn [fst snd]; rewrite ?Es; [done| |done].
    intros m' [= <-]. split; [done|]. exists m. by split; [|left].
  - apply get_mining_ok in Eg as [Em Es]; [|done]. rewrite <- Em in *. destruct Hst as [-> _].
    set (i := Legacy.initial _ _ _ _) in *.
    assert (reached None i) as Hi by (exists i; split; [by exists now|done]).
    destruct (Db.update_mining_state i st1) as [r2 st2] eqn:Eu. pose proof (update_mining_fits _ _ _ _ Hf1 Eu) as Hf2.
    destruct r2 as [u|e]; injection Hp as <- <-.
    + apply update_mining_ok in Eu; [|done]. split; cbn [fst snd]; rewrite ?Eu; [done| |done]. intros m [= <-].
      split; [done|]. exists i. by split; [|left].
    + destruct (update_mining_err _ _ _ _ Hf1 Eu) as [E|E]; split; cbn [fst snd]; rewrite ?E, ?Es; done.
  - apply get_mining_err in Eg; [|done]. injection Hp as <- <-. split; cbn [fst snd]; rewrite ?Eg; [|done|done].
    destruct (stored st); [done|]. by destruct Hst.
Qed.

(** C19: over any sequence of reports, starts and panics of the actor, over a
    store that may fail at any write and reads back the state last written, as
    Redis does, the state in memory and the stored one
    both come from where the store began through accepted reports, and the
    stored state is that of memory or one report ahead of it: what a restart
    reads never loses a report that was confirmed. *)
Theorem memory_follows_store evs st :
  fits st ->
  consistent (stored st) (miner_run mode cfg evs (None, st)) /\
  forall ck p d s s' st1 st2,
    miner_run mode cfg evs (None, st) = (Some s, st1) ->
    handle_mining_report mode cfg ck p s st1 = Some (Ok d, s', st2) ->
    report_step mode cfg s s' /\ stored st2 = Some s' /\ d = Legacy.ms_difficulty_target_bits s'.
Proof.
  intros Hfi. enough (consistent (stored st) (miner_run mode cfg evs (None, st))) as Hrun.
  { split; [done|]. intros ck p d s s' st1 st2 E Hh. rewrite E in Hrun. by eapply handle_consistent in Hh as [_ ?]. }
  unfold miner_run.
  assert (consistent (stored st) (None, st)) as Hc.
  { split; cbn [fst snd]; [|done|done]. destruct (stored st) as [m|]; [by exists m|done]. }
  clear Hfi. revert Hc. generalize (None : option Legacy.MiningState, st) as sys. generalize (stored st) as start. clear st.
  induction evs as [|ev evs IH]; intros start sys Hc; [done|]. cbn [foldl]. apply IH.
  destruct sys as [mem st]. destruct ev as [ck p|now]; cbn [miner_step].
  - destruct mem as [s|]; [|done]. destruct (handle_mining_report _ _ _ _ _ _) as [[[r s'] st']|] eqn:E.
    + by eapply handle_consistent.
    + destruct Hc as [Hst Hme Hfi]. split; cbn [fst snd] in *; [|done|done].
      destruct (Hme s eq_refl) as (_ & x & Hx & _). by rewrite Hx in *.
  - destruct (pre_start _ _ _) as [r st'] eqn:E. pose proof (pre_start_consistent _ _ _ _ _ _ Hc E) as Hc'.
    by destruct r.
Qed.
End Run.
End MinerFacts.
