(* ===== verification/LegacyRedis.v ===== *)
(** * The legacy server: Redis backend

    [crates/server/src/db/redis.rs]: the store of the legacy server over a
    Redis server, and its replace script against the same specification as the
    script of the current server ([Redis.replace_spec]). *)
From S2P Require Import Prelude Decimal Amount External AssetCore Tokens Storage Redis RedisLedger Records LegacyProtocol LegacyStore LegacyReplace.

Section Store.
Context `{RedisService} `{Chrono} `{Serde Db.ReplacementRecord} `{Serde Db.BurnRecord} `{Serde Legacy.MiningState}.

Definition legacy_key (hash : string) : string := "token:" +:+ hash.

Definition show_token_origin (o : Db.TokenOrigin) : string :=
  match o with Db.Mined => "mined" | Db.Replaced => "replaced" end.

Definition hash_to_token (now : DateTime) (hash : string) (fields : gmap string string) : option Db.TokenRecord :=
  amount ← amount_field_of fields;
  Some {| Db.public_hash := hash;
          Db.amount_wats := amount;
          Db.spent := spent_field fields;
          Db.created_at := created_field now fields;
          Db.spent_at := time_field "spent_at" fields;
          Db.origin := match fields !! "origin" with Some "replaced" => Db.Replaced | _ => Db.Mined end |}.

(** The fields of a record but its amount. *)
Definition rest_fields (r : Db.TokenRecord) : list (string * string) :=
  [("spent", if Db.spent r then "1" else "0");
   ("created_at", to_rfc3339 (Db.created_at r));
   ("origin", show_token_origin (Db.origin r))].

Definition legacy_insert_tokens (records : list Db.TokenRecord) (st : rstate) : result string unit * rstate :=
  match records with
  | [] => (Ok tt, st)
  | _ =>
      let '(r, st) := query
        (map (fun r => HSETNX (legacy_key (Db.public_hash r)) "amount_wats" (show_i64 (Db.amount_wats r))) records) st in
      match r ≫= fun rs => from_replies as_bool rs with
      | Err e => (Err e, st)
      | Ok nx =>
          let set_pipe := omap (fun '(created, r) =>
            if (created : bool) then Some (HSET (legacy_key (Db.public_hash r)) (rest_fields r)) else None)
            (zip nx records) in
          let '(r, st) := match set_pipe with [] => (Ok [], st) | _ => query set_pipe st end in
          match r with
          | Err e => (Err e, st)
          | Ok _ =>
              match list_find (fun p => p.1 = false) (zip nx records) with
              | Some (_, (_, r)) => (Err ("token already exists: " +:+ Db.public_hash r), st)
              | None => (Ok tt, st)
              end
          end
      end
  end.

Definition legacy_get_tokens (now : DateTime) (hashes : list string) (st : rstate)
  : result string (list (option Db.TokenRecord)) * rstate :=
  match hashes with
  | [] => (Ok [], st)
  | _ =>
      let '(r, st) := query (map (fun h => HGETALL (legacy_key h)) hashes) st in
      (rs ← r;
       results ← from_replies as_fields rs;
       Ok (map (fun '(h, f) => if decide (f = ∅) then None else hash_to_token now h f) (zip hashes results)), st)
  end.

Definition legacy_check_tokens (hashes : list string) (st : rstate)
  : result string (list (string * option bool)) * rstate :=
  match hashes with
  | [] => (Ok [], st)
  | _ =>
      let '(r, st) := query (map (fun h => HGET (legacy_key h) "spent") hashes) st in
      (rs ← r;
       results ← from_replies as_opt_string rs;
       Ok (map (fun '(h, s) => (h, option_map (fun v => String.eqb v "1") s)) (zip hashes results)), st)
  end.

Definition output_args (o : Db.TokenRecord) : list string :=
  [show_i64 (Db.amount_wats o); to_rfc3339 (Db.created_at o); show_token_origin (Db.origin o)].

Definition legacy_replace_cmd (now : string) (op : Db.ReplaceOp) : rcmd :=
  let ik := map legacy_key (Db.ro_inputs op) in
  let ok := map (fun o => legacy_key (Db.public_hash o)) (Db.ro_outputs op) in
  let audit_key := "audit:replace:" +:+ Db.rr_id (Db.ro_record op) in
  EVALSHA LEGACY_REPLACE_SHA (ik ++ ok)
    ([show_u64 (Z.of_nat (length (Db.ro_inputs op))); show_u64 (Z.of_nat (length (Db.ro_outputs op)));
      now; audit_key; to_json (Db.ro_record op)] ++ flat_map output_args (Db.ro_outputs op)).

Definition legacy_replace_reply (v : rreply) : ReplaceResult :=
  match v with
  | RStatus s | RBulk (Some s) =>
      if String.eqb s "ok" then ReplaceOk
      else match strip_prefix "ERR:" s with Some err => ReplaceFailed err | None => ReplaceFailed s end
  | _ => ReplaceFailed ("unexpected: " +:+ debug_reply v)
  end.

Definition legacy_batch_replace (now : DateTime) (ops : list Db.ReplaceOp) (st : rstate)
  : list ReplaceResult * rstate :=
  match ops with
  | [] => ([], st)
  | _ =>
      let '(r, st) := query (map (legacy_replace_cmd (to_rfc3339 now)) ops) st in
      (match r with
       | Ok values => map legacy_replace_reply values
       | Err e => map (fun _ => ReplaceFailed e) ops
       end, st)
  end.

Definition legacy_burn_cmd (now : string) (op : string * Db.BurnRecord) : rcmd :=
  EVALSHA BURN_SHA [legacy_key op.1; "audit:burn:" +:+ Db.br_id op.2] [now; to_json op.2].

Definition legacy_burn_error (v : rreply) : option string :=
  match v with
  | RStatus s | RBulk (Some s) => option_map (fun e => "burn failed: " +:+ e) (strip_prefix "ERR:" s)
  | _ => None
  end.

Definition legacy_batch_burn (now : DateTime) (ops : list (string * Db.BurnRecord)) (st : rstate)
  : result string unit * rstate :=
  match ops with
  | [] => (Ok tt, st)
  | _ =>
      let '(r, st) := query (map (legacy_burn_cmd (to_rfc3339 now)) ops) st in
      (results ← map_err (fun e => "batch burn failed: " +:+ e) r;
       match head (omap legacy_burn_error results) with Some e => Err e | None => Ok tt end, st)
  end.

Definition legacy_get_mining_state (st : rstate) : result string (option Legacy.MiningState) * rstate :=
  let '(r, st) := query [GET "mining:state"] st in
  (rs ← r;
   json ← ok_or (head rs ≫= as_opt_string) type_error;
   match json with
   | None => Ok None
   | Some j => m ← from_json j; Ok (Some m)
   end, st).

Definition legacy_update_mining_state (state : Legacy.MiningState) (st : rstate) : result string unit * rstate :=
  let '(r, st) := query [SET "mining:state" (to_json state)] st in (_ ← r; Ok tt, st).

Definition LegacyRedisStore : Db.LedgerStore rstate := {|
  Db.insert_tokens := legacy_insert_tokens;
  Db.get_tokens := legacy_get_tokens;
  Db.check_tokens := legacy_check_tokens;
  Db.batch_replace := legacy_batch_replace;
  Db.batch_burn := legacy_batch_burn;
  Db.get_mining_state := legacy_get_mining_state;
  Db.update_mining_state := legacy_update_mining_state;
|}.
End Store.

(** ** The script *)

Section Script.
Context (ik : list string) (outs : list (string * list string)) (now ak aj : string).
Hypothesis Hni : Z.of_nat (length ik) <= 2 ^ 53.
Hypothesis Hno : Z.of_nat (length outs) <= 2 ^ 53.

(** An output as the script receives it: amount, time and origin. *)
Definition entry_fields (args : list string) : list (string * string) :=
  match args with
  | [a; c; o] => [("amount_wats", a); ("spent", "0"); ("created_at", c); ("origin", o)]
  | _ => []
  end.
Definition output_entry (o : string * list string) : string * gmap string string :=
  (o.1, hset_fields (entry_fields o.2) ∅).

Definition legacy_argv : list string :=
  [show_u64 (Z.of_nat (length ik)); show_u64 (Z.of_nat (length outs)); now; ak; aj] ++ flat_map snd outs.

Lemma legacy_arg j k args r db :
  Forall (fun o => length o.2 = 3%nat) outs -> outs !! j = Some (k, args) -> (r < 3)%nat ->
  exists s, args !! r = Some s /\ lua_index legacy_argv (5 + (1 + j - 1) * 3 + S r) db = (Val s, db).
Proof.
  intros Hf Hj Hr. assert (length args = 3%nat) as Hl by exact (proj1 (Forall_lookup _ _) Hf _ _ Hj).
  destruct (lookup_lt_is_Some_2 args r ltac:(lia)) as [s Hs]. exists s. split; [done|].
  replace (5 + (1 + j - 1) * 3 + S r)%nat with (S (5 + (j * 3 + r))) by lia. unfold lua_index, legacy_argv.
  rewrite lookup_app_r by (simpl; lia).
  match goal with |- context [flat_map snd outs !! ?i] => replace i with (j * 3 + r)%nat by (simpl; lia) end.
  assert (flat_map snd outs !! (j * 3 + r)%nat = Some s) as ->; [|done].
  clear Hni Hno. revert j Hj. induction Hf as [|o outs' Ho Hf IH]; intros [|j] Hj; simplify_eq/=.
  - rewrite lookup_app_l by lia. done.
  - rewrite lookup_app_r by (rewrite Ho; lia). rewrite Ho.
    replace (S (S (S (j * 3 + r))) - 3)%nat with (j * 3 + r)%nat by lia. by apply IH.
Qed.

Lemma legacy_replace_lua_spec db :
  Forall (fun o => length o.2 = 3%nat) outs -> hash_keys ik db ->
  exec (EVALSHA LEGACY_REPLACE_SHA (ik ++ outs.*1) legacy_argv) db =
    let r := replace_spec ik (output_entry <$> outs) now ak aj db in (RBulk (Some r.1), r.2).
Proof.
  intros Hf Ht. unfold exec, run_script, LEGACY_REPLACE_LUA.
  rewrite lua_step. change (lua_index legacy_argv 1) with (@mret lua _ _ (show_u64 (Z.of_nat (length ik)))).
  rewrite lua_step. cbn [mret lua_ret]. rewrite tonumber_show by done.
  rewrite lua_step. change (lua_index legacy_argv 2) with (@mret lua _ _ (show_u64 (Z.of_nat (length outs)))).
  rewrite lua_step. cbn [mret lua_ret]. rewrite tonumber_show by done.
  change (lua_index legacy_argv 3) with (@mret lua _ _ now).
  change (lua_index legacy_argv 4) with (@mret lua _ _ ak).
  change (lua_index legacy_argv 5) with (@mret lua _ _ aj).
  do 3 (rewrite lua_step; cbn [mret lua_ret]).
  replace (length outs) with (length (output_entry <$> outs)) by apply length_fmap.
  apply (replace_loops _ _ ((fun o => (o.1, flatten_fields (entry_fields o.2))) <$> outs)); [done| | | |].
  - apply Forall2_fmap, Forall_Forall2_diag. eapply Forall_impl; [exact Hf|]. intros [k args] Hl. cbn in Hl.
    split; [done|]. exists (entry_fields args). split_and!; [done| |done].
    destruct args as [|a [|c [|o []]]]; done.
  - intros j k d Hj. by rewrite lua_step, (lua_index_app_l _ _ _ _ _ Hj).
  - intros j k d Hj. by rewrite lua_step, (lua_index_app_l _ _ _ _ _ Hj).
  - intros j w d Hw. rewrite list_lookup_fmap in Hw. destruct (outs !! j) as [[k args]|] eqn:Hj; [|done].
    injection Hw as <-. assert (length args = 3%nat) as Hl by exact (proj1 (Forall_lookup _ _) Hf _ _ Hj).
    assert (outs.*1 !! j = Some k) as Hk by by rewrite list_lookup_fmap, Hj.
    pose proof (fun r d => legacy_arg j k args r d Hf Hj) as Harg. cbv zeta.
    set (base := (5 + (1 + j - 1) * 3)%nat) in *. clearbody base.
    rewrite lua_step, (lua_index_app_r _ _ _ _ _ Hk). unfold put_body. cbn [fst snd].
    rewrite !lua_step. destruct (call_exists k d) as [[e| |] d']; [|done..].
    destruct (e =? 1); [done|]. destruct args as [|a [|c [|o []]]]; try done.
    destruct (Harg 0%nat d' ltac:(lia)) as (s & [= <-] & E0).
    destruct (Harg 1%nat d' ltac:(lia)) as (s & [= <-] & E1).
    destruct (Harg 2%nat d' ltac:(lia)) as (s & [= <-] & E2).
    by rewrite lua_step, E0, lua_step, E1, lua_step, E2.
Qed.
End Script.
