(* ===== verification/LegacyFleet.v ===== *)
(** * The legacy server next to its successor

    The store of [LegacyRedis] is interchangeable with the one that replaced
    it: on the same data, under [WebcashLegacyKeys], every command of one is
    answered and does what the command of the other does, so a fleet of both
    servers keeps the single-use property of [RedisLedger].  The store also
    keeps the promises that the batcher ([LegacyReplace]) and the miner
    ([LegacyMinerFacts]) rest on. *)
From S2P Require Import Prelude Decimal Amount External AssetCore Tokens Storage Redis RedisLedger Records LegacyProtocol LegacyStore LegacyReplace LegacyMiner LegacyMinerFacts LegacyRedis.

(** ** The two stores are interchangeable *)

Section Equivalence.
Context `{Chrono}.

(** A record of the one server as a record of the other. *)
Definition webcash_of (r : Db.TokenRecord) : WebcashRecord := {|
  w_public_hash := Db.public_hash r;
  w_amount_wats := Db.amount_wats r;
  w_spent := Db.spent r;
  w_created_at := Db.created_at r;
  w_spent_at := Db.spent_at r;
  w_origin := match Db.origin r with Db.Mined => WMined | Db.Replaced => WReplaced end |}.

Definition token_of (r : WebcashRecord) : Db.TokenRecord := {|
  Db.public_hash := w_public_hash r;
  Db.amount_wats := w_amount_wats r;
  Db.spent := w_spent r;
  Db.created_at := w_created_at r;
  Db.spent_at := w_spent_at r;
  Db.origin := match w_origin r with WMined => Db.Mined | WReplaced => Db.Replaced end |}.

Definition replacement_of (r : Db.ReplacementRecord) : ReplacementRecord := {|
  rr_id := Db.rr_id r; rr_input_hashes := Db.rr_input_hashes r; rr_output_hashes := Db.rr_output_hashes r;
  rr_total_amount_wats := Db.rr_total_amount_wats r; rr_created_at := Db.rr_created_at r |}.

Definition burn_of (r : Db.BurnRecord) : BurnRecord := {|
  br_id := Db.br_id r; br_public_hash := Db.br_public_hash r; br_amount_wats := Db.br_amount_wats r;
  br_burned_at := Db.br_burned_at r |}.

Definition op_of (op : Db.ReplaceOp) : ReplaceOp WebcashRecord := {|
  ro_inputs := Db.ro_inputs op; ro_outputs := webcash_of <$> Db.ro_outputs op;
  ro_record := replacement_of (Db.ro_record op) |}.

(** serde writes two structs with the same members as the same text. *)
Class SameAudit `{Serde ReplacementRecord} `{Serde Db.ReplacementRecord} `{Serde BurnRecord} `{Serde Db.BurnRecord} : Prop := {
  same_replacement : forall r : Db.ReplacementRecord, to_json (replacement_of r) = to_json r;
  same_burn : forall r : Db.BurnRecord, to_json (burn_of r) = to_json r;
}.

(** A record as the server makes it for an output. *)
Definition fresh (r : Db.TokenRecord) : Prop := Db.spent r = false /\ Db.spent_at r = None.

Lemma show_origin_of r : show_webcash_origin (w_origin (webcash_of r)) = show_token_origin (Db.origin r).
Proof. unfold webcash_of. cbn. by destruct (Db.origin r). Qed.

Lemma fresh_fields r :
  fresh r -> webcash_to_fields (webcash_of r) = hset_fields (entry_fields (output_args r)) ∅.
Proof.
  intros [Hs Ht]. unfold webcash_to_fields. rewrite show_origin_of. cbn [webcash_of w_spent w_spent_at w_created_at w_amount_wats].
  by rewrite Hs, Ht.
Qed.

Lemma fresh_fields_size r : fresh r -> size (webcash_to_fields (webcash_of r)) = 4%nat.
Proof.
  intros Hf. rewrite fresh_fields by done. unfold output_args, entry_fields, hset_fields. cbn [foldl fst snd].
  rewrite !map_size_insert_None by by simplify_map_eq. by rewrite map_size_empty.
Qed.

Lemma legacy_token_read now h f : hash_to_token now h f = token_of <$> webcash_from_fields now h f.
Proof.
  unfold hash_to_token, webcash_from_fields. destruct (amount_field_of f); [|done]. cbn.
  unfold token_of. cbn. do 2 f_equal. destruct (f !! "origin") as [o|]; [|done].
  by repeat case_match.
Qed.
End Equivalence.

Section Methods.
Context `{RedisService} `{Chrono} `{Nom} `{Hashing}
  `{Serde ReplacementRecord} `{Serde Db.ReplacementRecord} `{Serde BurnRecord} `{Serde Db.BurnRecord}
  {SA : SameAudit}.
#[local] Existing Instance WebcashLegacyKeys.
#[local] Existing Instance WebcashAsset.asset.
Implicit Types (st : rstate) (db : rdb).

Definition as_tokens (r : result string (list (option WebcashRecord))) : result string (list (option Db.TokenRecord)) :=
  match r with Ok l => Ok (map (option_map token_of) l) | Err e => Err e end.

(** The reading methods and the burn send the same commands and read the
    replies the same way. *)
Lemma legacy_get_same now ns hashes st :
  legacy_get_tokens now hashes st =
    let '(r, st') := redis_get_tokens now ns hashes st in
    (as_tokens r, st').
Proof.
  unfold legacy_get_tokens, redis_get_tokens. destruct hashes as [|h hs]; [done|].
  cbn [token_key WebcashLegacyKeys]. set (l := h :: hs). clearbody l.
  change (fun h => HGETALL ("token:" +:+ h)) with (fun h => HGETALL (legacy_key h)).
  destruct (query _ st) as [[rs|e] st']; [|done]. cbn [mbind result_bind].
  destruct (from_replies as_fields rs) as [results|e]; [|done]. cbn. do 2 f_equal. rewrite map_map.
  apply map_ext. intros [x f]. case_decide; [done|]. cbn. rewrite legacy_token_read. by destruct (webcash_from_fields _ _ _).
Qed.

Lemma legacy_check_same ns hashes st :
  legacy_check_tokens hashes st = redis_check_tokens ns hashes st.
Proof. done. Qed.

Lemma legacy_burn_same now ns ops st :
  legacy_batch_burn now ops st = redis_batch_burn now ns (map (fun o => (o.1, burn_of o.2)) ops) st.
Proof.
  unfold legacy_batch_burn, redis_batch_burn. destruct ops as [|o ops]; [done|].
  assert (map (legacy_burn_cmd (to_rfc3339 now)) (o :: ops) =
    map (burn_cmd (to_rfc3339 now) ns) (map (fun o => (o.1, burn_of o.2)) (o :: ops))) as ->; [|done].
  rewrite map_map. apply map_ext. intros [h b]. unfold legacy_burn_cmd, burn_cmd. cbn [fst snd].
  by rewrite same_burn.
Qed.
End Methods.

(** ** Both servers on one Redis

    A step of either server: what the legacy one sends, next to the commands
    of [RedisLedger]. *)

Section Fleet.
Context `{RedisService} `{Chrono} `{Nom} `{Hashing} `{Serde MiningState}
  `{Serde ReplacementRecord} `{Serde Db.ReplacementRecord} `{Serde BurnRecord} `{Serde Db.BurnRecord}
  {SA : SameAudit}.
#[local] Existing Instance WebcashLegacyKeys.
#[local] Existing Instance WebcashAsset.asset.
#[local] Existing Instance webcash_hash_record.
Implicit Types (db : rdb).

Inductive legacy_cmd :=
  | LReplace (now : string) (op : Db.ReplaceOp)
  | LBurn (now : string) (op : string * Db.BurnRecord)
  | LInsertNew (r : Db.TokenRecord)
  | LInsertFields (r : Db.TokenRecord)
  | LGet (h : string)
  | LCheck (h : string).

Definition legacy_cmd_of (c : legacy_cmd) : rcmd :=
  match c with
  | LReplace now op => legacy_replace_cmd now op
  | LBurn now op => legacy_burn_cmd now op
  | LInsertNew r => HSETNX (legacy_key (Db.public_hash r)) "amount_wats" (show_i64 (Db.amount_wats r))
  | LInsertFields r => HSET (legacy_key (Db.public_hash r)) (rest_fields r)
  | LGet h => HGETALL (legacy_key h)
  | LCheck h => HGET (legacy_key h) "spent"
  end.

(** The command of the current server for the same request. *)
Definition current (c : legacy_cmd) : ledger_cmd (A := WebcashAsset.asset) :=
  match c with
  | LReplace now op => CReplace now (op_of op)
  | LBurn now op => CBurn now (op.1, burn_of op.2)
  | LInsertNew r => CInsertNew (webcash_of r)
  | LInsertFields r => CInsertFields (webcash_of r)
  | LGet h => CGet h
  | LCheck h => CCheck h
  end.

Definition legacy_wf (c : legacy_cmd) : Prop :=
  match c with
  | LReplace _ op =>
      Z.of_nat (length (Db.ro_inputs op)) <= 2 ^ 53 /\ Z.of_nat (length (Db.ro_outputs op)) <= 2 ^ 53 /\
      Forall fresh (Db.ro_outputs op)
  | LInsertFields r => Db.spent_at r = None
  | _ => True
  end.

Lemma current_wf c : legacy_wf c -> cmd_wf (current c).
Proof.
  destruct c as [now op| | | | |]; try done. intros (Hi & Ho & Hf). cbn [current cmd_wf].
  assert (forall o : @Rec WebcashAsset.asset, o ∈ ro_outputs (op_of op) ->
    size (@to_fields (@Rec WebcashAsset.asset) _ webcash_hash_record o) = 4%nat) as Hs.
  { intros o (r & -> & Hr)%list_elem_of_fmap. apply fresh_fields_size. by rewrite Forall_forall in Hf; apply Hf. }
  split; cbn [op_of ro_inputs ro_outputs]; [done|by rewrite length_fmap| |].
  - apply Forall_forall. intros o Hin. pose proof (Hs o Hin) as E. split; [|by rewrite E].
    intros E'. by rewrite E', map_size_empty in E.
  - intros o o' Hin Hin'. by rewrite (Hs o Hin), (Hs o' Hin').
Qed.

Lemma legacy_replace_exec now op db :
  legacy_wf (LReplace now op) -> tokens_typed unscoped db ->
  exec (legacy_replace_cmd now op) db = exec (replace_cmd now unscoped (op_of op)) db.
Proof.
  intros Hwf Ht. rewrite replace_cmd_exec by (by apply (current_wf (LReplace now op)) || done).
  destruct Hwf as (Hi & Ho & Hf).
  pose (outs := (fun o => (legacy_key (Db.public_hash o), output_args o)) <$> Db.ro_outputs op).
  transitivity (exec (EVALSHA LEGACY_REPLACE_SHA ((legacy_key <$> Db.ro_inputs op) ++ outs.*1)
    (legacy_argv (legacy_key <$> Db.ro_inputs op) outs now
      ("audit:replace:" +:+ Db.rr_id (Db.ro_record op)) (to_json (Db.ro_record op)))) db).
  { f_equal. unfold legacy_replace_cmd, legacy_argv, outs. rewrite !length_fmap, <- list_fmap_compose.
    do 2 f_equal. rewrite !flat_map_concat_map, map_map. done. }
  rewrite legacy_replace_lua_spec; unfold outs; rewrite ?length_fmap; try done.
  - assert (output_entry <$> ((fun o => (legacy_key (Db.public_hash o), output_args o)) <$> Db.ro_outputs op)
      = out_entries unscoped (op_of op)) as ->.
    { unfold out_entries. cbn [op_of ro_outputs]. rewrite <- !list_fmap_compose.
      apply list_fmap_ext. intros i o Hl. unfold compose, output_entry. cbn [fst snd].
      rewrite <- (fresh_fields o) by exact (proj1 (Forall_lookup _ _) Hf _ _ Hl). done. }
    change (to_json (ro_record (op_of op))) with (to_json (replacement_of (Db.ro_record op))).
    by rewrite same_replacement.
  - apply Forall_fmap. by apply Forall_true.
  - intros k s (h & -> & _)%list_elem_of_fmap. apply (Ht h s).
Qed.

(** The three fields the legacy server writes at once are those the current
    one writes. *)
Lemma rest_fields_same r h :
  Db.spent_at r = None ->
  hset_fields (rest_fields r) h = hset_fields (map_to_list (delete "amount_wats" (webcash_to_fields (webcash_of r)))) h.
Proof.
  intros Ht.
  rewrite (hset_fields_union (map_to_list _)) by apply NoDup_fst_map_to_list. rewrite list_to_map_to_list.
  rewrite hset_fields_union by (cbn; repeat constructor; set_solver). f_equal.
  unfold webcash_to_fields. rewrite show_origin_of. cbn [webcash_of w_spent w_spent_at w_created_at w_amount_wats].
  rewrite Ht. unfold hset_fields. cbn.
  apply map_eq. intros f. destruct (decide (f = "amount_wats")) as [->|]; [by simplify_map_eq|].
  destruct (decide (f = "spent")) as [->|]; [by simplify_map_eq|].
  destruct (decide (f = "created_at")) as [->|]; [by simplify_map_eq|].
  destruct (decide (f = "origin")) as [->|]; by simplify_map_eq.
Qed.

Lemma legacy_exec_same c db :
  legacy_wf c -> tokens_typed unscoped db ->
  exec (legacy_cmd_of c) db = exec (cmd_of unscoped (current c)) db.
Proof.
  intros Hwf Ht. destruct c as [now op|now [h b]|r|r|h|h]; try done.
  - by apply legacy_replace_exec.
  - cbn [legacy_cmd_of current cmd_of]. unfold legacy_burn_cmd, burn_cmd. cbn [fst snd]. by rewrite same_burn.
  - transitivity (exec (HSET (legacy_key (Db.public_hash r))
      (map_to_list (delete "amount_wats" (webcash_to_fields (webcash_of r))))) db); [|done].
    cbn [legacy_cmd_of exec].
    pose proof (fun h => rest_fields_same r h Hwf) as E.
    destruct (map_to_list _) as [|p l].
    { exfalso. assert (hset_fields (rest_fields r) ∅ !! "spent" = None) as N by (by rewrite E).
      unfold hset_fields in N. cbn in N. by simplify_map_eq. }
    change (rest_fields r) with (("spent", if Db.spent r then "1" else "0") :: tail (rest_fields r)) in *.
    cbv iota. destruct (db !! _) as [[s|g]|]; [done| |]; by rewrite E.
Qed.

(** The commands that reach the Redis server, from servers of both kinds. *)
Definition fleet_cmd : Type := legacy_cmd + ledger_cmd (A := WebcashAsset.asset).
Definition fleet_cmd_of (c : fleet_cmd) : rcmd :=
  match c with inl c => legacy_cmd_of c | inr c => cmd_of unscoped c end.
Definition as_current (c : fleet_cmd) : ledger_cmd (A := WebcashAsset.asset) :=
  match c with inl c => current c | inr c => c end.
Definition fleet_wf (c : fleet_cmd) : Prop :=
  match c with inl c => legacy_wf c | inr c => cmd_wf c end.

(** The hashes a command spends when it is accepted. *)
Definition fleet_consumed (c : fleet_cmd) : list string :=
  match c with
  | inl (LReplace _ op) => Db.ro_inputs op
  | inl (LBurn _ op) => [op.1]
  | inl _ => []
  | inr c => consumed c
  end.

(** The accepted spends of [h] in a run of the fleet. *)
Fixpoint fleet_spends (h : string) (cs : list fleet_cmd) db : nat :=
  match cs with
  | [] => O
  | c :: cs' =>
      let '(r, db') := exec (fleet_cmd_of c) db in
      ((if decide (h ∈ fleet_consumed c) then if accepted r then 1 else 0 else 0) + fleet_spends h cs' db')%nat
  end.

Lemma fleet_wf_current c : fleet_wf c -> cmd_wf (as_current c).
Proof. destruct c as [c|c]; [apply current_wf|done]. Qed.

Lemma fleet_exec c db :
  fleet_wf c -> tokens_typed unscoped db -> exec (fleet_cmd_of c) db = exec (cmd_of unscoped (as_current c)) db.
Proof. destruct c as [c|c]; [apply legacy_exec_same|done]. Qed.

Lemma fleet_consumed_current c : fleet_consumed c = consumed (as_current c).
Proof. by destruct c as [[]|c]. Qed.

Lemma fleet_spends_current h cs db :
  Forall fleet_wf cs -> tokens_typed unscoped db ->
  fleet_spends h cs db = spends unscoped h (map as_current cs) db.
Proof.
  intros Hwf. revert db. induction Hwf as [|c cs Hc _ IH]; intros db Ht; [done|].
  cbn [fleet_spends spends map]. rewrite fleet_exec, fleet_consumed_current by done.
  pose proof (exec_typed unscoped (as_current c) db (fleet_wf_current c Hc) Ht) as Ht'.
  destruct (exec _ db) as [r db']. by rewrite IH.
Qed.

Lemma fleet_exec_all cs db :
  Forall fleet_wf cs -> tokens_typed unscoped db ->
  exec_all (map fleet_cmd_of cs) db = exec_all (map (cmd_of unscoped) (map as_current cs)) db.
Proof.
  intros Hwf. revert db. induction Hwf as [|c cs Hc _ IH]; intros db Ht; [done|].
  cbn [exec_all map]. rewrite fleet_exec by done.
  pose proof (exec_typed unscoped (as_current c) db (fleet_wf_current c Hc) Ht) as Ht'.
  destruct (exec _ db) as [r db']. by rewrite IH.
Qed.

End Fleet.

(** ** The promise of the store *)

Section Sequential.
Context `{RedisLaws} `{Chrono} `{Nom} `{Hashing} `{Serde MiningState} `{Serde Legacy.MiningState}
  `{Serde ReplacementRecord} `{Serde Db.ReplacementRecord} `{Serde BurnRecord} `{Serde Db.BurnRecord}
  {SA : SameAudit}.
#[local] Existing Instance WebcashLegacyKeys.
#[local] Existing Instance WebcashAsset.asset.
#[local] Existing Instance webcash_hash_record.
#[local] Existing Instance LegacyRedisStore.

(** One request over the data, without its marshalling. *)
Definition legacy_step (now : DateTime) (op : Db.ReplaceOp) (db : rdb) : ReplaceResult * rdb :=
  replace_step (to_rfc3339 now) unscoped db (op_of op).

(** What a confirmed request did, in the terms of the legacy server. *)
Lemma legacy_step_commits now op db db' :
  legacy_step now op db = (ReplaceOk, db') ->
  (forall h : string, h ∈ Db.ro_inputs op -> exists rec, db !! legacy_key h = Some (RHash rec) /\
     spent_hash rec = false /\ db' !! legacy_key h = Some (RHash (mark_hash (to_rfc3339 now) rec))) /\
  (forall o : Db.TokenRecord, o ∈ Db.ro_outputs op -> db !! legacy_key (Db.public_hash o) = None /\
     db' !! legacy_key (Db.public_hash o) = Some (RHash (webcash_to_fields (webcash_of o)))) /\
  (forall h : string, h ∉ Db.ro_inputs op -> h ∉ Db.public_hash <$> Db.ro_outputs op ->
     db' !! legacy_key h = db !! legacy_key h).
Proof.
  intros Es. apply (step_commits (A := WebcashAsset.asset)) in Es as (Hin & _ & Hout & _ & Hfr).
  split; [exact Hin|split].
  - intros o Ho. refine (Hout (webcash_of o : @Rec WebcashAsset.asset) _). exact (list_elem_of_fmap_2 webcash_of _ _ Ho).
  - intros h Hi Ho. apply (Hfr h Hi). intros Hh. apply Ho.
    change (h ∈ Db.public_hash <$> Db.ro_outputs op). apply list_elem_of_fmap in Hh as (x & -> & Hx).
    apply (proj1 (list_elem_of_fmap webcash_of _ _)) in Hx as (o & -> & Hx).
    exact (list_elem_of_fmap_2 Db.public_hash _ _ Hx).
Qed.

Lemma legacy_replace_reply_same v : legacy_replace_reply v = replace_reply v.
Proof. done. Qed.

Lemma legacy_cmds_spec now ops db :
  Forall (fun op => legacy_wf (LReplace (to_rfc3339 now) op)) ops -> tokens_typed unscoped db ->
  let r := exec_all (map (legacy_replace_cmd (to_rfc3339 now)) ops) db in
  (map legacy_replace_reply r.1, r.2) = Replace.run_seq legacy_step now ops db.
Proof.
  intros Hwf. revert db. induction Hwf as [|op ops Ho Hwf IH]; intros db Ht; [done|].
  cbn [map exec_all Replace.run_seq]. rewrite legacy_replace_exec by done.
  destruct (replace_cmd_spec (A := WebcashAsset.asset) (to_rfc3339 now) unscoped (op_of op) db (current_wf _ Ho) Ht) as (r & -> & Hr).
  pose proof (replace_step_typed (A := WebcashAsset.asset) (to_rfc3339 now) unscoped (op_of op) db Ht) as Ht'.
  unfold legacy_step at 1. destruct (replace_step _ _ _ _) as [r1 db1]. cbn [fst snd] in *.
  specialize (IH db1 Ht'). destruct (exec_all _ db1) as [rs db2]. cbn [fst snd map] in *. rewrite <- IH.
  by rewrite legacy_replace_reply_same, Hr.
Qed.

#[export] Program Instance legacy_sequential : Replace.SequentialStore := {|
  Replace.view := rview;
  Replace.step_replace := legacy_step;
  Replace.sound := tokens_typed unscoped;
  Replace.admissible op := legacy_wf (LReplace EmptyString op);
|}.
Next Obligation. intros now op db _ Ht. by apply replace_step_typed. Qed.
Next Obligation.
  intros now ops st res st' Ha Ht. cbn. unfold legacy_batch_replace. destruct ops as [|op ops].
  { intros [= <- <-]. by left. }
  destruct (query _ st) as [[values|e] st1] eqn:Eq; intros [= <- <-].
  - left. apply query_ok in Eq as [Hq _]. rewrite <- legacy_cmds_spec by done. by rewrite Hq.
  - right. apply query_err in Eq as [n Hn]. exists e, n. split; [done|].
    rewrite <- legacy_cmds_spec by (done || by apply Forall_take). rewrite Hn. cbn [snd]. by rewrite <- fmap_take.
Qed.
End Sequential.

Section MiningState.
Context `{RedisLaws} `{Chrono} `{Serde Db.ReplacementRecord} `{Serde Db.BurnRecord} `{SerdeLaws Legacy.MiningState}.
#[local] Existing Instance LegacyRedisStore.

Definition stored_mining (st : rstate) : option Legacy.MiningState :=
  match rview st !! "mining:state" with Some (RStr j) => result_ok (from_json j) | _ => None end.

Lemma stored_same st st' : rview st' !! "mining:state" = rview st !! "mining:state" -> stored_mining st' = stored_mining st.
Proof. unfold stored_mining. by intros ->. Qed.

(** A write of an insert. *)
Definition token_write (c : rcmd) : Prop :=
  match c with HSETNX k _ _ | HSET k _ => exists h, k = legacy_key h | _ => False end.

Lemma token_writes_keep cs db :
  Forall token_write cs -> (exec_all cs db).2 !! "mining:state" = db !! "mining:state".
Proof.
  intros Hc. revert db. induction Hc as [|c cs Hc _ IH]; intros db; cbn [exec_all]; [done|].
  assert ((exec c db).2 !! "mining:state" = db !! "mining:state") as E.
  { destruct c as [k f v|k fvs| | | | |]; try done; destruct Hc as [h ->]; cbn [exec].
    - destruct (db !! legacy_key h) as [[s|g]|]; [done|destruct (g !! f); [done|]|]; cbn [snd]; by rewrite lookup_insert_ne.
    - destruct fvs; [done|]. destruct (db !! legacy_key h) as [[s|g]|]; [done| |]; cbn [snd]; by rewrite lookup_insert_ne. }
  destruct (exec c db) as [r db1]. specialize (IH db1). destruct (exec_all cs db1). cbn [snd] in *. congruence.
Qed.

Lemma token_query_keeps cs st r st' :
  Forall token_write cs -> query cs st = (r, st') -> stored_mining st' = stored_mining st.
Proof.
  intros Hc Hq. apply stored_same. destruct r as [rs|e].
  - apply query_ok in Hq as [Hq _]. rewrite <- (token_writes_keep cs (rview st) Hc). by rewrite Hq.
  - apply query_err in Hq as [n ->]. apply token_writes_keep. by apply Forall_take.
Qed.

Lemma get_mining_query st r st' :
  query [GET "mining:state"] st = (r, st') ->
  stored_mining st' = stored_mining st /\
  forall rs, r = Ok rs -> rs = [(exec (GET "mining:state") (rview st)).1].
Proof.
  intros Hq. assert (forall db, (exec (GET "mining:state") db).2 = db) as Hg
    by (intros db; cbn [exec]; by destruct (db !! _) as [[]|]).
  destruct r as [rs|e].
  - apply query_ok in Hq as [Hq _]. cbn [exec_all] in Hq. pose proof (Hg (rview st)) as E.
    destruct (exec _ (rview st)) as [x db]. injection Hq as <- Hv. cbn [fst snd] in *. rewrite E in Hv.
    split; [by apply stored_same; rewrite Hv|]. by intros rs [= <-].
  - apply query_err in Hq as [n Hn]. split; [|done]. apply stored_same. rewrite Hn. destruct n; [done|].
    cbn [take exec_all]. pose proof (Hg (rview st)) as E. destruct (exec _ (rview st)). cbn [snd] in *. subst.
    by rewrite take_nil.
Qed.

#[export] Program Instance legacy_mining_store : MinerFacts.MiningStore rstate := {|
  MinerFacts.fits _ := True; MinerFacts.stored := stored_mining |}.
Next Obligation.
  intros st m st' _. cbn. unfold legacy_get_mining_state. destruct (query _ st) as [r st1] eqn:Eq.
  apply get_mining_query in Eq as [Es Hr]. intros [= E <-]. split; [|done].
  apply bind_Ok in E as (rs & -> & E). rewrite (Hr _ eq_refl) in E.
  apply bind_Ok in E as (json & Ej%ok_or_Ok & E). cbn [exec head mbind option_bind] in Ej. unfold stored_mining.
  destruct (rview st !! _) as [[j|g]|]; cbn in Ej; try done; injection Ej as <-.
  - apply bind_Ok in E as (x & -> & [= <-]). done.
  - by injection E as <-.
Qed.
Next Obligation.
  intros st e st' _. cbn. unfold legacy_get_mining_state. destruct (query _ st) as [r st1] eqn:Eq.
  apply get_mining_query in Eq as [Es Hr]. by intros [= _ <-].
Qed.
Next Obligation.
  intros m st u st' _. cbn. unfold legacy_update_mining_state. destruct (query _ st) as [[rs|e] st1] eqn:Eq; [|done].
  intros [= _ <-]. apply query_ok in Eq as [Hq _]. cbn [exec_all exec] in Hq. injection Hq as _ Hv.
  unfold stored_mining. rewrite <- Hv, lookup_insert_eq. by rewrite from_to_json.
Qed.
Next Obligation.
  intros m st e st' _. cbn. unfold legacy_update_mining_state. destruct (query _ st) as [[rs|e'] st1] eqn:Eq; [done|].
  intros [= _ <-]. apply query_err in Eq as [n Hn]. destruct n as [|n]; [left; by apply stored_same; rewrite Hn|right].
  unfold stored_mining. rewrite Hn. cbn [take exec_all exec]. rewrite take_nil. cbn. rewrite lookup_insert_eq.
  by rewrite from_to_json.
Qed.
Next Obligation.
  intros l st _. cbn. unfold legacy_insert_tokens. destruct l as [|r l]; [done|]. set (rs := r :: l). clearbody rs.
  destruct (query _ st) as [q st1] eqn:Eq. apply token_query_keeps in Eq.
  2: { apply Forall_fmap, Forall_true. intros x. by eexists. }
  destruct (q ≫= _) as [nx|e]; [|done]. set (pipe := omap _ (zip nx rs)).
  assert (Forall token_write pipe) as Hp.
  { apply Forall_forall. intros c ([b x] & _ & E)%list_elem_of_omap. destruct b; [|done]. injection E as <-. by eexists. }
  clearbody pipe. destruct pipe as [|c pipe].
  { destruct (list_find _ _) as [[? [??]]|]; done. }
  destruct (query _ st1) as [q2 st2] eqn:Eq2. apply (token_query_keeps _ _ _ _ Hp) in Eq2. cbn.
  destruct q2; [destruct (list_find _ _) as [[? [??]]|]|]; cbn; congruence.
Qed.
Solve All Obligations with done.
End MiningState.
