(* ===== verification/LegacyApi.v ===== *)
(** * The legacy server: actors and HTTP API

    [crates/server/src/actors/ledger.rs], [actors/stats.rs], [api/*.rs] and
    [config.rs], over a store, the batcher ([LegacyReplace]) and the miner
    ([LegacyMiner]).  One request is handled at a time here: what concurrent
    replaces add is in [LegacyReplace] and [LegacyFleet]. *)
From S2P Require Import Prelude Decimal Amount External Parsers Tokens AssetCore Storage Mining Auth Server LegacyProtocol LegacyStore LegacyReplace LegacyMiner.
From Stdlib Require Import Floats.SpecFloat.

Module Api.

(** ** Text *)

(** [str::contains] and [ends_with]. *)
Fixpoint contains (pat s : string) : bool :=
  match strip_prefix pat s with
  | Some _ => true
  | None => match s with EmptyString => false | String _ s' => contains pat s' end
  end.
Fixpoint ends_with (pat s : string) : bool :=
  String.eqb pat s || match s with EmptyString => false | String _ s' => ends_with pat s' end.

(** [str::replace] of double quotes by single ones. *)
Fixpoint unquote (s : string) : string :=
  match s with
  | EmptyString => EmptyString
  | String c s' => String (if Ascii.eqb c (ascii_of_nat 34) then "'"%char else c) (unquote s')
  end.

Definition newline : string := String (ascii_of_nat 10) EmptyString.

(** ** JSON

    The values [serde_json::json!] builds, their text, and the decoders of the
    bodies with serde's error text. *)
Inductive jvalue :=
  | JNull
  | JBool (b : bool)
  | JString (s : string)
  | JUint (n : Z)
  | JFloat (f : spec_float)
  | JObject (fields : list (string * jvalue)).

Class LegacyJson := {
  json_text : jvalue -> string;
  read_burn : string -> result string (list string * bool);
  read_mining_report : string -> result string (string * bool);
  read_replace : string -> result string (list string * list string * bool);
  read_hashes : string -> result string (list string);
  send_error : string;
}.

Definition jopt {A} (f : A -> jvalue) (o : option A) : jvalue := match o with Some a => f a | None => JNull end.

(** ** Responses *)

Record HttpResponse := { status : Z; headers : list (string * string); body : string }.

Definition json_response (code : Z) (text : string) : HttpResponse :=
  {| status := code; headers := [("content-type", "application/json")]; body := text |}.

(** A literal of the source that is a JSON object of strings. *)
Definition literal (fields : list (string * string)) : string :=
  "{" +:+ String.concat "," (map (fun '(k, v) => quoted k +:+ ":" +:+ quoted v) fields) +:+ "}".

Definition not_found : HttpResponse := json_response 404 (literal [("error", "not found")]).
Definition ok_json (text : string) : HttpResponse := json_response 200 text.
Definition ok_status : HttpResponse := ok_json (literal [("status", "success")]).

(** [HeaderMap::insert]: replaces the values of the name. *)
Definition header_insert (k v : string) (hs : list (string * string)) : list (string * string) :=
  filter (fun p => p.1 <> k) hs ++ [(k, v)].

Definition sse_response (events : list string) : HttpResponse := {|
  status := 200;
  headers := [("content-type", "text/event-stream"); ("cache-control", "no-cache")];
  body := String.concat EmptyString (map (fun d => "data: " +:+ d +:+ newline +:+ newline) events) |}.

Definition TERMS_TEXT : string :=
  "Webcash Terms of Service" +:+ newline +:+ newline +:+
  "By using this webcash server, you agree to the following terms:" +:+ newline +:+ newline +:+
  "1. Webcash tokens are bearer instruments. Loss of a token means loss of funds." +:+ newline +:+
  "2. The server operator makes no guarantees about uptime or availability." +:+ newline +:+
  "3. This software is provided " +:+ quoted "as is" +:+ " under the MIT license." +:+ newline +:+
  "4. You are responsible for securing your own tokens and private keys." +:+ newline +:+
  "5. The server operator is not responsible for any losses incurred." +:+ newline +:+ newline +:+
  "For testnet usage: tokens have no monetary value and are for testing only." +:+ newline.

Definition terms_handle (path : string) : HttpResponse :=
  let content_type := if ends_with "/text" path then "text/plain" else "text/html" in
  {| status := 200;
     headers := [("content-type", content_type); ("cache-control", "public, max-age=7200")];
     body := if String.eqb content_type "text/html"
             then "<!DOCTYPE html><html><head><title>Terms of Service</title></head><body><pre>" +:+ TERMS_TEXT
                  +:+ "</pre></body></html>"
             else TERMS_TEXT |}.

(** [Cors]: three headers on the response of the inner service. *)
Definition Cors (origin : string) (r : HttpResponse) : HttpResponse := {|
  status := status r;
  headers := header_insert "access-control-allow-headers" "content-type"
    (header_insert "access-control-allow-methods" "GET, POST, OPTIONS"
      (header_insert "access-control-allow-origin" origin (headers r)));
  body := body r |}.

Section Server.
Context `{Miner.Instants} `{Nom} `{Hashing} `{ServerJson} `{!Legacy.PreimageJson} `{LegacyJson}
  {S : Type} `{!Db.LedgerStore S} (mode : Miner.NetworkMode) (cfg : Miner.MiningConfig) (cors_origin : option string).

Definition bad_request (msg : string) : HttpResponse := json_response 400 (json_text (JObject [("error", JString msg)])).
Definition internal_error (msg : string) : HttpResponse := json_response 500 (json_text (JObject [("error", JString msg)])).

(** The miner actor's memory and the store. *)
Record System := { memory : option Legacy.MiningState; store : S }.

(** The instants and identifiers one request reads. *)
Record ApiEnv := {
  at_now : DateTime;
  report_clock : Miner.Clock;
  restarted_at : DateTime;
  new_ids : nat -> string;
}.

Definition handler : Type := ApiEnv -> Request -> System -> HttpResponse * System.

Definition with_store (sys : System) (st : S) : System := {| memory := memory sys; store := st |}.

(** ** Ledger actor *)

Definition lookup_hash (full_str : string) : result string string :=
  if contains ":public:" full_str then
    match Legacy.public_from_str full_str with
    | Ok p => Ok (Webcash.p_hash p)
    | Err e => Err ("invalid public webcash: " +:+ e)
    end
  else Ok full_str.

Definition health_entry (e : string * option Db.TokenRecord) : string * option bool * option string :=
  match e with
  | (full_str, None) => (full_str, None, None)
  | (full_str, Some t) => (full_str, Some (Db.spent t), Some (to_string (from_wats (Db.amount_wats t))))
  end.

Definition do_health_check (now : DateTime) (public_webcash_strings : list string) (st : S)
  : result string (list (string * option bool * option string)) * S :=
  match mapM lookup_hash public_webcash_strings with
  | Err e => (Err e, st)
  | Ok lookup_hashes =>
      let '(r, st) := Db.get_tokens now lookup_hashes st in
      (tokens ← r; Ok (map health_entry (zip public_webcash_strings tokens)), st)
  end.

Definition burn_op (now : DateTime) (id wc_str : string) : result string (string * Db.BurnRecord) :=
  secret ← map_err (fun e => "invalid webcash: " +:+ e) (Legacy.secret_from_str wc_str);
  let public := Webcash.to_public secret in
  Ok (Webcash.p_hash public,
      {| Db.br_id := id; Db.br_public_hash := Webcash.p_hash public;
         Db.br_amount_wats := wats (Webcash.s_amount secret); Db.br_burned_at := now |}).

Definition do_burn (now : DateTime) (ids : nat -> string) (webcashes : list string) (st : S) : result string unit * S :=
  match mapM (fun '(i, wc_str) => burn_op now (ids i) wc_str) (imap pair webcashes) with
  | Err e => (Err e, st)
  | Ok burn_ops => Db.batch_burn now burn_ops st
  end.

(** ** Calls to the actors

    A message to a stopped actor is not sent.  The miner has no memory when the
    supervisor could not start it again; the supervisor has then stopped, and
    the other actors with it (LegacySupervisor.v). *)
Definition actor_call {R} (f : S -> result string R * S) (sys : System) : result string R * System :=
  match memory sys with
  | None => (Err ("actor send failed: " +:+ send_error), sys)
  | Some _ => let '(r, st) := f (store sys) in (r, with_store sys st)
  end.

(** A panic drops the reply, and the supervisor starts the miner again. *)
Definition submit_mining_report (env : ApiEnv) (preimage : string) (sys : System) : result string Z * System :=
  match memory sys with
  | None => (Err ("actor send failed: " +:+ send_error), sys)
  | Some s =>
      match Miner.handle_mining_report mode cfg (report_clock env) preimage s (store sys) with
      | Some (r, s', st) => (r, {| memory := Some s'; store := st |})
      | None =>
          let '(r, st) := Miner.pre_start cfg (restarted_at env) (store sys) in
          (Err "actor dropped before reply", {| memory := result_ok r; store := st |})
      end
  end.

Definition get_target (sys : System) : result string Legacy.TargetInfo :=
  match memory sys with
  | None => Err ("actor send failed: " +:+ send_error)
  | Some s => Ok (Miner.get_target s)
  end.

(** ** The batcher's handle

    Validation, then the request alone in its batch. *)
Definition batcher_replace (env : ApiEnv) (webcashes new_webcashes : list string) (sys : System)
  : result string unit * System :=
  match Replace.parse_and_validate_replace (at_now env) (new_ids env 0) webcashes new_webcashes with
  | Err e => (Err e, sys)
  | Ok v =>
      let '(replies, st) := Replace.run_batch (at_now env)
        [{| Replace.op := Replace.into_op v; Replace.reply := 0 |}] (store sys) in
      (match replies with (_, r) :: _ => r | [] => Err "batcher dropped reply" end, with_store sys st)
  end.

(** ** Handlers *)

(** [handler!]: the body, within its limit, decoded. *)
Definition post {R} (read : string -> result string R) (k : R -> ApiEnv -> System -> HttpResponse * System) : handler :=
  fun env req sys =>
    match req_body req with
    | Err _ => (bad_request "request body too large or invalid", sys)
    | Ok text =>
        match read text with
        | Err e => (bad_request ("invalid request: " +:+ e), sys)
        | Ok r => k r env sys
        end
    end.

Definition burn_handle : handler := post read_burn (fun '(destroy_webcash, terms) env sys =>
  if negb terms then (bad_request "terms must be accepted", sys)
  else if bool_decide (destroy_webcash = []) then (bad_request "destroy_webcash must not be empty", sys)
  else
    let '(r, sys) := actor_call (do_burn (at_now env) (new_ids env) destroy_webcash) sys in
    (match r with Ok _ => ok_status | Err e => bad_request e end, sys)).

(** The results as a [HashMap]: a later entry of a text replaces an earlier
    one. *)
Definition results_map (results : list (string * option bool * option string)) : gmap string jvalue :=
  foldl (fun m '(hash, spent, amount) =>
    <[hash := JObject [("spent", jopt JBool spent); ("amount", jopt JString amount)]]> m) ∅ results.

Definition health_check_handle : handler := post read_hashes (fun hashes env sys =>
  if bool_decide (hashes = []) then (bad_request "empty hash list", sys)
  else
    let '(r, sys) := actor_call (do_health_check (at_now env) hashes) sys in
    (match r with
     | Ok results => ok_json (json_text
         (JObject [("status", JString "success"); ("results", JObject (map_to_list (results_map results)))]))
     | Err e => internal_error e
     end, sys)).

Definition mining_report_handle : handler := post read_mining_report (fun '(preimage, terms) env sys =>
  if negb terms then (bad_request "terms must be accepted", sys)
  else
    let '(r, sys) := submit_mining_report env preimage sys in
    (match r with
     | Ok d => ok_json (json_text (JObject [("status", JString "success"); ("difficulty_target", JUint d)]))
     | Err e => bad_request e
     end, sys)).

Definition rejected (msg : string) : string := literal [("event", "rejected"); ("error", msg)].
Definition validating (stage : string) : string := literal [("event", "validating"); ("stage", stage)].

Definition mining_report_stream : handler := fun env req sys =>
  match req_body req with
  | Err _ => (sse_response [rejected "request body too large or invalid"], sys)
  | Ok text =>
      match read_mining_report text with
      | Err e => (sse_response [rejected ("invalid request: " +:+ unquote e)], sys)
      | Ok (preimage, terms) =>
          if negb terms then (sse_response [rejected "terms not accepted"], sys)
          else
            let '(r, sys) := submit_mining_report env preimage sys in
            (match r with
             | Ok d => sse_response [validating "pow"; validating "preimage"; validating "amounts";
                 "{" +:+ quoted "event" +:+ ":" +:+ quoted "accepted" +:+ "," +:+ quoted "difficulty_target"
                 +:+ ":" +:+ show_u64 d +:+ "}"]
             | Err e => sse_response [rejected (unquote e)]
             end, sys)
      end
  end.

Definition replace_handle : handler := post read_replace (fun '(webcashes, new_webcashes, terms) env sys =>
  if negb terms then (bad_request "terms must be accepted", sys)
  else if bool_decide (webcashes = []) then (bad_request "webcashes must not be empty", sys)
  else if bool_decide (new_webcashes = []) then (bad_request "new_webcashes must not be empty", sys)
  else
    let '(r, sys) := batcher_replace env webcashes new_webcashes sys in
    (match r with Ok _ => ok_status | Err e => bad_request e end, sys)).

Definition stats_handle : handler := fun _ _ sys =>
  let '(r, sys) := actor_call Db.get_stats sys in
  (match r with
   | Ok s => ok_json (json_text (JObject [
       ("circulation", JString (to_string (from_wats (es_total_circulation_wats s))));
       ("mining_reports", JUint (es_mining_reports_count s));
       ("difficulty_target_bits", JUint (es_difficulty_target_bits s));
       ("epoch", JUint (es_epoch s));
       ("mining_amount", JString (to_string (from_wats (es_mining_amount_wats s))));
       ("mining_subsidy_amount", JString (to_string (from_wats (es_subsidy_amount_wats s))))]))
   | Err e => internal_error e
   end, sys).

Definition target_handle : handler := fun _ _ sys =>
  (match get_target sys with
   | Ok t => ok_json (json_text (JObject [
       ("difficulty_target_bits", JUint (Legacy.ti_difficulty_target_bits t));
       ("epoch", JUint (Legacy.ti_epoch t));
       ("mining_amount", JString (to_string (Legacy.ti_mining_amount t)));
       ("mining_subsidy_amount", JString (to_string (Legacy.ti_mining_subsidy_amount t)));
       ("ratio", JFloat (Legacy.ti_ratio t))]))
   | Err e => internal_error e
   end, sys).

(** ** The router *)

(** [Cors(Timed(Logged(HandlerService)))]: the two in the middle only log. *)
Definition dispatch (h : handler) : handler := fun env req sys =>
  let '(r, sys) := h env req sys in (Cors (default "*" cors_origin) r, sys).

(** The handler of a method and a path; [None] is answered by [route]. *)
Definition handler_of (method path : string) : option handler :=
  if String.eqb method "GET" then
    if String.eqb path "/api/v1/target" then Some target_handle
    else if String.eqb path "/api/v1/stats" then Some stats_handle
    else if String.eqb path "/terms" || String.eqb path "/terms/text"
    then Some (fun _ req sys => (terms_handle (req_path req), sys))
    else None
  else if String.eqb method "POST" then
    if String.eqb path "/api/v1/mining_report" then Some mining_report_handle
    else if String.eqb path "/api/v1/mining_report/stream" then Some mining_report_stream
    else if String.eqb path "/api/v1/replace" then Some replace_handle
    else if String.eqb path "/api/v1/health_check" then Some health_check_handle
    else if String.eqb path "/api/v1/burn" then Some burn_handle
    else None
  else None.

Definition route : handler := fun env req sys =>
  if String.eqb (req_method req) "OPTIONS" then (json_response 204 EmptyString, sys)
  else match handler_of (req_method req) (req_path req) with
  | Some h => dispatch h env req sys
  | None =>
      if String.eqb (req_method req) "GET" && String.eqb (req_path req) "/api/v1/health"
      then (ok_json (literal [("status", "ok"); ("service", "webycash-server")]), sys)
      else (not_found, sys)
  end.
End Server.
End Api.
