(* ===== verification/LegacyApiFacts.v ===== *)
(** * The legacy server: what its answers mean

    Facts about [LegacyApi]: a confirmed replace over the Redis store, and the
    headers of the responses. *)
From S2P Require Import Prelude Decimal Amount External Parsers Tokens AssetCore Storage Redis RedisLedger Records Mining Auth Server LegacyProtocol LegacyStore LegacyReplace LegacyMiner LegacyMinerFacts LegacyRedis LegacyFleet LegacyApi.

Module ApiFacts.
Import Api.

Section Replace.
Context `{RedisLaws} `{Miner.Instants} `{Nom} `{Hashing} `{ServerJson} `{!Legacy.PreimageJson} `{LegacyJson}
  `{Serde MiningState} `{Serde Legacy.MiningState} `{Serde ReplacementRecord} `{Serde Db.ReplacementRecord}
  `{Serde BurnRecord} `{Serde Db.BurnRecord} {SA : SameAudit}
  (mode : Miner.NetworkMode) (cfg : Miner.MiningConfig) (origin : option string).
#[local] Existing Instance WebcashLegacyKeys.
#[local] Existing Instance WebcashAsset.asset.
#[local] Existing Instance webcash_hash_record.
#[local] Existing Instance LegacyRedisStore.

Lemma validated_wf now id ins outs v e :
  Replace.parse_and_validate_replace now id ins outs = Ok v ->
  Z.of_nat (length ins) <= 2 ^ 53 -> Z.of_nat (length outs) <= 2 ^ 53 ->
  legacy_wf (LReplace e (Replace.into_op v)).
Proof.
  intros (ss & ts & Hss & Hts & _ & _ & _ & ->)%Replace.validated_Ok Hi Ho. cbn.
  rewrite !length_map, <- (Forall2_length _ _ _ Hss), <- (Forall2_length _ _ _ Hts). split_and!; [done..|].
  apply Forall_fmap, Forall_true. by intros t.
Qed.

(** The batcher answers a request alone in its batch with the result of the
    store. *)
Lemma batcher_ok env ins outs sys sys' :
  tokens_typed unscoped (rview (store sys)) ->
  Z.of_nat (length ins) <= 2 ^ 53 -> Z.of_nat (length outs) <= 2 ^ 53 ->
  batcher_replace env ins outs sys = (Ok tt, sys') ->
  exists v, Replace.parse_and_validate_replace (at_now env) (new_ids env 0) ins outs = Ok v /\
    legacy_step (at_now env) (Replace.into_op v) (rview (store sys)) = (ReplaceOk, rview (store sys')) /\
    memory sys' = memory sys.
Proof.
  intros Ht Hi Ho. unfold batcher_replace. destruct (Replace.parse_and_validate_replace _ _ _ _) as [v|e] eqn:Ev; [|done].
  unfold Replace.run_batch. cbn [map].
  destruct (Db.batch_replace _ _ _) as [res st'] eqn:E. intros [= Er <-]. exists v. split; [done|]. split; [|done].
  destruct (Replace.batch_sequential _ _ _ _ _ ltac:(constructor; [by eapply validated_wf|constructor]) Ht E)
    as [Es|(m & n & -> & _)].
  - cbn [Replace.run_seq Replace.step_replace legacy_sequential] in Es.
    destruct (legacy_step _ _ _) as [r db']. injection Es as -> Ed. cbn in Er. destruct r; [|done].
    cbn [store with_store]. by rewrite <- Ed.
  - done.
Qed.

(** C21: when the legacy server confirms a replace over Redis, the terms were
    accepted, the texts read as secrets of positive amounts, the inputs add up
    to the outputs, every input hash was recorded and unspent and is now spent,
    every output hash was free and holds its record with the amount its text
    names, and no other token changed. *)
Theorem confirmed_replace env req sys ins outs terms text :
  req_method req = "POST" -> req_path req = "/api/v1/replace" ->
  req_body req = Ok text -> read_replace text = Ok (ins, outs, terms) ->
  tokens_typed unscoped (rview (store sys)) ->
  Z.of_nat (length ins) <= 2 ^ 53 -> Z.of_nat (length outs) <= 2 ^ 53 ->
  let r := route mode cfg origin env req sys in
  status r.1 = 200 ->
  exists ss ts, terms = true /\ Replace.read_positive ins ss /\ Replace.read_positive outs ts /\
    Replace.total_wats ss = Replace.total_wats ts /\
    (forall t, t ∈ ss -> exists rec,
       rview (store sys) !! legacy_key (Replace.hash_of t) = Some (RHash rec) /\ spent_hash rec = false /\
       rview (store r.2) !! legacy_key (Replace.hash_of t) = Some (RHash (mark_hash (to_rfc3339 (at_now env)) rec))) /\
    (forall t, t ∈ ts ->
       rview (store sys) !! legacy_key (Replace.hash_of t) = None /\
       rview (store r.2) !! legacy_key (Replace.hash_of t) =
         Some (RHash (webcash_to_fields (webcash_of (Replace.output_record (at_now env) t))))) /\
    (forall h, h ∉ map Replace.hash_of ss -> h ∉ map Replace.hash_of ts ->
       rview (store r.2) !! legacy_key h = rview (store sys) !! legacy_key h).
Proof.
  intros Em Ep Eb Er Ht Hi Ho r. subst r. unfold route, handler_of. rewrite Em, Ep. cbn [String.eqb Ascii.eqb Bool.eqb].
  unfold dispatch, replace_handle, post. rewrite Eb, Er. destruct terms; [|done]. cbn [negb].
  case_bool_decide; [done|]. case_bool_decide; [done|].
  destruct (batcher_replace env ins outs sys) as [r sys'] eqn:Ebr. destruct r as [[]|e]; [|done]. intros _. cbn [fst snd].
  apply batcher_ok in Ebr as (v & Ev & Es & _); [|done..].
  apply Replace.validated_Ok in Ev as (ss & ts & Hss & Hts & _ & Heq & _ & ->).
  apply legacy_step_commits in Es as (Hin & Hout & Hfr). cbn [Replace.into_op Db.ro_inputs Db.ro_outputs Replace.input_hashes Replace.output_records] in *.
  exists ss, ts. split_and!; [done..| | |].
  - intros t Hin'. apply Hin. by apply list_elem_of_fmap_2.
  - intros t Hin'. apply (Hout (Replace.output_record (at_now env) t)). by apply list_elem_of_fmap_2.
  - intros h Hni Hno. apply Hfr; [done|]. intros Hh. apply Hno.
    apply list_elem_of_fmap in Hh as (o & -> & (t & -> & Hx)%list_elem_of_fmap).
    exact (list_elem_of_fmap_2 Replace.hash_of _ _ Hx).
Qed.
End Replace.

(** ** Headers *)

Definition header (name : string) (r : HttpResponse) : option string :=
  snd <$> head (filter (fun p => p.1 = name) (headers r)).

Lemma header_insert_same k v hs : snd <$> head (filter (fun p => p.1 = k) (header_insert k v hs)) = Some v.
Proof.
  unfold header_insert. rewrite filter_app.
  assert (filter (fun p => p.1 = k) (filter (fun p => p.1 <> k) hs) = []) as ->.
  { induction hs as [|p hs IH]; [done|]. rewrite filter_cons. case_decide; [|done]. by rewrite filter_cons_False. }
  rewrite app_nil_l. by rewrite filter_cons_True.
Qed.

Lemma header_insert_other k k' v hs :
  k <> k' -> snd <$> head (filter (fun p => p.1 = k) (header_insert k' v hs)) = snd <$> head (filter (fun p => p.1 = k) hs).
Proof.
  intros Hk. unfold header_insert. rewrite filter_app. rewrite (filter_cons_False _ (k', v)) by (cbn; congruence).
  assert (filter (fun p => p.1 = k) (filter (fun p => p.1 <> k') hs) = filter (fun p => p.1 = k) hs) as ->.
  { induction hs as [|p hs IH]; [done|]. rewrite (filter_cons (fun p => p.1 <> k')). case_decide.
    - rewrite !filter_cons. by rewrite IH.
    - rewrite (filter_cons_False (fun p => p.1 = k)) by congruence. done. }
  by rewrite app_nil_r.
Qed.

Section Cors.
Context `{Miner.Instants} `{Nom} `{Hashing} `{ServerJson} `{!Legacy.PreimageJson} `{LegacyJson}
  {S : Type} `{!Db.LedgerStore S} (mode : Miner.NetworkMode) (cfg : Miner.MiningConfig) (origin : option string).

(** A response carries the configured origin exactly when its method and
    path name one of the dispatched handlers; the answer to a preflight, the
    health answer and the 404 carry none. *)
Theorem cors_exactly env req (sys : System) :
  header "access-control-allow-origin" (route mode cfg origin env req sys).1 =
  match handler_of mode cfg (req_method req) (req_path req) with
  | Some _ => if String.eqb (req_method req) "OPTIONS" then None else Some (default "*" origin)
  | None => None
  end.
Proof.
  unfold route. destruct (String.eqb (req_method req) "OPTIONS"); [by destruct (handler_of _ _ _ _)|].
  destruct (handler_of _ _ _ _) as [h|].
  - unfold dispatch. destruct (h env req sys) as [r sys']. cbn. unfold header. cbn.
    rewrite !header_insert_other by done. apply header_insert_same.
  - by destruct (_ && _).
Qed.
End Cors.
End ApiFacts.
