(* ===== verification/Ledger.v ===== *)
(** * The abstract ledger

    What the server needs of its store, whichever backend it runs on: a map
    from token keys to the fields of their records, on which a replace is one
    indivisible step.  [LedgerContract] is the promise of a backend that
    commits in transactions; the FoundationDB, DynamoDB and composite stores
    discharge it in [Fdb], [DynamoFacts] and [RedisFdb].  The Redis store does
    not (see [Redis.replace_rejects]).  [InsertContract] and [ReadContract] add
    that inserts only create and that reads see every earlier write, which
    DynamoDB does not give. *)
From S2P Require Import Prelude Decimal Amount External AssetCore Storage Redis Htlc Mining Records Conservation.

Notation fields := (gmap string string).
Notation ledger := (gmap string fields).

(** ** The steps *)

(** Why a step is refused, and for which token. *)
Inductive refusal := NotFound (k : string) | AlreadySpent (k : string) | AlreadyExists (k : string).

(** Marks one unspent token; nothing else can be marked. *)
Definition consume (now k : string) (l : ledger) : result refusal ledger :=
  match l !! k with
  | Some f => if spent_hash f then Err (AlreadySpent k) else Ok (<[k := mark_hash now f]> l)
  | None => Err (NotFound k)
  end.

Fixpoint consume_all (now : string) (ks : list string) (l : ledger) : result refusal ledger :=
  match ks with
  | [] => Ok l
  | k :: ks' => l1 ← consume now k l; consume_all now ks' l1
  end.

Definition create (e : string * fields) (l : ledger) : result refusal ledger :=
  match l !! e.1 with Some _ => Err (AlreadyExists e.1) | None => Ok (<[e.1 := e.2]> l) end.

Fixpoint create_all (outs : list (string * fields)) (l : ledger) : result refusal ledger :=
  match outs with
  | [] => Ok l
  | e :: outs' => l1 ← create e l; create_all outs' l1
  end.

(** All of a replace, or nothing of it. *)
Definition replace_ledger (now : string) (ins : list string) (outs : list (string * fields)) (l : ledger)
  : result refusal ledger := l1 ← consume_all now ins l; create_all outs l1.

(** What a check of a token answers. *)
Definition spent_of (l : ledger) (k : string) : option bool := spent_hash <$> l !! k.

(** ** What the steps do *)

Lemma consume_Ok now k l l' :
  consume now k l = Ok l' <->
  exists f, l !! k = Some f /\ spent_hash f = false /\ l' = <[k := mark_hash now f]> l.
Proof.
  unfold consume. destruct (l !! k) as [f|]; [|naive_solver].
  destruct (spent_hash f) eqn:E; split.
  - done.
  - intros (? & [= <-] & ? & _). congruence.
  - intros [= <-]. eauto.
  - by intros (? & [= <-] & _ & ->).
Qed.

Lemma create_Ok k f l l' : create (k, f) l = Ok l' <-> l !! k = None /\ l' = <[k := f]> l.
Proof. unfold create. simpl. destruct (l !! k); naive_solver. Qed.

Lemma spent_mark now f : spent_hash (mark_hash now f) = true.
Proof.
  unfold spent_hash, mark_hash. rewrite lookup_insert_ne, lookup_insert_eq by done.
  by apply bool_decide_eq_true.
Qed.

Record consumed (now : string) (ks : list string) (l l' : ledger) : Prop := {
  consumed_distinct : NoDup ks;
  consumed_marked : forall k, k ∈ ks -> exists f, l !! k = Some f /\ spent_hash f = false /\
    l' !! k = Some (mark_hash now f);
  consumed_frame : forall k, k ∉ ks -> l' !! k = l !! k;
}.

Lemma consume_all_Ok now ks l l' : consume_all now ks l = Ok l' -> consumed now ks l l'.
Proof.
  revert l. induction ks as [|k ks IH]; intros l; cbn [consume_all].
  { intros [= <-]. split; [constructor|set_solver|done]. }
  intros (l1 & E & Hr)%bind_Ok. apply consume_Ok in E as (f & Hf & Hs & ->).
  destruct (IH _ Hr) as [Hnd Hm Hfr].
  assert (k ∉ ks) as Hk.
  { intros Hk. destruct (Hm k Hk) as (g & Hg & Hu & _). rewrite lookup_insert_eq in Hg.
    injection Hg as <-. by rewrite spent_mark in Hu. }
  split.
  - by constructor.
  - intros j [->|Hj]%elem_of_cons.
    + exists f. split_and!; [done..|]. by rewrite Hfr, lookup_insert_eq.
    + destruct (Hm j Hj) as (g & Hg & Hu & Hl). rewrite lookup_insert_ne in Hg by set_solver. eauto.
  - intros j [Hne Hj]%not_elem_of_cons. by rewrite Hfr, lookup_insert_ne.
Qed.

Record created (outs : list (string * fields)) (l l' : ledger) : Prop := {
  created_distinct : NoDup outs.*1;
  created_fresh : forall k, k ∈ outs.*1 -> l !! k = None;
  created_stored : forall k f, (k, f) ∈ outs -> l' !! k = Some f;
  created_frame : forall k, k ∉ outs.*1 -> l' !! k = l !! k;
}.

Lemma create_all_Ok outs l l' : create_all outs l = Ok l' -> created outs l l'.
Proof.
  revert l. induction outs as [|[k f] outs IH]; intros l; cbn [create_all].
  { intros [= <-]. split; [constructor|set_solver|set_solver|done]. }
  intros (l1 & E & Hr)%bind_Ok. apply create_Ok in E as [Hn ->].
  destruct (IH _ Hr) as [Hnd Hf Hst Hfr].
  assert (k ∉ outs.*1) as Hk.
  { intros Hk. specialize (Hf k Hk). by rewrite lookup_insert_eq in Hf. }
  split; cbn.
  - by constructor.
  - intros j [->|Hj]%elem_of_cons; [done|]. specialize (Hf j Hj).
    rewrite lookup_insert_ne in Hf; [done|set_solver].
  - intros j g [[= -> ->]|Hj]%elem_of_cons; [by rewrite Hfr, lookup_insert_eq|by apply Hst].
  - intros j [Hne Hj]%not_elem_of_cons. by rewrite Hfr, lookup_insert_ne.
Qed.

Record replaced (now : string) (ins : list string) (outs : list (string * fields)) (l l' : ledger) : Prop := {
  replaced_ins : NoDup ins;
  replaced_outs : NoDup outs.*1;
  replaced_spent : forall k, k ∈ ins -> exists f, l !! k = Some f /\ spent_hash f = false /\
    l' !! k = Some (mark_hash now f);
  replaced_fresh : forall k, k ∈ outs.*1 -> l !! k = None;
  replaced_stored : forall k f, (k, f) ∈ outs -> l' !! k = Some f;
  replaced_frame : forall k, k ∉ ins -> k ∉ outs.*1 -> l' !! k = l !! k;
}.

Lemma replace_ledger_Ok now ins outs l l' :
  replace_ledger now ins outs l = Ok l' -> replaced now ins outs l l'.
Proof.
  intros (l1 & [Hni Hm Hf]%consume_all_Ok & [Hno Hfr Hst Hof]%create_all_Ok)%bind_Ok.
  assert (forall k, k ∈ outs.*1 -> k ∉ ins) as Hd.
  { intros k Hk Hi. destruct (Hm k Hi) as (f & _ & _ & E). by rewrite Hfr in E. }
  split; [done|done| | |done|].
  - intros k Hk. destruct (Hm k Hk) as (f & ? & ? & E). exists f. split_and!; [done..|].
    rewrite Hof; [done|]. intros Ho. by apply (Hd k).
  - intros k Hk. rewrite <- Hf; [by apply Hfr|by apply Hd].
  - intros k Hi Ho. by rewrite Hof, Hf.
Qed.

(** A step that does nothing when it is done again, or refuses. *)
Definition once (step : ledger -> result refusal ledger) : Prop :=
  forall l l1 l2, step l = Ok l1 -> step l1 = Ok l2 -> l2 = l1.

Lemma create_all_once outs : once (create_all outs).
Proof.
  intros l l1 l2 [_ _ Hst _]%create_all_Ok E. destruct outs as [|[k f] outs]; [by injection E as <-|].
  apply create_all_Ok in E as [_ Hf _ _]. specialize (Hf k). rewrite (Hst k f) in Hf by by left.
  discriminate Hf. by left.
Qed.

Lemma replace_ledger_once now ins outs : once (replace_ledger now ins outs).
Proof.
  intros l l1 l2 E1 E2. destruct ins as [|k ins].
  { exact (create_all_once outs l l1 l2 E1 E2). }
  apply replace_ledger_Ok in E1 as [_ _ Hs _ _ _], E2 as [_ _ Hs' _ _ _].
  destruct (Hs k) as (f & _ & _ & E); [by left|]. destruct (Hs' k) as (g & Eg & Hu & _); [by left|].
  rewrite E in Eg. injection Eg as <-. by rewrite spent_mark in Hu.
Qed.

Lemma consume_once now k : once (consume now k).
Proof.
  intros l l1 l2 (f & _ & _ & ->)%consume_Ok (g & Hg & Hu & _)%consume_Ok.
  rewrite lookup_insert_eq in Hg. injection Hg as <-. by rewrite spent_mark in Hu.
Qed.

(** A spent token stays spent. *)
Definition stays_spent (l l' : ledger) : Prop := forall k, spent_of l k = Some true -> spent_of l' k = Some true.

#[export] Instance stays_spent_preorder : PreOrder stays_spent.
Proof. split; [by intros l k|]. intros l1 l2 l3 H1 H2 k Hk. by apply H2, H1. Qed.

Lemma replaced_keeps_spent now ins outs l l' : replaced now ins outs l l' -> stays_spent l l'.
Proof.
  intros [_ _ Hs Hf _ Hfr] k. unfold spent_of.
  destruct (decide (k ∈ ins)) as [Hi|Hi]; [destruct (Hs k Hi) as (f & -> & E & _); intros [= Ht]; congruence|].
  destruct (decide (k ∈ outs.*1)) as [Ho|Ho]; [by rewrite (Hf k Ho)|by rewrite Hfr].
Qed.

Lemma consume_keeps_spent now k l l' : consume now k l = Ok l' -> stays_spent l l'.
Proof.
  intros (f & Hf & Hs & ->)%consume_Ok j Hj. unfold spent_of in *.
  destruct (decide (j = k)) as [->|Hne]; [|by rewrite lookup_insert_ne].
  rewrite lookup_insert_eq. simpl. by rewrite spent_mark.
Qed.

Lemma create_all_keeps_spent outs l l' : create_all outs l = Ok l' -> stays_spent l l'.
Proof.
  intros [_ Hf _ Hfr]%create_all_Ok k. unfold spent_of.
  destruct (decide (k ∈ outs.*1)) as [Ho|Ho]; [by rewrite (Hf k Ho)|by rewrite Hfr].
Qed.

(** ** The life of a token *)

(** Every recorded token is still recorded: unchanged, or unspent before and
    marked spent since. *)
Definition evolves (l l' : ledger) : Prop := forall k f, l !! k = Some f ->
  l' !! k = Some f \/ spent_hash f = false /\ exists now, l' !! k = Some (mark_hash now f).

#[export] Instance evolves_preorder : PreOrder evolves.
Proof.
  split; [by left|]. intros l1 l2 l3 H1 H2 k f E.
  destruct (H1 k f E) as [E2|(Hs & now & E2)].
  - exact (H2 k f E2).
  - right. split; [done|]. exists now. destruct (H2 k _ E2) as [E3|(Hs2 & _)]; [done|].
    by rewrite spent_mark in Hs2.
Qed.

Lemma replaced_evolves now ins outs l l' : replaced now ins outs l l' -> evolves l l'.
Proof.
  intros [_ _ Hs Hf _ Hfr] k f E. destruct (decide (k ∈ ins)) as [Hi|Hi].
  - destruct (Hs k Hi) as (g & Eg & Hu & E'). rewrite E in Eg. injection Eg as <-. right. eauto.
  - destruct (decide (k ∈ outs.*1)) as [Ho|Ho]; [by rewrite (Hf k Ho) in E|]. left. by rewrite Hfr.
Qed.

Lemma consume_evolves now k l l' : consume now k l = Ok l' -> evolves l l'.
Proof.
  intros (g & Hg & Hs & ->)%consume_Ok j f E. destruct (decide (j = k)) as [->|Hne].
  - rewrite E in Hg. injection Hg as <-. right. split; [done|]. exists now. by rewrite lookup_insert_eq.
  - left. by rewrite lookup_insert_ne.
Qed.

Lemma create_all_evolves outs l l' : create_all outs l = Ok l' -> evolves l l'.
Proof.
  intros [_ Hf _ Hfr]%create_all_Ok k f E. left.
  destruct (decide (k ∈ outs.*1)) as [Ho|Ho]; [by rewrite (Hf k Ho) in E|by rewrite Hfr].
Qed.

(** ** What a late read may see

    A service that keeps [past st], what it held after each call, the present
    included.  [lived R st l]: the present is the ledger [l], and everything in
    the past was a ledger that stands in [R] to it. *)
Section Lived.
Context {St V : Type} (view : St -> V) (past : St -> list V) (stands stood : V -> ledger -> Prop)
  (R : ledger -> ledger -> Prop).

Definition lived (st : St) (l : ledger) : Prop :=
  stands (view st) l /\ forall v, v ∈ past st -> exists l0, stood v l0 /\ R l0 l.

Lemma lived_step `{!PreOrder R} st st' l l' :
  (forall v l, stands v l -> stood v l) -> past st' = view st' :: past st ->
  lived st l -> stands (view st') l' -> R l l' -> lived st' l'.
Proof.
  intros Hw Hp [_ Hv] Hl Hr. split; [done|]. rewrite Hp. intros v [->|Hin]%elem_of_cons.
  - exists l'. split; [by apply Hw|done].
  - destruct (Hv v Hin) as (l0 & H0 & Hr0). exists l0. split; [done|]. by etrans.
Qed.
End Lived.

(** What a late read of a token may find next to the fields [f] recorded now:
    them, or those from before it was spent. *)
Definition earlier (f0 f : fields) : Prop :=
  f0 = f \/ spent_hash f0 = false /\ exists now, f = mark_hash now f0.

Lemma evolves_earlier l0 l k f0 : evolves l0 l -> l0 !! k = Some f0 -> exists f, l !! k = Some f /\ earlier f0 f.
Proof. intros He E. destruct (He k f0 E) as [E'|(Hu & now & E')]; eexists; split; [done|by left|done|right; eauto]. Qed.

Lemma earlier_spent f0 f : earlier f0 f -> spent_hash f0 = true -> spent_hash f = true.
Proof. intros [->|[Hu _]]; [done|congruence]. Qed.

(** ** The contract of a transactional backend *)

Section Contract.
Context `{Chrono} {A : Asset} `{!HashRecord Rec} {K : KeyStrategy}.
Implicit Types (op : ReplaceOp Rec) (ns : Namespace) (l : ledger).

(** The spent flag of a record, through its fields. *)
Definition flag_of (r : Rec) : bool := default false ((fun s => String.eqb s "1") <$> to_fields r !! "spent").

Lemma flag_of_spent (r : Rec) : flag_of r = spent_hash (to_fields r).
Proof.
  unfold flag_of, spent_hash. destruct (to_fields r !! "spent") as [s|]; [|done]. cbn [fmap option_fmap option_map default].
  destruct (String.eqb_spec s "1"); symmetry; [apply bool_decide_true|apply bool_decide_false]; congruence.
Qed.

Definition ledger_key ns (h : string) : string := token_key NAME ns h.
Definition ledger_ins ns op : list string := ledger_key ns <$> ro_inputs op.

(** A store writes an output under the key of the request's namespace, or
    under that of the record's own; [okey] says which. *)
Definition request_key ns (r : Rec) : string := ledger_key ns (record_hash r).
Definition own_key ns (r : Rec) : string := ledger_key (record_namespace r) (record_hash r).

Definition ledger_outs (okey : Namespace -> Rec -> string) ns op : list (string * fields) :=
  (fun o => (okey ns o, to_fields o)) <$> ro_outputs op.

Definition replace_op okey (now : DateTime) ns op l : result refusal ledger :=
  replace_ledger (to_rfc3339 now) (ledger_ins ns op) (ledger_outs okey ns op) l.

(** The entries an insert creates: always under the records' own keys. *)
Definition own_entry (r : Rec) : string * fields := (own_key (record_namespace r) r, to_fields r).

(** The answers of a batch and the ledger it leaves.  A success took effect;
    a failure had no effect, or, when the answer of the database was lost,
    all of its effect. *)
Inductive batch_answers okey (now : DateTime) ns : list (ReplaceOp Rec) -> list ReplaceResult -> ledger -> ledger -> Prop :=
  | answers_nil l : batch_answers okey now ns [] [] l l
  | answers_ok op ops rs l l1 l2 : replace_op okey now ns op l = Ok l1 ->
      batch_answers okey now ns ops rs l1 l2 -> batch_answers okey now ns (op :: ops) (ReplaceOk :: rs) l l2
  | answers_refused op ops m rs l l2 :
      batch_answers okey now ns ops rs l l2 -> batch_answers okey now ns (op :: ops) (ReplaceFailed m :: rs) l l2
  | answers_unknown op ops m rs l l1 l2 : replace_op okey now ns op l = Ok l1 ->
      batch_answers okey now ns ops rs l1 l2 -> batch_answers okey now ns (op :: ops) (ReplaceFailed m :: rs) l l2.

(** A batch of burns is done one by one up to the first failure. *)
Inductive burn_answers (now : DateTime) ns : list (string * BurnRecord) -> result string unit -> ledger -> ledger -> Prop :=
  | burns_nil l : burn_answers now ns [] (Ok tt) l l
  | burns_ok h b ops r l l1 l2 : consume (to_rfc3339 now) (ledger_key ns h) l = Ok l1 ->
      burn_answers now ns ops r l1 l2 -> burn_answers now ns ((h, b) :: ops) r l l2
  | burns_refused hb ops e l : burn_answers now ns (hb :: ops) (Err e) l l
  | burns_unknown h b ops e l l1 : consume (to_rfc3339 now) (ledger_key ns h) l = Ok l1 ->
      burn_answers now ns ((h, b) :: ops) (Err e) l l1.

(** The outputs belong to the namespace of the request. *)
Definition op_in ns op : Prop := Forall (fun o => record_namespace o = ns) (ro_outputs op).

Lemma own_outs ns op : op_in ns op -> ledger_outs own_key ns op = ledger_outs request_key ns op.
Proof.
  unfold op_in, ledger_outs. induction 1 as [|o os Ho _ IH]; [done|]. cbn. rewrite IH. unfold own_key, request_key. by rewrite Ho.
Qed.

Definition sound_check ns l (h : string) (answer : string * option bool) : Prop :=
  answer.1 = h /\ forall b, answer.2 = Some b -> spent_of l (ledger_key ns h) = Some b.

(** A token reported spent is spent; one reported unspent is recorded. *)
Definition careful_check ns l (h : string) (answer : string * option bool) : Prop :=
  answer.1 = h /\ forall b, answer.2 = Some b -> exists now, spent_of l (ledger_key ns h) = Some now /\
    (b = true -> now = true).

Lemma sound_careful ns l h a : sound_check ns l h a -> careful_check ns l h a.
Proof. intros [E Hs]. split; [done|]. intros b Hb. exists b. split; [by apply Hs|done]. Qed.

Class LedgerContract (S : Type) `{!LedgerStore Rec S} := {
  models : S -> ledger -> Prop;
  okey : Namespace -> Rec -> string;
  okey_in : forall ns r, record_namespace r = ns -> okey ns r = request_key ns r;
  contract_replace : forall now ns ops st l res st', models st l ->
    batch_replace now ns ops st = (res, st') ->
    exists l', models st' l' /\ batch_answers okey now ns ops res l l';
  contract_burn : forall now ns ops st l res st', models st l ->
    batch_burn now ns ops st = (res, st') ->
    exists l', models st' l' /\ burn_answers now ns ops res l l';
  contract_get : forall now ns hs st l res st', models st l ->
    get_tokens now ns hs st = (res, st') -> models st' l;
  contract_check : forall ns hs st l res st', models st l ->
    check_tokens ns hs st = (res, st') ->
    models st' l /\ forall out, res = Ok out -> Forall2 (careful_check ns l) hs out;
  contract_get_mining : forall st l res st', models st l ->
    get_mining_state st = (res, st') -> models st' l;
  contract_update_mining : forall s st l res st', models st l ->
    update_mining_state s st = (res, st') -> models st' l;
}.

(** A store whose reads see every write before them. *)
Class ReadContract (S : Type) `{!LedgerStore Rec S} {LC : LedgerContract S} : Prop := {
  contract_read : forall ns hs st l out st', models st l ->
    check_tokens ns hs st = (Ok out, st') -> Forall2 (sound_check ns l) hs out;
}.

(** A store whose inserts only ever create tokens, all of a batch or none. *)
Class InsertContract (S : Type) `{!LedgerStore Rec S} {LC : LedgerContract S} : Prop := {
  contract_insert : forall rs st l res st', models st l ->
    insert_tokens rs st = (res, st') ->
    exists l', models st' l' /\
      match res with
      | Ok _ => create_all (own_entry <$> rs) l = Ok l'
      | Err _ => l' = l \/ create_all (own_entry <$> rs) l = Ok l'
      end;
}.

Lemma batch_keeps_spent okey now ns ops rs l l' : batch_answers okey now ns ops rs l l' -> stays_spent l l'.
Proof.
  induction 1 as [l|op ops rs l l1 l2 E _ IH|op ops m rs l l2 _ IH|op ops m rs l l1 l2 E _ IH]; [done| |done|];
    (etrans; [|exact IH]); apply replace_ledger_Ok in E; by eapply replaced_keeps_spent.
Qed.

Lemma burns_keep_spent now ns ops r l l' : burn_answers now ns ops r l l' -> stays_spent l l'.
Proof.
  induction 1 as [l|h b ops r l l1 l2 E _ IH|hb ops e l|h b ops e l l1 E]; [done| |done|].
  - etrans; [|exact IH]. by eapply consume_keeps_spent.
  - by eapply consume_keeps_spent.
Qed.

Lemma batch_evolves okey now ns (ops : list (ReplaceOp Rec)) rs l l' : batch_answers okey now ns ops rs l l' -> evolves l l'.
Proof.
  induction 1 as [l|op ops rs l l1 l2 E _ IH|op ops m rs l l2 _ IH|op ops m rs l l1 l2 E _ IH]; [done| |done|];
    (etrans; [|exact IH]); apply replace_ledger_Ok in E; by eapply replaced_evolves.
Qed.

Lemma burns_evolve now ns ops r l l' : burn_answers now ns ops r l l' -> evolves l l'.
Proof.
  induction 1 as [l|h b ops r l l1 l2 E _ IH|hb ops e l|h b ops e l l1 E]; [done| |done|].
  - etrans; [|exact IH]. by eapply consume_evolves.
  - by eapply consume_evolves.
Qed.

Lemma answers_length okey now ns ops rs l l' : batch_answers okey now ns ops rs l l' -> length rs = length ops.
Proof. induction 1; simpl; congruence. Qed.
End Contract.

(** ** The shape of the fields

    What the DynamoDB store adds to [HashRecordLaws]: the flag is ["0"] or
    ["1"], no field is called as the partition key, and a record read back has
    the flag it was stored with. *)
Class FieldShape (R : Type) `{HashRecord R} : Prop := {
  fields_flag : forall r, exists b, to_fields r !! "spent" = Some (flag b);
  fields_no_pk : forall r, to_fields r !! "pk" = None;
  from_fields_flag : forall now h f r, from_fields now h f = Some r -> spent_hash (to_fields r) = spent_hash f;
}.

Lemma spent_field_hash f : spent_hash f = spent_field f.
Proof.
  unfold spent_hash, spent_field. destruct (f !! "spent") as [s|]; [|done]. cbn.
  destruct (String.eqb_spec s "1"); [apply bool_decide_true|apply bool_decide_false]; congruence.
Qed.

Lemma spent_flag_hash f b : f !! "spent" = Some (flag b) -> spent_hash f = b.
Proof. unfold spent_hash. intros ->. by destruct b. Qed.

(** Proves the three laws of one flavor from its codec. *)
Ltac shape :=
  split; simpl; unfold webcash_to_fields, voucher_to_fields, rgb_fungible_to_fields, rgb_collectible_to_fields;
  [ intros r; eexists; read_fields; reflexivity
  | intros r; read_fields; done
  | intros now h f r E;
    unfold webcash_from_fields, voucher_from_fields, rgb_fungible_from_fields, rgb_collectible_from_fields in E;
    repeat (apply bind_Some in E as (? & _ & E)); injection E as <-;
    rewrite (spent_field_hash f); apply spent_flag_hash; read_fields; reflexivity ].

Section Shapes.
Context `{Chrono} `{Serde HtlcState}.

#[export] Instance webcash_shape : FieldShape WebcashRecord.
Proof. shape. Qed.
#[export] Instance voucher_shape : FieldShape VoucherRecord.
Proof. shape. Qed.
#[export] Instance rgb_fungible_shape : FieldShape RgbFungibleRecord.
Proof. shape. Qed.
#[export] Instance rgb_collectible_shape : FieldShape RgbCollectibleRecord.
Proof. shape. Qed.
End Shapes.
