(* ===== verification/Fdb.v ===== *)
(** * The FoundationDB backend

    [FdbStore] ([crates/storage/src/fdb_backend.rs]).  A FoundationDB cluster
    is a parameter ([FdbService]): an opaque state and [db_run], which runs a
    closure over a transaction.  What the store relies on is [FdbLaws], the
    documented behaviour of [Database::run]: transactions are serializable, so
    a closure acts on the data at one instant; a closure that fails leaves no
    trace; and an attempt whose commit was not acknowledged may have taken
    effect and is run again.  The closures are computations over the data with
    an error that abandons the transaction. *)
From S2P Require Import Prelude Decimal Amount External AssetCore Storage Redis Records Conservation Ledger.

(** ** JSON values

    [serde_json::Value] with the operations the store applies to a stored
    record; a [Value] is written and read through serde like any type. *)
Class JsonTree := {
  jvalue : Type;
  jserde :: Serde jvalue;
  jget : jvalue -> string -> option jvalue;
  jas_bool : jvalue -> option bool;
  jis_object : jvalue -> bool;
  jinsert : string -> jvalue -> jvalue -> jvalue;
  JBool : bool -> jvalue;
  JString : string -> jvalue;
}.

Class JsonTreeLaws `{JsonTree} : Prop := {
  jserde_laws :: SerdeLaws jvalue;
  jget_insert : forall k x v, jis_object v = true -> jget (jinsert k x v) k = Some x;
  jis_object_insert : forall k x v, jis_object v = true -> jis_object (jinsert k x v) = true;
}.

(** ** Transactions *)

Notation fdb := (gmap string string).

Definition trx (T : Type) : Type := fdb -> result string T * fdb.

#[export] Instance trx_ret : MRet trx := fun T x d => (Ok x, d).
#[export] Instance trx_bind : MBind trx := fun T U f m d =>
  match m d with (Ok x, d') => f x d' | (Err e, d') => (Err e, d') end.

Definition trx_fail {T} (msg : string) : trx T := fun d => (Err msg, d).
Definition trx_get (key : string) : trx (option string) := fun d => (Ok (d !! key), d).
Definition trx_set (key value : string) : trx unit := fun d => (Ok tt, <[key := value]> d).

Inductive fdb_error := CustomError (msg : string) | FdbError (code : Z).

Class FdbService := {
  fstate : Type;
  pack : list string -> string;
  db_run : forall {T}, trx T -> fstate -> result fdb_error T * fstate;
  debug_fdb : fdb_error -> string;
}.

(** Attempts of one closure whose commits took effect without being
    acknowledged. *)
Inductive lost {T} (f : trx T) : fdb -> fdb -> Prop :=
  | lost_none d : lost f d d
  | lost_one d x d1 d2 : f d = (Ok x, d1) -> lost f d1 d2 -> lost f d d2.

Class FdbLaws `{FdbService} := {
  fview : fstate -> fdb;
  pack_inj : forall p q, pack p = pack q -> p = q;
  run_ok : forall T (f : trx T) st x st', db_run f st = (Ok x, st') ->
    exists d, lost f (fview st) d /\ f d = (Ok x, fview st');
  run_err : forall T (f : trx T) st e st', db_run f st = (Err e, st') ->
    lost f (fview st) (fview st') /\
    forall msg, e = CustomError msg -> (f (fview st')).1 = Err msg;
}.

Definition trx_get_json (T : Type) `{Serde T} (key : string) : trx (option T) :=
  slice ← trx_get key;
  match slice with
  | None => mret None
  | Some bytes => match from_json bytes with Ok val => mret (Some val) | Err e => trx_fail e end
  end.

Definition trx_set_json {T : Type} `{Serde T} (key : string) (value : T) : trx unit :=
  trx_set key (to_json value).

(** ** The store *)

Section Store.
Context `{FdbService} `{JsonTree} `{Chrono} {A : Asset} `{!HashRecord Rec} {K : KeyStrategy}
  `{Serde Rec} `{Serde ReplacementRecord} `{Serde BurnRecord} `{Serde MiningState}.

(** The subspaces [tokens], [mining] and [audit]. *)
Definition token_bytes (pk : string) : string := pack ["tokens"; pk].
Definition token_key_bytes (ns : Namespace) (h : string) : string := token_bytes (token_key NAME ns h).
Definition mining_state_key_bytes : string := pack ["mining"; mining_state_key NAME].
Definition audit_replace_key_bytes (ns : Namespace) (id : string) : string :=
  pack ["audit"; "replace"; replacement_key NAME ns id].
Definition audit_burn_key_bytes (ns : Namespace) (id : string) : string :=
  pack ["audit"; "burn"; burn_key NAME ns id].

Definition fdb_err (e : fdb_error) : string := "FoundationDB error: " +:+ debug_fdb e.

Definition run {T} (f : trx T) (st : fstate) : result string T * fstate :=
  let '(r, st') := db_run f st in (map_err fdb_err r, st').

(** Writes entries that must not exist yet. *)
Fixpoint put_new (taken : string) (entries : list (string * string)) : trx unit :=
  match entries with
  | [] => mret tt
  | (key, json) :: rest =>
      existing ← trx_get key;
      if decide (is_Some existing) then trx_fail taken
      else (_ ← trx_set key json; put_new taken rest)
  end.

Definition record_entry (r : Rec) : string * string :=
  (token_key_bytes (record_namespace r) (record_hash r), to_json r).

Definition fdb_insert_tokens (records : list Rec) (st : fstate) : result string unit * fstate :=
  match records with
  | [] => (Ok tt, st)
  | _ => run (put_new "token already exists" (map record_entry records)) st
  end.

Fixpoint read_all (keys : list string) : trx (list (option Rec)) :=
  match keys with
  | [] => mret []
  | k :: rest => r ← trx_get_json Rec k; rs ← read_all rest; mret (r :: rs)
  end.

Definition fdb_get_tokens (ns : Namespace) (hashes : list string) (st : fstate)
  : result string (list (option Rec)) * fstate :=
  match hashes with
  | [] => (Ok [], st)
  | _ => run (read_all (map (token_key_bytes ns) hashes)) st
  end.

Definition fdb_check_tokens (ns : Namespace) (hashes : list string) (st : fstate)
  : result string (list (string * option bool)) * fstate :=
  let '(r, st') := fdb_get_tokens ns hashes st in
  (tokens ← r; Ok (zip hashes (map (option_map flag_of) tokens)), st').

(** Sets [spent] and [spent_at] in the stored object. *)
Definition mark_json (now : string) (v : jvalue) : jvalue :=
  if jis_object v then jinsert "spent_at" (JString now) (jinsert "spent" (JBool true) v) else v.

(** The check of one stored record and its marking. *)
Definition spend_key (missing taken : string) (now key : string) : trx unit :=
  r ← trx_get_json jvalue key;
  match r with
  | None => trx_fail missing
  | Some v =>
      if default false (jget v "spent" ≫= jas_bool) then trx_fail taken
      else trx_set_json key (mark_json now v)
  end.

Fixpoint spend_inputs (now : string) (input_keys : list string) : trx unit :=
  match input_keys with
  | [] => mret tt
  | k :: rest => _ ← spend_key "input token not found" "input token already spent" now k; spend_inputs now rest
  end.

Definition replace_trx (now : DateTime) (ns : Namespace) (op : ReplaceOp Rec) : trx unit :=
  _ ← spend_inputs (to_rfc3339 now) (map (token_key_bytes ns) (ro_inputs op));
  _ ← put_new "output token already exists" (map record_entry (ro_outputs op));
  trx_set (audit_replace_key_bytes ns (rr_id (ro_record op))) (to_json (ro_record op)).

Definition fdb_exec_replace (now : DateTime) (ns : Namespace) (op : ReplaceOp Rec) (st : fstate)
  : result string unit * fstate := run (replace_trx now ns op) st.

Fixpoint fdb_batch_replace (now : DateTime) (ns : Namespace) (ops : list (ReplaceOp Rec)) (st : fstate)
  : list ReplaceResult * fstate :=
  match ops with
  | [] => ([], st)
  | op :: rest =>
      let '(r, st) := fdb_exec_replace now ns op st in
      let '(out, st) := fdb_batch_replace now ns rest st in
      (match r with Ok _ => ReplaceOk | Err e => ReplaceFailed e end :: out, st)
  end.

Definition burn_trx (now : DateTime) (ns : Namespace) (hash : string) (record : BurnRecord) : trx unit :=
  _ ← spend_key "token not found" "token already spent" (to_rfc3339 now) (token_key_bytes ns hash);
  trx_set (audit_burn_key_bytes ns (br_id record)) (to_json record).

Definition fdb_exec_burn (now : DateTime) (ns : Namespace) (hash : string) (record : BurnRecord) (st : fstate)
  : result string unit * fstate := run (burn_trx now ns hash record) st.

Fixpoint fdb_batch_burn (now : DateTime) (ns : Namespace) (ops : list (string * BurnRecord)) (st : fstate)
  : result string unit * fstate :=
  match ops with
  | [] => (Ok tt, st)
  | (hash, record) :: rest =>
      match fdb_exec_burn now ns hash record st with
      | (Ok _, st) => fdb_batch_burn now ns rest st
      | (Err e, st) => (Err e, st)
      end
  end.

Definition fdb_get_mining_state (st : fstate) : result string (option MiningState) * fstate :=
  run (trx_get_json MiningState mining_state_key_bytes) st.

Definition fdb_update_mining_state (state : MiningState) (st : fstate) : result string unit * fstate :=
  run (trx_set mining_state_key_bytes (to_json state)) st.

Definition FdbStore : LedgerStore Rec fstate := {|
  insert_tokens := fdb_insert_tokens;
  get_tokens _ := fdb_get_tokens;
  check_tokens := fdb_check_tokens;
  batch_replace := fdb_batch_replace;
  batch_burn := fdb_batch_burn;
  get_mining_state := fdb_get_mining_state;
  update_mining_state := fdb_update_mining_state;
|}.
End Store.

(** What [derive(Serialize, Deserialize)] gives a record: it is written as an
    object that reads back; the member [spent] is its flag; and an object whose
    [spent] and [spent_at] are set reads as the record with those two set. *)
Class RecordJsonLaws `{JsonTree} `{Chrono} {A : Asset} `{!HashRecord Rec} `{Serde Rec} : Prop := {
  json_of_record : forall r : Rec, exists v : jvalue, to_json r = to_json v /\ jis_object v = true /\
    from_json (T := Rec) (to_json v) = Ok r;
  json_spent : forall (v : jvalue) (r : Rec), jis_object v = true -> from_json (to_json v) = Ok r ->
    jget v "spent" ≫= jas_bool = Some (spent_hash (to_fields r));
  json_mark : forall now (v : jvalue) (r : Rec), jis_object v = true -> from_json (to_json v) = Ok r ->
    exists r' : Rec, from_json (to_json (mark_json (to_rfc3339 now) v)) = Ok r' /\
      to_fields r' = mark_hash (to_rfc3339 now) (to_fields r) /\
      record_hash r' = record_hash r /\ record_namespace r' = record_namespace r;
}.

(** ** The store implements the abstract ledger *)

Section Refinement.
Context `{FdbLaws} `{JsonTreeLaws} `{Chrono} {A : Asset} `{!HashRecord Rec} {K : KeyStrategy}
  `{Serde Rec} {RJ : RecordJsonLaws}
  `{Serde ReplacementRecord} `{Serde BurnRecord} `{Serde MiningState}.
Implicit Types (op : ReplaceOp Rec) (ns : Namespace) (d : fdb) (l : ledger).

(** The bytes of a record with the fields [f], stored under its own key. *)
Definition stored_as (bytes k : string) (f : fields) : Prop :=
  exists (v : jvalue) (r : Rec), bytes = to_json v /\ jis_object v = true /\
    from_json (to_json v) = Ok r /\ to_fields r = f /\
    token_key NAME (record_namespace r) (record_hash r) = k.

Definition fdb_models d l : Prop := forall k,
  match l !! k with
  | Some f => exists bytes, d !! token_bytes k = Some bytes /\ stored_as bytes k f
  | None => d !! token_bytes k = None
  end.

Lemma token_bytes_inj k k' : token_bytes k = token_bytes k' -> k = k'.
Proof. intros E%pack_inj. by simplify_eq. Qed.

Lemma models_insert d l k bytes f :
  fdb_models d l -> stored_as bytes k f -> fdb_models (<[token_bytes k := bytes]> d) (<[k := f]> l).
Proof.
  intros Hm Hs j. destruct (decide (j = k)) as [->|Hne].
  - rewrite !lookup_insert_eq. eauto.
  - rewrite lookup_insert_ne by done. specialize (Hm j).
    rewrite lookup_insert_ne by (intros E%token_bytes_inj; congruence). exact Hm.
Qed.

Lemma models_other d l p x : (forall k, p <> token_bytes k) -> fdb_models d l -> fdb_models (<[p := x]> d) l.
Proof. intros Hp Hm k. rewrite lookup_insert_ne by done. apply Hm. Qed.

Lemma audit_not_token ns id k : audit_replace_key_bytes ns id <> token_bytes k.
Proof. by intros E%pack_inj. Qed.
Lemma burn_not_token ns id k : audit_burn_key_bytes ns id <> token_bytes k.
Proof. by intros E%pack_inj. Qed.
Lemma mining_not_token k : mining_state_key_bytes <> token_bytes k.
Proof. by intros E%pack_inj. Qed.

Lemma trx_step {T U} (f : trx T) (g : T -> trx U) d :
  (f ≫= g) d = match f d with (Ok x, d') => g x d' | (Err e, d') => (Err e, d') end.
Proof. done. Qed.

(** A closure carries out a step of the ledger, and reports its refusals. *)
Definition carries_out (say : refusal -> string) (f : trx unit) (step : ledger -> result refusal ledger) : Prop :=
  forall d l, fdb_models d l ->
    match step l with
    | Ok l' => exists d', f d = (Ok tt, d') /\ fdb_models d' l'
    | Err r => (f d).1 = Err (say r)
    end.

Definition messages (missing taken exists_ : string) (r : refusal) : string :=
  match r with NotFound _ => missing | AlreadySpent _ => taken | AlreadyExists _ => exists_ end.

Lemma carries_bind say f g s s' :
  carries_out say f s -> carries_out say g s' -> carries_out say (f ≫= fun _ => g) (fun l => s l ≫= s').
Proof.
  intros Hf Hg d l Hm. specialize (Hf d l Hm). rewrite trx_step.
  destruct (s l) as [l1|r]; cbn [mbind result_bind].
  - destruct Hf as (d1 & -> & Hm1). exact (Hg d1 l1 Hm1).
  - destruct (f d) as [[]]; cbn in *; congruence.
Qed.

Lemma carries_ret say : carries_out say (mret tt) Ok.
Proof. intros d l Hm. by exists d. Qed.

Lemma carries_set say p x : (forall k, p <> token_bytes k) -> carries_out say (trx_set p x) Ok.
Proof. intros Hp d l Hm. eexists. split; [done|]. by apply models_other. Qed.

Lemma carries_spend missing taken exists_ now k :
  carries_out (messages missing taken exists_) (spend_key missing taken (to_rfc3339 now) (token_bytes k))
    (consume (to_rfc3339 now) k).
Proof.
  intros d l Hm. pose proof (Hm k) as Hk. unfold consume, spend_key, trx_get_json.
  rewrite !trx_step. unfold trx_get. destruct (l !! k) as [f|].
  - destruct Hk as (bytes & -> & v & r & -> & Hv & Hr & <- & Hkey).
    rewrite from_to_json. cbn [mret trx_ret]. rewrite (json_spent v r Hv Hr). cbn [default from_option id].
    destruct (spent_hash (to_fields r)); [done|].
    eexists. split; [reflexivity|].
    destruct (json_mark now v r Hv Hr) as (r' & Hr' & Hf & Hh & Hn).
    apply models_insert; [done|]. exists (mark_json (to_rfc3339 now) v), r'. split_and!; try done.
    + unfold mark_json. rewrite Hv. by do 2 apply jis_object_insert.
    + by rewrite Hn, Hh.
  - rewrite Hk. done.
Qed.

Lemma carries_spend_all now ns (hs : list string) exists_ :
  carries_out (messages "input token not found" "input token already spent" exists_)
    (spend_inputs (to_rfc3339 now) (map (token_key_bytes ns) hs))
    (consume_all (to_rfc3339 now) (ledger_key ns <$> hs)).
Proof.
  induction hs as [|h hs IH]; [apply carries_ret|].
  apply (carries_bind _ _ _ _ _ (carries_spend _ _ _ now (ledger_key ns h)) IH).
Qed.

Lemma record_stored (r : Rec) : stored_as (to_json r) (own_entry r).1 (to_fields r).
Proof. destruct (json_of_record r) as (v & -> & Hv & Hr). exists v, r. split_and!; done. Qed.

Lemma carries_put missing taken exists_ (rs : list Rec) :
  carries_out (messages missing taken exists_) (put_new exists_ (map record_entry rs)) (create_all (own_entry <$> rs)).
Proof.
  induction rs as [|r rs IH]; [apply carries_ret|]. intros d l Hm. pose proof (Hm (own_entry r).1) as Hk.
  cbn [fmap list_fmap create_all map put_new record_entry]. unfold create. cbn [own_entry fst snd] in *.
  rewrite trx_step. unfold trx_get.
  change (token_key_bytes (record_namespace r) (record_hash r)) with (token_bytes (own_key (record_namespace r) r)).
  destruct (l !! own_key (record_namespace r) r) as [f|]; cbn [result_bind].
  - destruct Hk as (bytes & -> & _). by rewrite decide_True by by eexists.
  - rewrite Hk. rewrite decide_False by by intros []. apply (IH _ _ (models_insert _ _ _ _ _ Hm (record_stored r))).
Qed.

(** ** Running a closure *)

Lemma lost_step say f step d d' l :
  carries_out say f step -> once step -> lost f d d' -> fdb_models d l ->
  exists l', fdb_models d' l' /\ (l' = l \/ step l = Ok l').
Proof.
  intros Hc Ho Hl. revert l. induction Hl as [d|d x d1 d2 E _ IH]; intros l Hm; [eauto|].
  specialize (Hc d l Hm). destruct (step l) as [l1|r] eqn:Es; [|by rewrite E in Hc].
  destruct Hc as (d1' & Ec & Hm1). rewrite E in Ec. injection Ec as -> <-.
  destruct (IH l1 Hm1) as (l' & Hm' & [->|Hs]); [eauto|]. exists l'. split; [done|]. right.
  by rewrite (Ho l l1 l' Es Hs).
Qed.

(** What a caller of [run] learns: a success is the step, done once; after an
    error the step was done or not, and an error of the closure names what
    now stands against it. *)
Definition run_post (say : refusal -> string) (step : ledger -> result refusal ledger) l
    (res : result string unit) l' : Prop :=
  match res with
  | Ok _ => step l = Ok l'
  | Err m => (l' = l \/ step l = Ok l') /\
      exists e, m = fdb_err e /\ forall msg, e = CustomError msg -> exists r, step l' = Err r /\ msg = say r
  end.

Lemma run_carries say f step st l res st' :
  carries_out say f step -> once step -> fdb_models (fview st) l -> run f st = (res, st') ->
  exists l', fdb_models (fview st') l' /\ run_post say step l res l'.
Proof.
  intros Hc Ho Hm. unfold run. destruct (db_run f st) as [[x|e] st1] eqn:E; cbn; intros [= <- <-].
  - apply run_ok in E as (d & Hl & Ef). destruct (lost_step _ _ _ _ _ _ Hc Ho Hl Hm) as (l' & Hm' & Hcase).
    specialize (Hc d l' Hm'). destruct (step l') as [l2|r] eqn:Es; [|by rewrite Ef in Hc].
    destruct Hc as (d2 & Ec & Hm2). rewrite Ef in Ec. injection Ec as -> <-.
    exists l2. split; [done|]. cbn. destruct Hcase as [->|Hs]; [done|]. by rewrite (Ho l l' l2 Hs Es).
  - apply run_err in E as [Hl Hmsg]. destruct (lost_step _ _ _ _ _ _ Hc Ho Hl Hm) as (l' & Hm' & Hcase).
    exists l'. split; [done|]. split; [done|]. exists e. split; [done|]. intros msg Hme.
    specialize (Hc _ l' Hm'). rewrite (Hmsg msg Hme) in Hc. destruct (step l') as [l2|r].
    + destruct Hc as (d' & Ed & _). specialize (Hmsg msg Hme). by rewrite Ed in Hmsg.
    + exists r. split; [done|]. congruence.
Qed.

Lemma result_bind_ret {E T} (m : result E T) : m ≫= Ok = m.
Proof. by destruct m. Qed.

Definition replace_messages : refusal -> string :=
  messages "input token not found" "input token already spent" "output token already exists".

Lemma carries_replace now ns op :
  carries_out replace_messages (replace_trx now ns op) (replace_op own_key now ns op).
Proof.
  intros d l Hm. unfold replace_op, replace_ledger.
  change (ledger_outs own_key ns op) with (own_entry <$> ro_outputs op).
  pose proof (carries_bind _ _ _ _ _ (carries_spend_all now ns (ro_inputs op) "output token already exists")
    (carries_bind _ _ _ _ _ (carries_put _ _ _ (ro_outputs op))
      (carries_set replace_messages _ (to_json (ro_record op)) (audit_not_token ns (rr_id (ro_record op)))))) as Hc.
  specialize (Hc d l Hm). cbn beta in Hc. unfold mbind at 4, result_bind in Hc.
  destruct (consume_all _ _ l) as [l1|r]; cbn [mbind result_bind] in *; [|exact Hc].
  destruct (create_all _ l1); exact Hc.
Qed.

Lemma carries_burn now ns (h : string) (b : BurnRecord) :
  carries_out (messages "token not found" "token already spent" EmptyString) (burn_trx now ns h b)
    (consume (to_rfc3339 now) (ledger_key ns h)).
Proof.
  intros d l Hm. pose proof (carries_bind _ _ _ _ _ (carries_spend "token not found" "token already spent" EmptyString now (ledger_key ns h))
    (carries_set _ _ (to_json b) (burn_not_token ns (br_id b))) d l Hm) as Hc. cbn beta in Hc.
  destruct (consume _ _ l); exact Hc.
Qed.

(** ** Writes *)

(** C10: a replace on the FoundationDB store refines the abstract ledger, commits
    that were never acknowledged included: a success is one atomic replace with
    its audit entry; after an error the replace was carried out once or not at
    all, and an error of the transaction names a token that now stands against
    it. *)
Theorem fdb_replace_refines now ns op st l res st' :
  fdb_models (fview st) l -> fdb_exec_replace now ns op st = (res, st') ->
  exists l', fdb_models (fview st') l' /\ run_post replace_messages (replace_op own_key now ns op) l res l' /\
    (res = Ok tt -> fview st' !! audit_replace_key_bytes ns (rr_id (ro_record op)) = Some (to_json (ro_record op))).
Proof.
  intros Hm E. destruct (run_carries _ _ _ _ _ _ _ (carries_replace now ns op)
    (replace_ledger_once _ _ _) Hm E) as (l' & Hm' & Hp).
  exists l'. split_and!; [done..|]. intros ->. unfold fdb_exec_replace, run in E.
  destruct (db_run _ st) as [[x|e] st1] eqn:Er; cbn in E; [|done]. injection E as _ <-.
  apply run_ok in Er as (d & _ & Ef). unfold replace_trx in Ef. rewrite !trx_step in Ef.
  destruct (spend_inputs _ _ d) as [[] d1]; [|done]. rewrite trx_step in Ef.
  destruct (put_new _ _ d1) as [[] d2]; [|done]. injection Ef as _ <-. apply lookup_insert_eq.
Qed.

(** An insert is all or nothing, and refuses a taken key. *)
Lemma fdb_insert_refines (records : list Rec) st l res st' :
  fdb_models (fview st) l -> fdb_insert_tokens records st = (res, st') ->
  exists l', fdb_models (fview st') l' /\
    run_post (messages EmptyString EmptyString "token already exists") (create_all (own_entry <$> records)) l res l'.
Proof.
  intros Hm. unfold fdb_insert_tokens. destruct records as [|r records].
  { intros [= <- <-]. by exists l. }
  apply run_carries; [apply carries_put|apply create_all_once|done].
Qed.

Lemma fdb_batch_answers now ns (ops : list (ReplaceOp Rec)) st l res st' :
  fdb_models (fview st) l -> fdb_batch_replace now ns ops st = (res, st') ->
  exists l', fdb_models (fview st') l' /\ batch_answers own_key now ns ops res l l'.
Proof.
  revert st l res. induction ops as [|op ops IH]; intros st l res Hm; cbn [fdb_batch_replace].
  { intros [= <- <-]. exists l. split; [done|constructor]. }
  destruct (fdb_exec_replace now ns op st) as [r st1] eqn:E.
  destruct (fdb_batch_replace now ns ops st1) as [out st2] eqn:E2. intros [= <- <-].
  destruct (run_carries _ _ _ _ _ _ _ (carries_replace now ns op)
    (replace_ledger_once _ _ _) Hm E) as (l1 & Hm1 & Hp).
  destruct (IH _ _ _ Hm1 E2) as (l2 & Hm2 & Ha). exists l2. split; [done|].
  destruct r as [x|e]; cbn in Hp; [by eapply answers_ok|].
  destruct Hp as [[->|Hs] _]; [by apply answers_refused|by eapply answers_unknown].
Qed.

Lemma fdb_burn_answers now ns (ops : list (string * BurnRecord)) st l res st' :
  fdb_models (fview st) l -> fdb_batch_burn now ns ops st = (res, st') ->
  exists l', fdb_models (fview st') l' /\ burn_answers now ns ops res l l'.
Proof.
  revert st l. induction ops as [|[h b] ops IH]; intros st l Hm; cbn [fdb_batch_burn].
  { intros [= <- <-]. exists l. split; [done|constructor]. }
  destruct (fdb_exec_burn now ns h b st) as [r st1] eqn:E.
  destruct (run_carries _ _ _ _ _ _ _ (carries_burn now ns h b) (consume_once _ _) Hm E) as (l1 & Hm1 & Hp).
  destruct r as [x|e]; cbn in Hp.
  - intros E2. destruct (IH _ _ Hm1 E2) as (l2 & Hm2 & Ha). exists l2. split; [done|]. by eapply burns_ok.
  - intros [= <- <-]. exists l1. split; [done|].
    destruct Hp as [[->|Hs] _]; [constructor|by eapply burns_unknown].
Qed.

(** ** Reads *)

(** The record a read gives for a key of the ledger. *)
Definition reads_as ns l (h : string) (o : option Rec) : Prop :=
  match l !! ledger_key ns h with
  | Some f => exists r, o = Some r /\ to_fields r = f /\
      token_key NAME (record_namespace r) (record_hash r) = ledger_key ns h
  | None => o = None
  end.

Lemma read_all_models ns (hs : list string) d l :
  fdb_models d l -> exists rs, read_all (map (token_key_bytes ns) hs) d = (Ok rs, d) /\ Forall2 (reads_as ns l) hs rs.
Proof.
  intros Hm. induction hs as [|h hs (rs & E & Hrs)]; cbn [map read_all]; [eauto|].
  rewrite trx_step. pose proof (Hm (ledger_key ns h)) as Hk.
  assert (exists o, trx_get_json Rec (token_key_bytes ns h) d = (Ok o, d) /\ reads_as ns l h o) as (o & Eo & Ho).
  { unfold reads_as, trx_get_json, token_key_bytes. rewrite trx_step. unfold trx_get.
    change (token_key NAME ns h) with (ledger_key ns h).
    destruct (l !! ledger_key ns h) as [f|].
    - destruct Hk as (bytes & -> & v & r & -> & _ & Hr & Hf & Hk). rewrite Hr. exists (Some r). split; [done|]. eauto.
    - rewrite Hk. eauto. }
  rewrite Eo, trx_step, E. exists (o :: rs). split; [done|]. by constructor.
Qed.

Lemma lost_pure {T} (f : trx T) d d' : (forall r, f d = r -> r.2 = d) -> lost f d d' -> d' = d.
Proof.
  intros Hp Hl. revert Hp. induction Hl as [d|d x d1 d2 E _ IH]; intros Hp; [done|].
  pose proof (Hp _ E) as Hd. cbn in Hd. subst d1. by apply IH.
Qed.

(** Reads change nothing and give, in order, the recorded tokens. *)
Lemma fdb_reads_exact ns hs st l :
  fdb_models (fview st) l ->
  (forall res st', fdb_get_tokens ns hs st = (res, st') ->
     fview st' = fview st /\ forall out, res = Ok out -> Forall2 (reads_as ns l) hs out) /\
  (forall res st', fdb_check_tokens ns hs st = (res, st') ->
     fview st' = fview st /\ forall out, res = Ok out ->
       out = (fun h => (h, spent_of l (ledger_key ns h))) <$> hs).
Proof.
  intros Hm.
  assert (forall res st', fdb_get_tokens ns hs st = (res, st') ->
     fview st' = fview st /\ forall out, res = Ok out -> Forall2 (reads_as ns l) hs out) as Hget.
  { intros res st'. unfold fdb_get_tokens. destruct hs as [|h0 hs0] eqn:Eh.
    { intros [= <- <-]. split; [done|]. by intros out [= <-]. }
    rewrite <- Eh. unfold run. destruct (read_all_models ns hs _ l Hm) as (rs & Er & Hrs).
    assert (forall d', lost (read_all (map (token_key_bytes ns) hs)) (fview st) d' -> d' = fview st) as Hpure.
    { intros d' Hl. eapply lost_pure; [|exact Hl]. intros r <-. by rewrite Er. }
    destruct (db_run _ st) as [[x|e] st1] eqn:E; intros [= <- <-].
    - apply run_ok in E as (d & ->%Hpure & Ef). rewrite Er in Ef. injection Ef as <- ->.
      split; [done|]. by intros out [= <-].
    - apply run_err in E as [->%Hpure _]. done. }
  split; [exact Hget|]. intros res st'. unfold fdb_check_tokens.
  destruct (fdb_get_tokens ns hs st) as [r st1] eqn:E. intros [= <- <-].
  destruct (Hget _ _ eq_refl) as [Hv Ho]. split; [done|]. intros out (tokens & -> & [= <-])%bind_Ok.
  specialize (Ho _ eq_refl). clear -Ho. induction Ho as [|h o hs os Ho _ IH]; [done|]. cbn. rewrite IH. f_equal. f_equal.
  unfold reads_as, spent_of in *. destruct (l !! ledger_key ns h) as [f|]; [|by subst].
  destruct Ho as (r & -> & <- & _). cbn. by rewrite flag_of_spent.
Qed.

Lemma fdb_get_mining_view st res st' : fdb_get_mining_state st = (res, st') -> fview st' = fview st.
Proof.
  unfold fdb_get_mining_state, run. set (f := trx_get_json MiningState mining_state_key_bytes).
  assert (forall d r, f d = r -> r.2 = d) as Hp.
  { intros d r <-. unfold f, trx_get_json. rewrite trx_step. unfold trx_get.
    destruct (d !! _) as [b|]; [|done]. by destruct (from_json b). }
  destruct (db_run f st) as [[x|e] st1] eqn:E; intros [= _ <-].
  - apply run_ok in E as (d & Hl & Ef). rewrite (lost_pure _ _ _ (Hp _) Hl) in Ef. exact (Hp _ _ Ef).
  - apply run_err in E as [Hl _]. by eapply lost_pure; [apply Hp|].
Qed.

Lemma fdb_update_mining_models (s : MiningState) st l res st' :
  fdb_models (fview st) l -> fdb_update_mining_state s st = (res, st') -> fdb_models (fview st') l.
Proof.
  intros Hm E. destruct (run_carries (fun _ => EmptyString) _ Ok st l res st'
    (carries_set _ _ _ mining_not_token) ltac:(by intros ? ? ? [= <-] [= <-]) Hm E) as (l' & Hm' & Hp).
  destruct res; cbn in Hp; [by injection Hp as <-|]. by destruct Hp as [[->|[= <-]] _].
Qed.

Lemma exact_checks ns hs l : Forall2 (sound_check ns l) hs ((fun h => (h, spent_of l (ledger_key ns h))) <$> hs).
Proof. induction hs as [|h hs IH]; constructor; [|done]. split; [done|]. by intros b. Qed.

#[export] Instance fdb_contract : @LedgerContract _ _ _ _ fstate FdbStore.
Proof.
  refine {| models := fun st l => fdb_models (fview st) l; okey := own_key |}.
  - intros ns r <-. done.
  - intros now ns ops st l res st'. apply fdb_batch_answers.
  - intros now ns ops st l res st'. apply fdb_burn_answers.
  - intros now ns hs st l res st' Hm E. destruct (fdb_reads_exact ns hs st l Hm) as [Hg _].
    by destruct (Hg _ _ E) as [-> _].
  - intros ns hs st l res st' Hm E. destruct (fdb_reads_exact ns hs st l Hm) as [_ Hc].
    destruct (Hc _ _ E) as [-> Ho]. split; [done|]. intros out ->%Ho.
    eapply Forall2_impl; [apply exact_checks|]. intros h a. apply sound_careful.
  - intros st l res st' Hm E. by rewrite (fdb_get_mining_view _ _ _ E).
  - intros s st l res st' Hm E. exact (fdb_update_mining_models _ _ _ _ _ Hm E).
Defined.

#[export] Instance fdb_reads : @ReadContract _ _ _ _ fstate FdbStore fdb_contract.
Proof.
  split. intros ns hs st l out st' Hm E. destruct (fdb_reads_exact ns hs st l Hm) as [_ Hc].
  destruct (Hc _ _ E) as [_ Ho]. rewrite (Ho out eq_refl). apply exact_checks.
Qed.

#[export] Instance fdb_inserts : @InsertContract _ _ _ _ fstate FdbStore fdb_contract.
Proof.
  split. intros rs st l res st' Hm E. destruct (fdb_insert_refines rs st l res st' Hm E) as (l' & Hm' & Hp).
  exists l'. split; [done|]. destruct res; [done|apply Hp].
Qed.
End Refinement.
