(* ===== verification/RedisFdb.v ===== *)
(** * The composite Redis + FoundationDB backend

    [RedisFdbStore] ([crates/storage/src/redis_fdb_backend.rs]) over any two
    stores: writes go to FoundationDB and then, best effort, to Redis; reads of
    records and of the mining state try Redis first.  The composite keeps the
    contract of its durable half whatever its cache does. *)
From S2P Require Import Prelude Decimal Amount External AssetCore Storage Redis Records Conservation Ledger.

Record RedisFdbState (Sr Sf : Type) := mk_state { redis : Sr; durable : Sf }.
Arguments mk_state {_ _} _ _.
Arguments redis {_ _} _.
Arguments durable {_ _} _.

Section Store.
Context `{Chrono} {A : Asset} {Sr Sf : Type} (R : LedgerStore Rec Sr) (F : LedgerStore Rec Sf).
Implicit Types (st : RedisFdbState Sr Sf).

(** One call of a half: its answer, and the state it leaves. *)
Definition on_redis {T} (m : Sr -> T * Sr) st : T * RedisFdbState Sr Sf :=
  let '(x, r) := m (redis st) in (x, mk_state r (durable st)).
Definition on_fdb {T} (m : Sf -> T * Sf) st : T * RedisFdbState Sr Sf :=
  let '(x, f) := m (durable st) in (x, mk_state (redis st) f).

Definition rf_insert_tokens (records : list Rec) st : result string unit * RedisFdbState Sr Sf :=
  match on_fdb (insert_tokens (LedgerStore := F) records) st with
  | (Err e, st) => (Err e, st)
  | (Ok _, st) => let '(_, st) := on_redis (insert_tokens (LedgerStore := R) records) st in (Ok tt, st)
  end.

Definition rf_get_tokens (now : DateTime) (ns : Namespace) (hashes : list string) st
  : result string (list (option Rec)) * RedisFdbState Sr Sf :=
  let '(r, st) := on_redis (get_tokens (LedgerStore := R) now ns hashes) st in
  let cached := default [] (result_ok r) in
  if forallb (fun t => bool_decide (is_Some t)) cached && (length cached =? length hashes)%nat
  then (Ok cached, st)
  else
    match on_fdb (get_tokens (LedgerStore := F) now ns hashes) st with
    | (Err e, st) => (Err e, st)
    | (Ok from_fdb, st) =>
        match omap id from_fdb with
        | [] => (Ok from_fdb, st)
        | to_warm => let '(_, st) := on_redis (insert_tokens (LedgerStore := R) to_warm) st in (Ok from_fdb, st)
        end
    end.

Definition rf_check_tokens (ns : Namespace) (hashes : list string) st
  : result string (list (string * option bool)) * RedisFdbState Sr Sf :=
  on_fdb (check_tokens (LedgerStore := F) ns hashes) st.

(** The outputs of the successful replaces go to the cache; the inputs are not
    touched there. *)
Fixpoint cache_outputs (l : list (ReplaceOp Rec * ReplaceResult)) st : RedisFdbState Sr Sf :=
  match l with
  | [] => st
  | (op, ReplaceOk) :: rest =>
      let '(_, st) := on_redis (insert_tokens (LedgerStore := R) (ro_outputs op)) st in cache_outputs rest st
  | (_, ReplaceFailed _) :: rest => cache_outputs rest st
  end.

Definition rf_batch_replace (now : DateTime) (ns : Namespace) (ops : list (ReplaceOp Rec)) st
  : list ReplaceResult * RedisFdbState Sr Sf :=
  let '(results, st) := on_fdb (batch_replace (LedgerStore := F) now ns ops) st in
  (results, cache_outputs (zip ops results) st).

Definition rf_batch_burn (now : DateTime) (ns : Namespace) (ops : list (string * BurnRecord)) st
  : result string unit * RedisFdbState Sr Sf := on_fdb (batch_burn (LedgerStore := F) now ns ops) st.

Definition rf_get_mining_state st : result string (option MiningState) * RedisFdbState Sr Sf :=
  match on_redis (get_mining_state (LedgerStore := R)) st with
  | (Ok (Some s), st) => (Ok (Some s), st)
  | (_, st) => on_fdb (get_mining_state (LedgerStore := F)) st
  end.

Definition rf_update_mining_state (state : MiningState) st : result string unit * RedisFdbState Sr Sf :=
  match on_fdb (update_mining_state (LedgerStore := F) state) st with
  | (Err e, st) => (Err e, st)
  | (Ok _, st) => let '(_, st) := on_redis (update_mining_state (LedgerStore := R) state) st in (Ok tt, st)
  end.

Definition RedisFdbStore : LedgerStore Rec (RedisFdbState Sr Sf) := {|
  insert_tokens := rf_insert_tokens;
  get_tokens := rf_get_tokens;
  check_tokens := rf_check_tokens;
  batch_replace := rf_batch_replace;
  batch_burn := rf_batch_burn;
  get_mining_state := rf_get_mining_state;
  update_mining_state := rf_update_mining_state;
|}.
End Store.

Section Contract.
Context `{Chrono} {A : Asset} `{!HashRecord Rec} {K : KeyStrategy} {Sr Sf : Type}
  (R : LedgerStore Rec Sr) (F : LedgerStore Rec Sf).
Implicit Types (st : RedisFdbState Sr Sf).

Lemma on_fdb_eq {T} (m : Sf -> T * Sf) st : on_fdb m st = ((m (durable st)).1, mk_state (redis st) (m (durable st)).2).
Proof. unfold on_fdb. by destruct (m (durable st)). Qed.

Lemma on_redis_durable {T} (m : Sr -> T * Sr) st x st' : on_redis m st = (x, st') -> durable st' = durable st.
Proof. unfold on_redis. destruct (m (redis st)). by intros [= _ <-]. Qed.

Lemma cache_outputs_durable l st : durable (cache_outputs R l st) = durable st.
Proof.
  revert st. induction l as [|[op []] l IH]; intros st; cbn; [done| |apply IH].
  destruct (on_redis _ st) as [x st1] eqn:E. rewrite IH. by eapply on_redis_durable.
Qed.

(** A read of records is answered whole by the cache, when it holds one
    record per hash, or whole by the durable store. *)
Lemma rf_get_durable now ns hs st res st' :
  rf_get_tokens R F now ns hs st = (res, st') ->
  durable st' = durable st \/
  durable st' = (get_tokens (LedgerStore := F) now ns hs (durable st)).2.
Proof.
  unfold rf_get_tokens. destruct (on_redis _ st) as [r st1] eqn:E. apply on_redis_durable in E.
  destruct (_ && _); [intros [= _ <-]; auto|]. rewrite on_fdb_eq, E.
  destruct (get_tokens now ns hs (durable st)) as [[from|e] d]; cbn; [|intros [= _ <-]; auto].
  destruct (omap id from); [intros [= _ <-]; auto|].
  destruct (on_redis _ _) as [y st2] eqn:E2. apply on_redis_durable in E2. intros [= _ <-]. auto.
Qed.

(** The composite is as good as its durable half. *)
#[export] Instance redis_fdb_contract {FC : @LedgerContract _ _ _ _ Sf F} :
  @LedgerContract _ _ _ _ (RedisFdbState Sr Sf) (RedisFdbStore R F).
Proof.
  refine {| models := fun st l => models (durable st) l; okey := okey |}.
  - apply okey_in.
  - intros now ns ops st l res st' Hm. cbn. unfold rf_batch_replace. rewrite on_fdb_eq. intros [= <- <-].
    rewrite cache_outputs_durable. cbn. eapply contract_replace; [done|apply surjective_pairing].
  - intros now ns ops st l res st' Hm. cbn. unfold rf_batch_burn. rewrite on_fdb_eq. intros [= <- <-].
    cbn. eapply contract_burn; [done|apply surjective_pairing].
  - intros now ns hs st l res st' Hm E. apply rf_get_durable in E as [->| ->]; [done|].
    eapply contract_get; [done|apply surjective_pairing].
  - intros ns hs st l res st' Hm. cbn. unfold rf_check_tokens. rewrite on_fdb_eq. intros [= <- <-].
    cbn. eapply contract_check; [done|apply surjective_pairing].
  - intros st l res st' Hm. cbn. unfold rf_get_mining_state.
    destruct (on_redis _ st) as [r st1] eqn:E. apply on_redis_durable in E. rewrite on_fdb_eq, E.
    assert (models (get_mining_state (LedgerStore := F) (durable st)).2 l)
      by (eapply contract_get_mining; [done|apply surjective_pairing]).
    destruct r as [[s|]|e]; intros [= <- <-]; cbn; by rewrite ?E.
  - intros s st l res st' Hm. cbn. unfold rf_update_mining_state. rewrite on_fdb_eq.
    assert (models (update_mining_state (LedgerStore := F) s (durable st)).2 l)
      by (eapply contract_update_mining; [done|apply surjective_pairing]).
    destruct (update_mining_state (LedgerStore := F) s (durable st)).1; [|by intros [= <- <-]].
    destruct (on_redis _ _) as [r st1] eqn:E. apply on_redis_durable in E. intros [= <- <-]. by rewrite E.
Defined.

#[export] Instance redis_fdb_reads {FC : @LedgerContract _ _ _ _ Sf F} {FR : @ReadContract _ _ _ _ Sf F FC} :
  @ReadContract _ _ _ _ (RedisFdbState Sr Sf) (RedisFdbStore R F) redis_fdb_contract.
Proof.
  split. intros ns hs st l out st' Hm. cbn. unfold rf_check_tokens. rewrite on_fdb_eq. intros [= Eo <-].
  eapply contract_read; [exact Hm|]. by rewrite <- Eo, <- surjective_pairing.
Qed.

#[export] Instance redis_fdb_inserts {FC : @LedgerContract _ _ _ _ Sf F} {FI : @InsertContract _ _ _ _ Sf F FC} :
  @InsertContract _ _ _ _ (RedisFdbState Sr Sf) (RedisFdbStore R F) redis_fdb_contract.
Proof.
  split. intros rs st l res st' Hm. cbn. unfold rf_insert_tokens. rewrite on_fdb_eq.
  destruct (contract_insert rs (durable st) l _ _ Hm (surjective_pairing _)) as (l' & Hm' & Hp).
  destruct (insert_tokens (LedgerStore := F) rs (durable st)).1 as [x|e]; [|intros [= <- <-]; by exists l'].
  destruct (on_redis _ _) as [r st1] eqn:E. apply on_redis_durable in E. intros [= <- <-].
  exists l'. split; [by rewrite E|done].
Qed.

(** A write of the mining state that Redis loses is not seen: the reads go on
    answering the state Redis had. *)
Lemma stale_mining_state s s0 st :
  (update_mining_state (LedgerStore := F) s (durable st)).1 = Ok tt ->
  (exists e, update_mining_state (LedgerStore := R) s (redis st) = (Err e, redis st)) ->
  get_mining_state (LedgerStore := R) (redis st) = (Ok (Some s0), redis st) ->
  let '(r, st1) := rf_update_mining_state R F s st in
  r = Ok tt /\ (rf_get_mining_state R F st1).1 = Ok (Some s0).
Proof.
  intros Hf [e Hr] Hg. unfold rf_update_mining_state. rewrite on_fdb_eq, Hf. unfold on_redis. cbn [redis durable].
  rewrite Hr. split; [done|]. unfold rf_get_mining_state, on_redis. cbn [redis durable]. by rewrite Hg.
Qed.

(** C12: through the composite store, whatever the cache answers or loses, a
    batch of replaces has the answers and the effect the durable store's
    contract allows, and a spent flag reported is the durable one, as long as
    the reads of the durable store see its writes. *)
Theorem composite_follows_durable {FC : @LedgerContract _ _ _ _ Sf F} {FR : @ReadContract _ _ _ _ Sf F FC} now ns ops st l :
  models (durable st) l ->
  (forall res st', batch_replace (LedgerStore := RedisFdbStore R F) now ns ops st = (res, st') ->
     exists l', models (durable st') l' /\ batch_answers okey now ns ops res l l' /\
       (forall hs out st2, check_tokens (LedgerStore := RedisFdbStore R F) ns hs st' = (Ok out, st2) ->
          redis st2 = redis st' /\ Forall2 (sound_check ns l') hs out)).
Proof.
  intros Hm res st' E.
  destruct (contract_replace (LedgerContract := redis_fdb_contract) now ns ops st l res st' Hm E) as (l' & Hm' & Ha).
  exists l'. split_and!; [done..|]. intros hs out st2 Ec. split.
  - cbn in Ec. unfold rf_check_tokens in Ec. rewrite on_fdb_eq in Ec. by injection Ec as _ <-.
  - exact (contract_read (ReadContract := redis_fdb_reads) ns hs st' l' _ _ Hm' Ec).
Qed.
End Contract.
