(* ===== verification/Dynamo.v ===== *)
(** * The DynamoDB backend

    [DynamoDbStore] ([crates/storage/src/dynamodb_backend.rs]).  DynamoDB is a
    parameter ([DynamoService]): an opaque state and the calls of the SDK.  What
    the store relies on is [DynamoLaws], the documented behaviour of those calls
    on a view of the state as tables of items: a transaction is all or nothing,
    its conditions are checked against the items before it and its targets are
    distinct; a batch write or read may leave a part unprocessed; and a read is
    eventually consistent unless it asks for more, which the store never does, so
    that it may answer what an item was before the latest writes. *)
From S2P Require Import Prelude Decimal Amount External AssetCore Storage Redis Records Conservation Ledger.

(** ** Items and transactions *)

Inductive attr := AS (s : string) | AN (n : string) | ABool (b : bool) | AOther.
#[export] Instance attr_eq_dec : EqDecision attr.
Proof. solve_decision. Defined.

Notation item := (gmap string attr).
Notation dtable := (gmap string item).
Notation dtables := (gmap string dtable).

Definition as_s (a : attr) : option string := match a with AS s => Some s | _ => None end.

Definition PK : string := "pk".

(** The conditions the store uses:
    [attribute_exists(pk) AND a = v], [attribute_not_exists(pk)]. *)
Inductive condition := Always | ExistsAnd (a : string) (v : attr) | NotExists.

Definition holds_on (c : condition) (it : option item) : bool :=
  match c with
  | Always => true
  | ExistsAnd a v =>
      match it with
      | Some i => bool_decide (is_Some (i !! PK)) && bool_decide (i !! a = Some v)
      | None => false
      end
  | NotExists => match it with Some i => bool_decide (i !! PK = None) | None => true end
  end.

(** [Update] with [SET a = v, ...], and [Put]. *)
Inductive tx_item :=
  | TxUpdate (table key : string) (sets : list (string * attr)) (c : condition)
  | TxPut (table : string) (it : item) (c : condition).

Definition item_pk (it : item) : string := default EmptyString (it !! PK ≫= as_s).

Definition tx_target (t : tx_item) : string * string :=
  match t with TxUpdate table key _ _ => (table, key) | TxPut table it _ => (table, item_pk it) end.
Definition tx_condition (t : tx_item) : condition :=
  match t with TxUpdate _ _ _ c | TxPut _ _ c => c end.

Definition set_attrs (sets : list (string * attr)) (it : item) : item := foldl (fun i p => <[p.1 := p.2]> i) it sets.

Definition tx_effect (t : tx_item) (old : option item) : item :=
  match t with
  | TxUpdate _ key sets _ => set_attrs sets (default {[ PK := AS key ]} old)
  | TxPut _ it _ => it
  end.

Definition tx_holds (T : dtables) (t : tx_item) : bool :=
  match T !! (tx_target t).1 with
  | Some tbl => holds_on (tx_condition t) (tbl !! (tx_target t).2)
  | None => false
  end.

Definition tx_apply (T : dtables) (t : tx_item) : dtables :=
  alter (fun tbl => <[(tx_target t).2 := tx_effect t (tbl !! (tx_target t).2)]> tbl) (tx_target t).1 T.

(** The documented effect of [TransactWriteItems], and its limit of 100. *)
Definition transact (txs : list tx_item) (T : dtables) : option dtables :=
  if bool_decide (NoDup (tx_target <$> txs)) && (length txs <=? 100)%nat && forallb (tx_holds T) txs
  then Some (foldl tx_apply T txs) else None.

Definition put_items (its : list item) (tbl : dtable) : dtable :=
  foldl (fun tbl it => <[item_pk it := it]> tbl) tbl its.

(** The flag of [get_item] is [consistent_read]; the batch read asks for none. *)
Class DynamoService := {
  dstate : Type;
  sdk_error : Type;
  show_sdk : sdk_error -> string;
  service_debug : sdk_error -> option string;
  transact_write_items : list tx_item -> dstate -> result sdk_error unit * dstate;
  batch_write_item : string -> list item -> dstate -> result sdk_error (list item) * dstate;
  batch_get_item : string -> list string -> dstate -> result sdk_error (list item * list string) * dstate;
  get_item : bool -> string -> string -> dstate -> result sdk_error (option item) * dstate;
  put_item : string -> item -> dstate -> result sdk_error unit * dstate;
  describe_table : string -> dstate -> result sdk_error unit * dstate;
  create_table : string -> dstate -> result sdk_error unit * dstate;
}.

(** [s.contains(pat)]. *)
Fixpoint str_contains (pat s : string) : bool :=
  match strip_prefix pat s with
  | Some _ => true
  | None => match s with EmptyString => false | String _ s' => str_contains pat s' end
  end.

Definition is_resource_not_found `{DynamoService} (e : sdk_error) : bool :=
  match service_debug e with Some d => str_contains "ResourceNotFound" d | None => false end.
Definition is_resource_in_use `{DynamoService} (e : sdk_error) : bool :=
  match service_debug e with Some d => str_contains "ResourceInUse" d | None => false end.

(** One call of the SDK, whatever it answers. *)
Inductive dcall `{DynamoService} (st st' : dstate) : Prop :=
  | call_transact txs r : transact_write_items txs st = (r, st') -> dcall st st'
  | call_batch_write table its r : batch_write_item table its st = (r, st') -> dcall st st'
  | call_batch_get table keys r : batch_get_item table keys st = (r, st') -> dcall st st'
  | call_get consistent table key r : get_item consistent table key st = (r, st') -> dcall st st'
  | call_put table it r : put_item table it st = (r, st') -> dcall st st'.

(** [dpast] is what the tables held after each call, the present included.  A
    read that does not ask for consistency gives an item as it was at some time,
    each item of a batch at a time of its own. *)
Class DynamoLaws `{DynamoService} := {
  dview : dstate -> dtables;
  dpast : dstate -> list dtables;
  past_present : forall st, dview st ∈ dpast st;
  past_grows : forall st st', dcall st st' -> dpast st' = dview st' :: dpast st;
  transact_ok : forall txs st st', transact_write_items txs st = (Ok tt, st') ->
    transact txs (dview st) = Some (dview st');
  transact_err : forall txs st e st', transact_write_items txs st = (Err e, st') ->
    dview st' = dview st \/ transact txs (dview st) = Some (dview st');
  batch_write_ok : forall table its st rest st', batch_write_item table its st = (Ok rest, st') ->
    (length its <= 25)%nat /\ NoDup (item_pk <$> its) /\ is_Some (dview st !! table) /\
    exists done, done ++ rest ≡ₚ its /\ dview st' = alter (put_items done) table (dview st);
  batch_write_err : forall table its st e st', batch_write_item table its st = (Err e, st') ->
    exists done, done ⊆ its /\ dview st' = alter (put_items done) table (dview st);
  batch_get_ok : forall table keys st found rest st', batch_get_item table keys st = (Ok (found, rest), st') ->
    dview st' = dview st /\ NoDup keys /\ rest ⊆ keys /\
    exists seen : string -> option item,
      (forall k, exists D, D ∈ dpast st /\ seen k = D !! table ≫= lookup k) /\
      found ≡ₚ omap seen (filter (fun k => k ∉ rest) keys);
  batch_get_err : forall table keys st e st', batch_get_item table keys st = (Err e, st') -> dview st' = dview st;
  get_item_ok : forall consistent table key st o st', get_item consistent table key st = (Ok o, st') ->
    dview st' = dview st /\ (exists D, D ∈ dpast st /\ o = D !! table ≫= lookup key) /\
    (consistent = true -> exists tbl, dview st !! table = Some tbl /\ o = tbl !! key);
  get_item_err : forall consistent table key st e st', get_item consistent table key st = (Err e, st') ->
    dview st' = dview st;
  put_item_ok : forall table it st st', put_item table it st = (Ok tt, st') ->
    is_Some (dview st !! table) /\ dview st' = alter (put_items [it]) table (dview st);
  put_item_err : forall table it st e st', put_item table it st = (Err e, st') ->
    dview st' = dview st \/ dview st' = alter (put_items [it]) table (dview st);
  describe_ok : forall table st st', describe_table table st = (Ok tt, st') ->
    dview st' = dview st /\ is_Some (dview st !! table);
  describe_err : forall table st e st', describe_table table st = (Err e, st') -> dview st' = dview st;
  create_ok : forall table st st', create_table table st = (Ok tt, st') ->
    dview st !! table = None /\ dview st' = <[table := ∅]> (dview st);
  create_err : forall table st e st', create_table table st = (Err e, st') ->
    (dview st' = dview st \/ (dview st !! table = None /\ dview st' = <[table := ∅]> (dview st))) /\
    (is_resource_in_use e = true -> is_Some (dview st' !! table));
}.

(** [s.rsplit(sep).next()]: what follows the last [sep], or all of [s]. *)
Fixpoint after_last (sep s : string) : option string :=
  match s with
  | EmptyString => None
  | String _ s' => match after_last sep s' with Some r => Some r | None => strip_prefix sep s end
  end.
Definition rsplit_next (sep s : string) : string := default s (after_last sep s).

(** ** The store *)

(** [DynamoDbStore]: the table names. *)
Record DynamoTables := { tokens_table : string; mining_table : string; audit_table : string }.

(** [DynamoDbStore::new] from the variable [DEPLOYMENT_ENV]. *)
Definition new_tables (deployment_env : option string) : DynamoTables :=
  let suffix := match deployment_env with Some e => "-" +:+ e | None => "-testnet" end in
  {| tokens_table := "WebycashTokens" +:+ suffix;
     mining_table := "WebycashMiningState" +:+ suffix;
     audit_table := "WebycashAuditLog" +:+ suffix |}.

Definition typed_attr (name v : string) : attr :=
  if String.eqb name "amount_wats" then AN v
  else if String.eqb name "spent" then ABool (String.eqb v "1")
  else AS v.

Definition attr_str (a : attr) : option string :=
  match a with AS s => Some s | AN n => Some n | ABool b => Some (if b then "1" else "0") | AOther => None end.

(** The field map of an item. *)
Definition item_fields (it : item) : gmap string string := omap attr_str (delete PK it).

(** The typed image of a field map under a key. *)
Definition fields_item (pk : string) (f : gmap string string) : item :=
  map_imap (fun name v => Some (typed_attr name v)) f ∪ {[ PK := AS pk ]}.

Section Store.
Context `{DynamoService} `{Chrono} {A : Asset} `{!HashRecord Rec} {K : KeyStrategy}
  `{Serde ReplacementRecord} `{Serde BurnRecord} `{Serde MiningState} (T : DynamoTables).

Definition item_for (ns : Namespace) (r : Rec) : item :=
  fields_item (token_key NAME ns (record_hash r)) (to_fields r).

Definition item_to_record (now : DateTime) (it : item) : option Rec :=
  pk ← it !! PK ≫= as_s;
  from_fields now (rsplit_next ":token:" pk) (item_fields it).

Fixpoint write_chunks (cs : list (list Rec)) (st : dstate) : result string unit * dstate :=
  match cs with
  | [] => (Ok tt, st)
  | chunk :: rest =>
      match batch_write_item (tokens_table T) (map (fun r => item_for (record_namespace r) r) chunk) st with
      | (Err e, st) => (Err ("batch insert: " +:+ show_sdk e), st)
      | (Ok _, st) => write_chunks rest st
      end
  end.

Definition dynamo_insert_tokens (records : list Rec) (st : dstate) : result string unit * dstate :=
  match records with
  | [] => (Ok tt, st)
  | _ => write_chunks (chunks 25 records) st
  end.

(** The items of a response by their key. *)
Definition index_item (m : gmap string item) (it : item) : gmap string item :=
  match it !! PK ≫= as_s with Some pk => <[pk := it]> m | None => m end.
Definition by_pk (items : list item) : gmap string item := foldl index_item ∅ items.

Definition dynamo_get_tokens (now : DateTime) (ns : Namespace) (hashes : list string) (st : dstate)
  : result string (list (option Rec)) * dstate :=
  match hashes with
  | [] => (Ok [], st)
  | _ =>
      match batch_get_item (tokens_table T) (map (token_key NAME ns) hashes) st with
      | (Err e, st) => (Err ("batch get: " +:+ show_sdk e), st)
      | (Ok (items, _), st) =>
          (Ok (map (fun h => by_pk items !! token_key NAME ns h ≫= item_to_record now) hashes), st)
      end
  end.

Definition dynamo_check_tokens (now : DateTime) (ns : Namespace) (hashes : list string) (st : dstate)
  : result string (list (string * option bool)) * dstate :=
  let '(r, st') := dynamo_get_tokens now ns hashes st in
  (tokens ← r; Ok (zip hashes (map (option_map flag_of) tokens)), st').

(** [SET spent = :t, spent_at = :now] on condition
    [attribute_exists(pk) AND spent = :f]. *)
Definition spend_tx (now pk : string) : tx_item :=
  TxUpdate (tokens_table T) pk [("spent", ABool true); ("spent_at", AS now)] (ExistsAnd "spent" (ABool false)).

Definition audit_tx (pk json : string) : tx_item :=
  TxPut (audit_table T) (<["data" := AS json]> {[ PK := AS pk ]}) Always.

Definition replace_txs (now : DateTime) (ns : Namespace) (op : ReplaceOp Rec) : list tx_item :=
  map (fun h => spend_tx (to_rfc3339 now) (token_key NAME ns h)) (ro_inputs op)
  ++ map (fun r => TxPut (tokens_table T) (item_for ns r) NotExists) (ro_outputs op)
  ++ [audit_tx (replacement_key NAME ns (rr_id (ro_record op))) (to_json (ro_record op))].

Definition dynamo_exec_replace (now : DateTime) (ns : Namespace) (op : ReplaceOp Rec) (st : dstate)
  : result string unit * dstate :=
  let '(r, st') := transact_write_items (replace_txs now ns op) st in
  (map_err (fun e => "transact write: " +:+ show_sdk e) r, st').

Fixpoint dynamo_batch_replace (now : DateTime) (ns : Namespace) (ops : list (ReplaceOp Rec)) (st : dstate)
  : list ReplaceResult * dstate :=
  match ops with
  | [] => ([], st)
  | op :: rest =>
      let '(r, st) := dynamo_exec_replace now ns op st in
      let '(out, st) := dynamo_batch_replace now ns rest st in
      (match r with Ok _ => ReplaceOk | Err e => ReplaceFailed e end :: out, st)
  end.

Definition burn_txs (now : DateTime) (ns : Namespace) (hash : string) (record : BurnRecord) : list tx_item :=
  [spend_tx (to_rfc3339 now) (token_key NAME ns hash);
   audit_tx (burn_key NAME ns (br_id record)) (to_json record)].

Definition dynamo_exec_burn (now : DateTime) (ns : Namespace) (hash : string) (record : BurnRecord) (st : dstate)
  : result string unit * dstate :=
  let '(r, st') := transact_write_items (burn_txs now ns hash record) st in
  (map_err (fun e => "burn: " +:+ show_sdk e) r, st').

Fixpoint dynamo_batch_burn (now : DateTime) (ns : Namespace) (ops : list (string * BurnRecord)) (st : dstate)
  : result string unit * dstate :=
  match ops with
  | [] => (Ok tt, st)
  | (hash, record) :: rest =>
      match dynamo_exec_burn now ns hash record st with
      | (Ok _, st) => dynamo_batch_burn now ns rest st
      | (Err e, st) => (Err e, st)
      end
  end.

Definition dynamo_get_mining_state (st : dstate) : result string (option MiningState) * dstate :=
  let '(r, st') := get_item false (mining_table T) (mining_state_key NAME) st in
  (o ← map_err show_sdk r;
   match o with
   | None => Ok None
   | Some it =>
       data ← ok_or (it !! "data" ≫= as_s) "missing data";
       s ← from_json data; Ok (Some s)
   end, st').

Definition dynamo_update_mining_state (state : MiningState) (st : dstate) : result string unit * dstate :=
  let '(r, st') := put_item (mining_table T)
    (<["data" := AS (to_json state)]> {[ PK := AS (mining_state_key NAME) ]}) st in
  (map_err show_sdk r, st').

(** The instant [check_tokens] reads does not show in its answer. *)
Definition DynamoDbStore : LedgerStore Rec dstate := {|
  insert_tokens := dynamo_insert_tokens;
  get_tokens := dynamo_get_tokens;
  check_tokens := dynamo_check_tokens unix_epoch;
  batch_replace := dynamo_batch_replace;
  batch_burn := dynamo_batch_burn;
  get_mining_state := dynamo_get_mining_state;
  update_mining_state := dynamo_update_mining_state;
|}.

(** ** Table creation *)

(** One table: described, and created when missing. *)
Definition ensure_table (name : string) (st : dstate) : result string unit * dstate :=
  match describe_table name st with
  | (Ok _, st) => (Ok tt, st)
  | (Err e, st) =>
      if negb (is_resource_not_found e) then (Err ("describe_table " +:+ name +:+ ": " +:+ show_sdk e), st)
      else
        match create_table name st with
        | (Ok _, st) => (Ok tt, st)
        | (Err e, st) =>
            if is_resource_in_use e then (Ok tt, st)
            else (Err ("create_table " +:+ name +:+ ": " +:+ show_sdk e), st)
        end
  end.

(** The [for] loop: stops at the first transient error. *)
Fixpoint ensure_each (names : list string) (st : dstate) : result string unit * dstate :=
  match names with
  | [] => (Ok tt, st)
  | name :: rest =>
      match ensure_table name st with
      | (Ok _, st) => ensure_each rest st
      | (Err e, st) => (Err e, st)
      end
  end.

(** Milliseconds slept after the failed attempt number [attempt]. *)
Definition backoff (attempt : nat) : Z := 200 * Z.shiftl 1 (Z.of_nat (Nat.min attempt 5)).

(** The [loop]: the answer with the sleeps taken, or nothing when the fuel
    runs out. *)
Fixpoint ensure_loop (fuel attempt : nat) (st : dstate) : option (result string unit * list Z * dstate) :=
  match fuel with
  | O => None
  | S fuel' =>
      let attempt := S attempt in
      match ensure_each [tokens_table T; mining_table T; audit_table T] st with
      | (Ok _, st) => Some (Ok tt, [], st)
      | (Err e, st) =>
          if (10 <=? attempt)%nat then Some (Err e, [], st)
          else '(r, sleeps, st) ← ensure_loop fuel' attempt st; Some (r, backoff attempt :: sleeps, st)
      end
  end.

Definition ensure_tables (st : dstate) : option (result string unit * list Z * dstate) := ensure_loop 10 0 st.
End Store.
