(* ===== verification/DynamoFacts.v ===== *)
(** * The DynamoDB store and the abstract ledger

    A transaction of the store is a step of the abstract ledger; every item of
    the token table keeps the attribute types of the schema; a read gives the
    record of a token or, when DynamoDB leaves the key unprocessed, nothing;
    and the creation of the tables ends. *)
From S2P Require Import Prelude Decimal Amount External AssetCore Storage Redis Records Conservation Ledger Dynamo.

(** ** Items *)

(** The attribute types of a token item: the amount a number, the flag a
    boolean, everything else text. *)
Definition attr_typed (name : string) (a : attr) : Prop :=
  if String.eqb name "amount_wats" then exists n, a = AN n
  else if String.eqb name "spent" then exists b, a = ABool b
  else exists s, a = AS s.

Record item_typed (pk : string) (it : item) : Prop := {
  typed_pk : it !! PK = Some (AS pk);
  typed_attrs : forall name a, it !! name = Some a -> attr_typed name a;
  typed_spent : exists b, it !! "spent" = Some (ABool b);
}.

Definition flag_shaped (f : fields) : Prop := f !! PK = None /\ exists b, f !! "spent" = Some (flag b).

Lemma typed_attr_str f name v :
  flag_shaped f -> f !! name = Some v -> attr_str (typed_attr name v) = Some v.
Proof.
  intros [_ [b Hb]] Hv. unfold typed_attr.
  destruct (String.eqb_spec name "amount_wats"); [done|].
  destruct (String.eqb_spec name "spent") as [->|]; [|done]. rewrite Hb in Hv. injection Hv as <-. by destruct b.
Qed.

Lemma fields_item_lookup pk f name :
  f !! PK = None ->
  fields_item pk f !! name = if decide (name = PK) then Some (AS pk) else typed_attr name <$> f !! name.
Proof.
  intros Hpk. unfold fields_item. destruct (decide (name = PK)) as [->|Hne].
  - rewrite lookup_union_r; [apply lookup_singleton_eq|]. by rewrite map_lookup_imap, Hpk.
  - rewrite lookup_union_l by (by apply lookup_singleton_ne). rewrite map_lookup_imap. by destruct (f !! name).
Qed.

Lemma item_fields_lookup it name :
  item_fields it !! name = if decide (name = PK) then None else it !! name ≫= attr_str.
Proof.
  unfold item_fields. rewrite lookup_omap. destruct (decide (name = PK)) as [->|Hne].
  - by rewrite lookup_delete_eq.
  - by rewrite lookup_delete_ne.
Qed.

Lemma item_fields_item pk f : flag_shaped f -> item_fields (fields_item pk f) = f.
Proof.
  intros Hf. apply map_eq. intros name. rewrite item_fields_lookup. destruct (decide (name = PK)) as [->|Hne].
  - symmetry. apply Hf.
  - rewrite fields_item_lookup, decide_False by (apply Hf || done).
    destruct (f !! name) as [v|] eqn:E; [|done]. cbn. by eapply typed_attr_str.
Qed.

Lemma fields_item_typed pk f : flag_shaped f -> item_typed pk (fields_item pk f).
Proof.
  intros [Hpk [b Hb]]. split.
  - by rewrite fields_item_lookup, decide_True.
  - intros name a. rewrite fields_item_lookup by done. unfold attr_typed, typed_attr.
    destruct (decide (name = PK)) as [->|Hne]; [intros [= <-]; cbn; eauto|].
    destruct (f !! name) as [v|]; [|done]. intros [= <-].
    destruct (String.eqb name "amount_wats"); [eauto|]. destruct (String.eqb name "spent"); eauto.
  - rewrite fields_item_lookup, decide_False, Hb by done. cbn. eauto.
Qed.

Definition spend_item (now : string) (it : item) : item := <["spent_at" := AS now]> (<["spent" := ABool true]> it).

Lemma spend_item_typed pk now it : item_typed pk it -> item_typed pk (spend_item now it).
Proof.
  intros [Hpk Ha _]. unfold spend_item. split.
  - by rewrite !lookup_insert_ne.
  - intros name a. destruct (decide (name = "spent_at")) as [->|H1].
    { rewrite lookup_insert_eq. intros [= <-]. cbn. eauto. }
    rewrite lookup_insert_ne by done. destruct (decide (name = "spent")) as [->|H2].
    { rewrite lookup_insert_eq. intros [= <-]. cbn. eauto. }
    rewrite lookup_insert_ne by done. apply Ha.
  - rewrite lookup_insert_ne, lookup_insert_eq by done. eauto.
Qed.

Lemma spend_item_fields now it : item_fields (spend_item now it) = mark_hash now (item_fields it).
Proof.
  apply map_eq. intros name. unfold spend_item, mark_hash. rewrite item_fields_lookup.
  destruct (decide (name = PK)) as [->|Hne].
  { rewrite !lookup_insert_ne by done. by rewrite item_fields_lookup, decide_True. }
  destruct (decide (name = "spent_at")) as [->|H1]; [by rewrite !lookup_insert_eq|].
  rewrite !(lookup_insert_ne _ "spent_at") by done.
  destruct (decide (name = "spent")) as [->|H2]; [by rewrite !lookup_insert_eq|].
  rewrite !(lookup_insert_ne _ "spent") by done. by rewrite item_fields_lookup, decide_False.
Qed.

Lemma item_unspent pk it b : item_typed pk it -> it !! "spent" = Some (ABool b) -> spent_hash (item_fields it) = b.
Proof.
  intros _ Hb. apply spent_flag_hash. rewrite item_fields_lookup, decide_False, Hb by done. by destruct b.
Qed.

(** ** Transactions, one item after the other *)

Fixpoint tx_run (txs : list tx_item) (T : dtables) : option dtables :=
  match txs with
  | [] => Some T
  | t :: rest => if tx_holds T t then tx_run rest (tx_apply T t) else None
  end.

Lemma tx_holds_frame T t u : tx_target t <> tx_target u -> tx_holds (tx_apply T t) u = tx_holds T u.
Proof.
  intros Hne. unfold tx_holds, tx_apply. destruct (tx_target t) as [tt tk], (tx_target u) as [ut uk]. cbn in *.
  destruct (decide (ut = tt)) as [->|Ht]; [|by rewrite lookup_alter_ne].
  rewrite lookup_alter_eq. destruct (T !! tt) as [tbl|]; [|done]. cbn.
  rewrite lookup_insert_ne; [done|congruence].
Qed.

(** On distinct targets, checking every condition first is checking each one
    when its turn comes. *)
Lemma transact_run txs T T' : transact txs T = Some T' -> tx_run txs T = Some T'.
Proof.
  unfold transact. destruct (_ && _) eqn:E; [|done]. apply andb_true_iff in E as [E Hh].
  apply andb_true_iff in E as [Hnd%bool_decide_eq_true_1 _]. intros [= <-].
  revert T Hh. induction txs as [|t txs IH]; intros T Hh; [done|].
  cbn [fmap list_fmap] in Hnd. apply NoDup_cons in Hnd as [Hni Hnd]. cbn [forallb] in Hh.
  apply andb_true_iff in Hh as [Ht Hh]. cbn [tx_run foldl]. rewrite Ht. apply IH; [done|].
  rewrite forallb_forall in *. intros u Hu. rewrite tx_holds_frame; [by apply Hh|].
  intros Et. apply Hni. rewrite Et. apply list_elem_of_fmap. exists u. split; [done|]. by apply list_elem_of_In.
Qed.

Lemma tx_run_app a b T : tx_run (a ++ b) T = tx_run a T ≫= tx_run b.
Proof. revert T. induction a as [|t a IH]; intros T; cbn; [done|]. destruct (tx_holds T t); [apply IH|done]. Qed.

Lemma transact_limit txs T : (100 < length txs)%nat -> transact txs T = None.
Proof.
  intros Hl. unfold transact. destruct (Nat.leb_spec (length txs) 100); [lia|]. by rewrite andb_false_r.
Qed.

Lemma Forall2_map_all {X Y} (P : X -> Y -> Prop) (f : X -> Y) l : (forall x, P x (f x)) -> Forall2 P l (map f l).
Proof. intros Hp. induction l; constructor; auto. Qed.

(** ** The token table as a ledger *)

Section Refinement.
Context `{DynamoLaws} `{Chrono} {A : Asset} `{!HashRecord Rec} {FS : FieldShape Rec} {K : KeyStrategy}
  `{Serde ReplacementRecord} `{Serde BurnRecord} `{Serde MiningState}
  (T : DynamoTables) (Hat : audit_table T <> tokens_table T) (Hmt : mining_table T <> tokens_table T).
Implicit Types (op : ReplaceOp Rec) (ns : Namespace) (l : ledger) (D : dtables).

Definition table_models (tbl : dtable) l : Prop := forall k,
  match l !! k with
  | Some f => exists it, tbl !! k = Some it /\ item_typed k it /\ item_fields it = f
  | None => tbl !! k = None
  end.

Definition dynamo_models D l : Prop := exists tbl, D !! tokens_table T = Some tbl /\ table_models tbl l.

(** What the tables were: before its creation the token table held nothing. *)
Definition dynamo_were D l : Prop := table_models (default ∅ (D !! tokens_table T)) l.

Lemma models_were D l : dynamo_models D l -> dynamo_were D l.
Proof. intros (tbl & Ht & Hm). unfold dynamo_were. by rewrite Ht. Qed.

(** A store on which tokens have only been created and spent. *)
Definition dynamo_lived : dstate -> ledger -> Prop := lived dview dpast dynamo_models dynamo_were evolves.

Lemma dynamo_step st st' l l' :
  dcall st st' -> dynamo_lived st l -> dynamo_models (dview st') l' -> evolves l l' -> dynamo_lived st' l'.
Proof. intros Hc%past_grows. apply lived_step; [apply _|apply models_were|done]. Qed.

Lemma dynamo_still st st' l : dcall st st' -> dynamo_lived st l -> dview st' = dview st -> dynamo_lived st' l.
Proof. intros Hc Hl Hv. eapply dynamo_step; [done|done| |done]. rewrite Hv. apply Hl. Qed.

Lemma record_shaped (r : Rec) : flag_shaped (to_fields r).
Proof. split; [apply fields_no_pk|apply fields_flag]. Qed.

Lemma table_insert tbl l k it :
  table_models tbl l -> item_typed k it -> table_models (<[k := it]> tbl) (<[k := item_fields it]> l).
Proof.
  intros Hm Ht j. destruct (decide (j = k)) as [->|Hne].
  - rewrite !lookup_insert_eq. eauto.
  - rewrite !lookup_insert_ne by done. apply Hm.
Qed.

(** A transaction item that carries out a step of the ledger. *)
Definition tx_carries (t : tx_item) (step : ledger -> result refusal ledger) : Prop :=
  forall D l, dynamo_models D l -> tx_holds D t = true ->
    exists l', step l = Ok l' /\ dynamo_models (tx_apply D t) l'.

Lemma spend_carries now k : tx_carries (spend_tx T now k) (consume now k).
Proof.
  intros D l (tbl & Ht & Hm) Hh. unfold tx_holds in Hh. cbn [spend_tx tx_target tx_condition fst snd] in Hh.
  rewrite Ht in Hh. pose proof (Hm k) as Hk. unfold consume.
  destruct (tbl !! k) as [it|] eqn:Ei; [|done]. apply andb_true_iff in Hh as [_ Hs%bool_decide_eq_true_1].
  destruct (l !! k) as [f|]; [|done]. destruct Hk as (it' & [= <-] & Hty & <-).
  rewrite (item_unspent k it false Hty Hs). eexists. split; [done|].
  exists (<[k := spend_item now it]> tbl). split.
  - unfold tx_apply. cbn [spend_tx tx_target fst snd]. rewrite lookup_alter_eq, Ht. cbn. by rewrite Ei.
  - rewrite <- spend_item_fields. apply table_insert; [done|]. by apply spend_item_typed.
Qed.

Lemma item_for_pk ns (r : Rec) : item_pk (item_for ns r) = ledger_key ns (record_hash r).
Proof.
  unfold item_pk, item_for. rewrite fields_item_lookup, decide_True by (apply fields_no_pk || done). done.
Qed.

Lemma put_carries ns (r : Rec) :
  tx_carries (TxPut (tokens_table T) (item_for ns r) NotExists) (create (ledger_key ns (record_hash r), to_fields r)).
Proof.
  intros D l (tbl & Ht & Hm) Hh. unfold tx_holds in Hh. cbn [tx_target tx_condition fst snd] in Hh.
  rewrite Ht, item_for_pk in Hh. pose proof (Hm (ledger_key ns (record_hash r))) as Hk.
  unfold create. cbn [fst snd]. destruct (tbl !! _) as [it|] eqn:Ei.
  { destruct (l !! _); [|done]. destruct Hk as (it' & [= <-] & [Hpk _ _] & _).
    cbn in Hh. by rewrite Hpk, bool_decide_false in Hh. }
  destruct (l !! _); [by destruct Hk as (? & ? & _)|]. eexists. split; [done|].
  exists (<[ledger_key ns (record_hash r) := item_for ns r]> tbl). split.
  - unfold tx_apply. cbn [tx_target fst snd tx_effect]. by rewrite item_for_pk, lookup_alter_eq, Ht.
  - rewrite <- (item_fields_item (ledger_key ns (record_hash r)) (to_fields r)) by apply record_shaped.
    apply table_insert; [done|]. apply fields_item_typed, record_shaped.
Qed.

Lemma audit_models pk json D l : dynamo_models D l -> dynamo_models (tx_apply D (audit_tx T pk json)) l.
Proof.
  intros (tbl & Ht & Hm). exists tbl. split; [|done]. unfold tx_apply. cbn. by rewrite lookup_alter_ne.
Qed.

Lemma spends_run now ns (hs : list string) D D' l :
  dynamo_models D l -> tx_run (map (fun h => spend_tx T now (token_key NAME ns h)) hs) D = Some D' ->
  exists l', consume_all now (ledger_key ns <$> hs) l = Ok l' /\ dynamo_models D' l'.
Proof.
  revert D l. induction hs as [|h hs IH]; intros D l Hm; cbn [map tx_run]; [intros [= <-]; by exists l|].
  destruct (tx_holds D _) eqn:Eh; [|done]. intros Er.
  destruct (spend_carries now (ledger_key ns h) D l Hm Eh) as (l1 & E1 & Hm1).
  destruct (IH _ _ Hm1 Er) as (l2 & E2 & Hm2). exists l2. split; [|done].
  cbn [fmap list_fmap consume_all]. by rewrite E1.
Qed.

Lemma puts_run ns (rs : list Rec) D D' l :
  dynamo_models D l -> tx_run (map (fun r => TxPut (tokens_table T) (item_for ns r) NotExists) rs) D = Some D' ->
  exists l', create_all ((fun o => (ledger_key ns (record_hash o), to_fields o)) <$> rs) l = Ok l' /\ dynamo_models D' l'.
Proof.
  revert D l. induction rs as [|r rs IH]; intros D l Hm; cbn [map tx_run]; [intros [= <-]; by exists l|].
  destruct (tx_holds D _) eqn:Eh; [|done]. intros Er.
  destruct (put_carries ns r D l Hm Eh) as (l1 & E1 & Hm1).
  destruct (IH _ _ Hm1 Er) as (l2 & E2 & Hm2). exists l2. split; [|done].
  cbn [fmap list_fmap create_all]. by rewrite E1.
Qed.

Lemma replace_transacts now ns op D D' l :
  dynamo_models D l -> transact (replace_txs T now ns op) D = Some D' ->
  exists l', replace_op request_key now ns op l = Ok l' /\ dynamo_models D' l'.
Proof.
  intros Hm Et%transact_run. unfold replace_txs in Et. rewrite tx_run_app in Et.
  apply bind_Some in Et as (D1 & E1 & Et). rewrite tx_run_app in Et. apply bind_Some in Et as (D2 & E2 & E3).
  destruct (spends_run _ _ _ _ _ _ Hm E1) as (l1 & Hc1 & Hm1).
  destruct (puts_run _ _ _ _ _ Hm1 E2) as (l2 & Hc2 & Hm2).
  exists l2. split; [unfold replace_op, replace_ledger, ledger_ins, ledger_outs; by rewrite Hc1|].
  cbn [tx_run] in E3. destruct (tx_holds D2 _); [|done]. injection E3 as <-. by apply audit_models.
Qed.

Lemma burn_transacts now ns (h : string) (b : BurnRecord) D D' l :
  dynamo_models D l -> transact (burn_txs T now ns h b) D = Some D' ->
  exists l', consume (to_rfc3339 now) (ledger_key ns h) l = Ok l' /\ dynamo_models D' l'.
Proof.
  intros Hm Et%transact_run. unfold burn_txs in Et. cbn [tx_run] in Et.
  destruct (tx_holds D _) eqn:Eh; [|done].
  destruct (spend_carries (to_rfc3339 now) (ledger_key ns h) D l Hm Eh) as (l1 & E1 & Hm1).
  destruct (tx_holds _ (audit_tx _ _ _)); [|done]. injection Et as <-. exists l1. split; [done|].
  by apply audit_models.
Qed.

(** ** Writes *)

(** A call that ran one transaction carrying out a step. *)
Lemma transaction_outcome txs (step : ledger -> result refusal ledger) st l r st' :
  (forall D', transact txs (dview st) = Some D' -> exists l', step l = Ok l' /\ dynamo_models D' l') ->
  dynamo_models (dview st) l -> transact_write_items txs st = (r, st') ->
  exists l', dynamo_models (dview st') l' /\
    match r with Ok _ => step l = Ok l' | Err _ => l' = l \/ step l = Ok l' end.
Proof.
  intros Hs Hm E. destruct r as [[]|e].
  - apply transact_ok in E as (l' & Es & Hm')%Hs. eauto.
  - apply transact_err in E as [->|(l' & Es & Hm')%Hs]; [exists l|exists l']; eauto.
Qed.

Lemma lived_transaction txs (step : ledger -> result refusal ledger) st l r st' :
  (forall D', transact txs (dview st) = Some D' -> exists l', step l = Ok l' /\ dynamo_models D' l') ->
  (forall l', step l = Ok l' -> evolves l l') ->
  dynamo_lived st l -> transact_write_items txs st = (r, st') ->
  exists l', dynamo_lived st' l' /\
    match r with Ok _ => step l = Ok l' | Err _ => l' = l \/ step l = Ok l' end.
Proof.
  intros Hs He Hl E. destruct (transaction_outcome _ _ _ _ _ _ Hs (proj1 Hl) E) as (l' & Hm' & Ho).
  exists l'. split; [|done]. eapply dynamo_step; [by eapply call_transact|done|done|].
  destruct r; [by apply He|]. destruct Ho as [->|Ho]; [done|by apply He].
Qed.

Lemma dynamo_replace_outcome now ns op st l res st' :
  dynamo_lived st l -> dynamo_exec_replace T now ns op st = (res, st') ->
  exists l', dynamo_lived st' l' /\
    match res with Ok _ => replace_op request_key now ns op l = Ok l' | Err _ => l' = l \/ replace_op request_key now ns op l = Ok l' end.
Proof.
  intros Hl. unfold dynamo_exec_replace. destruct (transact_write_items _ st) as [r st1] eqn:E. intros [= <- <-].
  destruct (lived_transaction _ (replace_op request_key now ns op) st l r st1
    (fun D' => replace_transacts now ns op (dview st) D' l (proj1 Hl))) as (l' & Hm' & Ho); [|done|exact E|].
  { intros l' Hr%replace_ledger_Ok. by eapply replaced_evolves. }
  exists l'. split; [done|]. by destruct r.
Qed.

Lemma dynamo_batch_answers now ns (ops : list (ReplaceOp Rec)) st l res st' :
  dynamo_lived st l -> dynamo_batch_replace T now ns ops st = (res, st') ->
  exists l', dynamo_lived st' l' /\ batch_answers request_key now ns ops res l l'.
Proof.
  revert st l res. induction ops as [|op ops IH]; intros st l res Hm; cbn [dynamo_batch_replace].
  { intros [= <- <-]. exists l. split; [done|constructor]. }
  destruct (dynamo_exec_replace T now ns op st) as [r st1] eqn:E.
  destruct (dynamo_batch_replace T now ns ops st1) as [out st2] eqn:E2. intros [= <- <-].
  destruct (dynamo_replace_outcome _ _ _ _ _ _ _ Hm E) as (l1 & Hm1 & Hp).
  destruct (IH _ _ _ Hm1 E2) as (l2 & Hm2 & Ha). exists l2. split; [done|].
  destruct r as [x|e]; [by eapply answers_ok|].
  destruct Hp as [->|Hs]; [by apply answers_refused|by eapply answers_unknown].
Qed.

Lemma dynamo_burn_answers now ns (ops : list (string * BurnRecord)) st l res st' :
  dynamo_lived st l -> dynamo_batch_burn T now ns ops st = (res, st') ->
  exists l', dynamo_lived st' l' /\ burn_answers now ns ops res l l'.
Proof.
  revert st l. induction ops as [|[h b] ops IH]; intros st l Hm; cbn [dynamo_batch_burn].
  { intros [= <- <-]. exists l. split; [done|constructor]. }
  unfold dynamo_exec_burn. destruct (transact_write_items _ st) as [r st1] eqn:E.
  destruct (lived_transaction _ (consume (to_rfc3339 now) (ledger_key ns h)) st l r st1
    (fun D' => burn_transacts now ns h b (dview st) D' l (proj1 Hm))) as (l1 & Hm1 & Hp); [|done|exact E|].
  { intros l' Hc. by eapply consume_evolves. }
  destruct r as [x|e]; cbn.
  - intros E2. destruct (IH _ _ Hm1 E2) as (l2 & Hm2 & Ha). exists l2. split; [done|]. by eapply burns_ok.
  - intros [= <- <-]. exists l1. split; [done|].
    destruct Hp as [->|Hs]; [constructor|by eapply burns_unknown].
Qed.

(** ** Reads *)

Lemma by_pk_lookup items k it :
  by_pk items !! k = Some it -> it ∈ items /\ it !! PK ≫= as_s = Some k.
Proof.
  assert (forall (its : list item) m, its ⊆ items ->
    (forall k it, m !! k = Some it -> it ∈ items /\ it !! PK ≫= as_s = Some k) ->
    foldl index_item m its !! k = Some it -> it ∈ items /\ it !! PK ≫= as_s = Some k) as Hg.
  { intros its. induction its as [|i its IH]; intros m Hsub Hm; [apply Hm|]. cbn [foldl].
    apply IH; [set_solver|]. intros j it'. unfold index_item.
    destruct (i !! PK ≫= as_s) as [pk|] eqn:E; [|apply Hm].
    destruct (decide (j = pk)) as [->|Hne]; [rewrite lookup_insert_eq; intros [= <-]; split; [set_solver|done]|].
    rewrite lookup_insert_ne by done. apply Hm. }
  apply Hg; [done|]. intros ? ? Hl. by rewrite lookup_empty in Hl.
Qed.

(** The read of one token: nothing, or the record it has or had before it was
    spent. *)
Definition reads_or_misses now ns l (h : string) (o : option Rec) : Prop :=
  o = None \/ exists f0 f, l !! ledger_key ns h = Some f /\ earlier f0 f /\
    o = from_fields now (rsplit_next ":token:" (ledger_key ns h)) f0.

Lemma dynamo_get_lived now ns hs st l res st' :
  dynamo_lived st l -> dynamo_get_tokens T now ns hs st = (res, st') ->
  dynamo_lived st' l /\ dview st' = dview st /\
  forall out, res = Ok out -> Forall2 (reads_or_misses now ns l) hs out.
Proof.
  intros Hl. unfold dynamo_get_tokens. destruct hs as [|h0 hs0] eqn:Eh.
  { intros [= <- <-]. split_and!; [done..|]. by intros out [= <-]. }
  rewrite <- Eh. destruct (batch_get_item _ _ st) as [r st1] eqn:E. pose proof (call_batch_get _ _ _ _ _ E) as Hc.
  destruct r as [[items rest]|e]; intros [= <- <-].
  2:{ apply batch_get_err in E. split_and!; [by eapply dynamo_still|done..]. }
  apply batch_get_ok in E as (Hv & _ & _ & seen & Hseen & Hf).
  split_and!; [by eapply dynamo_still|done|]. intros out [= <-].
  apply Forall2_map_all. intros h. unfold reads_or_misses. change (token_key NAME ns h) with (ledger_key ns h).
  destruct (by_pk items !! ledger_key ns h) as [it|] eqn:Ei; [|by left]. right.
  apply by_pk_lookup in Ei as [Hin Hpk]. rewrite Hf in Hin. apply list_elem_of_omap in Hin as (k & _ & Hk).
  destruct (Hseen k) as (D & HD & Es). rewrite Hk in Es. destruct (proj2 Hl D HD) as (l0 & Hw & He).
  assert (default ∅ (D !! tokens_table T) !! k = Some it) as Et by (by destruct (D !! tokens_table T)).
  pose proof (Hw k) as Hmk. destruct (l0 !! k) as [f0|] eqn:El; [|congruence].
  destruct Hmk as (it' & Hk' & Hty & Hfi). rewrite Et in Hk'. injection Hk' as <-.
  rewrite (typed_pk k it Hty) in Hpk. injection Hpk as ->.
  destruct (evolves_earlier _ _ _ _ He El) as (f & Ef & Hea). exists f0, f. split_and!; [done..|].
  cbn. unfold item_to_record. rewrite (typed_pk _ it Hty). cbn. by rewrite Hfi.
Qed.

Lemma dynamo_check_lived now ns hs st l res st' :
  dynamo_lived st l -> dynamo_check_tokens T now ns hs st = (res, st') ->
  dynamo_lived st' l /\ dview st' = dview st /\
  forall out, res = Ok out -> Forall2 (careful_check ns l) hs out.
Proof.
  intros Hl. unfold dynamo_check_tokens. destruct (dynamo_get_tokens T now ns hs st) as [r st1] eqn:E.
  intros [= <- <-]. destruct (dynamo_get_lived _ _ _ _ _ _ _ Hl E) as (Hl' & Hv & Ho). split_and!; [done..|].
  intros out (tokens & -> & [= <-])%bind_Ok. specialize (Ho _ eq_refl). clear -Ho FS.
  induction Ho as [|h o hs os Ho _ IH]; cbn; constructor; [|done]. split; [done|]. cbn. intros b Hb.
  destruct o as [r|]; [|done]. destruct Ho as [?|(f0 & f & Hf & He & Hr)]; [done|].
  exists (spent_hash f). unfold spent_of. rewrite Hf. split; [done|]. injection Hb as <-.
  rewrite flag_of_spent, (from_fields_flag _ _ _ _ (eq_sym Hr)). by apply earlier_spent.
Qed.

Lemma dynamo_get_mining_view st res st' : dynamo_get_mining_state T st = (res, st') -> dview st' = dview st.
Proof.
  unfold dynamo_get_mining_state. destruct (get_item _ _ _ st) as [[o|e] st1] eqn:E; intros [= _ <-].
  - by apply get_item_ok in E as [? _].
  - by apply get_item_err in E.
Qed.

Lemma dynamo_update_mining_models (s : MiningState) st l res st' :
  dynamo_models (dview st) l -> dynamo_update_mining_state T s st = (res, st') -> dynamo_models (dview st') l.
Proof.
  intros (tbl & Ht & Hm) E. exists tbl. split; [|done]. unfold dynamo_update_mining_state in E.
  destruct (put_item _ _ st) as [[[]|e] st1] eqn:Ep; injection E as _ <-.
  - apply put_item_ok in Ep as [_ ->]. by rewrite lookup_alter_ne.
  - apply put_item_err in Ep as [->| ->]; [done|]. by rewrite lookup_alter_ne.
Qed.

#[export] Instance dynamo_contract : @LedgerContract _ _ _ _ dstate (DynamoDbStore T).
Proof.
  refine {| models := dynamo_lived; okey := request_key |}.
  - done.
  - intros now ns ops st l res st'. apply dynamo_batch_answers.
  - intros now ns ops st l res st'. apply dynamo_burn_answers.
  - intros now ns hs st l res st' Hm E. by destruct (dynamo_get_lived _ _ _ _ _ _ _ Hm E).
  - intros ns hs st l res st' Hm E. by destruct (dynamo_check_lived _ _ _ _ _ _ _ Hm E) as (? & _ & ?).
  - intros st l res st' Hm E. pose proof (dynamo_get_mining_view _ _ _ E) as Hv.
    unfold DynamoDbStore, get_mining_state, dynamo_get_mining_state in E.
    destruct (get_item _ _ _ st) as [r st1] eqn:Eg. injection E as _ <-.
    eapply dynamo_still; [by eapply call_get|done|done].
  - intros s st l res st' Hm E. pose proof (dynamo_update_mining_models _ _ _ _ _ (proj1 Hm) E) as Hm'.
    unfold DynamoDbStore, update_mining_state, dynamo_update_mining_state in E.
    destruct (put_item _ _ st) as [r st1] eqn:Eg. injection E as _ <-.
    eapply dynamo_step; [by eapply call_put|done|done|done].
Defined.

(** C11: the DynamoDB store refines the abstract ledger, as long as tokens are only
    created and spent: an accepted replace is the replace of the ledger, a failed
    one is that replace or nothing.  Its reads are eventually consistent: a record
    read is the one on the ledger or that record before it was spent, a token
    reported spent is spent, one reported unspent is recorded but may have been
    spent since, and a missing answer says nothing. *)
Theorem dynamo_refines now ns st l :
  dynamo_lived st l ->
  (forall op res st', dynamo_exec_replace T now ns op st = (res, st') ->
     exists l', dynamo_lived st' l' /\
       match res with Ok _ => replace_op request_key now ns op l = Ok l' | Err _ => l' = l \/ replace_op request_key now ns op l = Ok l' end) /\
  (forall hs res st', dynamo_get_tokens T now ns hs st = (res, st') ->
     dynamo_lived st' l /\ dview st' = dview st /\
     forall out, res = Ok out -> Forall2 (reads_or_misses now ns l) hs out) /\
  (forall hs res st', dynamo_check_tokens T now ns hs st = (res, st') ->
     dynamo_lived st' l /\ dview st' = dview st /\
     forall out, res = Ok out -> Forall2 (careful_check ns l) hs out).
Proof.
  intros Hm. split_and!.
  - intros op res st'. by apply dynamo_replace_outcome.
  - intros hs res st'. by apply dynamo_get_lived.
  - intros hs res st'. by apply dynamo_check_lived.
Qed.

(** A replace of more than 99 tokens is never accepted, and changes
    nothing, since DynamoDB takes at most 100 actions in a transaction. *)
Theorem dynamo_replace_limit now ns op st res st' :
  (99 < length (ro_inputs op) + length (ro_outputs op))%nat ->
  dynamo_exec_replace T now ns op st = (res, st') -> is_ok res = false /\ dview st' = dview st.
Proof.
  intros Hl. unfold dynamo_exec_replace. destruct (transact_write_items _ st) as [r st1] eqn:E. intros [= <- <-].
  assert (transact (replace_txs T now ns op) (dview st) = None) as Hn.
  { apply transact_limit. unfold replace_txs. rewrite !length_app, !length_map. cbn. lia. }
  destruct r as [[]|e].
  - apply transact_ok in E. congruence.
  - apply transact_err in E as [->|E]; [done|congruence].
Qed.
End Refinement.

(** ** The types of the token table *)

Section Typing.
Context `{DynamoLaws} `{Chrono} {A : Asset} `{!HashRecord Rec} {FS : FieldShape Rec} {K : KeyStrategy}
  `{Serde ReplacementRecord} `{Serde BurnRecord} `{Serde MiningState}
  (T : DynamoTables) (Hat : audit_table T <> tokens_table T) (Hmt : mining_table T <> tokens_table T).
Implicit Types (D : dtables) (tbl : dtable).

Definition table_typed tbl : Prop := forall k it, tbl !! k = Some it -> item_typed k it.
Definition tokens_items_typed D : Prop := forall tbl, D !! tokens_table T = Some tbl -> table_typed tbl.

Lemma table_typed_insert tbl k it : table_typed tbl -> item_typed k it -> table_typed (<[k := it]> tbl).
Proof.
  intros Ht Hi j it'. destruct (decide (j = k)) as [->|Hne].
  - rewrite lookup_insert_eq. by intros [= <-].
  - rewrite lookup_insert_ne by done. apply Ht.
Qed.

Lemma items_typed_alter f table D :
  (table = tokens_table T -> forall tbl, table_typed tbl -> table_typed (f tbl)) ->
  tokens_items_typed D -> tokens_items_typed (alter f table D).
Proof.
  intros Hf Ht tbl. destruct (decide (table = tokens_table T)) as [->|Hne].
  - rewrite lookup_alter_eq. destruct (D !! tokens_table T) as [t|] eqn:E; [|done]. intros [= <-]. by apply Hf, Ht.
  - rewrite lookup_alter_ne by done. apply Ht.
Qed.

Lemma put_items_typed (its : list item) tbl :
  Forall (fun it => item_typed (item_pk it) it) its -> table_typed tbl -> table_typed (put_items its tbl).
Proof.
  unfold put_items. intros Hi. revert tbl. induction Hi as [|it its Hit _ IH]; intros tbl Ht; [done|].
  cbn. apply IH. by apply table_typed_insert.
Qed.

Lemma item_for_typed ns (r : Rec) : item_typed (item_pk (item_for ns r)) (item_for ns r).
Proof. rewrite item_for_pk. apply fields_item_typed, record_shaped. Qed.

(** The actions the store sends. *)
Inductive store_tx : tx_item -> Prop :=
  | sends_spend now k : store_tx (spend_tx T now k)
  | sends_put ns (r : Rec) : store_tx (TxPut (tokens_table T) (item_for ns r) NotExists)
  | sends_audit pk json : store_tx (audit_tx T pk json).

Lemma tx_apply_typed D t : store_tx t -> tx_holds D t = true -> tokens_items_typed D -> tokens_items_typed (tx_apply D t).
Proof.
  intros Ht Hh Hd tbl Hl. unfold tx_apply in Hl. destruct Ht as [now k|ns r|pk json]; cbn in Hl.
  - rewrite lookup_alter_eq in Hl. unfold tx_holds in Hh. cbn [spend_tx tx_target tx_condition fst snd] in Hh.
    destruct (D !! tokens_table T) as [tbl0|] eqn:E; [|done]. injection Hl as <-.
    apply table_typed_insert; [by apply Hd|]. destruct (tbl0 !! k) as [it|] eqn:Ei; [|done].
    cbn. apply (spend_item_typed k now it). by eapply Hd.
  - rewrite lookup_alter_eq in Hl. destruct (D !! tokens_table T) as [tbl0|] eqn:E; [|done]. injection Hl as <-.
    apply table_typed_insert; [by apply Hd|]. apply item_for_typed.
  - rewrite lookup_alter_ne in Hl by done. by apply Hd.
Qed.

Lemma transact_typed txs D D' :
  Forall store_tx txs -> transact txs D = Some D' -> tokens_items_typed D -> tokens_items_typed D'.
Proof.
  intros Hs Et%transact_run. revert D Et. induction Hs as [|t txs Ht _ IH]; intros D; cbn [tx_run]; [by intros [= <-]|].
  destruct (tx_holds D t) eqn:Eh; [|done]. intros Er Hd. eapply IH; [exact Er|]. by apply tx_apply_typed.
Qed.

Lemma transaction_typed txs st r st' :
  Forall store_tx txs -> transact_write_items txs st = (r, st') ->
  tokens_items_typed (dview st) -> tokens_items_typed (dview st').
Proof.
  intros Hs E Hd. destruct r as [[]|e].
  - apply transact_ok in E. by eapply transact_typed.
  - apply transact_err in E as [->|E]; [done|]. by eapply transact_typed.
Qed.

Lemma replace_sends now ns (op : ReplaceOp Rec) : Forall store_tx (replace_txs T now ns op).
Proof.
  unfold replace_txs. rewrite !Forall_app. split_and!.
  - apply Forall_forall. intros t (h & -> & _)%list_elem_of_fmap. constructor.
  - apply Forall_forall. intros t (h & -> & _)%list_elem_of_fmap. constructor.
  - repeat constructor.
Qed.

Lemma batch_replace_typed now ns (ops : list (ReplaceOp Rec)) st res st' :
  dynamo_batch_replace T now ns ops st = (res, st') ->
  tokens_items_typed (dview st) -> tokens_items_typed (dview st').
Proof.
  revert st res. induction ops as [|op ops IH]; intros st res; cbn [dynamo_batch_replace]; [by intros [= <- <-]|].
  unfold dynamo_exec_replace. destruct (transact_write_items _ st) as [r st1] eqn:E.
  destruct (dynamo_batch_replace T now ns ops st1) as [out st2] eqn:E2. intros [= <- <-] Hd.
  eapply IH; [exact E2|]. eapply transaction_typed; [apply replace_sends|exact E|done].
Qed.

Lemma batch_burn_typed now ns (ops : list (string * BurnRecord)) st res st' :
  dynamo_batch_burn T now ns ops st = (res, st') ->
  tokens_items_typed (dview st) -> tokens_items_typed (dview st').
Proof.
  revert st. induction ops as [|[h b] ops IH]; intros st; cbn [dynamo_batch_burn]; [by intros [= <- <-]|].
  unfold dynamo_exec_burn. destruct (transact_write_items _ st) as [r st1] eqn:E. intros Er Hd.
  assert (tokens_items_typed (dview st1)) as Hd1 by (eapply transaction_typed; [|exact E|done]; repeat constructor).
  destruct r; cbn in Er; [by eapply IH|by injection Er as <- <-].
Qed.

Lemma batch_write_outcome (its : list item) st r st' :
  batch_write_item (tokens_table T) its st = (r, st') ->
  exists done, done ⊆ its /\ dview st' = alter (put_items done) (tokens_table T) (dview st).
Proof.
  destruct r as [rest|e]; intros E.
  - apply batch_write_ok in E as (_ & _ & _ & dn & Hp & Hv). exists dn. split; [|done].
    intros it Hit. rewrite <- Hp. apply elem_of_app. by left.
  - by apply batch_write_err in E.
Qed.

Lemma write_chunks_typed (cs : list (list Rec)) st res st' :
  write_chunks T cs st = (res, st') -> tokens_items_typed (dview st) -> tokens_items_typed (dview st').
Proof.
  revert st. induction cs as [|c cs IH]; intros st; cbn [write_chunks]; [by intros [= <- <-]|].
  destruct (batch_write_item _ _ st) as [r st1] eqn:E. intros Er Hd.
  assert (tokens_items_typed (dview st1)) as Hd1.
  { apply batch_write_outcome in E as (dn & Hsub & ->). apply items_typed_alter; [|done].
    intros _ tbl Ht. apply put_items_typed; [|done]. apply Forall_forall. intros it Hit%Hsub.
    apply list_elem_of_fmap in Hit as (r' & -> & _). apply item_for_typed. }
  destruct r; [by eapply IH|by injection Er as <- <-].
Qed.

Lemma get_tokens_view now ns hs st res st' : dynamo_get_tokens T now ns hs st = (res, st') -> dview st' = dview st.
Proof.
  unfold dynamo_get_tokens. destruct hs as [|h hs]; [by intros [= <- <-]|].
  destruct (batch_get_item _ _ st) as [[[items rest]|e] st1] eqn:E; intros [= <- <-].
  - by apply batch_get_ok in E as [? _].
  - by apply batch_get_err in E.
Qed.

(** C13: the token table stays typed: whatever a method of the store answers,
    and however much of it DynamoDB processed, each item of the table is found
    under its own key and has a number as amount, a boolean as flag and text
    elsewhere. *)
Theorem dynamo_items_typed st :
  tokens_items_typed (dview st) ->
  (forall rs res st', insert_tokens (LedgerStore := DynamoDbStore T) rs st = (res, st') -> tokens_items_typed (dview st')) /\
  (forall now ns hs res st', get_tokens (LedgerStore := DynamoDbStore T) now ns hs st = (res, st') -> tokens_items_typed (dview st')) /\
  (forall ns hs res st', check_tokens (LedgerStore := DynamoDbStore T) ns hs st = (res, st') -> tokens_items_typed (dview st')) /\
  (forall now ns ops res st', batch_replace (LedgerStore := DynamoDbStore T) now ns ops st = (res, st') -> tokens_items_typed (dview st')) /\
  (forall now ns ops res st', batch_burn (LedgerStore := DynamoDbStore T) now ns ops st = (res, st') -> tokens_items_typed (dview st')) /\
  (forall res st', get_mining_state (LedgerStore := DynamoDbStore T) st = (res, st') -> tokens_items_typed (dview st')) /\
  (forall s res st', update_mining_state (LedgerStore := DynamoDbStore T) s st = (res, st') -> tokens_items_typed (dview st')).
Proof.
  intros Hd. cbn. split_and!.
  - intros rs res st' E. unfold dynamo_insert_tokens in E. destruct rs; [by injection E as <- <-|].
    by eapply write_chunks_typed.
  - intros now ns hs res st' E. by rewrite (get_tokens_view _ _ _ _ _ _ E).
  - intros ns hs res st'. unfold dynamo_check_tokens. destruct (dynamo_get_tokens T _ ns hs st) as [r st1] eqn:E.
    intros [= <- <-]. by rewrite (get_tokens_view _ _ _ _ _ _ E).
  - intros now ns ops res st' E. by eapply batch_replace_typed.
  - intros now ns ops res st' E. by eapply batch_burn_typed.
  - intros res st'. unfold dynamo_get_mining_state. destruct (get_item _ _ _ st) as [[o|e] st1] eqn:E; intros [= <- <-].
    + by apply get_item_ok in E as [-> _].
    + by rewrite (get_item_err _ _ _ _ _ _ E).
  - intros s res st'. unfold dynamo_update_mining_state. destruct (put_item _ _ st) as [[[]|e] st1] eqn:E; intros [= <- <-].
    + apply put_item_ok in E as [_ ->]. by apply items_typed_alter.
    + apply put_item_err in E as [->| ->]; [done|]. by apply items_typed_alter.
Qed.
End Typing.

(** ** The hash read back from a key *)

Lemma after_last_app sep a s r : after_last sep s = Some r -> after_last sep (a +:+ s) = Some r.
Proof. intros Hs. induction a as [|c a IH]; [done|]. cbn. by rewrite IH. Qed.

Lemma no_colon_cons c s : no_colon (String c s) -> c <> ":"%char /\ no_colon s.
Proof.
  unfold no_colon. cbn. intros [Hc Hs]%andb_true_iff. split; [|done]. intros ->. discriminate Hc.
Qed.

Lemma after_last_none s : no_colon s -> after_last ":token:" s = None.
Proof.
  induction s as [|c s IH]; intros Hs; [done|]. apply no_colon_cons in Hs as [Hc Hs].
  cbn [after_last]. rewrite IH by done. cbn [strip_prefix]. destruct (Ascii.eqb_spec ":"%char c); [by subst|done].
Qed.

Lemma strip_token_none s : no_colon s -> strip_prefix "token:" s = None.
Proof.
  intros Hs. destruct (strip_prefix "token:" s) as [r|] eqn:E; [|done]. apply strip_prefix_Some in E as ->.
  discriminate Hs.
Qed.

(** The store finds the hash of an item by cutting its key after the last
    [":token:"].  That is the hash for a namespaced key, whatever the asset
    and the namespace; a key of the webcash server has no such separator, and
    the whole key, ["token:"] included, is taken for the hash. *)
Theorem hash_of_key n ns (h : string) :
  no_colon h ->
  rsplit_next ":token:" (@token_key NamespacedKeys n ns h) = h /\
  rsplit_next ":token:" (@token_key WebcashLegacyKeys n ns h) = "token:" +:+ h.
Proof.
  intros Hh. unfold rsplit_next. cbn [token_key NamespacedKeys WebcashLegacyKeys].
  pose proof (after_last_none h Hh) as Hn. pose proof (strip_token_none h Hh) as Hs.
  split.
  - assert (after_last ":token:" (":token:" +:+ h) = Some h) as E.
    { simpl. rewrite Hn. simpl in Hs. rewrite Hs. done. }
    rewrite (after_last_app _ n _ h); [done|]. by do 4 apply after_last_app.
  - assert (after_last ":token:" ("token:" +:+ h) = None) as ->; [|done].
    simpl. rewrite Hn. simpl in Hs. by rewrite Hs.
Qed.

(** ** Creation of the tables *)

Section Ensure.
Context `{DynamoLaws} (T : DynamoTables).
Implicit Types (st : dstate).

Definition attempt st : result string unit * dstate := ensure_each [tokens_table T; mining_table T; audit_table T] st.

(** The state when the [n]-th attempt starts, counting from 0, if all before
    it failed. *)
Fixpoint before_attempt (n : nat) st : dstate :=
  match n with O => st | S n' => before_attempt n' (attempt st).2 end.

Definition sleeps_after (n : nat) : list Z := map backoff (seq 1 n).

(** Number [k] is the first attempt to succeed. *)
Definition first_success (k : nat) st : Prop :=
  is_ok (attempt (before_attempt k st)).1 = true /\
  forall j, (j < k)%nat -> is_ok (attempt (before_attempt j st)).1 = false.

Lemma ensure_loop_success k fuel a st :
  (a + k < 10)%nat -> (k < fuel)%nat -> first_success k st ->
  ensure_loop T fuel a st = Some (Ok tt, map backoff (seq (S a) k), (attempt (before_attempt k st)).2).
Proof.
  revert fuel a st. induction k as [|k IH]; intros fuel a st Ha Hf [Hok Hno]; (destruct fuel as [|fuel]; [lia|]); cbn [ensure_loop].
  - cbn [before_attempt] in *. fold (attempt st). by destruct (attempt st) as [[[]|e] st1].
  - fold (attempt st). pose proof (Hno O ltac:(lia)) as Hfst. cbn [before_attempt] in Hfst.
    destruct (attempt st) as [[x|e] st1] eqn:Ea; [done|].
    destruct (Nat.leb_spec 10 (S a)); [lia|].
    rewrite (IH fuel (S a) st1); [|lia|lia|].
    + cbn [before_attempt seq map]. by rewrite Ea.
    + split; [cbn [before_attempt] in Hok; by rewrite Ea in Hok|]. intros j Hj. specialize (Hno (S j)). cbn [before_attempt] in Hno.
      rewrite Ea in Hno. apply Hno. lia.
Qed.

Lemma ensure_loop_fails fuel a st :
  (a + fuel = 10)%nat -> (0 < fuel)%nat -> (forall j, (j < fuel)%nat -> is_ok (attempt (before_attempt j st)).1 = false) ->
  exists e, ensure_loop T fuel a st =
    Some (Err e, map backoff (seq (S a) (fuel - 1)), (attempt (before_attempt (fuel - 1) st)).2) /\
    (attempt (before_attempt (fuel - 1) st)).1 = Err e.
Proof.
  revert a st. induction fuel as [|fuel IH]; intros a st Ha Hf Hno; [lia|]. cbn [ensure_loop]. fold (attempt st).
  pose proof (Hno O ltac:(lia)) as Hfst. cbn [before_attempt] in Hfst. destruct (attempt st) as [[x|e] st1] eqn:Ea; [done|].
  destruct (Nat.leb_spec 10 (S a)).
  - assert (fuel = 0)%nat as -> by lia. cbn [before_attempt Nat.sub seq map]. rewrite Ea. by exists e.
  - destruct (IH (S a) st1) as (e' & -> & He); [lia|lia| |].
    + intros j Hj. specialize (Hno (S j)). cbn [before_attempt] in Hno. rewrite Ea in Hno. apply Hno. lia.
    + destruct fuel as [|fuel]; [lia|]. rewrite !Nat.sub_succ, !Nat.sub_0_r in *. exists e'.
      cbn [before_attempt seq map]. by rewrite Ea.
Qed.

(** C14: the creation of the tables ends and is live: if one of ten attempts
    meets no error of the service, the first such attempt decides and the
    answer is a success; otherwise the answer is the error of the tenth.  The
    sleeps are those of the failed attempts, at most 38 seconds together. *)
Theorem ensure_tables_live st :
  exists res sleeps st', ensure_tables T st = Some (res, sleeps, st') /\
    ((exists k, (k < 10)%nat /\ first_success k st /\ res = Ok tt /\ sleeps = sleeps_after k) \/
     ((forall j, (j < 10)%nat -> is_ok (attempt (before_attempt j st)).1 = false) /\
      res = (attempt (before_attempt 9 st)).1 /\ sleeps = sleeps_after 9)) /\
    foldr Z.add 0 sleeps <= 38000.
Proof.
  assert (forall n, (n <= 10)%nat -> (exists k, (k < n)%nat /\ first_success k st) \/
    (forall j, (j < n)%nat -> is_ok (attempt (before_attempt j st)).1 = false)) as Hdec.
  { induction n as [|n IH]; intros Hn; [right; lia|]. destruct (IH ltac:(lia)) as [(k & Hk & Hf)|Hno].
    - left. exists k. split; [lia|done].
    - destruct (is_ok (attempt (before_attempt n st)).1) eqn:E.
      + left. exists n. split; [lia|]. by split.
      + right. intros j Hj. destruct (decide (j = n)) as [->|]; [done|]. apply Hno. lia. }
  destruct (Hdec 10%nat ltac:(lia)) as [(k & Hk & Hf)|Hno].
  - exists (Ok tt), (sleeps_after k), (attempt (before_attempt k st)).2. split_and!.
    + apply (ensure_loop_success k 10 0); [lia|lia|done].
    + left. exists k. done.
    + do 10 (destruct k as [|k]; [vm_compute; discriminate|]). lia.
  - destruct (ensure_loop_fails 10 0 st eq_refl ltac:(lia) Hno) as (e & He & Ho).
    exists (Err e), (sleeps_after 9), (attempt (before_attempt 9 st)).2. split_and!.
    + exact He.
    + right. done.
    + vm_compute. discriminate.
Qed.

(** Existing tables are left as they are. *)
Definition keeps_tables (D D' : dtables) : Prop := forall name tbl, D !! name = Some tbl -> D' !! name = Some tbl.

#[export] Instance keeps_tables_preorder : PreOrder keeps_tables.
Proof. split; [by intros D name|]. intros D1 D2 D3 H1 H2 name tbl E. by apply H2, H1. Qed.

Lemma create_keeps D name : D !! name = None -> keeps_tables D (<[name := ∅]> D).
Proof. intros Hn n tbl E. rewrite lookup_insert_ne; [done|]. intros ->. congruence. Qed.

Lemma ensure_table_keeps name st r st' :
  ensure_table name st = (r, st') ->
  keeps_tables (dview st) (dview st') /\ (is_ok r = true -> is_Some (dview st' !! name)).
Proof.
  unfold ensure_table. destruct (describe_table name st) as [[[]|e] st1] eqn:E.
  { intros [= <- <-]. apply describe_ok in E as [-> ?]. by split. }
  pose proof (describe_err _ _ _ _ E) as Hv. destruct (negb _); [intros [= <- <-]; by rewrite Hv|].
  destruct (create_table name st1) as [[[]|e1] st2] eqn:E2.
  - intros [= <- <-]. apply create_ok in E2 as [Hn ->]. rewrite Hv in *. split; [by apply create_keeps|].
    intros _. rewrite lookup_insert_eq. eauto.
  - apply create_err in E2 as [Hc Hu]. rewrite Hv in Hc.
    assert (keeps_tables (dview st) (dview st2)) as Hk by (destruct Hc as [->|[Hn ->]]; [done|by apply create_keeps]).
    destruct (is_resource_in_use e1); intros [= <- <-]; (split; [done|]); [by intros _; apply Hu|done].
Qed.

Lemma ensure_each_keeps names st r st' :
  ensure_each names st = (r, st') ->
  keeps_tables (dview st) (dview st') /\ (is_ok r = true -> forall n, n ∈ names -> is_Some (dview st' !! n)).
Proof.
  revert st. induction names as [|name names IH]; intros st; cbn [ensure_each].
  { intros [= <- <-]. split; [done|]. set_solver. }
  destruct (ensure_table name st) as [[x|e] st1] eqn:E; apply ensure_table_keeps in E as [Hk Ho].
  - intros [Hk2 Ho2]%IH. split; [by etrans|]. intros Hr n [->|Hn]%elem_of_cons; [|by apply Ho2].
    destruct (Ho eq_refl) as [tbl Ht]. exists tbl. by apply Hk2.
  - intros [= <- <-]. by split.
Qed.

Lemma ensure_loop_keeps fuel a st r sl st' :
  ensure_loop T fuel a st = Some (r, sl, st') ->
  keeps_tables (dview st) (dview st') /\
  (is_ok r = true -> forall n, n ∈ [tokens_table T; mining_table T; audit_table T] -> is_Some (dview st' !! n)).
Proof.
  revert a st sl. induction fuel as [|fuel IH]; intros a st sl; cbn [ensure_loop]; [done|].
  destruct (ensure_each _ st) as [[x|e] st1] eqn:E; apply ensure_each_keeps in E as [Hk Ho].
  - intros [= <- _ <-]. split; [done|]. intros _. by apply Ho.
  - destruct (10 <=? S a)%nat; [intros [= <- _ <-]; by split|].
    intros ([[r1 sl1] st2] & E2 & [= <- _ <-])%bind_Some. apply IH in E2 as [Hk2 Ho2]. split; [by etrans|done].
Qed.

(** Whatever the service answers, no existing table is altered; after a
    success the three tables of the store exist. *)
Theorem ensure_tables_exist st res sleeps st' :
  ensure_tables T st = Some (res, sleeps, st') ->
  keeps_tables (dview st) (dview st') /\
  (res = Ok tt -> is_Some (dview st' !! tokens_table T) /\ is_Some (dview st' !! mining_table T) /\
    is_Some (dview st' !! audit_table T)).
Proof.
  intros [Hk Ho]%ensure_loop_keeps. split; [done|]. intros ->. split_and!; apply Ho; set_solver.
Qed.
End Ensure.
