(* ===== verification/LedgerServer.v ===== *)
(** * The server over a transactional store

    The handlers of [Server] over any store with the contract of [Ledger]:
    whatever requests are served and however they are answered, a token that
    is recorded stays recorded and is spent at most once, and a replace keeps
    the supply of its namespace even when its answer is lost. *)
From S2P Require Import Prelude Decimal Amount External AssetCore Tokens Storage Redis RedisLedger Htlc Mining Records Auth Server ServerFacts Conservation Ledger.

(** ** What a handler does to the store *)

Section Moves.
Context {S : Type} (R : S -> S -> Prop) `{!PreOrder R}.

(** The store moves along [R], whatever the handler answers. *)
Definition moves {T} (m : handler S T) : Prop := forall st x st', m st = (x, st') -> R (data st) (data st').

Lemma moves_ret {T} (x : T) : moves (mret x).
Proof. intros st y st' E. injection E as <- <-. reflexivity. Qed.
Lemma moves_fail {T} msg : moves (fail msg : handler S T).
Proof. intros st y st' E. injection E as <- <-. reflexivity. Qed.
Lemma moves_try {E T} (r : result E T) msg : moves (try r msg).
Proof. intros st y st'. unfold try. destruct r; intros Er; injection Er as <- <-; reflexivity. Qed.
Lemma moves_store {T} (f : S -> T * S) : (forall d, R d (f d).2) -> moves (with_store f).
Proof.
  intros Hf st y st'. unfold with_store. specialize (Hf (data st)). destruct (f (data st)) as [x d].
  by intros [= <- <-].
Qed.
Lemma moves_bind {T U} (m : handler S T) (k : T -> handler S U) :
  moves m -> (forall x, moves (k x)) -> moves (m ≫= k).
Proof.
  intros Hm Hk st y st' E2. unfold mbind, handler_bind in E2. destruct (m st) as [[x|r] st1] eqn:E.
  - etrans; [exact (Hm _ _ _ E)|exact (Hk _ _ _ _ E2)].
  - injection E2 as <- <-. exact (Hm _ _ _ E).
Qed.
Lemma moves_if {T} (b : bool) (m n : handler S T) : moves m -> moves n -> moves (if b then m else n).
Proof. by destruct b. Qed.
Lemma moves_nonces `{Hashing, Unicode, Ed25519} f : moves (with_nonces f).
Proof.
  intros st y st'. unfold with_nonces. destruct (f (nonces st)) as [r c]. unfold try.
  destruct r; intros Er; injection Er as <- <-; reflexivity.
Qed.
End Moves.

Create HintDb moves.
#[export] Hint Resolve moves_ret moves_fail moves_try moves_nonces : moves.

(** Follows the statements of a handler; the calls of the store are left. *)
Ltac moves :=
  repeat first
    [ progress cbv beta zeta
    | apply moves_if
    | apply moves_bind; [apply _| |intros ?]
    | apply moves_store; intros ?
    | progress eauto with moves typeclass_instances
    | match goal with
      | |- moves _ (match ?x with _ => _ end) => destruct x
      | |- moves _ ((match ?x with _ => _ end)) => destruct x
      end ].

Section Lives.
Context {A : Asset} `{Chrono} `{!HashRecord Rec} {K : KeyStrategy} {S : Type} `{!LedgerStore Rec S}
  {LC : LedgerContract S} `{ServerJson} {RB : RecordBuilder}.

(** One state of the store follows another. *)
Definition follows (d d' : S) : Prop := forall l, models d l -> exists l', models d' l' /\ evolves l l'.

#[export] Instance follows_preorder : PreOrder follows.
Proof.
  split.
  - intros d l Hm. by exists l.
  - intros d1 d2 d3 H1 H2 l Hm. destruct (H1 l Hm) as (l1 & Hm1 & E1). destruct (H2 l1 Hm1) as (l2 & Hm2 & E2).
    exists l2. split; [done|]. by etrans.
Qed.

Lemma follows_replace now ns ops d : follows d (batch_replace now ns ops d).2.
Proof.
  intros l Hm. destruct (contract_replace now ns ops d l _ _ Hm (surjective_pairing _)) as (l' & Hm' & Ha).
  exists l'. split; [done|]. by eapply batch_evolves.
Qed.
Lemma follows_burn now ns ops d : follows d (batch_burn now ns ops d).2.
Proof.
  intros l Hm. destruct (contract_burn now ns ops d l _ _ Hm (surjective_pairing _)) as (l' & Hm' & Ha).
  exists l'. split; [done|]. by eapply burns_evolve.
Qed.
Lemma follows_get now ns hs d : follows d (get_tokens now ns hs d).2.
Proof. intros l Hm. exists l. split; [|done]. eapply contract_get; [done|apply surjective_pairing]. Qed.
Lemma follows_check ns hs d : follows d (check_tokens ns hs d).2.
Proof.
  intros l Hm. exists l. split; [|done]. by destruct (contract_check ns hs d l _ _ Hm (surjective_pairing _)).
Qed.
Lemma follows_mining d : follows d (get_mining_state d).2.
Proof. intros l Hm. exists l. split; [|done]. eapply contract_get_mining; [done|apply surjective_pairing]. Qed.
Lemma follows_update s d : follows d (update_mining_state s d).2.
Proof. intros l Hm. exists l. split; [|done]. eapply contract_update_mining; [done|apply surjective_pairing]. Qed.
Lemma follows_stats d : follows d (get_stats d).2.
Proof.
  unfold get_stats. pose proof (follows_mining d) as Hf. by destruct (get_mining_state d).
Qed.
Lemma follows_insert {IC : InsertContract S} rs d : follows d (insert_tokens rs d).2.
Proof.
  intros l Hm. destruct (contract_insert rs d l _ _ Hm (surjective_pairing _)) as (l' & Hm' & Hp).
  exists l'. split; [done|]. destruct (insert_tokens rs d).1 as [x|e]; [by eapply create_all_evolves|].
  destruct Hp as [->|Hc]; [done|by eapply create_all_evolves].
Qed.
End Lives.

#[export] Hint Resolve follows_replace follows_burn follows_get follows_check follows_mining follows_update
  follows_stats follows_insert : moves.

Section Handlers.
Context {A : Asset} `{Chrono} `{!HashRecord Rec} {K : KeyStrategy} {S : Type} `{!LedgerStore Rec S}
  {LC : LedgerContract S} {IC : InsertContract S} `{ServerJson} {RB : RecordBuilder} `{Hashing, Unicode, Ed25519}.

Lemma moves_health_lookup env groups lookups : moves follows (health_lookup env groups lookups : handler S _).
Proof. revert lookups. induction groups as [|[ns items] groups IH]; intros lookups; cbn [health_lookup]; moves. Qed.
Lemma moves_health_lookup_collectible groups lookups : moves follows (health_lookup_collectible groups lookups : handler S _).
Proof. revert lookups. induction groups as [|[ns items] groups IH]; intros lookups; cbn [health_lookup_collectible]; moves. Qed.

Lemma moves_health_check env req : moves follows (health_check env req : handler S _).
Proof. unfold health_check. pose proof moves_health_lookup. moves. Qed.
Lemma moves_health_check_collectible req : moves follows (health_check_collectible req : handler S _).
Proof. unfold health_check_collectible. pose proof moves_health_lookup_collectible. moves. Qed.
Lemma moves_replace {SA : SplittableAsset} {RH : ReplaceHook} env req : moves follows (replace env req : handler S _).
Proof. unfold replace. moves. Qed.
Lemma moves_replace_collectible {TA : TransferableAsset} {IA : IssuedAsset} {RH : ReplaceHook} env req :
  moves follows (replace_collectible env req : handler S _).
Proof. unfold replace_collectible. moves. Qed.
Lemma moves_burn_with env w req : moves follows (burn_with env w req : handler S _).
Proof. unfold burn_with. moves. Qed.
Lemma moves_mining_report cfg env req : moves follows (mining_report cfg env req : handler S _).
Proof. unfold mining_report. moves. Qed.
Lemma moves_stats : moves follows (stats : handler S _).
Proof. unfold stats. moves. Qed.
Lemma moves_target cfg : moves follows (target cfg : handler S _).
Proof. unfold target. moves. Qed.
Lemma moves_issue {IA : IssuedAsset} issuers env check req : moves follows (issue_with issuers env check req : handler S _).
Proof. unfold issue_with. moves. Qed.
End Handlers.

(** ** Histories of requests *)

Section Histories.
Context {A : Asset} `{Chrono} `{!HashRecord Rec} {K : KeyStrategy} {S : Type} `{!LedgerStore Rec S}
  {LC : LedgerContract S} {IC : InsertContract S} `{ServerJson} {RB : RecordBuilder} `{Hashing, Unicode, Ed25519}
  (cfg : ServeConfig) (issuers : option IssuerRegistry).
Implicit Types (st : ServerState S).

Lemma moves_route {SA : SplittableAsset} {RH : ReplaceHook} env req : moves follows (route cfg env req : handler S _).
Proof.
  unfold route. repeat apply moves_if; try apply moves_ret;
    eauto using moves_target, moves_health_check, moves_replace, moves_mining_report, moves_burn_with, moves_stats with typeclass_instances.
Qed.

Lemma moves_route_issued {SA : SplittableAsset} {RH : ReplaceHook} {IA : IssuedAsset} env req :
  moves follows (route_issued cfg issuers env req : handler S _).
Proof. unfold route_issued. apply moves_if; [apply moves_issue|apply moves_route]. Qed.

Lemma moves_route_collectible {TA : TransferableAsset} {RH : ReplaceHook} {IA : IssuedAsset} env req :
  moves follows (route_collectible cfg issuers env req : handler S _).
Proof.
  unfold route_collectible. repeat apply moves_if; try apply moves_ret;
    eauto using moves_target, moves_health_check_collectible, moves_replace_collectible, moves_burn_with, moves_issue
      with typeclass_instances.
Qed.

(** A server answers requests one by one. *)
Fixpoint serve_all (h : Env -> Request -> handler S Response) (reqs : list (Env * Request)) st : ServerState S :=
  match reqs with
  | [] => st
  | (env, req) :: rest => serve_all h rest (respond (h env req) st).2
  end.

Lemma moves_serve_all h reqs st :
  (forall env req, moves follows (h env req)) -> follows (data st) (data (serve_all h reqs st)).
Proof.
  intros Hh. revert st. induction reqs as [|[env req] reqs IH]; intros st; cbn [serve_all]; [done|].
  etrans; [|apply IH]. unfold respond. destruct (h env req st) as [[r|r] st1] eqn:E; exact (Hh _ _ _ _ _ E).
Qed.

(** The three servers, by their routes. *)
Inductive is_server : (Env -> Request -> handler S Response) -> Prop :=
  | plain_server {SA : SplittableAsset} {RH : ReplaceHook} : is_server (fun env => route cfg env)
  | issued_server {SA : SplittableAsset} {RH : ReplaceHook} {IA : IssuedAsset} :
      is_server (fun env => route_issued cfg issuers env)
  | collectible_server {TA : TransferableAsset} {RH : ReplaceHook} {IA : IssuedAsset} :
      is_server (fun env => route_collectible cfg issuers env).

Lemma moves_server h env req : is_server h -> moves follows (h env req).
Proof. intros []; [apply moves_route|apply moves_route_issued|apply moves_route_collectible]. Qed.

(** Over a store with the contracts, through any history of requests to
    any of the three servers, whatever is answered, every token on the ledger
    stays on the ledger with its record unchanged, except that an unspent one
    may have been marked spent, once. *)
Theorem tokens_live_once h reqs st l :
  is_server h -> models (data st) l ->
  exists l', models (data (serve_all h reqs st)) l' /\ evolves l l'.
Proof. intros Hh. apply moves_serve_all. intros env req. by apply moves_server. Qed.

(** The secrets a replace request spends. *)
Definition spends (req : Request) (ins : list Secret) : Prop :=
  exists body parsed, req_body req = Ok body /\ json_replace_body body = Ok parsed /\
    parsed_as (rb_webcashes parsed) ins.

Definition secret_key (s : Secret) : string := ledger_key (secret_ns s) (public_hash (to_public s)).

(** A committed replace is a step of the ledger. *)
Lemma batch_step now ns (op : ReplaceOp Rec) rest d d' l :
  batch_replace now ns [op] d = (ReplaceOk :: rest, d') -> models d l ->
  exists l', models d' l' /\ replaced (to_rfc3339 now) (ledger_ins ns op) (ledger_outs okey ns op) l l'.
Proof.
  intros Hbr Hm. destruct (contract_replace _ _ _ _ _ _ _ Hm Hbr) as (l' & Hm' & Ha).
  inversion Ha as [|? ? ? ? l1 ? E Ha2| |]; subst. inversion Ha2; subst.
  exists l'. split; [done|]. by apply replace_ledger_Ok in E.
Qed.

(** An accepted replace is a step of the ledger that consumes its inputs. *)
Lemma accepted_step {SA : SplittableAsset} {RH : ReplaceHook} env req st r st' l ins :
  replace env req st = (Ok r, st') -> models (data st) l -> spends req ins -> ins <> [] ->
  exists l' outs, models (data st') l' /\ replaced (to_rfc3339 (now env)) (secret_key <$> ins) outs l l'.
Proof.
  intros [_ (body & parsed & Hb & Hp & _ & Hcase)]%replace_inv Hm (body' & parsed' & Hb' & Hp' & Hi') Hne.
  rewrite Hb in Hb'. injection Hb' as <-. rewrite Hp in Hp'. injection Hp' as <-.
  destruct Hcase as [(Ei & _ & ->)|(ns & ins1 & outs & recs & op & [Hi _ _ Hns _ _ Hop _ (s1 & Hg & rest & Hbr) _])].
  { rewrite Ei in Hi'. inversion Hi'. congruence. }
  pose proof (parsed_as_inj _ _ _ Hi' Hi) as ->.
  pose proof (contract_get _ _ _ _ _ _ _ Hm Hg) as Hm1.
  destruct (batch_step _ _ _ _ _ _ _ Hbr Hm1) as (l' & Hm' & E).
  exists l', (ledger_outs okey ns op). split; [done|].
  assert (ledger_ins ns op = secret_key <$> ins1) as <-; [|done].
  unfold ledger_ins. rewrite Hop. change (map ?f ins1) with (f <$> ins1). rewrite <- list_fmap_compose.
  apply list_fmap_ext. intros i s Hs. unfold secret_key, compose. rewrite (Hns s); [done|].
  apply elem_of_app. left. by eapply list_elem_of_lookup_2.
Qed.

End Histories.

(** ** Conservation *)

(** The builders keep a record in the namespace of its secret. *)
Class BuilderNs {A : Asset} `{Chrono} `{!HashRecord Rec} {RB : RecordBuilder} {RH : ReplaceHook} : Prop := {
  built_ns : forall now s o, record_namespace (record_from_secret now s o) = secret_ns s;
  augment_ns : forall body recs now recs', augment_output_records body recs now = Ok recs' ->
    Forall2 (fun r r' => record_namespace r' = record_namespace r) recs recs';
}.

Section Conservation.
Context {A : Asset} `{Chrono} `{!HashRecord Rec} {HL : HashRecordLaws Rec} {K : KeyStrategy} {KL : KeyLaws}
  {S : Type} `{!LedgerStore Rec S} {LC : LedgerContract S} `{ServerJson}
  {SA : SplittableAsset} {RB : RecordBuilder} {RH : ReplaceHook} {BL : BuilderLaws} {BN : BuilderNs}.
Implicit Types (st : ServerState S) (l : ledger).

(** What a token is worth on the ledger, and the sum over some hashes. *)
Definition ledger_value l (k : string) : Z :=
  match l !! k with
  | Some f => if spent_hash f then 0 else default 0 (f !! "amount_wats" ≫= parse_i64)
  | None => 0
  end.
Definition ledger_supply l ns (hashes : list string) : Z := sum_of (fun h => ledger_value l (ledger_key ns h)) hashes.

(** A replace that passed every check of the handler before the write. *)
Record checked_replace (env : Env) (req : Request) (ns : Namespace) (ins outs : list Secret)
    (op : ReplaceOp Rec) : Prop := {
  ck_request : exists body parsed, req_body req = Ok body /\ json_replace_body body = Ok parsed /\
    parsed_as (rb_webcashes parsed) ins /\ parsed_as (rb_new_webcashes parsed) outs /\
    augment_output_records body
      (map (fun s => record_from_secret (now env) s Replaced) outs) (now_unix env) = Ok (ro_outputs op);
  ck_conserved : total ins = total outs;
  ck_namespace : forall s, s ∈ ins ++ outs -> secret_ns s = ns;
  ck_inputs : ro_inputs op = map (fun s => public_hash (to_public s)) ins;
}.

Ltac early := solve [left; reflexivity].
Ltac read_only Hd := right; left; eexists; eexists; exact Hd.

(** What a replace does to the store: nothing, a read, or a read and the write
    of a checked replace. *)
Lemma replace_attempt env req st r st' :
  replace env req st = (r, st') ->
  data st' = data st \/
  (exists ns hs, data st' = (get_tokens (now env) ns hs (data st)).2) \/
  exists ns ins outs op hs res, checked_replace env req ns ins outs op /\
    batch_replace (now env) ns [op] (get_tokens (now env) ns hs (data st)).2 = (res, data st').
Proof.
  destruct r as [r|r].
  - intros [_ (body & parsed & Hb & Hp & _ & Hcase)]%replace_inv.
    destruct Hcase as [(_ & _ & ->)|(ns & ins & outs & recs & op & [Hi Ho Hc Hns _ Hbu Hop _ (s1 & Hg & rest & Hbr) _])].
    { by left. }
    right. right. exists ns, ins, outs, op. eexists _, _. rewrite Hg. split; [|exact Hbr].
    split; try done. by exists body, parsed.
  - unfold replace. intros Hr.
    step_err Hr early. step_err Hr early. step_err Hr early.
    match goal with X : json_replace_body ?b = Ok ?p |- _ => rename b into body, p into parsed end.
    destruct (_ && _); [done|].
    step_err Hr early. match goal with X : parse_sum "input" _ _ = Ok ?x |- _ => destruct x as [ins tin] end.
    step_err Hr early. match goal with X : parse_sum "output" _ _ = Ok ?x |- _ => destruct x as [outs tout] end.
    step_err Hr early. step_err Hr early. step_err Hr early.
    match type of E3 with get_tokens _ ?ns ?hs _ = (_, ?d) =>
      set (ns0 := ns) in *; set (hs0 := hs) in *;
      assert (d = (get_tokens (now env) ns0 hs0 (data st)).2) as Hd by by rewrite E3 end.
    do 5 step_err Hr ltac:(read_only Hd).
    unfold try in Hr. destruct (replace_outcome _ _) as [|e]; [done|]. injection Hr as _ <-.
    right. right. match goal with X : batch_replace _ _ [?op] _ = _ |- _ => exists ns0, ins, outs, op, hs0 end.
    eexists. rewrite <- Hd. split; [|eassumption].
    apply parse_sum_Ok in E1 as [Hin Htin], E2 as [Hout Htout]. bools. subst tout.
    split; cbn [ro_inputs ro_outputs]; try done.
    + exists body, parsed. split_and!; done.
    + unfold ZERO in *. simpl in *. lia.
    + intros s Hs. rewrite forallb_forall in G1. specialize (G1 s). rewrite <- list_elem_of_In in G1.
      apply G1 in Hs. by apply bool_decide_eq_true_1 in Hs.
Qed.

(** The amounts of the outputs, being parsed, are in range. *)
Lemma checked_range env req ns ins outs op s :
  checked_replace env req ns ins outs op -> s ∈ outs -> i64_range (wats (amount s)).
Proof.
  intros [(body & parsed & _ & _ & _ & Ho & _) _ _ _] [i Hs]%list_elem_of_lookup.
  destruct (Forall2_lookup_r _ _ _ _ _ Ho Hs) as (t & _ & Ht). apply parsed_range in Ht. i64_lia.
Qed.

Lemma ledger_key_inj ns (h h' : string) : ledger_key ns h = ledger_key ns h' -> h = h'.
Proof. apply token_key_inj. Qed.

Lemma elem_of_keys ns (h : string) (hs : list string) : ledger_key ns h ∈ ledger_key ns <$> hs <-> h ∈ hs.
Proof.
  rewrite list_elem_of_fmap. split; [by intros (h' & ->%ledger_key_inj & Hh)|]. intros Hh. by exists h.
Qed.

Lemma NoDup_keys ns (hs : list string) : NoDup (ledger_key ns <$> hs) -> NoDup hs.
Proof. apply NoDup_fmap_1. Qed.

Lemma replaced_supply now ns op l l' hs :
  replaced now (ledger_ins ns op) (ledger_outs request_key ns op) l l' ->
  NoDup hs -> (forall h, h ∈ ro_inputs op ++ (record_hash <$> ro_outputs op) -> h ∈ hs) ->
  (forall o, o ∈ ro_outputs op -> i64_range (record_amount_wats o) /\ to_fields o !! "spent" = Some "0") ->
  ledger_supply l ns (ro_inputs op) = sum_of record_amount_wats (ro_outputs op) ->
  ledger_supply l' ns hs = ledger_supply l ns hs.
Proof.
  intros [Hni Hno Hs Hf Hst Hfr] Hl Hsub Houts Heq.
  assert ((ledger_outs request_key ns op).*1 = ledger_key ns <$> (record_hash <$> ro_outputs op)) as Hk
    by (unfold ledger_outs; by rewrite <- !list_fmap_compose).
  rewrite Hk in *. unfold ledger_ins in *. unfold ledger_supply.
  apply (sum_of_exchange _ _ (ro_inputs op) (record_hash <$> ro_outputs op)); try done.
  - by eapply NoDup_keys.
  - by eapply NoDup_keys.
  - intros h Hi%(elem_of_keys ns) Ho%(elem_of_keys ns). destruct (Hs _ Hi) as (f & E & _). by rewrite (Hf _ Ho) in E.
  - intros h Hi%(elem_of_keys ns). destruct (Hs _ Hi) as (f & _ & _ & E). unfold ledger_value.
    by rewrite E, spent_mark.
  - intros h Ho%(elem_of_keys ns). unfold ledger_value. by rewrite (Hf _ Ho).
  - intros h Hi Ho. unfold ledger_value. by rewrite Hfr by by rewrite elem_of_keys.
  - unfold ledger_supply in Heq. rewrite Heq, sum_of_fmap. apply sum_of_ext. intros o Ho.
    destruct (Houts o Ho) as [Hr H0s]. unfold ledger_value.
    rewrite (Hst (ledger_key ns (record_hash o)) (to_fields o)); [|apply list_elem_of_fmap; by exists o].
    unfold spent_hash. rewrite H0s, fields_amount. cbn. by rewrite show_i64_parse.
Qed.

(** The records built for the outputs. *)
Lemma checked_outputs env req ns ins outs op :
  checked_replace env req ns ins outs op ->
  Forall2 (fun s r => record_hash r = token_hash s /\ record_amount_wats r = wats (amount s) /\
    to_fields r !! "spent" = Some "0" /\ record_namespace r = ns) outs (ro_outputs op).
Proof.
  intros [(body & parsed & _ & _ & _ & _ & Hb) _ Hns _]. pose proof (built_outputs _ _ _ _ Hb) as Hf.
  pose proof (augment_ns _ _ _ _ Hb) as Hn. change (map ?f outs) with (f <$> outs) in Hn.
  apply Forall2_fmap_l in Hn. apply Forall2_same_length_lookup_2; [by eapply Forall2_length|].
  intros i s r Es Er. destruct (Forall2_lookup_lr _ _ _ _ _ _ Hf Es Er) as (-> & -> & ->).
  pose proof (Forall2_lookup_lr _ _ _ _ _ _ Hn Es Er) as Hr. cbn in Hr. split_and!; try done.
  rewrite Hr, built_ns. apply Hns, elem_of_app. right. by eapply list_elem_of_lookup_2.
Qed.

(** C3: on a transactional store, whatever a [/replace] answers, an error included,
    it leaves the ledger as it was, or makes the replace it checked, whose inputs
    are distinct, and which keeps the sum of the unspent amounts of its namespace
    provided that the tokens claim what the ledger has recorded for them: the
    handler does not compare the two. *)
Theorem replace_conserves_always env req st r st' l :
  replace env req st = (r, st') -> models (data st) l ->
  exists l', models (data st') l' /\
    (l' = l \/ exists ns ins outs op, checked_replace env req ns ins outs op /\
       NoDup (token_hash <$> ins) /\
       ((forall s, s ∈ ins -> ledger_value l (ledger_key ns (token_hash s)) = wats (amount s)) ->
        forall hs, NoDup hs -> (forall s, s ∈ ins ++ outs -> token_hash s ∈ hs) ->
          ledger_supply l' ns hs = ledger_supply l ns hs)).
Proof.
  intros [->|[(ns & hs & ->)|(ns & ins & outs & op & hs & res & Hck & Hbr)]]%replace_attempt Hm.
  { exists l. auto. }
  { exists l. split; [|by left]. eapply contract_get; [done|apply surjective_pairing]. }
  pose proof (contract_get _ _ _ _ _ _ _ Hm (surjective_pairing (get_tokens (now env) ns hs (data st)))) as Hm1.
  destruct (contract_replace _ _ _ _ _ _ _ Hm1 Hbr) as (l' & Hm' & Ha).
  assert (l' = l \/ replace_op okey (now env) ns op l = Ok l') as Hcase.
  { inversion Ha as [|? ? ? ? l1 ? E Ha2|? ? ? ? ? ? Ha2|? ? ? ? ? l1 ? E Ha2]; subst; inversion Ha2; subst; auto. }
  exists l'. split; [done|]. destruct Hcase as [->|E%replace_ledger_Ok]; [by left|]. right.
  pose proof (checked_outputs _ _ _ _ _ _ Hck) as Hout.
  assert (ledger_outs okey ns op = ledger_outs request_key ns op) as Hok.
  { apply list_fmap_ext. intros i o Ho. destruct (Forall2_lookup_r _ _ _ _ _ Hout Ho) as (s & _ & _ & _ & _ & Hn).
    by rewrite okey_in. }
  rewrite Hok in E. pose proof (fun s => checked_range _ _ _ _ _ _ s Hck) as Hra.
  exists ns, ins, outs, op. split; [done|]. destruct Hck as [_ Hc Hns Hop]. split.
  { destruct E as [Hni _ _ _ _ _]. unfold ledger_ins in Hni. rewrite Hop in Hni. by apply NoDup_keys in Hni. }
  intros Hval hs' Hl Hsub. eapply replaced_supply; [exact E|done| | |].
  - intros h [Hh|Hh]%elem_of_app.
    + rewrite Hop in Hh. apply list_elem_of_fmap in Hh as (s & -> & Hs). apply Hsub, elem_of_app. by left.
    + apply list_elem_of_fmap in Hh as (o & -> & [i Ho]%list_elem_of_lookup).
      destruct (Forall2_lookup_r _ _ _ _ _ Hout Ho) as (s & Hs & -> & _).
      apply Hsub, elem_of_app. right. by eapply list_elem_of_lookup_2.
  - intros o [i Ho]%list_elem_of_lookup. destruct (Forall2_lookup_r _ _ _ _ _ Hout Ho) as (s & Hs & _ & -> & Hz & _).
    split; [|done]. apply Hra. by eapply list_elem_of_lookup_2.
  - rewrite Hop. unfold ledger_supply. change (map ?f ins) with (f <$> ins). rewrite sum_of_fmap.
    rewrite (sum_of_ext _ (fun s => wats (amount s)) ins) by exact Hval.
    rewrite <- zsum_sum_of, Hc, zsum_sum_of. clear -Hout.
    induction Hout as [|s o outs os (_ & Ha & _) _ IH]; [done|]. simpl. rewrite IH, Ha. done.
Qed.
End Conservation.

(** ** The flavors *)

Section Flavors.
Context `{NomLaws, HashingLaws, UnicodeLaws, Chrono, JsonBody} `{Serde HtlcState}.

Lemma same_ns {R} `{Chrono} `{!HashRecord R} (recs : list R) :
  Forall2 (fun r r' => record_namespace r' = record_namespace r) recs recs.
Proof. induction recs; by constructor. Qed.

#[export] Instance webcash_builder_ns :
  BuilderNs (A := WebcashAsset.asset) (HashRecord0 := webcash_hash_record)
    (RB := WebcashAsset.builder) (RH := WebcashAsset.hook).
Proof. split; [done|]. intros body recs t recs' E. injection E as <-. apply (same_ns recs). Qed.

#[export] Instance voucher_builder_ns :
  BuilderNs (A := VoucherAsset.asset) (HashRecord0 := voucher_hash_record)
    (RB := VoucherAsset.builder) (RH := VoucherAsset.hook).
Proof.
  split.
  - intros t s o. unfold secret_ns. simpl. by destruct (Voucher.sv_contract_id s), (Voucher.sv_issuer_fp s).
  - intros body recs t recs' E. injection E as <-. apply (same_ns recs).
Qed.

#[export] Instance rgb_builder_ns :
  BuilderNs (A := RgbFungible.asset) (HashRecord0 := rgb_fungible_hash_record)
    (RB := RgbFungible.builder) (RH := RgbFungible.hook).
Proof.
  split.
  - intros t s o. unfold secret_ns. simpl. by destruct (Rgb.sf_contract_id s), (Rgb.sf_issuer_fp s).
  - intros body recs t recs' (locks & _ & [_ Ha]%apply_locks_Ok)%bind_Ok; [|done].
    apply Forall2_lookup. intros j. rewrite Ha. destruct (recs !! j) as [r|]; cbn; constructor.
    by destruct (lock_for locks j).
Qed.
End Flavors.
