(* ===== verification/Reference.v ===== *)
(** * Concrete instances of the parameters

    A reference Redis server, a codec and decoders for a handful of request
    bodies, so that the models run and the properties have concrete inputs.
    The instances of [nom], [hex], [chrono], Unicode and Ed25519 are in
    [External]. *)
From S2P Require Import Prelude Decimal Amount External AssetCore Tokens Storage Redis Htlc Mining Records Auth Server.

(** ** A Redis server that always answers

    The pipeline is run to its end; an error reply makes the whole query fail,
    with every effect kept. *)
Definition first_error (rs : list rreply) : option string :=
  head (omap (fun r => match r with RError e => Some e | _ => None end) rs).

#[export] Instance redis_ref : RedisService := {|
  rstate := rdb;
  query cs db :=
    let '(rs, db') := exec_all cs db in
    (match first_error rs with Some e => Err e | None => Ok rs end, db');
  debug_reply _ := "value";
  type_error := "response was of incompatible type"
|}.

Lemma exec_all_fst_length cs db : length (exec_all cs db).1 = length cs.
Proof.
  revert db. induction cs as [|c cs IH]; intros db; cbn [exec_all]; [done|].
  destruct (exec c db) as [r db1]. specialize (IH db1). destruct (exec_all cs db1). cbn in *. by f_equal.
Qed.

Lemma first_error_none rs : first_error rs = None -> Forall not_error rs.
Proof.
  unfold first_error. induction rs as [|r rs IH]; intros Hf; [constructor|].
  destruct r; simpl in Hf; try done; (constructor; [done|by apply IH]).
Qed.

#[export] Instance redis_ref_laws : RedisLaws.
Proof.
  refine {| rview := fun st : @rstate redis_ref => st : rdb |}.
  - intros cs st rs st'. simpl. destruct (exec_all cs st) as [rs1 db1].
    destruct (first_error rs1) eqn:E; [done|]. intros [= <- <-]. split; [done|]. by apply first_error_none.
  - intros cs st e st'. simpl. destruct (exec_all cs st) as [rs1 db1] eqn:E.
    destruct (first_error rs1); [|done]. intros [= _ <-]. exists (length cs).
    by rewrite take_ge, E by lia.
Defined.

Lemma rview_ref (db : rdb) : @rview redis_ref redis_ref_laws db = db.
Proof. reflexivity. Qed.

(** ** A codec: the bits of the countable encoding *)

Fixpoint bits (p : positive) : string :=
  match p with
  | xH => EmptyString
  | xO q => String "0"%char (bits q)
  | xI q => String "1"%char (bits q)
  end.
Fixpoint unbits (s : string) : option positive :=
  match s with
  | EmptyString => Some xH
  | String c s' =>
      if Ascii.eqb c "0"%char then xO <$> unbits s'
      else if Ascii.eqb c "1"%char then xI <$> unbits s' else None
  end.

Lemma unbits_bits p : unbits (bits p) = Some p.
Proof. induction p; simpl; by rewrite ?IHp. Qed.

Definition countable_serde {T} `{Countable T} : Serde T := {|
  to_json x := bits (encode x);
  from_json s := ok_or (unbits s ≫= decode) "expected value" |}.

Lemma countable_serde_laws {T} `{Countable T} : @SerdeLaws T countable_serde.
Proof. split. intros x. simpl. rewrite unbits_bits. simpl. by rewrite decode_encode. Qed.

#[export] Instance htlc_state_countable : Countable HtlcState.
Proof.
  refine (inj_countable'
    (fun s => (committed_h_hex s, refund_after_unix s, claim_owner_hash_hex s, refund_owner_hash_hex s))
    (fun '(h, t, c, r) => Build_HtlcState h t c r) _).
  by intros [].
Defined.
#[export] Instance htlc_serde : Serde HtlcState := countable_serde.
#[export] Instance htlc_serde_laws : SerdeLaws HtlcState.
Proof. apply countable_serde_laws. Qed.

#[export] Instance mining_state_eq_dec : EqDecision (@MiningState chrono_ref).
Proof. solve_decision. Defined.
#[export] Instance mining_state_countable : Countable (@MiningState chrono_ref).
Proof.
  refine (inj_countable'
    (fun s : MiningState => (ms_total_circulation_wats s, ms_mining_reports_count s, ms_difficulty_target_bits s,
       ms_epoch s, ms_mining_amount_wats s, ms_subsidy_amount_wats s, ms_epoch_started_at s : string,
       ms_aggregate_work s))
    (fun '(a, b, c, d, e, f, g, h) => @Build_MiningState chrono_ref a b c d e f g h) _).
  by intros [].
Defined.
#[export] Instance mining_state_serde : Serde (@MiningState chrono_ref) := countable_serde.

(** An audit record is written and never read back by the stores. *)
#[export] Instance replacement_serde : Serde (@ReplacementRecord chrono_ref) := {|
  to_json r := "replacement " +:+ rr_id r +:+ " of " +:+ show_i64 (rr_total_amount_wats r);
  from_json _ := Err "expected value" |}.
#[export] Instance burn_serde : Serde (@BurnRecord chrono_ref) := {|
  to_json r := "burn " +:+ br_id r +:+ " of " +:+ br_public_hash r;
  from_json _ := Err "expected value" |}.

(** ** Sample data *)

Definition hex_of (c : ascii) : string := str_repeat c 64.
Definition fp_a : PgpFingerprint := mk_fp (str_repeat "a"%char 40).
Definition usd_t : ContractId := mk_cid "usd-t".

Definition cash_in : Webcash.SecretWebcash := Webcash.mk_secret (from_wats 300000000) (hex_of "a").
Definition cash_out_1 : Webcash.SecretWebcash := Webcash.mk_secret (from_wats 100000000) (hex_of "b").
Definition cash_merged : Webcash.SecretWebcash := Webcash.mk_secret (from_wats 300000000) (hex_of "d").
Definition cash_out_2 : Webcash.SecretWebcash := Webcash.mk_secret (from_wats 200000000) (hex_of "c").

Definition rgb_secret (w : Z) (c : ascii) : Rgb.SecretFungible :=
  Rgb.mk_secret_f (from_wats w) (hex_of c) usd_t fp_a.
Definition art_secret (c : ascii) : Rgb.SecretCollectible := Rgb.mk_secret_c (hex_of c) (mk_cid "art_1") fp_a.

(** ** Request bodies

    Each sample body is a name; the decoders know its contents. *)

Definition swap_body : string := "swap".
Definition lock_body : string := "lock".
Definition plain_body : string := "plain".
Definition twice_body : string := "twice".
Definition transfer_body : string := "transfer".
Definition mint_body : string := "mint".
Definition bad_terms_body : string := "bad-terms".
Definition merge_body : string := "merge".

(** A lock of the second output, as in the documentation of [htlc_locks]. *)
Definition sample_locks : list HtlcLockEntry := [{| le_output_index := 1; le_request := lock_1 |}].
Definition sample_witnesses : list HtlcWitnessEntry := [{| we_input_index := 0; we_witness := claim_1 |}].

#[export] Instance json_ref : JsonBody := {|
  Value := string;
  json_from_slice s := if String.eqb s EmptyString then Err "EOF while parsing a value" else Ok s;
  json_get v key :=
    if (String.eqb v lock_body && String.eqb key "htlc_locks") ||
       (String.eqb v swap_body && String.eqb key "htlc_witnesses") then Some v else None;
  json_witnesses v := if String.eqb v swap_body then Ok sample_witnesses else Err "invalid type";
  json_locks v := if String.eqb v lock_body then Ok sample_locks else Err "invalid type";
  json_preimage s :=
    if String.eqb s mint_body
    then Ok {| mp_webcash := [Webcash.show_secret cash_in]; mp_subsidy := [] |}
    else Err "expected value" |}.

Definition decode_replace (s : string) : result string ReplaceBody :=
  let body ins outs := Ok {| rb_webcashes := ins; rb_new_webcashes := outs; rb_legalese := Some true |} in
  if String.eqb s plain_body then
    body [Webcash.show_secret cash_in] [Webcash.show_secret cash_out_1; Webcash.show_secret cash_out_2]
  else if String.eqb s merge_body then
    body [Webcash.show_secret cash_out_1; Webcash.show_secret cash_out_2] [Webcash.show_secret cash_merged]
  else if String.eqb s twice_body then
    body [Webcash.show_secret cash_out_1; Webcash.show_secret cash_out_1] [Webcash.show_secret cash_out_2]
  else if String.eqb s lock_body then
    body [Rgb.show_secret_fungible (rgb_secret 300000000 "a")]
         [Rgb.show_secret_fungible (rgb_secret 100000000 "b");
          Rgb.show_secret_fungible (rgb_secret 200000000 "c")]
  else if String.eqb s transfer_body then
    body [Rgb.show_secret_collectible (art_secret "a")] [Rgb.show_secret_collectible (art_secret "b")]
  else if String.eqb s bad_terms_body then
    Ok {| rb_webcashes := [Webcash.show_secret cash_in]; rb_new_webcashes := [Webcash.show_secret cash_in];
          rb_legalese := Some false |}
  else Err "expected value".

#[export] Instance server_json_ref : ServerJson := {|
  json_tokens s := Ok [s];
  json_replace_body := decode_replace;
  json_burn_body s :=
    if String.eqb s plain_body
    then Ok {| bb_webcash := Webcash.show_secret cash_in; bb_legalese := Some true |}
    else Err "expected value";
  json_mining_body s :=
    if String.eqb s mint_body
    then Ok {| mb_preimage := mint_body; mb_legalese := Some true |} else Err "expected value";
  json_mining_preimage s :=
    if String.eqb s mint_body
    then Ok {| mi_webcash := [Webcash.show_secret cash_in]; mi_subsidy := []; mi_timestamp := 0 |}
    else Err "expected value";
  json_issue_body s :=
    if String.eqb s mint_body
    then Ok {| ib_issuer_fp := fp_str fp_a; ib_outputs := [Rgb.show_secret_fungible (rgb_secret 300000000 "a")];
               ib_nonce := "n1"; ib_ts := 0; ib_legalese := Some true |}
    else Err "expected value";
  base64_decode _ := None;
  show_f64 _ := "0" |}.

Definition request (body : string) (sig : option string) : Request :=
  {| req_method := "POST"; req_path := "/api/v1/replace"; req_signature := sig; req_body := Ok body |}.

#[export] Instance pgp_ref : Pgp := {|
  PgpCert := string;
  pgp_from_string := Ok;
  public_params := PEd25519;
  cert_fingerprint := fun c => c |}.

Definition env_ref : Env := {| now_unix := 2000; now := "2026-01-01T00:00:00+00:00" : @DateTime chrono_ref; new_uuid := "op-1" |}.
