(* ===== verification/RedisExamples.v ===== *)
(** * The Redis ledger on concrete data

    The properties of [Redis] and [RedisLedger] applied to a small webcash
    ledger and a small RGB20 ledger over the reference server, and runs that
    exhibit behaviour the theorems exclude by hypothesis. *)
From S2P Require Import Prelude Decimal Amount External AssetCore Tokens Storage Redis RedisLedger Htlc Mining Records Auth Server Reference.

Definition noon : @DateTime chrono_ref := "2026-01-01T12:00:00+00:00".

Definition audit (id : string) (total : Z) : @ReplacementRecord chrono_ref := {|
  rr_id := id; rr_input_hashes := []; rr_output_hashes := [];
  rr_total_amount_wats := total; rr_created_at := noon |}.

(** ** Webcash under the legacy keys *)

Module Cash.
#[local] Existing Instance WebcashLegacyKeys.
#[local] Existing Instance WebcashAsset.asset.
#[export] Instance cash_record : HashRecord (@Rec WebcashAsset.asset) := webcash_hash_record.
#[export] Instance cash_laws : HashRecordLaws (@Rec WebcashAsset.asset) := webcash_record_laws.

Definition coin (h : string) (amount : Z) : @Rec WebcashAsset.asset := {|
  w_public_hash := h; w_amount_wats := amount; w_spent := false;
  w_created_at := noon; w_spent_at := None; w_origin := WReplaced |}.

Definition op (id : string) (ins : list string) (outs : list (@Rec WebcashAsset.asset))
  : ReplaceOp (@Rec WebcashAsset.asset) :=
  {| ro_inputs := ins; ro_outputs := outs; ro_record := audit id 300 |}.

(** One coin worth 300, split into two. *)
Definition db0 : rdb := {[ "token:a" := RHash (to_fields (coin "a" 300)) ]}.
Definition split : ReplaceOp (@Rec WebcashAsset.asset) := op "1" ["a"] [coin "b" 100; coin "c" 200].
Definition merge : ReplaceOp (@Rec WebcashAsset.asset) := op "2" ["b"; "c"] [coin "d" 300].

Lemma coin_size h z : size (to_fields (coin h z)) = 4%nat.
Proof.
  simpl. unfold webcash_to_fields. simpl. rewrite !map_size_insert_None, map_size_empty; [done|..];
    repeat (rewrite lookup_insert_ne by done); apply lookup_empty.
Qed.

Lemma coin_nonempty h z : to_fields (coin h z) <> ∅.
Proof. intros E. pose proof (coin_size h z) as Hs. by rewrite E, map_size_empty in Hs. Qed.

Lemma coins_wf id ins outs :
  Forall (fun o => exists h z, o = coin h z) outs -> (length ins <= 5)%nat -> (length outs <= 5)%nat ->
  op_wf (op id ins outs).
Proof.
  intros Hf Hi Ho. split; cbn [op ro_inputs ro_outputs]; [lia|lia| |].
  - eapply Forall_impl; [exact Hf|]. intros o (h & z & ->). split; [apply coin_nonempty|].
    rewrite coin_size. lia.
  - rewrite Forall_forall in Hf. intros o o' (h & z & ->)%Hf (h' & z' & ->)%Hf. by rewrite !coin_size.
Qed.

Lemma split_wf : op_wf split.
Proof. apply coins_wf; [repeat constructor; eauto|simpl; lia..]. Qed.
Lemma merge_wf : op_wf merge.
Proof. apply coins_wf; [repeat constructor; eauto|simpl; lia..]. Qed.

Lemma db0_free (h : string) : h <> "a" -> db0 !! ("token:" +:+ h) = None.
Proof. intros Hh. apply lookup_singleton_ne. intros E. by apply (str_app_inj_l "token:" "a" h) in E. Qed.

Lemma db0_typed : tokens_typed unscoped db0.
Proof. intros h s. unfold db0. rewrite lookup_singleton_Some. by intros [_ ?]. Qed.

Lemma batch_replace_refines_witness :
  let res := redis_batch_replace noon unscoped [split; merge; split] db0 in
  fst res = [ReplaceOk; ReplaceOk; ReplaceFailed "input token already spent: token:a"] /\
  (res = replace_batch noon unscoped [split; merge; split] db0 \/
   exists e n, fst res = map (fun _ => ReplaceFailed e) [split; merge; split] /\
    snd res = (replace_batch noon unscoped (take n [split; merge; split]) db0).2).
Proof.
  split; [vm_compute; reflexivity|].
  refine (batch_replace_refines noon unscoped [split; merge; split] db0 _ _ _ _ _).
  - constructor; [apply split_wf|constructor; [apply merge_wf|constructor; [apply split_wf|constructor]]].
  - apply db0_typed.
  - apply surjective_pairing.
Defined.

Lemma replace_commits_witness :
  let res := exec (replace_cmd noon unscoped split) db0 in
  replace_reply (fst res) = ReplaceOk /\ snd res !! "token:b" = Some (RHash (to_fields (coin "b" 100))).
Proof.
  set (res := exec (replace_cmd noon unscoped split) db0).
  assert (replace_reply res.1 = ReplaceOk) as E by (vm_compute; reflexivity).
  split; [exact E|].
  refine (proj2 (proj1 (proj2 (proj2 (replace_commits noon unscoped db0 split res.1 res.2 _ _ _ E))) (coin "b" 100) _)).
  - apply split_wf.
  - apply db0_typed.
  - apply surjective_pairing.
  - left.
Defined.

(** An output that is already there: the request fails, its input is gone. *)
Definition clash : ReplaceOp (@Rec WebcashAsset.asset) := op "3" ["a"] [coin "a" 300].

Lemma clash_wf : op_wf clash.
Proof. apply coins_wf; [repeat constructor; eauto|simpl; lia..]. Qed.

Lemma replace_rejects_witness :
  let res := exec (replace_cmd noon unscoped clash) db0 in
  replace_reply (fst res) = ReplaceFailed "output token already exists: token:a" /\
  ((snd res = db0 /\ exists h : string, h ∈ ["a"] /\
     forall rec, db0 !! token_key "webcash" unscoped h = Some (RHash rec) -> spent_hash rec = true) \/
   (((exists o, o ∈ ro_outputs clash /\ is_Some (db0 !! token_key "webcash" unscoped (record_hash o))) \/
     ~ NoDup (record_hash <$> ro_outputs clash)) /\
    forall h : string, h ∈ ["a"] -> exists rec,
      snd res !! token_key "webcash" unscoped h = Some (RHash rec) /\ spent_hash rec = true)).
Proof.
  set (res := exec (replace_cmd noon unscoped clash) db0).
  assert (replace_reply res.1 = ReplaceFailed "output token already exists: token:a") as E
    by (vm_compute; reflexivity).
  split; [exact E|].
  refine (replace_rejects noon unscoped db0 clash res.1 _ res.2 _ _ _ E).
  - apply clash_wf.
  - apply db0_typed.
  - apply surjective_pairing.
Defined.

(** The request fails although the token it names was unspent, and the token
    is spent afterwards: the replace is not all-or-nothing. *)
Example failed_replace_spends :
  let '(r, db') := replace_step noon unscoped db0 clash in
  r = ReplaceFailed "output token already exists: token:a" /\
  (fst <$> [redis_check_tokens unscoped ["a"] db0;
            redis_check_tokens unscoped ["a"] db']) =
    [Ok [("a", Some false)]; Ok [("a", Some true)]].
Proof. vm_compute. split; reflexivity. Qed.

(** Two clients race for [a], a third burns it. *)
Definition race : list ledger_cmd :=
  [CReplace noon (op "4" ["a"] [coin "e" 300]); CCheck "a"; CReplace noon split;
   CBurn noon ("a", @Build_BurnRecord chrono_ref "5" "a" 300 noon)].


(** The excluded step: [insert_tokens] writes a record in two commands, and a
    replace that runs between them is undone by the second one, which resets
    the spent flag; the token is then spent again. *)
Example insert_race :
  spends unscoped "a"
    [CInsertNew (coin "a" 300);
     CReplace noon (op "6" ["a"] [coin "b" 300]);
     CInsertFields (coin "a" 300);
     CReplace noon (op "7" ["a"] [coin "c" 300])] ∅ = 2%nat.
Proof. vm_compute. reflexivity. Qed.

(** The script does not compare its inputs with one another: a hash named
    twice is accepted and marked twice. *)
Example duplicate_input_accepted :
  (replace_step noon unscoped db0 (op "8" ["a"; "a"] [coin "b" 600])).1 = ReplaceOk.
Proof. vm_compute. reflexivity. Qed.

Lemma insert_tokens_creates_witness :
  let recs := [coin "x" 1; coin "y" 2] in
  let res := redis_insert_tokens recs db0 in
  fst res = Ok tt /\ NoDup (record_key <$> recs) /\
  forall k, k ∉ record_key <$> recs -> snd res !! k = db0 !! k.
Proof.
  set (recs := [coin "x" 1; coin "y" 2]). set (res := redis_insert_tokens recs (db0 : @rstate redis_ref)).
  assert (res.1 = Ok tt) as E by (vm_compute; reflexivity).
  split; [exact E|].
  destruct (insert_tokens_creates recs (db0 : @rstate redis_ref) res.2) as (Hnd & _ & Ho).
  - intros r Hr. left. apply elem_of_cons in Hr as [->|Hr].
    + change (db0 !! ("token:" +:+ "x") = None). by apply db0_free.
    + apply list_elem_of_singleton in Hr as ->. change (db0 !! ("token:" +:+ "y") = None). by apply db0_free.
  - rewrite <- E. apply surjective_pairing.
  - split; [exact Hnd|exact Ho].
Defined.

Lemma reads_exact_witness :
  let res := redis_check_tokens unscoped ["a"; "z"] db0 in
  fst res = Ok [("a", Some false); ("z", None)] /\ snd res = db0.
Proof.
  assert ((redis_check_tokens unscoped ["a"; "z"] db0).1 =
    Ok [("a", Some false); ("z", None)]) as E by (vm_compute; reflexivity).
  split; [exact E|].
  refine (proj1 (proj2 (reads_exact noon unscoped ["a"; "z"] (db0 : @rstate redis_ref))
    [("a", Some false); ("z", None)] _ _)).
  rewrite <- E. apply surjective_pairing.
Defined.
End Cash.

(** ** RGB20 under the namespaced keys *)

Module Rgb20.
#[local] Existing Instance NamespacedKeys.
#[local] Existing Instance RgbFungible.asset.
#[export] Instance rgb_record : HashRecord (@Rec RgbFungible.asset) := rgb_fungible_hash_record.

Definition bill (h : string) (amount : Z) (lock : option HtlcState) : @Rec RgbFungible.asset := {|
  rf_public_hash := h; rf_amount_wats := amount; rf_spent := false;
  rf_created_at := noon; rf_spent_at := None; rf_origin := RReplaced;
  rf_contract_id := usd_t; rf_issuer_fp := fp_a; rf_htlc_state := lock |}.

Definition ns : Namespace := scoped usd_t fp_a.
Definition key (h : string) : string := token_key "rgb-fungible" ns h.
Definition db0 : rdb := {[ key "a" := RHash (to_fields (bill "a" 300 None)) ]}.
Definition lock : HtlcState := Build_HtlcState "h" 9000 "c" "r".

Definition op (outs : list (@Rec RgbFungible.asset)) : ReplaceOp (@Rec RgbFungible.asset) :=
  {| ro_inputs := ["a"]; ro_outputs := outs; ro_record := audit "1" 300 |}.

Definition run (outs : list (@Rec RgbFungible.asset)) : list ReplaceResult * rdb :=
  redis_batch_replace noon ns [op outs] db0.

(** The fields a replace stored under [h]. *)
Definition stored_at (h : string) (db : rdb) : gmap string string :=
  match db !! key h with Some (RHash f) => f | _ => ∅ end.

(** The store takes the number of fields of the first output for all of
    them.  When only a later output is locked, its last field is cut off: the
    replace succeeds and the record has no spent flag. *)
Example lock_on_second_output :
  let '(res, db') := run [bill "b" 100 None; bill "c" 200 (Some lock)] in
  res = [ReplaceOk] /\ stored_at "c" db' !! "spent" = None /\
  fst (redis_check_tokens ns ["b"; "c"] db') =
    Ok [("b", Some false); ("c", None)].
Proof. vm_compute. split_and!; reflexivity. Qed.

(** When the first output is locked, the fields of every later one are taken
    from the wrong place: the second output is worth what the third was
    meant to be, and the third cannot be read back at all. *)
Example lock_on_first_output :
  let '(res, db') := run [bill "b" 50 (Some lock); bill "c" 100 None; bill "d" 150 None] in
  res = [ReplaceOk] /\ stored_at "c" db' !! "amount_wats" = Some "150" /\
  option_map (map (option_map record_amount_wats))
    (match fst (redis_get_tokens noon ns ["b"; "c"; "d"] db') with
     | Ok l => Some l | Err _ => None end) = Some [Some 50; Some 150; None].
Proof. vm_compute. split_and!; reflexivity. Qed.

(** With every output locked, or none, the store does what it says. *)
Example lock_on_all_outputs :
  let '(res, db') := run [bill "b" 100 (Some lock); bill "c" 200 (Some lock)] in
  res = [ReplaceOk] /\ fst (redis_get_tokens noon ns ["b"; "c"] db') =
    Ok [Some (bill "b" 100 (Some lock)); Some (bill "c" 200 (Some lock))].
Proof. vm_compute. split; reflexivity. Qed.
End Rgb20.
