(* ===== verification/ServerExamples.v ===== *)
(** * The asset servers on concrete requests

    The properties of [Records] and [ServerFacts] applied to a webcash server,
    an RGB20 server and an RGB21 server over the reference Redis server. *)
From S2P Require Import Prelude Decimal Amount External AssetCore Tokens Storage Redis RedisLedger Htlc Mining Records Auth Server ServerFacts Conservation HealthCheck Reference.

(** ** Codecs and hooks *)

Definition locked_bill : RgbFungibleRecord := {|
  rf_public_hash := "h"; rf_amount_wats := 5; rf_spent := true; rf_created_at := "t0" : @DateTime chrono_ref;
  rf_spent_at := Some ("t1" : @DateTime chrono_ref); rf_origin := RIssued; rf_contract_id := usd_t;
  rf_issuer_fp := fp_a; rf_htlc_state := Some (stamp_into_state lock_1 1000) |}.

Lemma record_codecs_roundtrip_witness :
  rgb_fungible_from_fields ("t9" : @DateTime chrono_ref) "h" (rgb_fungible_to_fields locked_bill) = Some locked_bill.
Proof.
  refine (proj1 (proj2 (record_codecs_roundtrip ("t9" : @DateTime chrono_ref))) locked_bill _).
  vm_compute. split; discriminate.
Defined.

(** A claim with the preimage opens the lock; without a witness it is shut. *)
Lemma hook_enforces_locks_witness :
  AssetCore.validate_replace_request (ReplaceHook := RgbFungible.hook) swap_body [locked_bill] [] 2000 = Ok tt /\
  is_ok (AssetCore.validate_replace_request (ReplaceHook := RgbFungible.hook) plain_body [locked_bill] [] 2000) = false /\
  exists e r, List.find (fun w => (we_input_index w =? 0)%nat) sample_witnesses = Some e /\
    evaluate (stamp_into_state lock_1 1000) (we_witness e) 2000 = Ok r.
Proof.
  assert (AssetCore.validate_replace_request (ReplaceHook := RgbFungible.hook) swap_body [locked_bill] [] 2000 = Ok tt)
    as E by (vm_compute; reflexivity).
  split; [exact E|]. split; [vm_compute; reflexivity|].
  destruct (proj1 (hook_enforces_locks swap_body 2000) [locked_bill] [] E) as (ws & Hws & Hall).
  assert (RgbHooks.parse_htlc_witnesses swap_body = Ok sample_witnesses) as Hs by reflexivity.
  rewrite Hs in Hws. injection Hws as <-. exact (Hall 0%nat locked_bill _ eq_refl eq_refl).
Defined.

Definition plain_bill (h : string) : RgbFungibleRecord := {|
  rf_public_hash := h; rf_amount_wats := 5; rf_spent := false; rf_created_at := "t0" : @DateTime chrono_ref;
  rf_spent_at := None; rf_origin := RReplaced; rf_contract_id := usd_t;
  rf_issuer_fp := fp_a; rf_htlc_state := None |}.

Lemma hook_stamps_locks_witness :
  let recs := [plain_bill "h1"; plain_bill "h2"] in
  let recs' := [plain_bill "h1"; RgbFungible.set_lock (stamp_into_state lock_1 1000) (plain_bill "h2")] in
  AssetCore.augment_output_records (ReplaceHook := RgbFungible.hook) lock_body recs 1000 = Ok recs' /\
  exists locks, RgbHooks.parse_htlc_locks lock_body = Ok locks /\
    Forall (fun e => (le_output_index e < length recs)%nat) locks.
Proof.
  set (recs := [plain_bill "h1"; plain_bill "h2"]).
  set (recs' := [plain_bill "h1"; RgbFungible.set_lock (stamp_into_state lock_1 1000) (plain_bill "h2")]).
  assert (AssetCore.augment_output_records (ReplaceHook := RgbFungible.hook) lock_body recs 1000 = Ok recs') as E
    by (vm_compute; reflexivity).
  split; [exact E|]. destruct (hook_stamps_locks lock_body recs 1000 recs' E) as (locks & Hl & Hf & _).
  exists locks. split; [exact Hl|exact Hf].
Defined.

Lemma issuance_one_namespace_witness :
  verify_issuance (MintableAsset := RgbFungible.mintable) [plain_bill "h1"; locked_bill] = Ok tt /\
  record_namespace (plain_bill "h1") = record_namespace locked_bill.
Proof.
  assert (verify_issuance (MintableAsset := RgbFungible.mintable) [plain_bill "h1"; locked_bill] = Ok tt) as E
    by (vm_compute; reflexivity).
  split; [exact E|].
  refine (proj1 (proj1 issuance_one_namespace [plain_bill "h1"; locked_bill]) E (plain_bill "h1") locked_bill _ _).
  - left.
  - right. left.
Defined.

(** ** A webcash server *)

Module CashServer.
#[local] Existing Instance WebcashLegacyKeys.
#[local] Existing Instance WebcashAsset.asset.
#[local] Existing Instance WebcashAsset.splittable.
#[local] Existing Instance WebcashAsset.hook.
#[local] Existing Instance WebcashAsset.builder.
#[export] Instance cash_record : HashRecord (@Rec WebcashAsset.asset) := webcash_hash_record.
#[export] Instance store : LedgerStore (@Rec WebcashAsset.asset) rdb := RedisStore (H := redis_ref).

Definition state (l : list Webcash.SecretWebcash) : ServerState rdb := {|
  data := snd (insert_tokens (map (fun s => record_from_secret (now env_ref) s Replaced) l) ∅);
  nonces := default_nonces |}.

Definition st0 : ServerState rdb := state [cash_in].
Definition plain_req : Request := request plain_body None.

Lemma replace_sound_witness :
  let res := replace env_ref plain_req st0 in
  fst res = Ok success /\
  exists body parsed, req_body plain_req = Ok body /\ json_replace_body body = Ok parsed /\
    rb_legalese parsed = Some true.
Proof.
  set (res := replace env_ref plain_req st0).
  assert (res.1 = Ok success) as E by (vm_compute; reflexivity). split; [exact E|].
  assert (res = (Ok success, res.2)) as Eq by (rewrite <- E; apply surjective_pairing).
  destruct (replace_sound env_ref plain_req st0 success res.2 Eq) as (_ & body & parsed & Hb & Hp & Hl & _).
  exists body, parsed. split; [exact Hb|split; [exact Hp|exact Hl]].
Defined.

(** A second replace of the same token is refused by the ledger. *)
Lemma replace_rejected_witness :
  let st1 := snd (replace env_ref plain_req st0) in
  let res := replace env_ref plain_req st1 in
  (exists r, fst res = Err r) /\ nonces (snd res) = nonces st1.
Proof.
  set (st1 := snd (replace env_ref plain_req st0)). set (res := replace env_ref plain_req st1).
  assert (is_ok res.1 = false) as E by (vm_compute; reflexivity).
  destruct res.1 as [r|r] eqn:Er; [discriminate E|]. split; [by exists r|].
  assert (res = (Err r, res.2)) as Eq by (rewrite <- Er; apply surjective_pairing).
  exact (proj1 (proj2 (replace_rejected env_ref plain_req st1 r res.2 Eq))).
Defined.

(** One coin, given twice as an input, pays for an output of twice its
    amount: neither the handler nor the script compares the inputs. *)
Example duplicate_input_inflates :
  let st := state [cash_out_1] in
  let res := replace env_ref (request twice_body None) st in
  fst res = Ok success /\
  fst (check_tokens unscoped [public_hash (to_public cash_out_1); public_hash (to_public cash_out_2)]
    (data (snd res))) =
    Ok [(public_hash (to_public cash_out_1), Some true); (public_hash (to_public cash_out_2), Some false)] /\
  wats (amount cash_out_2) = 2 * wats (amount cash_out_1).
Proof. vm_compute. split_and!; reflexivity. Qed.

(** The amount of an input is the one its token text claims; the amount the
    ledger has recorded for that hash is not consulted. *)
Example claimed_amount_is_believed :
  let cheap := Webcash.mk_secret (from_wats 1) (Webcash.s_secret cash_in) in
  let res := replace env_ref plain_req (state [cheap]) in
  fst res = Ok success /\ wats (amount cheap) = 1 /\ wats (amount cash_in) = 300000000.
Proof. vm_compute. split_and!; reflexivity. Qed.

Lemma burn_sound_witness :
  let res := burn env_ref plain_req st0 in
  fst res = Ok success /\ nonces (snd res) = nonces st0.
Proof.
  set (res := burn env_ref plain_req st0).
  assert (res.1 = Ok success) as E by (vm_compute; reflexivity). split; [exact E|].
  assert (res = (Ok success, res.2)) as Eq by (rewrite <- E; apply surjective_pairing).
  exact (proj1 (proj2 (burn_sound env_ref plain_req st0 success res.2 Eq))).
Defined.

(** The health check of a stored and of an unknown token. *)
Definition ask (s : Webcash.SecretWebcash) : Request := request (Webcash.show_public (Webcash.to_public s)) None.

Lemma health_check_exact_witness :
  let res := health_check env_ref (ask cash_in) st0 in
  is_ok (fst res) = true /\ data (snd res) = data st0 /\
  look_up (now env_ref) (data st0) unscoped (token_hash cash_in) =
    (token_hash cash_in, Some false, Some 300000000) /\
  look_up (now env_ref) (data st0) unscoped (token_hash cash_out_1) = (token_hash cash_out_1, None, None).
Proof.
  set (res := health_check env_ref (ask cash_in) st0).
  assert (is_ok res.1 = true) as E by (vm_compute; reflexivity). split; [exact E|].
  split; [|split; vm_compute; reflexivity].
  destruct res.1 as [r|r] eqn:Er; [|discriminate E].
  assert (res = (Ok r, res.2)) as Eq by (rewrite <- Er; apply surjective_pairing).
  destruct (health_check_exact env_ref (ask cash_in) (st0 : ServerState (@rstate redis_ref)) r res.2 Eq) as [Hv _].
  rewrite !rview_ref in Hv. exact Hv.
Defined.

(** The split of [cash_in]: its outputs have the four fields of every fresh
    webcash record, so the request fits the script. *)
Lemma fresh_size t s o : size (to_fields (record_from_secret t s o)) = 4%nat.
Proof.
  simpl. unfold webcash_to_fields. simpl. rewrite !map_size_insert_None, map_size_empty; [done|..];
    repeat (rewrite lookup_insert_ne by done); apply lookup_empty.
Qed.

Lemma plain_marshals body outs : marshals env_ref body outs.
Proof.
  intros recs E. injection E as <-.
  assert (forall o, o ∈ map (fun s => record_from_secret (now env_ref) s Replaced) outs -> size (to_fields o) = 4%nat)
    as Hs by (intros o (s & -> & _)%list_elem_of_fmap; apply fresh_size).
  split; [|intros o o' Ho Ho'; by rewrite (Hs o Ho), (Hs o' Ho')].
  apply Forall_forall. intros o Ho. rewrite (Hs o Ho). split; [|lia].
  intros E. specialize (Hs o Ho). by rewrite E, map_size_empty in Hs.
Qed.

Definition is_hash (v : rvalue) : bool := match v with RHash _ => true | RStr _ => false end.

Lemma st0_typed ns : tokens_typed ns (data st0).
Proof.
  assert (forallb (fun p => is_hash p.2) (map_to_list (data st0)) = true) as Hall by (vm_compute; reflexivity).
  rewrite forallb_forall in Hall. intros h s E%elem_of_map_to_list%list_elem_of_In%Hall. discriminate E.
Qed.

Definition hashes_1 : list string := [token_hash cash_in; token_hash cash_out_1; token_hash cash_out_2].

Lemma plain_inputs : parsed_as [Webcash.show_secret cash_in] [cash_in].
Proof. repeat constructor; vm_compute; reflexivity. Qed.
Lemma plain_outputs :
  parsed_as [Webcash.show_secret cash_out_1; Webcash.show_secret cash_out_2] [cash_out_1; cash_out_2].
Proof. repeat constructor; vm_compute; reflexivity. Qed.

(** The input is worth nothing afterwards, and the three hashes are worth as
    much as before. *)
Lemma replace_conserves_supply_witness :
  let res := replace env_ref plain_req st0 in
  supply unscoped hashes_1 (data st0) = 300000000 /\
  supply unscoped [token_hash cash_in] (data (snd res)) = 0 /\
  supply unscoped hashes_1 (data (snd res)) = supply unscoped hashes_1 (data st0).
Proof.
  set (res := replace env_ref plain_req st0).
  assert (res.1 = Ok success) as E by (vm_compute; reflexivity).
  split; [vm_compute; reflexivity|]. split; [vm_compute; reflexivity|].
  assert (res = (Ok success, res.2)) as Eq by (rewrite <- E; apply surjective_pairing).
  destruct (replace_conserves_supply env_ref plain_req (st0 : ServerState (@rstate redis_ref)) success res.2 Eq)
    as (body & parsed & ns & ins & outs & Hb & Hp & Hi & Ho & Hns & Hs).
  - intros body parsed Hb Hp. injection Hb as <-. injection Hp as <-.
    split; [discriminate|]. split; [discriminate|]. intros outs _. apply plain_marshals.
  - intros ns. rewrite rview_ref. apply st0_typed.
  - injection Hb as <-. injection Hp as <-.
    pose proof (parsed_as_inj _ _ _ Hi plain_inputs) as ->. pose proof (parsed_as_inj _ _ _ Ho plain_outputs) as ->.
    specialize (Hns cash_in ltac:(left)) as <-. rewrite !rview_ref in Hs. apply Hs.
    + apply NoDup_singleton.
    + intros s Hin%list_elem_of_singleton. subst s. vm_compute. reflexivity.
    + apply (bool_decide_unpack _). vm_compute. reflexivity.
    + intros s Hin. apply (list_elem_of_fmap_2 token_hash) in Hin. exact Hin.
Defined.

(** The testnet server at difficulty zero, so that any preimage will do. *)
Definition easy : ServeConfig := {|
  bind_addr := "0.0.0.0:8080";
  mining := {| mode := Fixed 0; Mining.mining_amount_wats := 1; Mining.subsidy_amount_wats := 0;
               max_issuance := None; require_pow_for_issuance := false |} |}.
Definition mint_req : Request := request mint_body None.

Lemma mining_report_sound_witness :
  let res := mining_report easy env_ref mint_req (state []) in
  fst res = Ok success /\ current_difficulty (mining easy) = Some 0 /\ nonces (snd res) = default_nonces.
Proof.
  set (res := mining_report easy env_ref mint_req (state [])).
  assert (res.1 = Ok success) as E by (vm_compute; reflexivity). split; [exact E|]. split; [reflexivity|].
  assert (res = (Ok success, res.2)) as Eq by (rewrite <- E; apply surjective_pairing).
  exact (proj1 (proj2 (mining_report_sound easy env_ref mint_req (state []) success res.2 Eq))).
Defined.
End CashServer.

(** ** The RGB servers *)

Module RgbServer.
#[local] Existing Instance NamespacedKeys.
#[local] Existing Instance RgbFungible.asset.
#[local] Existing Instance RgbFungible.splittable.
#[local] Existing Instance RgbFungible.issued.
#[local] Existing Instance RgbFungible.hook.
#[local] Existing Instance RgbFungible.builder.
#[export] Instance bill_record : HashRecord (@Rec RgbFungible.asset) := rgb_fungible_hash_record.
#[export] Instance store : LedgerStore (@Rec RgbFungible.asset) rdb := RedisStore (H := redis_ref).

Definition mint_body_sig : string :=
  hex_encode (String.substring 0 64 (str_repeat "k"%char 32 +:+ mint_body +:+ str_repeat " "%char 64)).
Definition registry : IssuerRegistry := Build_IssuerRegistry {[ fp_str fp_a := str_repeat "k"%char 32 ]}.
Definition mint_req : Request := request mint_body (Some mint_body_sig).
Definition st0 : ServerState rdb := {| data := ∅; nonces := default_nonces |}.

Lemma issue_sound_witness :
  let res := issue_with (Some registry) env_ref true mint_req st0 in
  fst res = Ok success /\ is_ok (fst (issue_with (Some registry) env_ref true mint_req (snd res))) = false /\
  exists registry' body, Some registry = Some registry' /\ req_body mint_req = Ok body.
Proof.
  set (res := issue_with (Some registry) env_ref true mint_req st0).
  assert (res.1 = Ok success) as E by (vm_compute; reflexivity). split; [exact E|].
  split; [vm_compute; reflexivity|].
  assert (res = (Ok success, res.2)) as Eq by (rewrite <- E; apply surjective_pairing).
  destruct (issue_sound (Some registry) env_ref true mint_req st0 success res.2 Eq)
    as (_ & registry' & sig_hex & sig & body & parsed & secrets & Hr & _ & _ & Hb & _).
  exists registry', body. split; [exact Hr|exact Hb].
Defined.

(** The split of an issued bill with a lock on the second output, the example
    of the documentation: accepted, and the locked output has lost its spent
    flag. *)
Example locked_split_loses_flag :
  let st1 := snd (issue (Some registry) env_ref mint_req st0) in
  let res := replace env_ref (request lock_body None) st1 in
  fst res = Ok success /\
  fst (check_tokens (secret_ns (rgb_secret 1 "b"))
    (map (fun c => public_hash (to_public (rgb_secret 1 c))) ["b"; "c"]%char) (data (snd res))) =
  Ok [(public_hash (to_public (rgb_secret 1 "b")), Some false); (public_hash (to_public (rgb_secret 1 "c")), None)].
Proof. vm_compute. split; reflexivity. Qed.
End RgbServer.

Module ArtServer.
#[local] Existing Instance NamespacedKeys.
#[local] Existing Instance RgbCollectible.asset.
#[local] Existing Instance RgbCollectible.issued.
#[local] Existing Instance RgbCollectible.hook.
#[local] Existing Instance RgbCollectible.transferable.
#[local] Existing Instance RgbCollectible.builder.
#[export] Instance art_record : HashRecord (@Rec RgbCollectible.asset) := rgb_collectible_hash_record.
#[export] Instance store : LedgerStore (@Rec RgbCollectible.asset) rdb := RedisStore (H := redis_ref).

Definition st0 : ServerState rdb := {|
  data := snd (insert_tokens [record_from_secret (now env_ref) (art_secret "a") Replaced] ∅);
  nonces := default_nonces |}.
Definition transfer_req : Request := request transfer_body None.

Lemma replace_collectible_sound_witness :
  let res := replace_collectible env_ref transfer_req st0 in
  fst res = Ok success /\ nonces (snd res) = nonces st0.
Proof.
  set (res := replace_collectible env_ref transfer_req st0).
  assert (res.1 = Ok success) as E by (vm_compute; reflexivity). split; [exact E|].
  assert (res = (Ok success, res.2)) as Eq by (rewrite <- E; apply surjective_pairing).
  exact (proj1 (proj2 (replace_collectible_sound env_ref transfer_req st0 success res.2 Eq))).
Defined.
End ArtServer.

Module TermsServer.
#[local] Existing Instance NamespacedKeys.
#[local] Existing Instance RgbFungible.asset.
#[local] Existing Instance RgbFungible.splittable.
#[local] Existing Instance RgbFungible.issued.
#[local] Existing Instance RgbFungible.hook.
#[local] Existing Instance RgbFungible.builder.
#[local] Instance terms_record : HashRecord (@Rec RgbFungible.asset) := rgb_fungible_hash_record.
#[local] Instance terms_store : LedgerStore (@Rec RgbFungible.asset) rdb := RedisStore (H := redis_ref).
#[local] Instance any_transfer : TransferableAsset := {| validate_transfer _ _ := Ok tt |}.

Definition bad_req : Request := request bad_terms_body None.

Lemma terms_gate_witness :
  exists m, respond (replace env_ref bad_req) RgbServer.st0 = (server_error m, RgbServer.st0).
Proof.
  refine (terms_gate testnet_default None env_ref bad_req RgbServer.st0 (replace env_ref bad_req) _ _).
  - intros body Hb. injection Hb as <-.
    split; [intros p Hp; injection Hp as <-; reflexivity|].
    split; [intros p Hp; discriminate Hp|]. split; intros p Hp; discriminate Hp.
  - left.
Defined.
End TermsServer.
