(* ===== verification/LegacyExamples.v ===== *)
(** * The legacy server on concrete data

    The properties of the [Legacy*] files applied to a small ledger over the
    reference Redis server, and runs that show behaviour the theorems leave
    out by hypothesis. *)
From S2P Require Import Prelude Decimal Amount External Parsers Tokens AssetCore Storage Redis RedisLedger Records Htlc Mining Auth Server Reference LegacyProtocol LegacyStore LegacyReplace LegacyMiner LegacyMinerFacts LegacyRedis LegacyFleet LegacyApi LegacyApiFacts.
From Stdlib Require Import Floats.SpecFloat.

Module Old.
#[local] Existing Instance WebcashLegacyKeys.
#[local] Existing Instance WebcashAsset.asset.
#[local] Existing Instance webcash_hash_record.
#[local] Existing Instance LegacyRedisStore.
#[local] Existing Instance legacy_sequential.

Definition noon : @DateTime chrono_ref := "2026-01-01T12:00:00+00:00".

(** ** Parameters *)

#[export] Instance spec_float_eq_dec : EqDecision spec_float.
Proof. solve_decision. Defined.
#[export] Instance spec_float_countable : Countable spec_float.
Proof.
  refine (inj_countable'
    (fun f => match f with
              | S754_zero s => inl (inl s) | S754_infinity s => inl (inr s)
              | S754_nan => inr (inl tt) | S754_finite s m e => inr (inr (s, m, e)) end)
    (fun c : (bool + bool) + (unit + bool * positive * Z) =>
       match c with
       | inl (inl s) => S754_zero s | inl (inr s) => S754_infinity s
       | inr (inl _) => S754_nan | inr (inr (s, m, e)) => S754_finite s m e end) _).
  by intros [].
Defined.

#[export] Instance legacy_state_eq_dec : EqDecision (@Legacy.MiningState chrono_ref).
Proof. solve_decision. Defined.
#[export] Instance legacy_state_countable : Countable (@Legacy.MiningState chrono_ref).
Proof.
  refine (inj_countable'
    (fun s : Legacy.MiningState => (Legacy.ms_difficulty_target_bits s, Legacy.ms_epoch s,
       Legacy.ms_total_circulation_wats s, Legacy.ms_mining_reports_count s, Legacy.ms_mining_amount_wats s,
       Legacy.ms_subsidy_amount_wats s, Legacy.ms_last_adjustment_at s : string, Legacy.ms_aggregate_work s))
    (fun '(a, b, c, d, e, f, g, h) => @Legacy.Build_MiningState chrono_ref a b c d e f g h) _).
  by intros [].
Defined.
#[export] Instance legacy_state_serde : Serde (@Legacy.MiningState chrono_ref) := countable_serde.
#[export] Instance legacy_state_laws : SerdeLaws (@Legacy.MiningState chrono_ref).
Proof. apply countable_serde_laws. Qed.

#[export] Instance old_replacement_serde : Serde (@Db.ReplacementRecord chrono_ref) := {|
  to_json r := "replacement " +:+ Db.rr_id r +:+ " of " +:+ show_i64 (Db.rr_total_amount_wats r);
  from_json _ := Err "expected value" |}.
#[export] Instance old_burn_serde : Serde (@Db.BurnRecord chrono_ref) := {|
  to_json r := "burn " +:+ Db.br_id r +:+ " of " +:+ Db.br_public_hash r;
  from_json _ := Err "expected value" |}.
#[export] Instance same_audit_ref : SameAudit.
Proof. by split. Qed.

#[export] Instance instants_ref : Miner.Instants := {|
  Miner.timestamp _ := 1767268800; Miner.num_seconds _ _ := 500 |}.

Definition coin (w : Z) (c : ascii) : Webcash.SecretWebcash := Webcash.mk_secret (from_wats w) (hex_of c).
Definition text (w : Z) (c : ascii) : string := Webcash.show_secret (coin w c).
Definition hash (c : ascii) : string := Replace.hash_of (coin 1 c).

(** The sample preimages: one output; two outputs of which the first is
    taken; an uncounted subsidy; outputs whose sum wraps around. *)
Definition decode_preimage (s : string) : result string (list string * list string * Legacy.timestamp_value * Z) :=
  let pre outs subs := Ok (outs, subs, Legacy.TNumber (Some 1767268700) None, 1) in
  if String.eqb s "mint" then pre [text 300000000 "a"] []
  else if String.eqb s "next" then pre [text 300000000 "f"] []
  else if String.eqb s "clash-1" then pre [text 100000000 "a"; text 200000000 "b"] []
  else if String.eqb s "clash-2" then pre [text 100000000 "a"; text 200000000 "c"] []
  else if String.eqb s "gift" then pre [text 300000000 "d"] [text 5000000000 "e"]
  else if String.eqb s "wrap" then pre [text i64_max "a"; text i64_max "b"; text 300000002 "c"] []
  else Err "expected value".

#[export] Instance preimage_ref : Legacy.PreimageJson := {| Legacy.json_members := decode_preimage |}.

#[export] Instance legacy_json_ref : Api.LegacyJson := {|
  Api.json_text _ := "{}";
  Api.read_burn s := Ok ([s], true);
  Api.read_mining_report s := Ok (s, true);
  Api.read_replace s :=
    if String.eqb s "split" then Ok ([text 300000000 "a"], [text 100000000 "b"; text 200000000 "c"], true)
    else Err "expected value";
  Api.read_hashes s := Ok [s];
  Api.send_error := "Messaging failed to send" |}.

(** ** The two servers on one Redis *)

Definition token (c : ascii) (w : Z) : Db.TokenRecord := Replace.output_record noon (coin w c).
Definition ledger (w : Z) : rdb := {[ legacy_key (hash "a") := RHash (webcash_to_fields (webcash_of (token "a" w))) ]}.

Lemma ledger_typed w : tokens_typed unscoped (ledger w).
Proof. intros h s. unfold ledger. rewrite lookup_singleton_Some. by intros [_ ?]. Qed.

Definition old_op (id : string) (ins : list string) (outs : list Db.TokenRecord) : Db.ReplaceOp := {|
  Db.ro_inputs := ins; Db.ro_outputs := outs;
  Db.ro_record := {| Db.rr_id := id; Db.rr_input_hashes := ins; Db.rr_output_hashes := map Db.public_hash outs;
                     Db.rr_total_amount_wats := 300; Db.rr_created_at := noon |} |}.

Lemma old_op_wf e id ins ts :
  (length ins <= 9)%nat -> (length ts <= 9)%nat ->
  legacy_wf (LReplace e (old_op id ins (map (Replace.output_record noon) ts))).
Proof.
  intros Hi Ho. cbn. rewrite length_map. split_and!; [lia|lia|]. apply Forall_fmap, Forall_true. by intros t.
Qed.

(** The legacy server, then the current one, then the legacy one spend the
    same token. *)
Definition race : list fleet_cmd :=
  [inl (LCheck (hash "a"));
   inl (LReplace noon (old_op "1" [hash "a"] [token "b" 300]));
   inr (CReplace noon (op_of (old_op "2" [hash "a"] [token "c" 300])));
   inl (LBurn noon (hash "a", {| Db.br_id := "3"; Db.br_public_hash := hash "a"; Db.br_amount_wats := 300;
                                 Db.br_burned_at := noon |}))].


(** ** The batcher *)

Definition pending (id : string) (n : nat) (c : ascii) : Replace.PendingReplace :=
  {| Replace.op := old_op id [hash "a"] [token c 300]; Replace.reply := n |}.
Definition rush : list Replace.event :=
  [Replace.Arrives (pending "1" 0 "b"); Replace.Arrives (pending "2" 1 "c"); Replace.Drains noon;
   Replace.Arrives (pending "3" 2 "d")].


(** ** Reports *)

Definition cfg : Miner.MiningConfig := {|
  Miner.testnet_difficulty := 1; Miner.initial_difficulty := 1; Miner.reports_per_epoch := 1;
  Miner.target_epoch_seconds := 1000; Miner.initial_mining_amount_wats := 300000000;
  Miner.initial_subsidy_amount_wats := 0 |}.
Definition clock : Miner.Clock := {|
  Miner.checked_at := noon; Miner.recorded_at := noon; Miner.elapsed_at := noon; Miner.adjusted_at := noon |}.
Definition first : @Legacy.MiningState chrono_ref := Legacy.initial noon 1 300000000 0.

Definition report (p : string) : result string (list Db.TokenRecord * Z) := Miner.validate_report clock p first.

Lemma report_supply_witness :
  exists recs, report "mint" = Ok (recs, 300000000) /\
  exists pre ss us, verify_pow "mint" 1 = true /\ MinerFacts.passed clock "mint" first recs 300000000 pre ss us /\
    Forall MinerFacts.fresh_mined recs /\
    (MinerFacts.sum (MinerFacts.values ss) <= i64_max -> (0 < 0 \/ us = []) ->
     NoDup (Db.public_hash <$> map (Miner.mined_record noon) (ss ++ us)) ->
     300000000 = 0 + MinerFacts.sum (Db.amount_wats <$> recs)).
Proof.
  eexists. split; [vm_compute; reflexivity|].
  apply (MinerFacts.report_supply clock "mint" first). vm_compute. reflexivity.
Defined.

(** The supply counted and the supply created, when there is a subsidy output
    and no subsidy, and when the sum of the outputs wraps around. *)
Example subsidy_uncounted :
  option_map (fun r => (r.2, MinerFacts.sum (Db.amount_wats <$> r.1))) (result_ok (report "gift")) =
  Some (300000000, 5300000000).
Proof. vm_compute. reflexivity. Qed.
Example reward_wraps :
  option_map (fun r => (r.2, MinerFacts.sum (Db.amount_wats <$> r.1))) (result_ok (report "wrap")) =
  Some (300000000, 2 ^ 64 + 300000000).
Proof. vm_compute. reflexivity. Qed.

Definition second : @Legacy.MiningState chrono_ref :=
  default first (Miner.next_state Miner.Production cfg clock 300000000 first).

Lemma chain_accounts_witness :
  nsteps (MinerFacts.report_step Miner.Production cfg) 1 first second /\
  Legacy.ms_mining_reports_count second = 1 /\ Legacy.ms_difficulty_target_bits second = 2 /\
  Legacy.ms_epoch second - Legacy.ms_epoch first =
    Legacy.ms_mining_reports_count second / 1 - Legacy.ms_mining_reports_count first / 1.
Proof.
  assert (nsteps (MinerFacts.report_step Miner.Production cfg) 1 first second) as Hs.
  { econstructor; [|constructor]. exists clock, "mint". eexists. exists 300000000. split; vm_compute; reflexivity. }
  split; [exact Hs|]. split; [vm_compute; reflexivity|]. split; [vm_compute; reflexivity|].
  apply (MinerFacts.chain_accounts Miner.Production cfg 1 first second Hs).
  - split_and!; vm_compute; done.
  - vm_compute. done.
Defined.

Definition life : list Miner.miner_event :=
  [Miner.Start noon; Miner.Report clock "mint"; Miner.Report clock "clash-1"; Miner.Start noon; Miner.Report clock "next"].

Lemma memory_follows_store_witness :
  let sys := Miner.miner_run Miner.Testnet cfg life (None, ∅ : @rstate redis_ref) in
  option_map Legacy.ms_mining_reports_count sys.1 = Some 3 /\
  MinerFacts.consistent Miner.Testnet cfg (MinerFacts.stored (∅ : @rstate redis_ref)) sys.
Proof.
  split; [vm_compute; reflexivity|].
  apply (MinerFacts.memory_follows_store Miner.Testnet cfg life (∅ : @rstate redis_ref)). exact I.
Defined.

(** A report with one taken output is refused and not counted in memory, but
    its other output is created; the next such report does it again. *)
Definition run_report (p : string) (sys : option Legacy.MiningState * @rstate redis_ref) : option Legacy.MiningState * @rstate redis_ref :=
  Miner.miner_step Miner.Testnet cfg sys (Miner.Report clock p).
Definition minted : option Legacy.MiningState * @rstate redis_ref :=
  run_report "mint" (Miner.miner_step Miner.Testnet cfg (None, ∅ : @rstate redis_ref) (Miner.Start noon)).
Definition amount_at (db : rdb) (c : ascii) : Z :=
  match db !! legacy_key (hash c) with
  | Some (RHash h) => default 0 (Db.amount_wats <$> hash_to_token noon (hash c) h)
  | _ => 0
  end.

Example uncounted_mint :
  let sys := run_report "clash-2" (run_report "clash-1" minted) in
  option_map Legacy.ms_total_circulation_wats sys.1 = Some 300000000 /\
  MinerFacts.sum (map (amount_at sys.2) ["a"%char; "b"%char; "c"%char]) = 700000000.
Proof. split; vm_compute; reflexivity. Qed.

(** ** The API *)

Definition api_env : Api.ApiEnv := {|
  Api.at_now := noon; Api.report_clock := clock; Api.restarted_at := noon; Api.new_ids _ := "id" |}.
Definition split_request : Request := request "split" None.
Definition served (w : Z) : @Api.System chrono_ref (@rstate redis_ref) := {| Api.memory := Some first; Api.store := ledger w |}.
Definition answer (w : Z) : Api.HttpResponse * Api.System :=
  Api.route Miner.Testnet cfg None api_env split_request (served w).

Lemma confirmed_replace_witness :
  Api.status (answer 300000000).1 = 200 /\
  exists ss ts, true = true /\ Replace.read_positive [text 300000000 "a"] ss /\
    Replace.read_positive [text 100000000 "b"; text 200000000 "c"] ts /\
    Replace.total_wats ss = Replace.total_wats ts.
Proof.
  assert (Api.status (answer 300000000).1 = 200) as E by (vm_compute; reflexivity). split; [exact E|].
  destruct (ApiFacts.confirmed_replace Miner.Testnet cfg None api_env split_request (served 300000000)
    [text 300000000 "a"] [text 100000000 "b"; text 200000000 "c"] true "split") as (ss & ts & Ht & Hs & Hu & Heq & _);
    [reflexivity|reflexivity|reflexivity|reflexivity|apply ledger_typed|simpl; lia|simpl; lia|exact E|].
  exists ss, ts. split; [exact Ht|]. split; [exact Hs|]. split; [exact Hu|exact Heq].
Defined.

(** The amount a text claims is not compared with the amount of the record: a
    token of one wat is replaced by tokens of three webcash. *)
Example forged_amount :
  Api.status (answer 1).1 = 200 /\ amount_at (ledger 1) "a" = 1 /\
  MinerFacts.sum (map (amount_at (Api.store (answer 1).2)) ["b"%char; "c"%char]) = 300000000.
Proof. split_and!; vm_compute; reflexivity. Qed.
End Old.
