(* ===== verification/BackendReference.v ===== *)
(** * Concrete FoundationDB and DynamoDB services

    Instances of the service parameters of [Fdb] and [Dynamo] with proofs of
    their laws: a FoundationDB that can lose the acknowledgement of a commit, a
    DynamoDB that can be busy (it leaves all but the first item of a batch
    unprocessed) or down for a number of calls, and a JSON tree with the
    encoding [serde] derives for a webcash record. *)
From S2P Require Import Prelude Decimal Amount External AssetCore Tokens Storage Redis Htlc Mining Records Conservation Ledger Fdb Dynamo Reference.
From stdpp Require Import countable.

(** ** The tuple layer

    A string element is [0x02], its bytes with [0x00] escaped as [0x00 0xFF],
    and [0x00]. *)
Definition nul : ascii := ascii_of_nat 0.
Definition xff : ascii := ascii_of_nat 255.
Definition stx : ascii := ascii_of_nat 2.

Fixpoint escaped (s : string) : string :=
  match s with
  | EmptyString => EmptyString
  | String c s' =>
      if Ascii.eqb c nul then String nul (String xff (escaped s')) else String c (escaped s')
  end.

Fixpoint tuple_pack (elems : list string) : string :=
  match elems with
  | [] => EmptyString
  | s :: rest => String stx (escaped s +:+ String nul (tuple_pack rest))
  end.

Lemma tuple_pack_head rest : match tuple_pack rest with String c _ => c <> xff | EmptyString => True end.
Proof. by destruct rest. Qed.

Lemma escaped_inj s s' r r' :
  match r with String c _ => c <> xff | EmptyString => True end ->
  match r' with String c _ => c <> xff | EmptyString => True end ->
  escaped s +:+ String nul r = escaped s' +:+ String nul r' -> s = s' /\ r = r'.
Proof.
  intros Hr Hr'. revert s'. induction s as [|c s IH]; intros [|c' s']; cbn [escaped].
  - by intros [= ->].
  - destruct (Ascii.eqb_spec c' nul) as [->|Hc]; intros E; simpl in E; simplify_eq.
  - destruct (Ascii.eqb_spec c nul) as [->|Hc]; intros E; simpl in E; simplify_eq.
  - destruct (Ascii.eqb_spec c nul) as [->|Hc], (Ascii.eqb_spec c' nul) as [->|Hc']; intros E; simpl in E.
    + injection E as E. destruct (IH s' E) as [-> ->]. done.
    + by injection E.
    + by injection E.
    + injection E as -> E. destruct (IH s' E) as [-> ->]. done.
Qed.

Lemma tuple_pack_inj p q : tuple_pack p = tuple_pack q -> p = q.
Proof.
  revert q. induction p as [|s p IH]; intros [|s' q]; cbn [tuple_pack]; [done..|]. intros E. injection E as E.
  destruct (escaped_inj s s' _ _ (tuple_pack_head p) (tuple_pack_head q) E) as [-> Ep]. f_equal. auto.
Qed.

(** ** FoundationDB

    The state carries, for the commits to come, whether their acknowledgement
    is lost; a closure whose commit is not acknowledged is run again. *)
Fixpoint run_attempts {T} (f : trx T) (lost_acks : list bool) (d : fdb) : result fdb_error T * (fdb * list bool) :=
  match f d with
  | (Err e, _) => (Err (CustomError e), (d, lost_acks))
  | (Ok x, d') =>
      match lost_acks with
      | true :: rest => run_attempts f rest d'
      | _ => (Ok x, (d', tail lost_acks))
      end
  end.

#[export] Instance fdb_ref : FdbService := {|
  fstate := fdb * list bool;
  pack := tuple_pack;
  db_run T f st := run_attempts f st.2 st.1;
  debug_fdb e := match e with CustomError m => "Custom error: " +:+ debug_str m | FdbError _ => "code" end
|}.

Lemma run_attempts_spec {T} (f : trx T) acks d r st' :
  run_attempts f acks d = (r, st') ->
  match r with
  | Ok x => exists d', lost f d d' /\ f d' = (Ok x, st'.1)
  | Err e => lost f d st'.1 /\ exists m, e = CustomError m /\ (f st'.1).1 = Err m
  end.
Proof.
  revert d. induction acks as [|b acks IH]; intros d; cbn [run_attempts]; destruct (f d) as [[x|e] d1] eqn:E.
  - intros [= <- <-]. exists d. split; [constructor|done].
  - intros [= <- <-]. cbn. split; [constructor|]. exists e. by rewrite E.
  - destruct b.
    + intros Hr%IH. destruct r as [y|e].
      * destruct Hr as (d' & Hl & Ef). exists d'. split; [by econstructor|done].
      * destruct Hr as (Hl & m & -> & Em). split; [by econstructor|]. by exists m.
    + intros [= <- <-]. exists d. split; [constructor|done].
  - intros [= <- <-]. cbn. split; [constructor|]. exists e. by rewrite E.
Qed.

#[export] Instance fdb_ref_laws : FdbLaws.
Proof.
  refine {| fview := fun st : @fstate fdb_ref => st.1 : fdb |}.
  - exact tuple_pack_inj.
  - intros T f st x st' E. exact (run_attempts_spec f st.2 st.1 _ _ E).
  - intros T f st e st' E. destruct (run_attempts_spec f st.2 st.1 _ _ E) as (Hl & m & -> & Em).
    split; [exact Hl|]. by intros msg [= <-].
Defined.

(** ** JSON

    A scalar is a leaf; an object is a node whose children are the keys and
    values of its members in turn, the first member of a name counting. *)
Inductive scalar := SBool (b : bool) | SStr (s : string) | SNum (z : Z) | SNull.
#[export] Instance scalar_eq_dec : EqDecision scalar.
Proof. solve_decision. Defined.
#[export] Instance scalar_countable : Countable scalar.
Proof.
  refine (inj_countable'
    (fun s => match s with SBool b => inl (inl b) | SStr s => inl (inr s) | SNum z => inr (inl z) | SNull => inr (inr tt) end)
    (fun x => match x with inl (inl b) => SBool b | inl (inr s) => SStr s | inr (inl z) => SNum z | inr (inr _) => SNull end) _).
  by intros [].
Defined.

Notation json := (gen_tree scalar).

Fixpoint member (k : string) (cs : list json) : option json :=
  match cs with
  | GenLeaf (SStr k') :: v :: rest => if String.eqb k' k then Some v else member k rest
  | _ => None
  end.

#[export] Instance json_serde : Serde json := countable_serde.
#[export] Instance json_serde_laws : SerdeLaws json.
Proof. apply countable_serde_laws. Qed.

#[export] Instance tree_ref : JsonTree := {|
  jvalue := json;
  jserde := json_serde;
  jget v k := match v with GenNode _ cs => member k cs | _ => None end;
  jas_bool v := match v with GenLeaf (SBool b) => Some b | _ => None end;
  jis_object v := match v with GenNode _ _ => true | _ => false end;
  jinsert k x v := match v with GenNode n cs => GenNode n (GenLeaf (SStr k) :: x :: cs) | _ => v end;
  JBool b := GenLeaf (SBool b);
  JString s := GenLeaf (SStr s)
|}.

#[export] Instance tree_ref_laws : JsonTreeLaws.
Proof.
  split.
  - apply json_serde_laws.
  - intros k x [l|n cs]; [done|]. intros _. simpl. by rewrite String.eqb_refl.
  - by intros k x [l|n cs].
Qed.

(** [derive(Serialize, Deserialize)] for [WebcashRecord]. *)
Definition show_opt_time (t : option (@DateTime chrono_ref)) : json :=
  GenLeaf (match t with Some t => SStr t | None => SNull end).
Definition read_opt_time (v : option json) : option (option (@DateTime chrono_ref)) :=
  match v with Some (GenLeaf (SStr t)) => Some (Some t) | Some (GenLeaf SNull) => Some None | _ => None end.
Definition read_str (v : option json) : option string :=
  match v with Some (GenLeaf (SStr s)) => Some s | _ => None end.

Definition webcash_tree (r : @WebcashRecord chrono_ref) : json :=
  let str s := GenLeaf (SStr s) in
  GenNode O [str "public_hash"; str (w_public_hash r); str "amount_wats"; GenLeaf (SNum (w_amount_wats r));
    str "spent"; GenLeaf (SBool (w_spent r)); str "created_at"; str (w_created_at r);
    str "spent_at"; show_opt_time (w_spent_at r);
    str "origin"; GenLeaf (SBool (match w_origin r with WMined => true | WReplaced => false end))].

Definition webcash_of_tree (v : json) : option (@WebcashRecord chrono_ref) :=
  h ← read_str (jget (JsonTree := tree_ref) v "public_hash");
  w ← (match jget (JsonTree := tree_ref) v "amount_wats" with Some (GenLeaf (SNum z)) => Some z | _ => None end);
  b ← (x ← jget (JsonTree := tree_ref) v "spent"; jas_bool (JsonTree := tree_ref) x);
  c ← read_str (jget (JsonTree := tree_ref) v "created_at");
  t ← read_opt_time (jget (JsonTree := tree_ref) v "spent_at");
  o ← (x ← jget (JsonTree := tree_ref) v "origin"; jas_bool (JsonTree := tree_ref) x);
  Some (@Build_WebcashRecord chrono_ref h w b c t (if (o : bool) then WMined else WReplaced)).

#[export] Instance webcash_json : Serde (@WebcashRecord chrono_ref) := {|
  to_json r := to_json (webcash_tree r);
  from_json s := v ← from_json s; ok_or (webcash_of_tree v) "missing field"
|}.

Lemma webcash_tree_read r : webcash_of_tree (webcash_tree r) = Some r.
Proof. destruct r as [h w b c [t|] []]; reflexivity. Qed.

Lemma webcash_of_json v r : from_json (to_json (v : json)) = Ok (r : @WebcashRecord chrono_ref) <-> webcash_of_tree v = Some r.
Proof.
  simpl. pose proof (from_to_json (v : json)) as E. simpl in E. rewrite E. simpl.
  destruct (webcash_of_tree v); simpl; split; congruence.
Qed.

#[export] Instance webcash_record_json :
  RecordJsonLaws (A := WebcashAsset.asset) (HashRecord0 := webcash_hash_record) (H1 := webcash_json).
Proof.
  split.
  - intros r. exists (webcash_tree r). split_and!; [done..|]. apply webcash_of_json, webcash_tree_read.
  - intros v r _ E%webcash_of_json. unfold webcash_of_tree in E.
    apply bind_Some in E as (h & _ & E). apply bind_Some in E as (w & _ & E).
    apply bind_Some in E as (b & (x & Hx & Hb)%bind_Some & E). apply bind_Some in E as (c & _ & E).
    apply bind_Some in E as (t & _ & E). apply bind_Some in E as (o & _ & [= <-]).
    change (jget v "spent" = Some x) in Hx. rewrite Hx. simpl in *. rewrite Hb. f_equal. symmetry.
    apply spent_flag_hash. unfold webcash_to_fields. by read_fields.
  - intros now v r Hv E%webcash_of_json. destruct v as [l|n cs]; [done|].
    unfold webcash_of_tree in E.
    apply bind_Some in E as (h & Hh & E). apply bind_Some in E as (w & Hw & E).
    apply bind_Some in E as (b & _ & E). apply bind_Some in E as (c & Hc & E).
    apply bind_Some in E as (t & _ & E). apply bind_Some in E as (o & Ho & [= <-]).
    exists (@Build_WebcashRecord chrono_ref h w true c (Some now) (if (o : bool) then WMined else WReplaced)).
    split_and!; [|apply map_eq; intros name|done|done].
    + apply webcash_of_json. unfold webcash_of_tree.
      cbn [mark_json jis_object tree_ref jinsert jget member] in *. simpl in *.
      rewrite Hh. simpl. rewrite Hw. simpl. rewrite Hc. simpl. rewrite Ho. done.
    + simpl. unfold webcash_to_fields, mark_hash. simpl.
      destruct (decide (name = "spent_at")) as [->|H1]; [by read_fields|].
      destruct (decide (name = "spent")) as [->|H2]; [by read_fields|].
      destruct (decide (name = "origin")) as [->|H3]; [by read_fields|].
      destruct (decide (name = "created_at")) as [->|H4]; [by read_fields|].
      destruct (decide (name = "amount_wats")) as [->|H5]; by read_fields.
Qed.

(** ** DynamoDB *)

(** The tables, how many coming calls fail, what the tables were before each
    earlier call, and how many calls a read that asks for no consistency may
    lag behind. *)
Record DynamoRef := dynamo_at { tabs : dtables; busy : bool; down : nat; past : list dtables; lag : nat }.
Definition mk_dynamo (T : dtables) (b : bool) (n : nat) : DynamoRef := dynamo_at T b n [] 0.
Inductive RefError := Dispatch | Service (debug : string).

Definition remember (s : DynamoRef) : DynamoRef := dynamo_at (tabs s) (busy s) (down s) (tabs s :: past s) (lag s).
Definition set_tabs (T : dtables) (s : DynamoRef) : DynamoRef := dynamo_at T (busy s) (down s) (past s) (lag s).

Definition guarded {X} (op : DynamoRef -> result RefError X * DynamoRef) (s : DynamoRef) : result RefError X * DynamoRef :=
  match down s with
  | S n => (Err Dispatch, dynamo_at (tabs s) (busy s) n (past s) (lag s))
  | O => op s
  end.

Definition write_ref (t : string) (its : list item) (s : DynamoRef) : result RefError (list item) * DynamoRef :=
  if bool_decide ((length its <= 25)%nat /\ NoDup (item_pk <$> its) /\ is_Some (tabs s !! t))
  then let n := if busy s then 1%nat else length its in
       (Ok (drop n its), set_tabs (alter (put_items (take n its)) t (tabs s)) s)
  else (Err (Service "ValidationException"), s).

(** What a read that lags behind sees. *)
Definition lagging (s : DynamoRef) : dtables := nth (lag s) (past s) (tabs s).

Definition read_ref (t : string) (keys : list string) (s : DynamoRef)
  : result RefError (list item * list string) * DynamoRef :=
  match tabs s !! t with
  | Some _ =>
      if bool_decide (NoDup keys) then
        let rest := if busy s then drop 1 keys else [] in
        (Ok (omap (fun k => lagging s !! t ≫= lookup k) (filter (fun k => k ∉ rest) keys), rest), s)
      else (Err (Service "ValidationException"), s)
  | None => (Err (Service "ResourceNotFoundException"), s)
  end.

Definition get_ref (consistent : bool) (t key : string) (s : DynamoRef) : result RefError (option item) * DynamoRef :=
  match tabs s !! t with
  | Some tbl => (Ok (if consistent then tbl !! key else lagging s !! t ≫= lookup key), s)
  | None => (Err (Service "ResourceNotFoundException"), s)
  end.

#[export] Instance dynamo_ref : DynamoService := {|
  dstate := DynamoRef;
  sdk_error := RefError;
  show_sdk e := match e with Dispatch => "dispatch failure" | Service _ => "service error" end;
  service_debug e := match e with Dispatch => None | Service d => Some d end;
  transact_write_items txs s := guarded (fun s =>
    match transact txs (tabs s) with
    | Some T => (Ok tt, set_tabs T s)
    | None => (Err (Service "TransactionCanceledException"), s)
    end) (remember s);
  batch_write_item t its s := guarded (write_ref t its) (remember s);
  batch_get_item t keys s := guarded (read_ref t keys) (remember s);
  get_item consistent t key s := guarded (get_ref consistent t key) (remember s);
  put_item t it s := guarded (fun s =>
    match tabs s !! t with
    | Some _ => (Ok tt, set_tabs (alter (put_items [it]) t (tabs s)) s)
    | None => (Err (Service "ResourceNotFoundException"), s)
    end) (remember s);
  describe_table t := guarded (fun s =>
    match tabs s !! t with
    | Some _ => (Ok tt, s)
    | None => (Err (Service "ResourceNotFoundException"), s)
    end);
  create_table t := guarded (fun s =>
    match tabs s !! t with
    | Some _ => (Err (Service "ResourceInUseException"), s)
    | None => (Ok tt, set_tabs (<[t := ∅]> (tabs s)) s)
    end)
|}.

Lemma guarded_case {X} (op : DynamoRef -> result RefError X * DynamoRef) s r s' :
  guarded op s = (r, s') -> (r = Err Dispatch /\ tabs s' = tabs s /\ past s' = past s) \/ op s = (r, s').
Proof. unfold guarded. destruct (down s); [by right|]. intros [= <- <-]. by left. Qed.

Ltac called E := simpl in E; apply guarded_case in E as [(Er & Ev & Ep)|E]; [try done|]; simpl in *.

(** What the tables were is told by the record of the earlier calls. *)
Definition ref_past (s : DynamoRef) : list dtables := tabs s :: past s.

Lemma lagging_past s : lagging (remember s) ∈ ref_past s.
Proof.
  unfold lagging. simpl. destruct (lag s) as [|n]; [by constructor|]. unfold ref_past.
  destruct (nth_in_or_default n (past s) (tabs s)) as [Hn| ->]; [|by constructor].
  constructor. by apply list_elem_of_In.
Qed.

Lemma read_ref_ok t keys s found rest s' : read_ref t keys (remember s) = (Ok (found, rest), s') ->
  tabs s' = tabs s /\ NoDup keys /\ rest ⊆ keys /\
  exists seen : string -> option item, (forall k, exists D, D ∈ ref_past s /\ seen k = D !! t ≫= lookup k) /\
    found ≡ₚ omap seen (filter (fun k => k ∉ rest) keys).
Proof.
  unfold read_ref. simpl. destruct (tabs s !! t) as [tbl|] eqn:Et; [|done]. case_bool_decide as Hnd; [|done].
  intros [= <- <- <-]. split_and!; [done|done| |].
  - destruct (busy s); [|set_solver]. intros x Hx. rewrite <- (take_drop 1 keys). apply elem_of_app. by right.
  - exists (fun k => lagging (remember s) !! t ≫= lookup k). split; [|done]. intros k. eexists. split; [apply lagging_past|done].
Qed.

Lemma alter_id_table (D : dtables) t : alter (put_items []) t D = D.
Proof.
  apply map_eq. intros i. destruct (decide (i = t)) as [->|Hne];
    [rewrite lookup_alter_eq; by destruct (D !! t)|by rewrite lookup_alter_ne].
Qed.

(** Every data call records what the tables were. *)
Lemma dynamo_ref_records (s s' : @dstate dynamo_ref) : dcall s s' -> past s' = ref_past s.
Proof.
  intros [txs r E|t its r E|t keys r E|c t key r E|t it r E]; called E; try done.
  - destruct (transact txs (tabs s)); by injection E as _ <-.
  - unfold write_ref in E. case_bool_decide; by injection E as _ <-.
  - unfold read_ref in E. simpl in E. destruct (tabs s !! t); [case_bool_decide|]; by injection E as _ <-.
  - unfold get_ref in E. simpl in E. destruct (tabs s !! t); by injection E as _ <-.
  - destruct (tabs s !! t); by injection E as _ <-.
Qed.

#[export] Instance dynamo_ref_laws : DynamoLaws.
Proof.
  refine {| dview := fun s : @dstate dynamo_ref => tabs s; dpast := fun s : @dstate dynamo_ref => ref_past s |}.
  - intros s. by constructor.
  - intros s s' Hc%dynamo_ref_records. unfold ref_past at 1. by rewrite Hc.
  - intros txs s s' E. called E. destruct (transact txs (tabs s)) eqn:Et; [|done]. by injection E as <-.
  - intros txs s e s' E. called E; [by left|]. destruct (transact txs (tabs s)) eqn:Et; [done|]. injection E as _ <-. by left.
  - intros t its s rest s' E. called E. unfold write_ref in E. case_bool_decide as Hc; [|done].
    destruct Hc as (Hl & Hnd & Ht). injection E as <- <-. split_and!; [done..|].
    exists (take (if busy s then 1%nat else length its) its). split; [by rewrite take_drop|done].
  - intros t its s e s' E. exists []. split; [set_solver|]. rewrite alter_id_table. called E.
    unfold write_ref in E. case_bool_decide; [done|]. by injection E as _ <-.
  - intros t keys s found rest s' E. called E. by apply read_ref_ok in E.
  - intros t keys s e s' E. called E. unfold read_ref in E. simpl in E.
    destruct (tabs s !! t); [case_bool_decide; [done|]|]; by injection E as _ <-.
  - intros c t key s o s' E. called E. unfold get_ref in E. simpl in E. destruct (tabs s !! t) as [tbl|] eqn:Et; [|done].
    injection E as <- <-. split_and!; [done| |intros ->; eauto].
    destruct c; [exists (tabs s); by rewrite Et; split; [constructor|]|].
    exists (lagging (remember s)). split; [apply lagging_past|done].
  - intros c t key s e s' E. called E. unfold get_ref in E. simpl in E.
    destruct (tabs s !! t) as [tbl|]; [done|]. by injection E as _ <-.
  - intros t it s s' E. called E. destruct (tabs s !! t) as [tbl|]; [|done]. injection E as <-. eauto.
  - intros t it s e s' E. called E; [by left|]. destruct (tabs s !! t) as [tbl|]; [done|]. injection E as _ <-. by left.
  - intros t s s' E. called E. destruct (tabs s !! t) as [tbl|] eqn:Et; [|done]. injection E as <-. split; [done|by exists tbl].
  - intros t s e s' E. called E. destruct (tabs s !! t) as [tbl|]; [done|]. by injection E as _ <-.
  - intros t s s' E. called E. destruct (tabs s !! t) as [tbl|] eqn:Et; [done|]. injection E as <-. done.
  - intros t s e s' E. called E.
    { simplify_eq. split; [by left|done]. }
    destruct (tabs s !! t) as [tbl|] eqn:Et; [|done]. injection E as <- <-. split; [by left|]. intros _. by exists tbl.
Defined.
