(* ===== verification/BackendExamples.v ===== *)
(** * The transactional backends on concrete data

    The properties of [Fdb], [RedisFdb], [DynamoFacts] and [LedgerServer] on a
    small webcash ledger, and runs that exhibit what the stores do when an
    acknowledgement is lost, a batch is left unprocessed or a cache is stale. *)
From S2P Require Import Prelude Decimal Amount External AssetCore Tokens Storage Redis RedisLedger Htlc Mining Records Auth Server ServerFacts Conservation Ledger Fdb RedisFdb Dynamo DynamoFacts LedgerServer Reference RedisExamples ServerExamples BackendReference.
Import Cash.

#[local] Existing Instance WebcashLegacyKeys.
#[local] Existing Instance WebcashAsset.asset.
#[local] Existing Instance WebcashAsset.splittable.
#[local] Existing Instance WebcashAsset.hook.
#[local] Existing Instance WebcashAsset.builder.
#[local] Existing Instance cash_record.

#[export] Instance cash_json : Serde (@Rec WebcashAsset.asset) := webcash_json.
#[export] Instance cash_record_json : RecordJsonLaws (A := WebcashAsset.asset) (HashRecord0 := cash_record) (H1 := cash_json) :=
  webcash_record_json.
#[export] Instance cash_shape : FieldShape (@Rec WebcashAsset.asset) := webcash_shape.

(** A coin [a] worth 300 on the ledger. *)
Definition coin_a : @Rec WebcashAsset.asset := coin "a" 300.
Definition ledger_a : ledger := <["token:a" := to_fields coin_a]> ∅.

(** ** FoundationDB *)

Module OnFdb.
#[local] Existing Instance FdbStore.

Definition d0 : fdb := <[token_bytes "token:a" := to_json coin_a]> ∅.

Lemma d0_models : fdb_models d0 ledger_a.
Proof.
  apply models_insert.
  - intros k. rewrite lookup_empty. apply lookup_empty.
  - exact (record_stored coin_a).
Qed.

Definition st0 : @fstate fdb_ref := (d0, []).

Lemma st0_models : fdb_models (fview st0) ledger_a.
Proof. assert (fview st0 = d0) as -> by reflexivity. exact d0_models. Qed.

Lemma fdb_replace_refines_witness :
  let res := fdb_exec_replace noon unscoped split st0 in
  fst res = Ok tt /\ exists l', fdb_models (fview (snd res)) l' /\ replace_op own_key noon unscoped split ledger_a = Ok l'.
Proof.
  set (res := fdb_exec_replace noon unscoped split st0).
  assert (res.1 = Ok tt) as E by (vm_compute; reflexivity). split; [exact E|].
  destruct (fdb_replace_refines noon unscoped split st0 ledger_a res.1 res.2 st0_models
    (surjective_pairing res)) as (l' & Hm & Hp & _).
  exists l'. split; [exact Hm|]. rewrite E in Hp. exact Hp.
Defined.

(** An output that exists already: unlike the script of the Redis store, the
    transaction leaves the input unspent. *)
Example clash_keeps_input :
  let '(r, st') := fdb_exec_replace noon unscoped clash st0 in
  r = Err ("FoundationDB error: Custom error: " +:+ debug_str "output token already exists") /\
  fst st' = d0 /\ fst (fdb_check_tokens unscoped ["a"] st') = Ok [("a", Some false)].
Proof. vm_compute. split_and!; reflexivity. Qed.

(** The store does not look at [maybe_committed]: a replace whose commit is
    not acknowledged is run again, meets its own effect, and is reported as a
    failure although it took place. *)
Example lost_commit_reported_failed :
  let '(r, st') := fdb_exec_replace noon unscoped split ((d0, [true]) : @fstate fdb_ref) in
  r = Err ("FoundationDB error: Custom error: " +:+ debug_str "input token already spent") /\
  fst (fdb_check_tokens unscoped ["a"; "b"; "c"] st') = Ok [("a", Some true); ("b", Some false); ("c", Some false)].
Proof. vm_compute. split; reflexivity. Qed.

Lemma fdb_insert_refines_witness :
  let res := fdb_insert_tokens [coin "x" 1; coin "y" 2] st0 in
  fst res = Ok tt /\ exists l', fdb_models (fview (snd res)) l' /\
    create_all (own_entry <$> [coin "x" 1; coin "y" 2]) ledger_a = Ok l'.
Proof.
  set (res := fdb_insert_tokens [coin "x" 1; coin "y" 2] st0).
  assert (res.1 = Ok tt) as E by (vm_compute; reflexivity). split; [exact E|].
  destruct (fdb_insert_refines [coin "x" 1; coin "y" 2] st0 ledger_a res.1 res.2 st0_models
    (surjective_pairing res)) as (l' & Hm & Hp).
  exists l'. split; [exact Hm|]. rewrite E in Hp. exact Hp.
Defined.

Lemma fdb_reads_exact_witness :
  let res := fdb_check_tokens unscoped ["a"; "z"] st0 in
  fst res = Ok [("a", Some false); ("z", None)] /\ fview (snd res) = fview st0.
Proof.
  set (res := fdb_check_tokens unscoped ["a"; "z"] st0).
  split; [vm_compute; reflexivity|].
  exact (proj1 (proj2 (fdb_reads_exact unscoped ["a"; "z"] st0 ledger_a st0_models)
    res.1 res.2 (surjective_pairing res))).
Defined.

(** ** Redis in front of FoundationDB *)

Definition redis_half : LedgerStore (@Rec WebcashAsset.asset) rdb := RedisStore (H := redis_ref).
Definition fdb_half : LedgerStore (@Rec WebcashAsset.asset) (@fstate fdb_ref) := FdbStore.
Definition both : RedisFdbState rdb (@fstate fdb_ref) :=
  mk_state (snd (redis_insert_tokens [coin_a] (∅ : @rstate redis_ref))) st0.

(** The contract of the durable half, at its own instance. *)
Definition half_contract : @LedgerContract _ _ _ _ (@fstate fdb_ref) fdb_half := fdb_contract.

Lemma composite_follows_durable_witness :
  let res := rf_batch_replace redis_half fdb_half noon unscoped [split] both in
  fst res = [ReplaceOk] /\ exists l', fdb_models (fview (durable (snd res))) l' /\
    batch_answers own_key noon unscoped [split] (fst res) ledger_a l'.
Proof.
  set (res := rf_batch_replace redis_half fdb_half noon unscoped [split] both).
  split; [vm_compute; reflexivity|].
  destruct (composite_follows_durable (FC := half_contract) redis_half fdb_half noon unscoped [split] both ledger_a
    st0_models res.1 res.2 (surjective_pairing res)) as (l' & Hm & Ha & _).
  exists l'. split; [exact Hm|exact Ha].
Defined.

(** Nothing takes the inputs of a replace out of the cache: [get_tokens] goes
    on answering the unspent record that [check_tokens] knows to be spent. *)
Example stale_read :
  let '(res, st) := rf_batch_replace redis_half fdb_half noon unscoped [split] both in
  res = [ReplaceOk] /\
  fst (rf_get_tokens redis_half fdb_half noon unscoped ["a"] st) = Ok [Some coin_a] /\
  w_spent coin_a = false /\
  fst (rf_check_tokens (Sr := rdb) fdb_half unscoped ["a"] st) = Ok [("a", Some true)].
Proof. vm_compute. split_and!; reflexivity. Qed.
End OnFdb.

(** ** DynamoDB *)

Module OnDynamo.
Definition T : DynamoTables := new_tables None.

Lemma audit_apart : audit_table T <> tokens_table T.
Proof. discriminate. Qed.
Lemma mining_apart : mining_table T <> tokens_table T.
Proof. discriminate. Qed.

Definition tbl0 : dtable := <["token:a" := item_for unscoped coin_a]> ∅.
Definition tables0 : dtables := <[tokens_table T := tbl0]> (<[mining_table T := ∅]> (<[audit_table T := ∅]> ∅)).
Definition up (D : dtables) : @dstate dynamo_ref := mk_dynamo D false 0.

Lemma tables0_models : dynamo_models T (dview (up tables0)) ledger_a.
Proof.
  exists tbl0. split; [reflexivity|]. intros k. unfold ledger_a, tbl0.
  destruct (decide (k = "token:a")) as [->|Hk].
  - rewrite !lookup_insert_eq. exists (item_for unscoped coin_a). split; [reflexivity|]. split.
    + exact (fields_item_typed "token:a" _ (record_shaped coin_a)).
    + exact (item_fields_item "token:a" _ (record_shaped coin_a)).
  - rewrite !lookup_insert_ne by done. rewrite lookup_empty. apply lookup_empty.
Qed.

(** A store with no past: the tables are as they always were. *)
Definition behind (lag : nat) (D : dtables) : @dstate dynamo_ref := dynamo_at D false 0 [] lag.

Lemma behind_lived n D l : dynamo_models T D l -> dynamo_lived T (behind n D) l.
Proof.
  intros Hm. split; [exact Hm|]. intros v [->|Hin]%elem_of_cons; [|by apply elem_of_nil in Hin].
  exists l. split; [by apply models_were|done].
Qed.

Lemma tables0_lived n : dynamo_lived T (behind n tables0) ledger_a.
Proof. exact (behind_lived n _ _ tables0_models). Qed.

(** A replace, then a health check that does not see it: the ledger has the
    token spent, the answer is that of before. *)
Lemma dynamo_refines_witness :
  let st := behind 1 tables0 in
  let res := dynamo_exec_replace T noon unscoped split st in
  fst res = Ok tt /\
  fst (dynamo_check_tokens T noon unscoped ["a"] (snd res)) = Ok [("a", Some false)] /\
  exists l', dynamo_lived T (snd res) l' /\ replace_op request_key noon unscoped split ledger_a = Ok l' /\
    spent_of l' (ledger_key unscoped "a") = Some true /\
    Forall2 (careful_check unscoped l') ["a"] [("a", Some false)].
Proof.
  set (st := behind 1 tables0).
  set (res := dynamo_exec_replace T noon unscoped split st).
  assert (res.1 = Ok tt) as E by (vm_compute; reflexivity).
  assert ((dynamo_check_tokens T noon unscoped ["a"] res.2).1 = Ok [("a", Some false)]) as Ec by (vm_compute; reflexivity).
  split; [exact E|]. split; [exact Ec|].
  destruct (proj1 (dynamo_refines T audit_apart mining_apart noon unscoped st ledger_a (tables0_lived 1))
    split res.1 res.2 (surjective_pairing res)) as (l' & Hm & Hp).
  rewrite E in Hp. exists l'. split; [exact Hm|]. split; [exact Hp|]. split.
  - vm_compute in Hp. apply (f_equal (fun r => match r with Ok l => spent_of l "token:a" | Err _ => None end)) in Hp.
    etransitivity; [symmetry; exact Hp|]. vm_compute. reflexivity.
  - destruct (proj2 (proj2 (dynamo_refines T audit_apart mining_apart noon unscoped res.2 l' Hm))
      ["a"] _ _ (surjective_pairing (dynamo_check_tokens T noon unscoped ["a"] res.2))) as (_ & _ & Hc).
    exact (Hc _ Ec).
Defined.

(** A hundred outputs. *)
Definition many : ReplaceOp (@Rec WebcashAsset.asset) := op "9" ["a"] (repeat (coin "b" 3) 100).

Lemma dynamo_replace_limit_witness :
  let res := dynamo_exec_replace T noon unscoped many (up tables0) in
  is_ok (fst res) = false /\ dview (snd res) = dview (up tables0).
Proof.
  set (res := dynamo_exec_replace T noon unscoped many (up tables0)).
  apply (dynamo_replace_limit T noon unscoped many (up tables0) res.1 res.2).
  - vm_compute. repeat constructor.
  - apply surjective_pairing.
Defined.

Lemma tables0_typed : tokens_items_typed T tables0.
Proof.
  intros tbl E. unfold tables0 in E. rewrite lookup_insert_eq in E. apply (inj Some) in E. subst tbl.
  apply table_typed_insert.
  - intros k it E. by rewrite lookup_empty in E.
  - exact (fields_item_typed "token:a" _ (record_shaped coin_a)).
Qed.

Lemma dynamo_items_typed_witness :
  let st' := snd (dynamo_batch_replace T noon unscoped [split] (up tables0)) in
  (tbl ← dview st' !! tokens_table T; it ← tbl !! "token:a"; it !! "spent") = Some (ABool true) /\
  tokens_items_typed T (dview st').
Proof.
  set (res := dynamo_batch_replace T noon unscoped [split] (up tables0)).
  split; [vm_compute; reflexivity|].
  refine (proj1 (proj2 (proj2 (proj2 (dynamo_items_typed T audit_apart mining_apart (up tables0) _))))
    noon unscoped [split] res.1 res.2 (surjective_pairing res)).
  exact tables0_typed.
Defined.

(** The first start against a database that is not up yet: two failed
    attempts, then the tables are made. *)
Lemma ensure_tables_exist_witness :
  let st := mk_dynamo ∅ false 2 : @dstate dynamo_ref in
  exists st', ensure_tables T st = Some (Ok tt, [400; 800], st') /\ is_Some (dview st' !! tokens_table T).
Proof.
  set (st := mk_dynamo ∅ false 2 : @dstate dynamo_ref).
  exists (mk_dynamo (<[audit_table T := ∅]> (<[mining_table T := ∅]> (<[tokens_table T := ∅]> ∅))) false 0).
  assert (ensure_tables T st = Some (Ok tt, [400; 800],
    mk_dynamo (<[audit_table T := ∅]> (<[mining_table T := ∅]> (<[tokens_table T := ∅]> ∅))) false 0)) as E
    by (vm_compute; reflexivity).
  split; [exact E|].
  exact (proj1 (proj2 (ensure_tables_exist T st (Ok tt) [400; 800] _ E) eq_refl)).
Defined.

Lemma hash_of_key_witness :
  rsplit_next ":token:" (@token_key NamespacedKeys "voucher" (scoped usd_t fp_a) "aa") = "aa" /\
  rsplit_next ":token:" (@token_key WebcashLegacyKeys "webcash" unscoped "aa") = "token:aa".
Proof.
  split.
  - exact (proj1 (hash_of_key "voucher" (scoped usd_t fp_a) "aa" eq_refl)).
  - exact (proj2 (hash_of_key "webcash" unscoped "aa" eq_refl)).
Defined.

(** The record a webcash server reads back has the wrong hash. *)
Example legacy_record_hash :
  match fst (dynamo_get_tokens T noon unscoped ["a"] (up tables0)) with
  | Ok [Some r] => record_hash r
  | _ => EmptyString
  end = "token:a".
Proof. vm_compute. reflexivity. Qed.

(** An insert is an unconditional put: inserting the record of a spent token
    makes it spendable again. *)
Example insert_revives_spent :
  let st1 := snd (dynamo_batch_burn T noon unscoped [("a", @Build_BurnRecord chrono_ref "1" "a" 300 noon)] (up tables0)) in
  let st2 := snd (dynamo_insert_tokens T [coin_a] st1) in
  fst (dynamo_check_tokens T noon unscoped ["a"] st1) = Ok [("a", Some true)] /\
  fst (dynamo_insert_tokens T [coin_a] st1) = Ok tt /\
  fst (dynamo_check_tokens T noon unscoped ["a"] st2) = Ok [("a", Some false)].
Proof. vm_compute. split_and!; reflexivity. Qed.

(** A busy DynamoDB processes one item of a batch: the insert is reported as
    done although the second token was not written, and a read answers that a
    stored token does not exist. *)
Example unprocessed_lost :
  let st := mk_dynamo tables0 true 0 : @dstate dynamo_ref in
  let '(r, st') := dynamo_insert_tokens T [coin "x" 1; coin "y" 2] st in
  r = Ok tt /\
  fst (dynamo_check_tokens T noon unscoped ["y"] st') = Ok [("y", None)] /\
  fst (dynamo_check_tokens T noon unscoped ["x"; "a"] st') = Ok [("x", Some false); ("a", None)] /\
  fst (dynamo_check_tokens T noon unscoped ["a"] st') = Ok [("a", Some false)].
Proof. vm_compute. split_and!; reflexivity. Qed.

(** No read asks DynamoDB for a consistent answer, so that a read may miss
    what the server just did: a token just replaced is reported unspent, and
    an output of that replace is reported unknown. *)
Example reads_lag_behind :
  let '(res, st) := dynamo_batch_replace T noon unscoped [split] (behind 1 tables0) in
  res = [ReplaceOk] /\
  fst (dynamo_check_tokens T noon unscoped ["a"; "b"] st) = Ok [("a", Some false); ("b", None)] /\
  fst (dynamo_check_tokens T noon unscoped ["a"; "b"] (dynamo_at (tabs st) false 0 (past st) 0 : @dstate dynamo_ref)) =
    Ok [("a", Some true); ("b", Some false)].
Proof. vm_compute. split_and!; reflexivity. Qed.

(** A second replace of the token is refused, and so is a request that names
    it twice. *)
Example dynamo_spends_once :
  let '(res, st') := dynamo_batch_replace T noon unscoped
    [op "1" ["a"; "a"] [coin "b" 600]; split; op "2" ["a"] [coin "d" 300]] (up tables0) in
  res = [ReplaceFailed "transact write: service error"; ReplaceOk; ReplaceFailed "transact write: service error"].
Proof. vm_compute. reflexivity. Qed.
End OnDynamo.

(** ** A webcash server over FoundationDB *)

Module Served.
Definition store : LedgerStore (@Rec WebcashAsset.asset) (@fstate fdb_ref) := FdbStore.
#[local] Existing Instance store.
#[local] Instance contract : LedgerContract (@fstate fdb_ref) := fdb_contract.
#[local] Instance inserts : InsertContract (@fstate fdb_ref) := fdb_inserts.

Definition in_record : @Rec WebcashAsset.asset := record_from_secret (now env_ref) cash_in Replaced.
Definition in_key : string := "token:" +:+ token_hash cash_in.
Definition d1 : fdb := <[token_bytes in_key := to_json in_record]> ∅.
Definition l1 : ledger := <[in_key := to_fields in_record]> ∅.
Definition start (acks : list bool) : ServerState (@fstate fdb_ref) := {| data := (d1, acks); nonces := default_nonces |}.
Definition plain_req : Request := request plain_body None.

Lemma d1_models : fdb_models d1 l1.
Proof.
  apply models_insert.
  - intros k. rewrite lookup_empty. apply lookup_empty.
  - exact (record_stored in_record).
Qed.

Lemma start_models acks : models (data (start acks)) l1.
Proof. exact d1_models. Qed.

Definition merge_req : Request := request merge_body None.
Definition server : Env -> Request -> handler (@fstate fdb_ref) Response := fun env => route testnet_default env.

Lemma server_is : is_server testnet_default None server.
Proof. apply plain_server. Qed.

Lemma tokens_live_once_witness :
  let st := serve_all server [(env_ref, plain_req); (env_ref, plain_req)] (start [false; true]) in
  fst (fdb_check_tokens unscoped [token_hash cash_in; token_hash cash_out_1] (data st)) =
    Ok [(token_hash cash_in, Some true); (token_hash cash_out_1, Some false)] /\
  exists l', models (data st) l' /\ evolves l1 l'.
Proof.
  set (st := serve_all server [(env_ref, plain_req); (env_ref, plain_req)] (start [false; true])).
  split; [vm_compute; reflexivity|].
  exact (tokens_live_once testnet_default None server _ (start [false; true]) l1 server_is (start_models _)).
Defined.

Lemma plain_spends : spends plain_req [cash_in].
Proof.
  exists plain_body. eexists. split; [reflexivity|]. split; [reflexivity|].
  constructor; [vm_compute; reflexivity|constructor].
Qed.

Lemma merge_spends : spends merge_req [cash_out_1; cash_out_2].
Proof.
  exists merge_body. eexists. split; [reflexivity|]. split; [reflexivity|].
  constructor; [vm_compute; reflexivity|constructor; [vm_compute; reflexivity|constructor]].
Qed.


(** The acknowledgement is lost: the client gets an error, the ledger made the
    replace, and its sum is what it was. *)
Lemma replace_conserves_always_witness :
  let res := replace env_ref plain_req (start [false; true]) in
  let hs := token_hash <$> [cash_in; cash_out_1; cash_out_2] in
  is_ok (fst res) = false /\
  fst (fdb_check_tokens unscoped [token_hash cash_in] (data (snd res))) = Ok [(token_hash cash_in, Some true)] /\
  ledger_supply l1 unscoped hs = 300000000 /\
  exists l', models (data (snd res)) l' /\ ledger_supply l' unscoped hs = ledger_supply l1 unscoped hs.
Proof.
  set (res := replace env_ref plain_req (start [false; true])).
  intros hs. split; [vm_compute; reflexivity|]. split; [vm_compute; reflexivity|]. split; [vm_compute; reflexivity|].
  destruct (replace_conserves_always env_ref plain_req (start [false; true]) res.1 res.2 l1 (surjective_pairing res)
    (start_models _)) as (l' & Hm & Hc).
  exists l'. split; [exact Hm|]. destruct Hc as [Hc|(ns & ins & outs & op & Hck & Hn & Hs)]; [rewrite Hc; reflexivity|].
  destruct Hck as [(body & parsed & Hb & Hp & Hi & Ho & _) _ Hns _].
  injection Hb as <-. injection Hp as <-.
  pose proof (parsed_as_inj _ _ _ Hi CashServer.plain_inputs) as ->.
  pose proof (parsed_as_inj _ _ _ Ho CashServer.plain_outputs) as ->.
  specialize (Hns cash_in ltac:(left)) as <-. apply Hs.
  - intros s Hin%list_elem_of_singleton. subst s. vm_compute. reflexivity.
  - apply (bool_decide_unpack _). vm_compute. reflexivity.
  - intros s Hin. apply (list_elem_of_fmap_2 token_hash) in Hin. exact Hin.
Defined.
End Served.
