(* ===== verification/RefereeState.v ===== *)
(** * The referee: data, phases and pure transitions

    [referee] mediates an atomic swap of webcash against an ARK vtxo.  This
    file models [referee/src/error.rs], [sign.rs] (tags and canonical
    messages), [state/types.rs], [state/phases.rs], [state/transitions.rs] and
    [transaction.rs].  The typestate of the source is kept: [SwapState] is
    indexed by the phase and a transition has the phases in its type. *)
From S2P Require Import Prelude External.

(** ** Errors ([error.rs]) *)

Inductive RefereeError :=
  | BadRequest (m : string)
  | ZkpRejected (m : string)
  | Musig2 (m : string)
  | InvalidTransition (m : string)
  | Store (m : string)
  | External (m : string)
  | Push (m : string)
  | Crypto (m : string)
  | Internal (m : string).

Notation res := (result RefereeError).

(** The status code of [ApiError] ([api/router.rs]). *)
Definition http_status (e : RefereeError) : Z :=
  match e with
  | BadRequest _ => 400
  | ZkpRejected _ | Musig2 _ => 422
  | InvalidTransition _ => 409
  | Store _ | Crypto _ | Internal _ => 500
  | External _ | Push _ => 502
  end.

(** ** Phases ([state/phases.rs]) and signature tags ([sign.rs]) *)

Inductive Phase :=
  | SwapInit | ZkpsVerified | PreChecked | InsertPushed | Settled
  | Aborted | Invalidated | Refunded | Canceled.

#[export] Instance Phase_eq_dec : EqDecision Phase.
Proof. solve_decision. Defined.

Definition NAME (P : Phase) : string :=
  match P with
  | SwapInit => "init"
  | ZkpsVerified => "zkps-verified"
  | PreChecked => "pre-checked"
  | InsertPushed => "insert-pushed"
  | Settled => "settled"
  | Aborted => "aborted"
  | Invalidated => "invalidated"
  | Refunded => "refunded"
  | Canceled => "canceled"
  end.

(** [sign::Tag]; the constructors carry the prefix [T]. *)
Inductive Tag :=
  | TInitiateAck | TZkpsVerified | TPreChecked | TInsertPushed | TPostChecked | TSettled
  | TAborted | TInvalidated | TRefunded | TCanceled | TAuditTip.

Definition tag_str (t : Tag) : string :=
  match t with
  | TInitiateAck => "initiate-ack"
  | TZkpsVerified => "zkps-verified"
  | TPreChecked => "pre-checked"
  | TInsertPushed => "insert-pushed"
  | TPostChecked => "post-checked"
  | TSettled => "settled"
  | TAborted => "aborted"
  | TInvalidated => "invalidated"
  | TRefunded => "refunded"
  | TCanceled => "canceled"
  | TAuditTip => "audit-tip"
  end.

Definition tag_for_phase (name : string) : Tag :=
  if (name =? "init")%string then TInitiateAck
  else if (name =? "zkps-verified")%string then TZkpsVerified
  else if (name =? "pre-checked")%string then TPreChecked
  else if (name =? "insert-pushed")%string then TInsertPushed
  else if (name =? "settled")%string then TSettled
  else if (name =? "aborted")%string then TAborted
  else if (name =? "invalidated")%string then TInvalidated
  else if (name =? "refunded")%string then TRefunded
  else if (name =? "canceled")%string then TCanceled
  else TAuditTip.

(** [sk.sign] of ed25519-dalek: the 64 signature bytes. *)
Class Ed25519Signer := {
  SigningKey : Type;
  sk_from_bytes : string -> SigningKey;
  vk_as_bytes : SigningKey -> string;
  ed_sign : SigningKey -> string -> string;
}.

Section Sign.
Context `{Hashing, Ed25519, Ed25519Signer}.

Definition canonical_message (tag : Tag) (body : string) : string :=
  "referee:v1:" +:+ tag_str tag +:+ ":" +:+ sha256_hex body.

(** [Identity::sign]. *)
Definition identity_sign (sk : SigningKey) (tag : Tag) (body : string) : string :=
  hex_encode (ed_sign sk (canonical_message tag body)).

Definition party_cancel_message (swap_id by_pgp_fp reason : string) : string :=
  "webycash-referee/cancel-swap-v1:" +:+ swap_id +:+ ":" +:+ by_pgp_fp +:+ ":" +:+ sha256_hex reason.

(** The two decoding steps shared by the verifiers: hex, then a fixed length. *)
Definition hex_array (what hexwhat : string) (n : nat) (s : string) : res string :=
  bytes ← map_err (fun e => Crypto (hexwhat +:+ " hex: " +:+ e)) (hex_decode s);
  if (String.length bytes =? n)%nat then Ok bytes else Err (Crypto (what +:+ " bytes")).

(** [Identity::verify_party_signature].  The dependency's text for a signature
    that does not verify is ["signature error"]. *)
Definition verify_party_signature (cancel_pubkey_hex body sig_hex : string) : res unit :=
  pk_arr ← hex_array "cancel_pubkey must be 32" "cancel_pubkey" 32 cancel_pubkey_hex;
  vk ← map_err (fun e => Crypto ("cancel_pubkey: " +:+ e)) (vk_from_bytes pk_arr);
  sig_arr ← hex_array "sig must be 64" "sig" 64 sig_hex;
  if ed_verify vk body sig_arr then Ok tt
  else Err (Crypto "cancel sig verify: signature error").

(** [Identity::verify]. *)
Definition identity_verify (pubkey : string) (tag : Tag) (body sig_hex : string) : res unit :=
  vk ← map_err (fun e => Crypto ("pubkey: " +:+ e)) (vk_from_bytes pubkey);
  sig_arr ← hex_array "sig must be 64" "sig" 64 sig_hex;
  if ed_verify vk (canonical_message tag body) sig_arr then Ok tt
  else Err (Crypto "sig verify: signature error").
End Sign.

(** ** Payloads ([state/types.rs]) *)

(** A ciphertext, tagged by what its cleartext would be. *)
Record PgpEncrypted (T : Type) := mk_pgp { bytes : string }.
Arguments mk_pgp {T} bytes.
Arguments bytes {T} _.
Inductive WebcashSecret := webcash_secret_marker.
Inductive AliceTxSettlePartialSig := alice_sig_marker.

Record WebcashPublicHash := mk_hash { hash_str : string }.
Record ArkOutpointHash := mk_outpoint { outpoint_str : string }.
Record PgpFingerprint := mk_fp { fp_hex : string }.
Record Secp256k1Pubkey := mk_secp { secp_hex : string }.
Record SwapId := mk_id { id_str : string }.

#[export] Instance WebcashPublicHash_eq_dec : EqDecision WebcashPublicHash.
Proof. solve_decision. Defined.
#[export] Instance PgpFingerprint_eq_dec : EqDecision PgpFingerprint.
Proof. solve_decision. Defined.
#[export] Instance SwapId_eq_dec : EqDecision SwapId.
Proof. solve_decision. Defined.

Record Parties := {
  bob_pgp_fp : PgpFingerprint;
  bob_pgp_pubkey_hex : string;
  alice_pgp_fp : PgpFingerprint;
  alice_pgp_pubkey_hex : string;
  alice_musig2_pubkey : Secp256k1Pubkey;
  bob_cancel_pubkey_hex : string;
  alice_cancel_pubkey_hex : string;
}.

Record Groth16Proof := { proof : string; public_inputs : list string }.

Record BobPayload := {
  h_b : WebcashPublicHash;
  enc_secret_for_alice : PgpEncrypted WebcashSecret;
  zkp_payload : Groth16Proof;
}.

Record AlicePayload := {
  vtxo : ArkOutpointHash;
  tx_settle_hash : string;
  tx_refund_hash : string;
  enc_partial_sig_for_bob : PgpEncrypted AliceTxSettlePartialSig;
  zkp_signature : Groth16Proof;
}.

Record AliceMusig2Nonces := { settle_nonce_pub : string; refund_nonce_pub : string }.

Record Musig2Sessions := {
  settle_pub_nonce : string;
  refund_pub_nonce : string;
  secret_nonce_handle : SwapId;
}.

(** [SwapState<P>]; the phase is a phantom index. *)
Record SwapState (P : Phase) := mk_state {
  id : SwapId;
  parties : Parties;
  bob : BobPayload;
  alice : AlicePayload;
  alice_nonces : AliceMusig2Nonces;
  referee_sessions : Musig2Sessions;
  phase_entered_at : Z;
  insert_push_attempts : Z;
  audit_tip_hex : string;
}.
Arguments mk_state {P}.
Arguments id {P} _.
Arguments parties {P} _.
Arguments bob {P} _.
Arguments alice {P} _.
Arguments alice_nonces {P} _.
Arguments referee_sessions {P} _.
Arguments phase_entered_at {P} _.
Arguments insert_push_attempts {P} _.
Arguments audit_tip_hex {P} _.

(** ** Transitions ([state/transitions.rs]) *)

Definition initiate (id : SwapId) (parties : Parties) (bob : BobPayload) (alice : AlicePayload)
    (alice_nonces : AliceMusig2Nonces) (referee_sessions : Musig2Sessions)
    (now_unix : Z) (audit_tip_hex : string) : SwapState SwapInit :=
  mk_state id parties bob alice alice_nonces referee_sessions now_unix 0 audit_tip_hex.

Definition advance {A} (B : Phase) (s : SwapState A) (now_unix : Z) (new_audit_tip : string)
  : SwapState B :=
  mk_state (id s) (parties s) (bob s) (alice s) (alice_nonces s) (referee_sessions s)
    now_unix (insert_push_attempts s) new_audit_tip.

Definition verify_zkps (s : SwapState SwapInit) (outcomes_ok : bool) (now_unix : Z)
    (new_audit_tip : string) : res (SwapState ZkpsVerified) :=
  if negb outcomes_ok then Err (ZkpRejected "one of the ZKPs failed verification")
  else Ok (advance ZkpsVerified s now_unix new_audit_tip).

Definition pre_check (s : SwapState ZkpsVerified) (h_b_unspent : bool) (now_unix : Z)
    (new_audit_tip : string) : res (SwapState PreChecked) :=
  if negb h_b_unspent then
    Err (InvalidTransition "pre-check: H_B already spent — refusing to start swap")
  else Ok (advance PreChecked s now_unix new_audit_tip).

Definition insert_pushed_from_pre (s : SwapState PreChecked) (now_unix : Z)
    (new_audit_tip : string) : SwapState InsertPushed :=
  let next := advance InsertPushed s now_unix new_audit_tip in
  mk_state (id next) (parties next) (bob next) (alice next) (alice_nonces next)
    (referee_sessions next) (phase_entered_at next) 1 (audit_tip_hex next).

(** [u8::checked_add]. *)
Definition u8_checked_add (a b : Z) : option Z := if a + b <=? u8_max then Some (a + b) else None.

Definition insert_pushed_retry (s : SwapState InsertPushed) (now_unix : Z)
    (new_audit_tip : string) : res (SwapState InsertPushed) :=
  n ← ok_or (u8_checked_add (insert_push_attempts s) 1)
        (InvalidTransition "insert_push_attempts overflow");
  Ok (mk_state (id s) (parties s) (bob s) (alice s) (alice_nonces s) (referee_sessions s)
        now_unix n new_audit_tip).

Inductive PostCheckOutcome := PostSettled | PostStillUnspent.

Definition settle (s : SwapState InsertPushed) (outcome : PostCheckOutcome) (now_unix : Z)
    (new_audit_tip : string) : res (SwapState Settled) :=
  match outcome with
  | PostSettled => Ok (advance Settled s now_unix new_audit_tip)
  | PostStillUnspent => Err (InvalidTransition "settle: post-check still shows H_B unspent")
  end.

Definition abort (s : SwapState InsertPushed) (retries_exhausted : bool) (now_unix : Z)
    (new_audit_tip : string) : res (SwapState Aborted) :=
  if negb retries_exhausted then
    Err (InvalidTransition "abort: more retries are still available — must retry first")
  else Ok (advance Aborted s now_unix new_audit_tip).

Definition invalidated (s : SwapState Aborted) (bob_acked : bool) (now_unix : Z)
    (new_audit_tip : string) : res (SwapState Invalidated) :=
  if negb bob_acked then
    Err (InvalidTransition "invalidated: Bob's wallet did not ack the invalidate_hook")
  else Ok (advance Invalidated s now_unix new_audit_tip).

Definition refunded (s : SwapState Invalidated) (now_unix : Z) (new_audit_tip : string)
  : SwapState Refunded := advance Refunded s now_unix new_audit_tip.

(** ** JSON of a state

    [serde_json::Value] and the derived (de)serializers.  [json] is the literal
    a [json!] call builds; [Value] is the stored document, read back through
    [from_value] and by key. *)

Inductive json :=
  | JStr (s : string) | JBool (b : bool) | JNum (n : Z) | JObj (fields : list (string * json)).

Class SwapJson := {
  Value : Type;
  VNull : Value;
  to_value : forall {P}, SwapState P -> Value;
  from_value : forall (P : Phase), Value -> result string (SwapState P);
  parties_from_value : Value -> result string Parties;
  value_get : Value -> string -> option Value;
  value_as_str : Value -> option string;
  object_insert : Value -> string -> json -> option Value;
  json_to_vec : json -> result string string;
}.

(** [to_value] gives an object; an insert into an object sets one key. *)
Class SwapJsonLaws `{SwapJson} : Prop := {
  from_to_value : forall P (s : SwapState P), from_value P (to_value s) = Ok s;
  get_parties : forall P (s : SwapState P),
    parties_from_value (default VNull (value_get (to_value s) "parties")) = Ok (parties s);
  get_audit_tip : forall P (s : SwapState P),
    value_get (to_value s) "audit_tip_hex" ≫= value_as_str = Some (audit_tip_hex s);
  insert_state : forall P (s : SwapState P) k j, is_Some (object_insert (to_value s) k j);
  insert_again : forall v k j v' k' j', object_insert v k j = Some v' -> is_Some (object_insert v' k' j');
  get_inserted : forall v k t v', object_insert v k (JStr t) = Some v' -> value_get v' k ≫= value_as_str = Some t;
  get_other : forall v k j v' k', object_insert v k j = Some v' -> k' <> k -> value_get v' k' = value_get v k';
}.

(** ** Transactions ([transaction.rs]) *)

(** [TransactionStatus]; the constructors carry the prefix [St]. *)
Inductive TransactionStatus := StPending | StSettled | StRefunded | StCanceled.

Definition for_phase (phase : string) : TransactionStatus :=
  if (phase =? "settled")%string then StSettled
  else if (phase =? "refunded")%string then StRefunded
  else if (phase =? "canceled")%string then StCanceled
  else StPending.

Definition is_terminal (s : TransactionStatus) : bool :=
  match s with StPending => false | _ => true end.

Definition status_str (s : TransactionStatus) : string :=
  match s with
  | StPending => "pending" | StSettled => "settled"
  | StRefunded => "refunded" | StCanceled => "canceled"
  end.

(** [PartyRole]. *)
Inductive PartyRole := RoleBob | RoleAlice | RoleBoth.

Record AnyPhaseSwapState `{SwapJson} := { blob_phase : string; inner : Value }.

Section Transactions.
Context `{SwapJson}.

Record Transaction := mk_tx {
  t_swap_id : SwapId;
  t_status : TransactionStatus;
  t_phase : string;
  t_terminal : bool;
  t_bob_pgp_fp : PgpFingerprint;
  t_alice_pgp_fp : PgpFingerprint;
  t_webcash_public_hash : WebcashPublicHash;
  t_vtxo_outpoint_hash : ArkOutpointHash;
  t_tx_settle_hash : string;
  t_tx_refund_hash : string;
  t_created_at_unix : Z;
  t_updated_at_unix : Z;
  t_insert_push_attempts : Z;
  t_cancel_reason : option string;
  t_canceled_by_pgp_fp : option PgpFingerprint;
  t_htlc_refund_contract_id : option string;
  t_state_blob : AnyPhaseSwapState;
}.

Definition derive_from {P} (s : SwapState P) (phase : string) (now_unix : Z)
    (cancel_reason : option string) (canceled_by_pgp_fp : option PgpFingerprint)
    (htlc_refund_contract_id : option string) : Transaction :=
  let inner := to_value s in
  let status := for_phase phase in
  {| t_swap_id := id s;
     t_status := status;
     t_phase := phase;
     t_terminal := is_terminal status;
     t_bob_pgp_fp := bob_pgp_fp (parties s);
     t_alice_pgp_fp := alice_pgp_fp (parties s);
     t_webcash_public_hash := h_b (bob s);
     t_vtxo_outpoint_hash := vtxo (alice s);
     t_tx_settle_hash := tx_settle_hash (alice s);
     t_tx_refund_hash := tx_refund_hash (alice s);
     t_created_at_unix := phase_entered_at s;
     t_updated_at_unix := now_unix;
     t_insert_push_attempts := insert_push_attempts s;
     t_cancel_reason := cancel_reason;
     t_canceled_by_pgp_fp := canceled_by_pgp_fp;
     t_htlc_refund_contract_id := htlc_refund_contract_id;
     t_state_blob := {| blob_phase := phase; inner := inner |} |}.

Record TransactionSummary := {
  m_swap_id : SwapId;
  m_status : TransactionStatus;
  m_phase : string;
  m_terminal : bool;
  m_bob_pgp_fp : PgpFingerprint;
  m_alice_pgp_fp : PgpFingerprint;
  m_role : PartyRole;
  m_created_at_unix : Z;
  m_updated_at_unix : Z;
}.

Definition summary (tx : Transaction) (role : PartyRole) : TransactionSummary := {|
  m_swap_id := t_swap_id tx;
  m_status := t_status tx;
  m_phase := t_phase tx;
  m_terminal := t_terminal tx;
  m_bob_pgp_fp := t_bob_pgp_fp tx;
  m_alice_pgp_fp := t_alice_pgp_fp tx;
  m_role := role;
  m_created_at_unix := t_created_at_unix tx;
  m_updated_at_unix := t_updated_at_unix tx;
|}.
End Transactions.

(** The tag is a function of the phase, and the tags of two phases differ:
    a signature for one phase is over another message than for the other. *)
Lemma tag_for_phase_inj P Q : tag_for_phase (NAME P) = tag_for_phase (NAME Q) -> P = Q.
Proof. by destruct P, Q. Qed.

Lemma NAME_inj P Q : NAME P = NAME Q -> P = Q.
Proof. by destruct P, Q. Qed.
