(* ===== verification/RefereeWorld.v ===== *)
(** * The referee's collaborators

    The orchestrator awaits one collaborator call after another.  [Req] lists
    the calls, indexed by their answer; a handler is a program [M A] that makes
    calls and ends in a value or a [RefereeError].  [handle] answers a call
    from a state that holds the in-memory backends of the repository
    ([store/mod.rs], [audit/mod.rs]), the live sessions of [RealSigner]
    ([musig2.rs]) and an external world (clock, randomness, verifier, webcash
    client, RGB client, push transport).  [run] runs a program to its end; a
    [sys_step] lets one of several running programs make its next call, which
    is how concurrent invocations interleave. *)
From S2P Require Import Prelude Decimal External RefereeState.

(** ** Collaborator data *)

Inductive Session := SettleSession | RefundSession.
#[export] Instance Session_eq_dec : EqDecision Session.
Proof. solve_decision. Defined.
#[export] Instance Session_countable : Countable Session.
Proof.
  refine (inj_countable' (fun s => match s with SettleSession => true | RefundSession => false end)
    (fun b : bool => if b then SettleSession else RefundSession) _). by intros [].
Defined.

Definition session_debug (s : Session) : string :=
  match s with SettleSession => "Settle" | RefundSession => "Refund" end.

Record PubNonce := mk_pub_nonce { nonce_hex : string }.
Record PartialSig := mk_partial { partial_hex : string }.

Inductive Circuit := CircuitBobPayload | CircuitAliceSignature.

Inductive SpentStatus := Unspent | Spent | Unknown.
#[export] Instance SpentStatus_eq_dec : EqDecision SpentStatus.
Proof. solve_decision. Defined.

Record HtlcRefundParams := {
  timeout_unix : Z;
  refund_unlock_hash_hex : string;
  hp_bob_pgp_fp : string;
  hp_alice_pgp_fp : string;
}.

Inductive HtlcCloseKind := CloseSettle | CloseRefund | CloseCancel.

(** [push.rs]. *)
Inductive PushKind := Insert | Invalidate | ReleaseSettle | ReleaseRefund.

Record PushRequest := {
  push_swap_id : SwapId;
  recipient_pgp_fp : PgpFingerprint;
  kind : PushKind;
  payload_b64 : string;
  callback_url : string;
}.

(** [AuditEntry] ([audit/mod.rs]). *)
Record AuditEntry := mk_entry {
  e_swap_id : SwapId;
  e_phase : string;
  e_ts_unix : Z;
  prior_tip : string;
  phase_payload : json;
  signature : string;
}.

(** ** Interfaces to the libraries *)

(** [serde_json::to_vec] of an entry; it cannot fail for this type. *)
Class EntryCodec := { entry_to_vec : AuditEntry -> string }.

(** The [musig2] and [secp256k1] crates. *)
Class Musig2Crate := {
  PublicKey : Type;
  SecretKey : Type;
  SecNonce : Type;
  MusigPubNonce : Type;
  KeyAggContext : Type;
  AggNonce : Type;
  PartialSignature : Type;
  pk_from_slice : string -> result string PublicKey;
  sk_from_slice : string -> result string SecretKey;
  sk_public_key : SecretKey -> PublicKey;
  pk_serialize : PublicKey -> string;
  sec_nonce_build : string -> PublicKey -> SecNonce;
  public_nonce : SecNonce -> MusigPubNonce;
  nonce_serialize : MusigPubNonce -> string;
  nonce_from_bytes : string -> result string MusigPubNonce;
  key_agg_new : list PublicKey -> result string KeyAggContext;
  agg_nonce_sum : list MusigPubNonce -> AggNonce;
  crate_sign_partial : KeyAggContext -> SecretKey -> SecNonce -> AggNonce -> string
    -> result string PartialSignature;
  partial_serialize : PartialSignature -> string;
}.

(** Everything outside the process: each call may change the world. *)
Class World (W : Type) := {
  w_now : W -> Z * W;
  w_uuid : W -> string * W;
  w_seed : W -> string * W;
  w_verify : Circuit -> Groth16Proof -> W -> res bool * W;
  w_check : WebcashPublicHash -> W -> res SpentStatus * W;
  w_mint_swap_record : string -> json -> W -> res string * W;
  w_mint_htlc_refund : string -> HtlcRefundParams -> W -> res (option string) * W;
  w_close_htlc_refund : string -> string -> HtlcCloseKind -> W -> res unit * W;
  w_dispatch : PushRequest -> W -> res unit * W;
  w_fail_upsert : W -> option string * W;
}.

(** ** Calls and programs *)

Section Programs.
Context `{SwapJson}.

Inductive Req : Type -> Type :=
  | Now : Req Z
  | FreshId : Req SwapId
  | BeginSession (id : SwapId) (s : Session) : Req (res PubNonce)
  | PartialSign (id : SwapId) (s : Session) (tx_hash : string) (alice_pubshare : Secp256k1Pubkey)
      (alice_pub_nonce : PubNonce) : Req (res PartialSig)
  | DiscardSession (id : SwapId) (s : Session) : Req (res unit)
  | AuditAppend (entry : AuditEntry) : Req (res string)
  | StoreGet (id : SwapId) : Req (res (option Transaction))
  | StoreUpsert (tx : Transaction) : Req (res unit)
  | Verify (c : Circuit) (p : Groth16Proof) : Req (res bool)
  | WebcashCheck (h : WebcashPublicHash) : Req (res SpentStatus)
  | MintSwapRecord (swap_id : string) (payload : json) : Req (res string)
  | MintHtlcRefund (swap_id : string) (params : HtlcRefundParams) : Req (res (option string))
  | CloseHtlcRefund (swap_id contract_id : string) (k : HtlcCloseKind) : Req (res unit)
  | Dispatch (p : PushRequest) : Req (res unit)
  | AuditEntriesFor (id : SwapId) : Req (res (list AuditEntry))
  | StoreListByParty (fp : PgpFingerprint) : Req (res (list TransactionSummary)).

Inductive prog (A : Type) : Type :=
  | Ret (a : A)
  | Call {X} (r : Req X) (k : X -> prog A).
End Programs.
Arguments Ret {_ A} a.
Arguments Call {_ A X} r k.

Fixpoint pbind `{SwapJson} {A B} (p : prog A) (f : A -> prog B) : prog B :=
  match p with
  | Ret a => f a
  | Call r k => Call r (fun x => pbind (k x) f)
  end.

(** [async fn .. -> Result<A>]; the bind is [.await?]. *)
Definition M `{SwapJson} (A : Type) : Type := prog (res A).
#[export] Instance M_ret `{SwapJson} : MRet M := fun A a => Ret (Ok a).
#[export] Instance M_bind `{SwapJson} : MBind M := fun A B f m =>
  pbind m (fun r => match r with Ok a => f a | Err e => Ret (Err e) end).

(** A call whose answer is a [Result], one whose answer is not, a value
    of type [Result] followed by [?], and [.await] without [?]. *)
Definition call `{SwapJson} {A} (r : Req (res A)) : M A := Call r Ret.
Definition ask `{SwapJson} {A} (r : Req A) : M A := Call r (fun a => Ret (Ok a)).
Definition lift `{SwapJson} {A} (x : res A) : M A := Ret x.
Definition attempt `{SwapJson} {A} (m : M A) : M (res A) := pbind m (fun r => Ret (Ok r)).

(** ** The audit log ([audit/mod.rs]) *)

Section Audit.
Context `{Hashing, Ed25519, Ed25519Signer, EntryCodec}.

Definition canonical_body (e : AuditEntry) : string :=
  entry_to_vec (mk_entry (e_swap_id e) (e_phase e) (e_ts_unix e) (prior_tip e)
                  (phase_payload e) "").

Definition tip_hash (e : AuditEntry) : string := sha256_hex (canonical_body e).

(** The entry as [append] pushes it. *)
Definition sign_entry (identity : SigningKey) (e : AuditEntry) : AuditEntry :=
  mk_entry (e_swap_id e) (e_phase e) (e_ts_unix e) (prior_tip e) (phase_payload e)
    (identity_sign identity (tag_for_phase (e_phase e)) (canonical_body e)).

(** [InMemoryAuditLog], oldest entry first. *)
Definition audit_append (identity : SigningKey) (log : list AuditEntry) (e : AuditEntry)
  : string * list AuditEntry :=
  let e' := sign_entry identity e in (tip_hash e', log ++ [e']).

Definition entries_for (log : list AuditEntry) (swap_id : SwapId) : list AuditEntry :=
  filter (fun e => e_swap_id e = swap_id) log.

Definition tip_for (log : list AuditEntry) (swap_id : SwapId) : string :=
  match List.find (fun e => bool_decide (e_swap_id e = swap_id)) (rev log) with
  | Some e => tip_hash e
  | None => ""
  end.
End Audit.

(** ** The store ([store/mod.rs], [InMemoryStore]) *)

Section StoreModel.
Context `{SwapJson}.

(** An index maps a fingerprint to a [BTreeMap] with keys
    [(-created_at, swap_id)]: a set that is read in key order. *)
Record InMemState := {
  rows : gmap string Transaction;
  by_bob : gmap string (gset (Z * string));
  by_alice : gmap string (gset (Z * string));
}.

Definition empty_store : InMemState := {| rows := ∅; by_bob := ∅; by_alice := ∅ |}.

(** [idx.entry(fp).or_default().insert(key, ())]. *)
Definition index_insert (fp : string) (k : Z * string) (idx : gmap string (gset (Z * string)))
  : gmap string (gset (Z * string)) := <[fp := {[k]} ∪ default ∅ (idx !! fp)]> idx.

Definition upsert (w : InMemState) (tx : Transaction) : InMemState :=
  let key := (- t_created_at_unix tx, id_str (t_swap_id tx)) in
  match rows w !! id_str (t_swap_id tx) with
  | None =>
      {| rows := <[id_str (t_swap_id tx) := tx]> (rows w);
         by_bob := index_insert (fp_hex (t_bob_pgp_fp tx)) key (by_bob w);
         by_alice := index_insert (fp_hex (t_alice_pgp_fp tx)) key (by_alice w) |}
  | Some _ =>
      {| rows := <[id_str (t_swap_id tx) := tx]> (rows w);
         by_bob := by_bob w; by_alice := by_alice w |}
  end.

Definition get (w : InMemState) (id : SwapId) : option Transaction := rows w !! id_str id.

(** Key order of the [BTreeMap]. *)
Definition key_leb (a b : Z * string) : bool :=
  (a.1 <? b.1) || ((a.1 =? b.1) && String.leb a.2 b.2).

(** [sort_by] is stable, as insertion sort is. *)
Fixpoint insert_by {A} (le : A -> A -> bool) (x : A) (l : list A) : list A :=
  match l with
  | [] => [x]
  | y :: l' => if le x y then x :: l else y :: insert_by le x l'
  end.
Definition stable_sort {A} (le : A -> A -> bool) (l : list A) : list A :=
  foldr (insert_by le) [] l.

Definition index_iter (idx : gmap string (gset (Z * string))) (fp : string) : list (Z * string) :=
  stable_sort key_leb (elements (default ∅ (idx !! fp))).

Definition MAX_LISTED : nat := Z.to_nat 1000.

Definition list_by_party (r : InMemState) (fp : PgpFingerprint) : list TransactionSummary :=
  let bob_side := omap (fun k : Z * string =>
    tx ← rows r !! k.2;
    Some (summary tx (if decide (t_alice_pgp_fp tx = fp) then RoleBoth else RoleBob)))
    (take MAX_LISTED (index_iter (by_bob r) (fp_hex fp))) in
  let alice_side := omap (fun k : Z * string =>
    tx ← rows r !! k.2;
    if decide (t_bob_pgp_fp tx = fp) then None else Some (summary tx RoleAlice))
    (take MAX_LISTED (index_iter (by_alice r) (fp_hex fp))) in
  take MAX_LISTED
    (stable_sort (fun a b => m_created_at_unix b <=? m_created_at_unix a) (bob_side ++ alice_side)).
End StoreModel.

(** ** The signer ([musig2.rs], [RealSigner]) *)

Section Signer.
Context `{Hashing, Musig2Crate}.

Record LiveSession := { sec_nonce : SecNonce; pub_nonce : MusigPubNonce }.

Record RealSigner := { sk : SecretKey; pk : PublicKey }.

Notation Sessions := (gmap (string * Session) LiveSession).

Definition begin_session (g : RealSigner) (seed : string) (sessions : Sessions)
    (id : SwapId) (s : Session) : res PubNonce * Sessions :=
  match sessions !! (id_str id, s) with
  | Some _ => (Err (Musig2 ("session already begun: " +:+ id_str id +:+ " / " +:+ session_debug s)),
               sessions)
  | None =>
      let sn := sec_nonce_build seed (pk g) in
      let pn := public_nonce sn in
      (Ok (mk_pub_nonce (hex_encode (nonce_serialize pn))),
       <[(id_str id, s) := {| sec_nonce := sn; pub_nonce := pn |}]> sessions)
  end.

Definition parse_alice_pubkey (p : Secp256k1Pubkey) : res PublicKey :=
  bytes ← map_err (fun e => Musig2 ("alice pubkey hex: " +:+ e)) (hex_decode (secp_hex p));
  map_err (fun e => Musig2 ("alice pubkey: " +:+ e)) (pk_from_slice bytes).

Definition parse_alice_pub_nonce (n : PubNonce) : res MusigPubNonce :=
  bytes ← map_err (fun e => Musig2 ("alice nonce hex: " +:+ e)) (hex_decode (nonce_hex n));
  map_err (fun e => Musig2 ("alice nonce: " +:+ e)) (nonce_from_bytes bytes).

(** The session is removed before anything else can fail. *)
Definition partial_sign (g : RealSigner) (sessions : Sessions) (id : SwapId) (s : Session)
    (tx_hash : string) (alice_pubshare : Secp256k1Pubkey) (alice_pub_nonce : PubNonce)
  : res PartialSig * Sessions :=
  match sessions !! (id_str id, s) with
  | None => (Err (Musig2 ("no live session: " +:+ id_str id +:+ " / " +:+ session_debug s)), sessions)
  | Some live =>
      (alice_pk ← parse_alice_pubkey alice_pubshare;
       alice_nonce ← parse_alice_pub_nonce alice_pub_nonce;
       key_agg ← map_err (fun e => Musig2 ("keyagg: " +:+ e)) (key_agg_new [pk g; alice_pk]);
       partial ← map_err (fun e => Musig2 ("partial sign: " +:+ e))
         (crate_sign_partial key_agg (sk g) (sec_nonce live)
            (agg_nonce_sum [pub_nonce live; alice_nonce]) tx_hash);
       Ok (mk_partial (hex_encode (partial_serialize partial))),
       delete (id_str id, s) sessions)
  end.

Definition discard_session (sessions : Sessions) (id : SwapId) (s : Session) : Sessions :=
  delete (id_str id, s) sessions.
End Signer.

(** ** State and interpreter *)

(** What the referee has said to or heard from the outside; kept for the
    statements only, no call reads it. *)
Inductive Event :=
  | Checked (h : WebcashPublicHash) (answer : SpentStatus)
  | Signed (id : SwapId) (s : Session)
  | Dispatched (p : PushRequest) (ok : bool).

Section Interpreter.
Context `{SwapJson, Hashing, Ed25519, Ed25519Signer, EntryCodec, Musig2Crate} {W : Type} `{World W}.

(** The part of [Orchestrator] the collaborators own. *)
Record Keys := { identity : SigningKey; musig_key : RealSigner }.

Record St := mk_st {
  store : InMemState;
  audit : list AuditEntry;
  sessions : gmap (string * Session) LiveSession;
  events : list Event;
  world : W;
}.




Definition set_world (st : St) (w : W) : St :=
  mk_st (store st) (audit st) (sessions st) (events st) w.

(** Answer from the world, recording the event the answer gives rise to. *)
Definition from_world {X} (f : W -> X * W) (ev : X -> list Event) (st : St) : X * St :=
  let (x, w) := f (world st) in
  (x, mk_st (store st) (audit st) (sessions st) (events st ++ ev x) w).

Definition no_event {X} (x : X) : list Event := [].

Definition handle (K : Keys) {X} (r : Req X) (st : St) : X * St :=
  match r in Req X return X * St with
  | Now => from_world w_now no_event st
  | FreshId => let (u, w) := w_uuid (world st) in (mk_id u, set_world st w)
  | BeginSession id s =>
      let (seed, w) := w_seed (world st) in
      let (x, ss) := begin_session (musig_key K) seed (sessions st) id s in
      (x, mk_st (store st) (audit st) ss (events st) w)
  | PartialSign id s tx_hash share nonce =>
      let (x, ss) := partial_sign (musig_key K) (sessions st) id s tx_hash share nonce in
      (x, mk_st (store st) (audit st) ss
            (events st ++ match x with Ok _ => [Signed id s] | Err _ => [] end) (world st))
  | DiscardSession id s =>
      (Ok tt, mk_st (store st) (audit st) (discard_session (sessions st) id s) (events st) (world st))
  | AuditAppend e =>
      let (tip, log) := audit_append (identity K) (audit st) e in
      (Ok tip, mk_st (store st) log (sessions st) (events st) (world st))
  | StoreGet id => (Ok (get (store st) id), st)
  | StoreUpsert tx =>
      match w_fail_upsert (world st) with
      | (Some msg, w) => (Err (Store msg), set_world st w)
      | (None, w) => (Ok tt, mk_st (upsert (store st) tx) (audit st) (sessions st) (events st) w)
      end
  | Verify c p => from_world (w_verify c p) no_event st
  | WebcashCheck h =>
      from_world (w_check h) (fun x => match x with Ok a => [Checked h a] | Err _ => [] end) st
  | MintSwapRecord i p => from_world (w_mint_swap_record i p) no_event st
  | MintHtlcRefund i p => from_world (w_mint_htlc_refund i p) no_event st
  | CloseHtlcRefund i c k => from_world (w_close_htlc_refund i c k) no_event st
  | Dispatch p => from_world (w_dispatch p) (fun x => [Dispatched p (is_ok x)]) st
  | AuditEntriesFor id => (Ok (entries_for (audit st) id), st)
  | StoreListByParty fp => (Ok (list_by_party (store st) fp), st)
  end.

Fixpoint run (K : Keys) {A} (p : prog A) (st : St) : A * St :=
  match p with
  | Ret a => (a, st)
  | Call r k => let (x, st') := handle K r st in run K (k x) st'
  end.

Lemma run_pbind K {A B} (p : prog A) (f : A -> prog B) st :
  run K (pbind p f) st = let (a, st') := run K p st in run K (f a) st'.
Proof.
  revert st. induction p as [a|X r k IH]; intros st; simpl; [done|].
  destruct (handle K r st) as [x st']. apply IH.
Qed.

(** ** Concurrent invocations

    [sys_step K i] lets the [i]-th program make its next call. *)
Definition sys_step (K : Keys) {A} (i : nat) (c : list (prog A) * St) : list (prog A) * St :=
  match c.1 !! i with
  | Some (Call r k) => let (x, st') := handle K r c.2 in (<[i := k x]> c.1, st')
  | _ => c
  end.

Definition sys_run (K : Keys) {A} (schedule : list nat) (c : list (prog A) * St)
  : list (prog A) * St := foldl (fun c i => sys_step K i c) c schedule.

(** Scheduling one program alone is running it. *)
Lemma sys_run_alone K {A} (p : prog A) st :
  exists n, let (a, st') := run K p st in sys_run K (repeat 0%nat n) ([p], st) = ([Ret a], st').
Proof.
  revert st. induction p as [a|X r k IH]; intros st; simpl.
  - exists 0%nat. done.
  - destruct (handle K r st) as [x st'] eqn:E. destruct (IH x st') as [n Hn].
    exists (S n). destruct (run K (k x) st') as [a st'']. unfold sys_run in *. simpl.
    replace (sys_step K 0 ([Call r k], st)) with ([k x], st'); [done|].
    unfold sys_step. simpl. by rewrite E.
Qed.
End Interpreter.
