(* ===== verification/RefereeView.v ===== *)
(** * One swap at a time

    The state of the referee seen from one swap: its row, its live sessions,
    its audit entries, what was signed and sent for it, and all answers of the
    webcash server.  [vstep] specifies the effect of a call on that view, with
    every answer the world may give; [handle] implements it ([handle_vstep]) and
    leaves the other swaps alone ([handle_frame]).  [vwp] is the weakest
    precondition of a program over [vstep], and [vwp_run] transfers what it
    proves to [run]. *)
From S2P Require Import Prelude Decimal External RefereeState RefereeWorld.

Section View.
Context `{SwapJson, Hashing, Ed25519, Ed25519Signer, EntryCodec, Musig2Crate} {W : Type} `{World W}.
Variable K : Keys.

Record View := mk_view {
  v_row : option Transaction;
  v_settle : bool;
  v_refund : bool;
  v_log : list AuditEntry;
  v_events : list Event;
  v_checked : list (WebcashPublicHash * SpentStatus);
}.

Definition event_on (id : SwapId) (e : Event) : bool :=
  match e with
  | Checked _ _ => false
  | Signed i _ => bool_decide (i = id)
  | Dispatched p _ => bool_decide (push_swap_id p = id)
  end.

Definition check_of (e : Event) : option (WebcashPublicHash * SpentStatus) :=
  match e with Checked h a => Some (h, a) | _ => None end.

Definition live_in (ss : gmap (string * Session) LiveSession) (id : SwapId) (s : Session) : bool :=
  bool_decide (is_Some (ss !! (id_str id, s))).

Definition checks (l : list Event) : list (WebcashPublicHash * SpentStatus) := omap check_of l.

Definition view (id : SwapId) (st : St (W := W)) : View :=
  mk_view (get (store st) id) (live_in (sessions st) id SettleSession)
    (live_in (sessions st) id RefundSession) (entries_for (audit st) id)
    (filter (fun e => event_on id e = true) (events st)) (checks (events st)).

(** ** Updates *)

Definition live (v : View) (s : Session) : bool :=
  match s with SettleSession => v_settle v | RefundSession => v_refund v end.
Definition set_live (s : Session) (b : bool) (v : View) : View :=
  match s with
  | SettleSession => mk_view (v_row v) b (v_refund v) (v_log v) (v_events v) (v_checked v)
  | RefundSession => mk_view (v_row v) (v_settle v) b (v_log v) (v_events v) (v_checked v)
  end.
Definition set_row (tx : Transaction) (v : View) : View :=
  mk_view (Some tx) (v_settle v) (v_refund v) (v_log v) (v_events v) (v_checked v).
Definition add_log (e : AuditEntry) (v : View) : View :=
  mk_view (v_row v) (v_settle v) (v_refund v) (v_log v ++ [e]) (v_events v) (v_checked v).
Definition add_event (e : Event) (v : View) : View :=
  mk_view (v_row v) (v_settle v) (v_refund v) (v_log v) (v_events v ++ [e]) (v_checked v).
Definition add_check (h : WebcashPublicHash) (a : SpentStatus) (v : View) : View :=
  mk_view (v_row v) (v_settle v) (v_refund v) (v_log v) (v_events v) (v_checked v ++ [(h, a)]).

(** ** The calls a program for one swap makes *)

(** The fields of a row that place it in the indexes of the store. *)
Definition same_index (old tx : Transaction) : Prop :=
  t_bob_pgp_fp tx = t_bob_pgp_fp old /\ t_alice_pgp_fp tx = t_alice_pgp_fp old /\
  t_created_at_unix tx = t_created_at_unix old.

Definition on (id : SwapId) {X} (r : Req X) (v : View) : Prop :=
  match r with
  | BeginSession i _ | PartialSign i _ _ _ _ | DiscardSession i _ | StoreGet i
  | AuditEntriesFor i => i = id
  | AuditAppend e => e_swap_id e = id
  | StoreUpsert tx => t_swap_id tx = id /\ forall old, v_row v = Some old -> same_index old tx
  | Dispatch p => push_swap_id p = id
  | _ => True
  end.

(** What a call may answer, and the view after it. *)
Definition vstep (id : SwapId) {X} (r : Req X) (v : View) : X -> View -> Prop :=
  match r in Req X return X -> View -> Prop with
  | BeginSession _ s => fun x v' =>
      match x with
      | Ok _ => live v s = false /\ v' = set_live s true v
      | Err _ => v' = v
      end
  | PartialSign _ s _ _ _ => fun x v' =>
      match x with
      | Ok _ => live v s = true /\ v' = add_event (Signed id s) (set_live s false v)
      | Err _ => v' = set_live s false v
      end
  | DiscardSession _ s => fun x v' => x = Ok tt /\ v' = set_live s false v
  | AuditAppend e => fun x v' => x = Ok (tip_hash e) /\ v' = add_log (sign_entry (identity K) e) v
  | StoreGet _ => fun x v' => x = Ok (v_row v) /\ v' = v
  | StoreUpsert tx => fun x v' =>
      match x with Ok _ => v' = set_row tx v | Err e => (exists m, e = Store m) /\ v' = v end
  | WebcashCheck h => fun x v' =>
      match x with Ok a => v' = add_check h a v | Err _ => v' = v end
  | Dispatch p => fun x v' => v' = add_event (Dispatched p (is_ok x)) v
  | AuditEntriesFor _ => fun x v' => x = Ok (v_log v) /\ v' = v
  | _ => fun _ v' => v' = v
  end.

(** ** The interpreter implements the specification *)

Lemma checks_snoc l e : checks (l ++ [e]) = checks l ++ omap check_of [e].
Proof. unfold checks. by rewrite omap_app. Qed.

Lemma view_world id st w : view id (set_world st w) = view id st.
Proof. done. Qed.

Definition same_session (s s' : Session) : bool :=
  match s, s' with
  | SettleSession, SettleSession | RefundSession, RefundSession => true
  | _, _ => false
  end.

Lemma session_key (id id' : SwapId) (s s' : Session) :
  (id_str id, s) = (id_str id', s') <-> bool_decide (id' = id) && same_session s' s = true.
Proof.
  rewrite andb_true_iff, bool_decide_eq_true. destruct id, id', s, s'; simpl; naive_solver.
Qed.

Lemma live_in_insert ss (id id' : SwapId) (s s' : Session) l :
  live_in (<[(id_str id, s) := l]> ss) id' s' =
    if bool_decide (id' = id) && same_session s' s then true else live_in ss id' s'.
Proof.
  unfold live_in. pose proof (session_key id id' s s') as Hk.
  destruct (_ && _); [rewrite (proj2 Hk), lookup_insert_eq by done|rewrite lookup_insert_ne].
  - by apply bool_decide_eq_true_2.
  - done.
  - intros E. by apply Hk in E.
Qed.

Lemma live_in_delete ss (id id' : SwapId) (s s' : Session) :
  live_in (delete (id_str id, s) ss) id' s' =
    if bool_decide (id' = id) && same_session s' s then false else live_in ss id' s'.
Proof.
  unfold live_in. pose proof (session_key id id' s s') as Hk.
  destruct (_ && _); [rewrite (proj2 Hk), lookup_delete_eq by done|rewrite lookup_delete_ne].
  - by apply bool_decide_eq_false_2; intros [].
  - done.
  - intros E. by apply Hk in E.
Qed.

Lemma get_upsert w tx id :
  get (upsert w tx) id = if decide (id = t_swap_id tx) then Some tx else get w id.
Proof.
  unfold get, upsert. destruct (decide (id = t_swap_id tx)) as [->|N].
  - destruct (rows w !! _); simpl; by rewrite lookup_insert_eq.
  - assert (id_str (t_swap_id tx) <> id_str id)
      by (intros E; apply N; destruct id, (t_swap_id tx); simpl in E; by subst).
    destruct (rows w !! id_str (t_swap_id tx)); simpl; by rewrite lookup_insert_ne.
Qed.

(** ** The indexes of the store *)

Definition indexed (fp_of : Transaction -> PgpFingerprint) (rs : gmap string Transaction)
    (idx : gmap string (gset (Z * string))) : Prop :=
  forall fp c i, (c, i) ∈ default ∅ (idx !! fp) <->
    exists tx, rs !! i = Some tx /\ fp_hex (fp_of tx) = fp /\ c = - t_created_at_unix tx.

Definition store_ok (w : InMemState) : Prop :=
  (forall i tx, rows w !! i = Some tx -> id_str (t_swap_id tx) = i) /\
  indexed t_bob_pgp_fp (rows w) (by_bob w) /\ indexed t_alice_pgp_fp (rows w) (by_alice w).

Lemma indexed_new fp_of rs idx tx i :
  indexed fp_of rs idx -> rs !! i = None ->
  indexed fp_of (<[i := tx]> rs)
    (index_insert (fp_hex (fp_of tx)) (- t_created_at_unix tx, i) idx).
Proof.
  intros Hi Hn fp c j. unfold index_insert. destruct (decide (fp = fp_hex (fp_of tx))) as [->|Hfp].
  - rewrite lookup_insert_eq. simpl. rewrite elem_of_union, elem_of_singleton, (Hi _ c j). split.
    + intros [[= -> ->]|(tx' & Hj & E & Ec)]; [exists tx; by rewrite lookup_insert_eq|].
      exists tx'. by rewrite lookup_insert_ne by (intros ->; congruence).
    + intros (tx' & Hj & E & ->). destruct (decide (j = i)) as [->|Hji].
      * rewrite lookup_insert_eq in Hj. simplify_eq. by left.
      * rewrite lookup_insert_ne in Hj by done. right. by exists tx'.
  - rewrite lookup_insert_ne, (Hi fp c j) by done. split; intros (tx' & Hj & E & Ec); exists tx'.
    + by rewrite lookup_insert_ne by (intros ->; congruence).
    + destruct (decide (j = i)) as [->|Hji]; [rewrite lookup_insert_eq in Hj; simplify_eq|].
      by rewrite lookup_insert_ne in Hj by done.
Qed.

Lemma indexed_update fp_of rs idx tx i old :
  indexed fp_of rs idx -> rs !! i = Some old -> fp_of tx = fp_of old ->
  t_created_at_unix tx = t_created_at_unix old -> indexed fp_of (<[i := tx]> rs) idx.
Proof.
  intros Hi Hold Hfp Hc fp c j. rewrite (Hi fp c j).
  destruct (decide (j = i)) as [->|Hji]; [|by rewrite lookup_insert_ne by done].
  rewrite lookup_insert_eq, Hold. split; intros (tx' & [= <-] & <- & ->); [exists tx|exists old];
    by rewrite Hfp, Hc.
Qed.

Lemma upsert_ok w tx :
  store_ok w -> (forall old, get w (t_swap_id tx) = Some old -> same_index old tx) ->
  store_ok (upsert w tx).
Proof.
  intros (Hk & Hb & Ha) Hs. unfold upsert, get in *.
  assert (forall i tx', <[id_str (t_swap_id tx) := tx]> (rows w) !! i = Some tx' ->
    id_str (t_swap_id tx') = i) as Hk'.
  { intros i tx'. destruct (decide (i = id_str (t_swap_id tx))) as [->|Hi].
    - rewrite lookup_insert_eq. by intros [= ->].
    - rewrite lookup_insert_ne by done. apply Hk. }
  destruct (rows w !! _) as [old|] eqn:E; simpl.
  - destruct (Hs old eq_refl) as (? & ? & ?).
    split; [done|split]; by eapply indexed_update.
  - split; [done|split]; by apply indexed_new.
Qed.

Lemma handle_store_ok id {X} (r : Req X) st :
  on id r (view id st) -> store_ok (store st) -> store_ok (store (handle K r st).2).
Proof.
  intros Hon Hok. destruct r; simpl; unfold from_world;
    try (destruct (w_seed _); destruct (begin_session _ _ _ _ _));
    try (destruct (partial_sign _ _ _ _ _ _ _));
    repeat match goal with |- context [let (_, _) := ?f in _] => destruct f end; try done.
  case_match; simpl; [done|]. destruct Hon as [<- Hs]. by apply upsert_ok.
Qed.

(** [begin_session] and [partial_sign] on the live flags. *)
Lemma begin_session_live g seed ss id s x ss' :
  begin_session g seed ss id s = (x, ss') ->
  match x with
  | Ok _ => live_in ss id s = false /\ exists l, ss' = <[(id_str id, s) := l]> ss
  | Err _ => ss' = ss
  end.
Proof.
  unfold begin_session, live_in. destruct (ss !! _) eqn:E; intros [= <- <-]; [done|].
  split; [|eauto]. by apply bool_decide_eq_false_2; intros [].
Qed.

Lemma partial_sign_live g ss id s h p n x ss' :
  partial_sign g ss id s h p n = (x, ss') ->
  (is_ok x = true -> live_in ss id s = true) /\ ss' = delete (id_str id, s) ss.
Proof.
  unfold partial_sign, live_in. destruct (ss !! _) eqn:E; intros [= <- <-].
  - split; [|done]. intros _. by apply bool_decide_eq_true_2.
  - split; [done|]. by rewrite delete_id.
Qed.

Lemma filter_snoc id l e : filter (fun e => event_on id e = true) (l ++ [e]) =
  filter (fun e => event_on id e = true) l ++ if event_on id e then [e] else [].
Proof. rewrite filter_app, filter_cons, filter_nil. destruct (event_on id e); by simpl. Qed.

Lemma entries_snoc log e id : entries_for (log ++ [e]) id =
  entries_for log id ++ if decide (e_swap_id e = id) then [e] else [].
Proof.
  unfold entries_for. rewrite filter_app, filter_cons, filter_nil.
  by destruct (decide (e_swap_id e = id)).
Qed.

(** The parts of a view the other swaps can see changing: only the answers of
    the webcash server accumulate. *)
Definition frame (v v' : View) : Prop :=
  exists c, v' = mk_view (v_row v) (v_settle v) (v_refund v) (v_log v) (v_events v) (v_checked v ++ c).

Lemma frame_refl v : frame v v.
Proof. exists []. rewrite app_nil_r. by destruct v. Qed.

Lemma frame_trans v1 v2 v3 : frame v1 v2 -> frame v2 v3 -> frame v1 v3.
Proof. intros [c1 ->] [c2 ->]. exists (c1 ++ c2). simpl. by rewrite app_assoc. Qed.

Ltac view_simpl :=
  unfold view; cbn [store audit sessions events world];
  rewrite ?app_nil_r, ?filter_snoc, ?checks_snoc, ?entries_snoc;
  cbn [event_on omap list_omap check_of e_swap_id sign_entry];
  rewrite ?app_nil_r.

Lemma handle_vstep id {X} (r : Req X) st :
  on id r (view id st) -> let (x, st') := handle K r st in vstep id r (view id st) x (view id st').
Proof.
  destruct r; simpl; intros Hon; try (destruct Hon as [Hon _]); subst; unfold from_world, no_event.
  - destruct (w_now _). by view_simpl.
  - by destruct (w_uuid _).
  - destruct (w_seed _) as [seed w].
    destruct (begin_session _ _ _ _ _) as [x ss] eqn:E. apply begin_session_live in E.
    destruct x; [|by subst]. destruct E as [Hl [l ->]].
    destruct s; simpl in *; (split; [done|]); view_simpl; rewrite !live_in_insert, bool_decide_true by done; by simpl.
  - destruct (partial_sign _ _ _ _ _ _ _) as [x ss] eqn:E. apply partial_sign_live in E as [Hl ->].
    destruct x; [split; [by destruct s; apply Hl|]|]; destruct s; view_simpl;
      rewrite ?live_in_delete, !bool_decide_true by done; done.
  - split; [done|]. unfold discard_session. destruct s; view_simpl; by rewrite !live_in_delete, bool_decide_true by done.
  - view_simpl. by rewrite decide_True by done.
  - done.
  - destruct (w_fail_upsert _) as [[m|] w]; simpl; [eauto|].
    view_simpl. rewrite get_upsert, decide_True by done. done.
  - destruct (w_verify _ _ _). by view_simpl.
  - destruct (w_check _ _) as [[a|e] w]; by view_simpl.
  - destruct (w_mint_swap_record _ _ _). by view_simpl.
  - destruct (w_mint_htlc_refund _ _ _). by view_simpl.
  - destruct (w_close_htlc_refund _ _ _ _). by view_simpl.
  - destruct (w_dispatch _ _) as [x w]. view_simpl. by rewrite bool_decide_true by done.
  - done.
  - done.
Qed.

Lemma handle_frame id id' {X} (r : Req X) st :
  on id r (view id st) -> id' <> id -> let (x, st') := handle K r st in frame (view id' st) (view id' st').
Proof.
  assert (forall v c, frame v (mk_view (v_row v) (v_settle v) (v_refund v) (v_log v) (v_events v)
    (v_checked v ++ c))) as Hf by (intros v c; by exists c).
  destruct r; simpl; intros Hon Hne; try (destruct Hon as [Hon _]); subst; unfold from_world, no_event.
  - destruct (w_now _). view_simpl. apply frame_refl.
  - destruct (w_uuid _). apply frame_refl.
  - destruct (w_seed _) as [seed w].
    destruct (begin_session _ _ _ _ _) as [x ss] eqn:E. apply begin_session_live in E.
    destruct x; [destruct E as [_ [l ->]]|subst]; [|apply frame_refl].
    view_simpl. rewrite !live_in_insert, !bool_decide_false by done. apply frame_refl.
  - destruct (partial_sign _ _ _ _ _ _ _) as [x ss] eqn:E. apply partial_sign_live in E as [_ ->].
    destruct x; view_simpl; rewrite !live_in_delete, !bool_decide_false by done;
      rewrite ?app_nil_r; apply frame_refl.
  - unfold discard_session. view_simpl.
    rewrite !live_in_delete, !bool_decide_false by done. apply frame_refl.
  - view_simpl. rewrite decide_False by done. rewrite app_nil_r. apply frame_refl.
  - apply frame_refl.
  - destruct (w_fail_upsert _) as [[m|] w]; simpl; [apply frame_refl|].
    view_simpl. rewrite get_upsert, decide_False by done. apply frame_refl.
  - destruct (w_verify _ _ _). view_simpl. apply frame_refl.
  - destruct (w_check _ _) as [[a|e] w]; view_simpl; [|apply frame_refl]. apply (Hf (view id' st)).
  - destruct (w_mint_swap_record _ _ _). view_simpl. apply frame_refl.
  - destruct (w_mint_htlc_refund _ _ _). view_simpl. apply frame_refl.
  - destruct (w_close_htlc_refund _ _ _ _). view_simpl. apply frame_refl.
  - destruct (w_dispatch _ _) as [x w]. view_simpl. rewrite bool_decide_false by done.
    rewrite app_nil_r. apply frame_refl.
  - apply frame_refl.
  - apply frame_refl.
Qed.

(** ** Weakest preconditions *)

Fixpoint vwp (id : SwapId) {A} (p : prog A) (Q : A -> View -> Prop) (v : View) : Prop :=
  match p with
  | Ret a => Q a v
  | Call r k => on id r v /\ forall x v', vstep id r v x v' -> vwp id (k x) Q v'
  end.

Theorem vwp_run id {A} (p : prog A) (Q : A -> View -> Prop) st :
  vwp id p Q (view id st) ->
  let (a, st') := run K p st in
  Q a (view id st') /\ (forall id', id' <> id -> frame (view id' st) (view id' st')) /\
  (store_ok (store st) -> store_ok (store st')).
Proof.
  revert st. induction p as [a|X r k IH]; intros st; simpl.
  - intros HQ. split; [done|split; [|done]]. intros id' _. apply frame_refl.
  - intros [Hon Hk]. pose proof (handle_vstep id r st Hon) as Hs.
    pose proof (fun id' => handle_frame id id' r st Hon) as Hf.
    pose proof (handle_store_ok id r st Hon) as Hst.
    destruct (handle K r st) as [x st']. specialize (IH x st' (Hk _ _ Hs)).
    destruct (run K (k x) st') as [a st'']. destruct IH as (HQ & Hf' & Hst'). split; [done|split; [|auto]].
    intros id' Hne. eapply frame_trans; [by apply Hf|by apply Hf'].
Qed.

Lemma vwp_mono id {A} (p : prog A) (Q Q' : A -> View -> Prop) v :
  vwp id p Q v -> (forall a v', Q a v' -> Q' a v') -> vwp id p Q' v.
Proof.
  revert v. induction p as [a|X r k IH]; intros v; simpl; [eauto|].
  intros [Hon Hk] HQ. split; [done|]. intros x v' Hs. eapply IH; eauto.
Qed.

Lemma vwp_pbind id {A B} (p : prog A) (f : A -> prog B) Q v :
  vwp id p (fun a v' => vwp id (f a) Q v') v -> vwp id (pbind p f) Q v.
Proof.
  revert v. induction p as [a|X r k IH]; intros v; simpl; [done|].
  intros [Hon Hk]. split; [done|]. intros x v' Hs. by apply IH, Hk.
Qed.

(** An error ends the program. *)
Definition tried {A B} (id : SwapId) (f : A -> M B) (Q : res B -> View -> Prop)
  : res A -> View -> Prop :=
  fun r v => match r with Ok a => vwp id (f a) Q v | Err e => Q (Err e) v end.

Lemma vwp_bind id {A B} (m : M A) (f : A -> M B) Q v :
  vwp id m (tried id f Q) v -> vwp id (m ≫= f) Q v.
Proof.
  intros Hw. apply vwp_pbind. eapply vwp_mono; [apply Hw|]. intros [a|e] v'; done.
Qed.

Lemma vwp_seq id {A B} (m : M A) (f : A -> M B) (P : res A -> View -> Prop) Q v :
  vwp id m P v -> (forall r v', P r v' -> tried id f Q r v') -> vwp id (m ≫= f) Q v.
Proof. intros Hm HP. apply vwp_bind. eapply vwp_mono; eauto. Qed.

Lemma vwp_call id {A B} (r : Req (res A)) (f : A -> M B) Q v :
  on id r v -> (forall x v', vstep id r v x v' -> tried id f Q x v') -> vwp id (call r ≫= f) Q v.
Proof. intros Hon Hx. apply vwp_bind. simpl. auto. Qed.

Lemma vwp_ask id {A B} (r : Req A) (f : A -> M B) Q v :
  on id r v -> (forall x v', vstep id r v x v' -> vwp id (f x) Q v') -> vwp id (ask r ≫= f) Q v.
Proof. intros Hon Hx. apply vwp_bind. simpl. auto. Qed.

Lemma vwp_lift id {A B} (x : res A) (f : A -> M B) Q v :
  tried id f Q x v -> vwp id (lift x ≫= f) Q v.
Proof. intros Hx. by apply vwp_bind. Qed.

Lemma vwp_lift_ok id {A B} (x : res A) a (f : A -> M B) Q v :
  x = Ok a -> vwp id (f a) Q v -> vwp id (lift x ≫= f) Q v.
Proof. intros -> Hw. by apply vwp_lift. Qed.

Lemma vwp_ret id {A} (a : A) (Q : res A -> View -> Prop) v : Q (Ok a) v -> vwp id (mret a : M A) Q v.
Proof. done. Qed.

Lemma vwp_attempt id {A B} (m : M A) (f : res A -> M B) (P : res A -> View -> Prop) Q v :
  vwp id m P v -> (forall r v', P r v' -> vwp id (f r) Q v') -> vwp id (attempt m ≫= f) Q v.
Proof.
  intros Hm HP. apply vwp_bind, vwp_pbind. eapply vwp_mono; [apply Hm|]. intros r v' Hr. by apply HP.
Qed.
End View.
