(* ===== verification/Orchestrator.v ===== *)
(** * The referee's orchestrator

    [referee/src/api/orchestrator.rs]: [start_swap], [advance_swap] with its
    three phase handlers, [cancel_swap] and [run_to_completion], call by call in
    the order of the source, and the handlers of [api/router.rs] over them.
    A function of the source is a program of [RefereeWorld]; [?] is the bind. *)
From S2P Require Import Prelude Decimal External RefereeState RefereeWorld.

(** [base64::engine::general_purpose::STANDARD]. *)
Class Base64Standard := { standard_encode : string -> string }.

(** [SwapOutcome]; the constructors carry the prefix [Out]. *)
Inductive SwapOutcome :=
  | OutSettled (swap_id : SwapId) | OutRefunded (swap_id : SwapId) | OutCanceled (swap_id : SwapId).

Record Orchestrator := {
  swap_max_age_secs : Z;
  insert_push_retry : Z;
  callback_base_url : string;
}.

Section Handlers.
Context `{SwapJson, Hashing, Ed25519, Base64Standard}.
Variable self : Orchestrator.

Definition base64_of (bytes : string) : string := standard_encode bytes.

Definition callback_url_of (id : SwapId) : string :=
  callback_base_url self +:+ "/" +:+ id_str id +:+ "/ack".

Definition audit_phase (id : SwapId) (phase : string) (payload : json) (prior_tip : string)
  : M string :=
  ts ← ask Now;
  call (AuditAppend (mk_entry id phase ts prior_tip payload "")).

Definition set_created_at (tx : Transaction) (t : Z) : Transaction :=
  mk_tx (t_swap_id tx) (t_status tx) (t_phase tx) (t_terminal tx) (t_bob_pgp_fp tx)
    (t_alice_pgp_fp tx) (t_webcash_public_hash tx) (t_vtxo_outpoint_hash tx)
    (t_tx_settle_hash tx) (t_tx_refund_hash tx) t (t_updated_at_unix tx)
    (t_insert_push_attempts tx) (t_cancel_reason tx) (t_canceled_by_pgp_fp tx)
    (t_htlc_refund_contract_id tx) (t_state_blob tx).

(** The fields [persist] keeps from the existing row. *)
Definition carry_over (tx existing : Transaction) : Transaction :=
  mk_tx (t_swap_id tx) (t_status tx) (t_phase tx) (t_terminal tx) (t_bob_pgp_fp tx)
    (t_alice_pgp_fp tx) (t_webcash_public_hash tx) (t_vtxo_outpoint_hash tx)
    (t_tx_settle_hash tx) (t_tx_refund_hash tx) (t_created_at_unix existing) (t_updated_at_unix tx)
    (t_insert_push_attempts tx) (t_cancel_reason existing) (t_canceled_by_pgp_fp existing)
    (t_htlc_refund_contract_id existing) (t_state_blob tx).

Definition set_htlc (tx : Transaction) (cid : option string) : Transaction :=
  mk_tx (t_swap_id tx) (t_status tx) (t_phase tx) (t_terminal tx) (t_bob_pgp_fp tx)
    (t_alice_pgp_fp tx) (t_webcash_public_hash tx) (t_vtxo_outpoint_hash tx)
    (t_tx_settle_hash tx) (t_tx_refund_hash tx) (t_created_at_unix tx) (t_updated_at_unix tx)
    (t_insert_push_attempts tx) (t_cancel_reason tx) (t_canceled_by_pgp_fp tx)
    cid (t_state_blob tx).

Definition persist {P} (s : SwapState P) (phase : string) : M unit :=
  now ← ask Now;
  let tx := derive_from s phase now None None None in
  if (phase =? "init")%string then
    call (StoreUpsert (set_created_at tx (phase_entered_at s)))
  else
    existing ← call (StoreGet (id s));
    call (StoreUpsert match existing with
                      | Some e => carry_over tx e
                      | None => tx
                      end).

Definition close_htlc_if_any (id : SwapId) (k : HtlcCloseKind) : M unit :=
  r ← attempt (call (StoreGet id));
  match r with
  | Ok (Some row) =>
      match t_htlc_refund_contract_id row with
      | Some cid => _ ← attempt (call (CloseHtlcRefund (id_str id) cid k)); mret tt
      | None => mret tt
      end
  | _ => mret tt
  end.

(** ** Initiation *)

(** Step 3b of [start_swap]: the best-effort backup record. *)
Definition mint_backup (id : SwapId) (now_unix : Z) (p : Parties) : M unit :=
  r ← attempt (call (MintHtlcRefund (id_str id) {|
        timeout_unix := u64_saturating_add now_unix (swap_max_age_secs self);
        refund_unlock_hash_hex := "";
        hp_bob_pgp_fp := fp_hex (bob_pgp_fp p);
        hp_alice_pgp_fp := fp_hex (alice_pgp_fp p) |}));
  match default None (result_ok r) with
  | Some cid =>
      row ← call (StoreGet id);
      match row with
      | Some row => call (StoreUpsert (set_htlc row (Some cid)))
      | None => mret tt
      end
  | None => mret tt
  end.

Definition insert_push (id : SwapId) {P} (s : SwapState P) : PushRequest := {|
  push_swap_id := id;
  recipient_pgp_fp := alice_pgp_fp (parties s);
  kind := Insert;
  payload_b64 := base64_of (bytes (enc_secret_for_alice (bob s)));
  callback_url := callback_url_of id |}.

(** Steps 1 to 3: sessions, audit entry [init], the first row, the records. *)
Definition start_init (id : SwapId) (now_unix : Z) (p : Parties) (b : BobPayload)
    (a : AlicePayload) (n : AliceMusig2Nonces) : M (SwapState SwapInit) :=
  settle_pub ← call (BeginSession id SettleSession);
  refund_pub ← call (BeginSession id RefundSession);
  let referee_sessions := {| settle_pub_nonce := nonce_hex settle_pub;
                             refund_pub_nonce := nonce_hex refund_pub;
                             secret_nonce_handle := id |} in
  init_tip ← call (AuditAppend (mk_entry id "init" now_unix "" (JObj [
    ("bob_pgp_fp", JStr (fp_hex (bob_pgp_fp p)));
    ("alice_pgp_fp", JStr (fp_hex (alice_pgp_fp p)));
    ("h_b", JStr (hash_str (h_b b)));
    ("vtxo", JStr (outpoint_str (vtxo a)));
    ("tx_settle_hash", JStr (tx_settle_hash a));
    ("tx_refund_hash", JStr (tx_refund_hash a))]) ""));
  let initial := initiate id p b a n referee_sessions now_unix init_tip in
  _ ← persist initial "init";
  _ ← call (MintSwapRecord (id_str id) (JObj [
    ("bob", JStr (fp_hex (bob_pgp_fp p)));
    ("alice", JStr (fp_hex (alice_pgp_fp p)));
    ("tx_settle_hash", JStr (tx_settle_hash a));
    ("tx_refund_hash", JStr (tx_refund_hash a))]));
  _ ← mint_backup id now_unix p;
  mret initial.

(** Step 4: both proofs. *)
Definition start_zkps (id : SwapId) (initial : SwapState SwapInit) : M (SwapState ZkpsVerified) :=
  ok_bob ← call (Verify CircuitBobPayload (zkp_payload (bob initial)));
  ok_alice ← call (Verify CircuitAliceSignature (zkp_signature (alice initial)));
  zkps_tip ← audit_phase id "zkps-verified"
    (JObj [("ok_bob", JBool ok_bob); ("ok_alice", JBool ok_alice)]) (audit_tip_hex initial);
  now ← ask Now;
  zkps_state ← lift (verify_zkps initial (ok_bob && ok_alice) now zkps_tip);
  _ ← persist zkps_state "zkps-verified";
  mret zkps_state.

(** Step 5: the webcash pre-check. *)
Definition start_pre_check (id : SwapId) (s : SwapState ZkpsVerified) : M (SwapState PreChecked) :=
  pre_status ← call (WebcashCheck (h_b (bob s)));
  let unspent := bool_decide (pre_status = Unspent) in
  pre_tip ← audit_phase id "pre-checked" (JObj [("unspent", JBool unspent)]) (audit_tip_hex s);
  now ← ask Now;
  pre_state ← lift (pre_check s unspent now pre_tip);
  _ ← persist pre_state "pre-checked";
  mret pre_state.

(** Step 6: the first insert push. *)
Definition start_push (id : SwapId) (s : SwapState PreChecked) : M unit :=
  _ ← call (Dispatch (insert_push id s));
  push_tip ← audit_phase id "insert-pushed" (JObj [("attempt", JNum 1)]) (audit_tip_hex s);
  now ← ask Now;
  persist (insert_pushed_from_pre s now push_tip) "insert-pushed".

Definition start_swap (p : Parties) (b : BobPayload) (a : AlicePayload) (n : AliceMusig2Nonces)
  : M SwapId :=
  now_unix ← ask Now;
  id ← ask FreshId;
  initial ← start_init id now_unix p b a n;
  zkps_state ← start_zkps id initial;
  pre_state ← start_pre_check id zkps_state;
  _ ← start_push id pre_state;
  mret id.

(** ** One transition *)

Definition decode (P : Phase) (v : Value) : res (SwapState P) :=
  map_err (fun e => Store ("decode " +:+ NAME P +:+ ": " +:+ e)) (from_value P v).

Definition settle_push (id : SwapId) (s : SwapState Settled) (payload : string) : PushRequest := {|
  push_swap_id := id;
  recipient_pgp_fp := bob_pgp_fp (parties s);
  kind := ReleaseSettle;
  payload_b64 := base64_of payload;
  callback_url := callback_url_of id |}.

(** The branch of [advance_from_insert_pushed] on a spent [H_B]. *)
Definition release_settle (id : SwapId) (push_state : SwapState InsertPushed)
  : M (option SwapOutcome) :=
  settled_tip ← audit_phase id "settled" (JObj []) (audit_tip_hex push_state);
  now ← ask Now;
  settled ← lift (settle push_state PostSettled now settled_tip);
  referee_partial ← call (PartialSign id SettleSession (tx_settle_hash (alice settled))
    (alice_musig2_pubkey (parties settled)) (mk_pub_nonce (settle_nonce_pub (alice_nonces settled))));
  payload ← lift (map_err (fun e => BadRequest ("json: " +:+ e)) (json_to_vec (JObj [
    ("referee_partial_sig", JStr (partial_hex referee_partial));
    ("alice_enc_partial_sig",
      JStr (base64_of (bytes (enc_partial_sig_for_bob (alice settled)))))])));
  _ ← call (Dispatch (settle_push id settled payload));
  _ ← persist settled "settled";
  _ ← call (DiscardSession id RefundSession);
  _ ← close_htlc_if_any id CloseSettle;
  mret (Some (OutSettled id)).

(** The branch that still has attempts left. *)
Definition retry_push (id : SwapId) (push_state : SwapState InsertPushed) : M (option SwapOutcome) :=
  _ ← call (Dispatch (insert_push id push_state));
  let new_attempt := insert_push_attempts push_state + 1 in
  retry_tip ← audit_phase id "insert-pushed" (JObj [("attempt", JNum new_attempt)])
    (audit_tip_hex push_state);
  now ← ask Now;
  retried ← lift (insert_pushed_retry push_state now retry_tip);
  _ ← persist retried "insert-pushed";
  mret None.

(** The branch that gives up. *)
Definition enter_abort (id : SwapId) (push_state : SwapState InsertPushed) : M (option SwapOutcome) :=
  abort_tip ← audit_phase id "aborted" (JObj [("attempts", JNum (insert_push_attempts push_state))])
    (audit_tip_hex push_state);
  now ← ask Now;
  aborted ← lift (abort push_state true now abort_tip);
  _ ← persist aborted "aborted";
  _ ← call (Dispatch {| push_swap_id := id;
                        recipient_pgp_fp := bob_pgp_fp (parties aborted);
                        kind := Invalidate;
                        payload_b64 := base64_of (hash_str (h_b (bob aborted)));
                        callback_url := callback_url_of id |});
  mret None.

Definition advance_from_insert_pushed (id : SwapId) (inner : Value) : M (option SwapOutcome) :=
  push_state ← lift (decode InsertPushed inner);
  post ← call (WebcashCheck (h_b (bob push_state)));
  if bool_decide (post = Spent) then release_settle id push_state
  else if insert_push_attempts push_state <? insert_push_retry self then retry_push id push_state
  else enter_abort id push_state.

Definition advance_from_aborted (id : SwapId) (inner : Value) : M (option SwapOutcome) :=
  aborted ← lift (decode Aborted inner);
  inv_tip ← audit_phase id "invalidated" (JObj [("acked", JBool true)]) (audit_tip_hex aborted);
  now ← ask Now;
  inv ← lift (invalidated aborted true now inv_tip);
  _ ← persist inv "invalidated";
  mret None.

Definition advance_from_invalidated (id : SwapId) (inner : Value) : M (option SwapOutcome) :=
  inv ← lift (decode Invalidated inner);
  refund_partial ← call (PartialSign id RefundSession (tx_refund_hash (alice inv))
    (alice_musig2_pubkey (parties inv)) (mk_pub_nonce (refund_nonce_pub (alice_nonces inv))));
  _ ← call (Dispatch {| push_swap_id := id;
                        recipient_pgp_fp := alice_pgp_fp (parties inv);
                        kind := ReleaseRefund;
                        payload_b64 := base64_of (partial_hex refund_partial);
                        callback_url := callback_url_of id |});
  refunded_tip ← audit_phase id "refunded" (JObj []) (audit_tip_hex inv);
  now ← ask Now;
  let r := refunded inv now refunded_tip in
  _ ← persist r "refunded";
  _ ← call (DiscardSession id SettleSession);
  _ ← close_htlc_if_any id CloseRefund;
  mret (Some (OutRefunded id)).

Definition unknown_swap (id : SwapId) : RefereeError :=
  BadRequest ("unknown swap_id: " +:+ id_str id).

Definition advance_swap (id : SwapId) : M (option SwapOutcome) :=
  row ← call (StoreGet id);
  tx ← lift (ok_or row (unknown_swap id));
  if (t_phase tx =? "settled")%string then mret (Some (OutSettled id))
  else if (t_phase tx =? "refunded")%string then mret (Some (OutRefunded id))
  else if (t_phase tx =? "canceled")%string then mret (Some (OutCanceled id))
  else if (t_phase tx =? "insert-pushed")%string then
    advance_from_insert_pushed id (inner (t_state_blob tx))
  else if (t_phase tx =? "aborted")%string then advance_from_aborted id (inner (t_state_blob tx))
  else if (t_phase tx =? "invalidated")%string then
    advance_from_invalidated id (inner (t_state_blob tx))
  else mret None.

(** ** Cancellation *)

(** Which party asks, and with which key. *)
Definition cancel_party (p : Parties) (by_pgp_fp : PgpFingerprint) : res (string * bool) :=
  if decide (by_pgp_fp = bob_pgp_fp p) then Ok (bob_cancel_pubkey_hex p, true)
  else if decide (by_pgp_fp = alice_pgp_fp p) then Ok (alice_cancel_pubkey_hex p, false)
  else Err (BadRequest "by_pgp_fp does not match either party of this swap").

(** The phase eligibility table. *)
Definition cancel_eligible (phase : string) (is_bob : bool) : res unit :=
  if (phase =? "init")%string || (phase =? "zkps-verified")%string || (phase =? "pre-checked")%string
  then Ok tt
  else if (phase =? "insert-pushed")%string then
    if is_bob then Ok tt
    else Err (InvalidTransition ("alice cannot unilaterally cancel after insert-pushed; " +:+
                "the swap will refund automatically once retries exhaust"))
  else Err (InvalidTransition ("cannot cancel from phase " +:+ phase)).

(** The two keys of the blob that a cancel overwrites, when it is an object. *)
Definition cancel_blob (v : Value) (tip : string) (now : Z) : Value :=
  match object_insert v "audit_tip_hex" (JStr tip) with
  | Some v1 => default v1 (object_insert v1 "phase_entered_at" (JNum now))
  | None => v
  end.

Definition canceled_row (tx : Transaction) (by_pgp_fp : PgpFingerprint) (reason tip : string)
    (now : Z) : Transaction :=
  mk_tx (t_swap_id tx) StCanceled "canceled" true (t_bob_pgp_fp tx)
    (t_alice_pgp_fp tx) (t_webcash_public_hash tx) (t_vtxo_outpoint_hash tx)
    (t_tx_settle_hash tx) (t_tx_refund_hash tx) (t_created_at_unix tx) now
    (t_insert_push_attempts tx) (Some reason) (Some by_pgp_fp)
    (t_htlc_refund_contract_id tx)
    {| blob_phase := "canceled"; inner := cancel_blob (inner (t_state_blob tx)) tip now |}.

(** From the audit entry on: what an authorised cancel does. *)
Definition cancel_commit (id : SwapId) (tx : Transaction) (p : Parties) (by_pgp_fp : PgpFingerprint)
    (reason : string) : M unit :=
  let v := inner (t_state_blob tx) in
  now ← ask Now;
  canceled_tip ← audit_phase id "canceled"
    (JObj [("by", JStr (fp_hex by_pgp_fp)); ("reason_sha256", JStr (sha256_hex reason))])
    (default "" (value_get v "audit_tip_hex" ≫= value_as_str));
  let canceled := canceled_row tx by_pgp_fp reason canceled_tip now in
  _ ← call (StoreUpsert canceled);
  _ ← (if (t_phase canceled =? "canceled")%string && (0 <? t_insert_push_attempts canceled) then
         attempt (call (Dispatch {| push_swap_id := id;
                                    recipient_pgp_fp := alice_pgp_fp p;
                                    kind := Invalidate;
                                    payload_b64 := base64_of
                                      (hash_str (t_webcash_public_hash canceled));
                                    callback_url := callback_url_of id |}))
       else mret (Ok tt));
  _ ← attempt (call (DiscardSession id SettleSession));
  _ ← attempt (call (DiscardSession id RefundSession));
  close_htlc_if_any id CloseCancel.

Definition cancel_swap (id : SwapId) (by_pgp_fp : PgpFingerprint) (reason sig_hex : string)
  : M unit :=
  row ← call (StoreGet id);
  tx ← lift (ok_or row (unknown_swap id));
  if t_terminal tx then
    lift (Err (InvalidTransition ("cannot cancel: swap is already in terminal phase " +:+ t_phase tx)))
  else
    p ← lift (map_err (fun e => Store ("decode parties: " +:+ e))
                (parties_from_value
                   (default VNull (value_get (inner (t_state_blob tx)) "parties"))));
    party ← lift (cancel_party p by_pgp_fp);
    _ ← lift (cancel_eligible (t_phase tx) party.2);
    _ ← lift (verify_party_signature party.1
                (party_cancel_message (id_str id) (fp_hex by_pgp_fp) reason) sig_hex);
    cancel_commit id tx p by_pgp_fp reason.

(** ** Drivers *)

(** The loop of [run_to_completion], [fuel] iterations of it at most; [None]
    when they did not reach an outcome.  The sleep between two iterations is
    not a call. *)
Fixpoint advance_loop (fuel : nat) (id : SwapId) : M (option SwapOutcome) :=
  match fuel with
  | O => mret None
  | S fuel' =>
      outcome ← advance_swap id;
      match outcome with
      | Some o => mret (Some o)
      | None => advance_loop fuel' id
      end
  end.

Definition run_to_completion (fuel : nat) (p : Parties) (b : BobPayload) (a : AlicePayload)
    (n : AliceMusig2Nonces) : M (option SwapOutcome) :=
  id ← start_swap p b a n;
  advance_loop fuel id.

(** [POST /v1/swap/:id/advance]. *)
Record AdvanceResponse := { a_swap_id : string; a_phase : string; a_terminal : bool }.

Definition router_advance (raw : string) : M AdvanceResponse :=
  let swap_id := mk_id raw in
  outcome ← advance_swap swap_id;
  row ← call (StoreGet swap_id);
  tx ← lift (ok_or row (BadRequest "unknown swap_id"));
  mret {| a_swap_id := raw; a_phase := t_phase tx;
          a_terminal := match outcome with Some _ => true | None => false end |}.
End Handlers.
