(* ===== verification/RefereeFacts.v ===== *)
(** * Safety of the referee's swaps

    The invariant of one swap over the calls of the orchestrator, proved through
    the view of [RefereeView], and the properties it gives of every state
    reached by serving requests one after the other: the phase graph and its
    termination, the exclusivity of the two signatures, the cancel policy and
    the chain of audit entries. *)
From S2P Require Import Prelude Decimal External RefereeState RefereeWorld RefereeView Orchestrator.

(** ** Phases as a graph

    The detailed phase and the number of insert pushes, as [advance_swap] may
    change them; [retry] is [insert_push_retry]. *)
Inductive phase_edge (retry : Z) : string * Z -> string * Z -> Prop :=
  | edge_settle n : phase_edge retry ("insert-pushed", n) ("settled", n)
  | edge_retry n : n < retry -> phase_edge retry ("insert-pushed", n) ("insert-pushed", n + 1)
  | edge_abort n : retry <= n -> phase_edge retry ("insert-pushed", n) ("aborted", n)
  | edge_invalidate n : phase_edge retry ("aborted", n) ("invalidated", n)
  | edge_refund n : phase_edge retry ("invalidated", n) ("refunded", n).

(** How many calls of [advance_swap] that move the swap are left at most. *)
Definition calls_left (retry : Z) (c : string * Z) : nat :=
  if (c.1 =? "insert-pushed")%string then 3 + Z.to_nat (retry - c.2)
  else if (c.1 =? "aborted")%string then 2
  else if (c.1 =? "invalidated")%string then 1
  else 0.

Lemma phase_edge_decreases retry c c' :
  phase_edge retry c c' -> (calls_left retry c' < calls_left retry c)%nat.
Proof. intros []; unfold calls_left; simpl; lia. Qed.

(** Answers about a hash that was reported spent never change. *)
Definition spent_final (l : list (WebcashPublicHash * SpentStatus)) : Prop :=
  forall i j h a, (i < j)%nat -> l !! i = Some (h, Spent) -> l !! j = Some (h, a) -> a = Spent.

Lemma spent_final_app l l' : spent_final (l ++ l') -> spent_final l.
Proof.
  intros Hs i j h a Hij Hi Hj. eapply Hs; [done|by apply lookup_app_l_Some..].
Qed.

Lemma spent_final_snoc l h a : spent_final (l ++ [(h, a)]) -> (h, Spent) ∈ l -> a = Spent.
Proof.
  intros Hs [i Hi]%list_elem_of_lookup. pose proof (lookup_lt_Some _ _ _ Hi) as Hlt.
  eapply (Hs i (length l)); [lia|by apply lookup_app_l_Some|by rewrite list_lookup_middle].
Qed.

Section Facts.
Context `{SwapJson, Hashing, Ed25519, Ed25519Signer, EntryCodec, Musig2Crate, Base64Standard}.
Context `{!SwapJsonLaws}.
Variable K : Keys.
Variable self : Orchestrator.
Hypothesis Hretry : u8_range (insert_push_retry self).

(** ** Rows *)

(** The row [persist] writes for the state [s]. *)
Definition row_for {P} (s : SwapState P) (now created : Z) (reason : option string)
    (by_fp : option PgpFingerprint) (htlc : option string) : Transaction :=
  mk_tx (id s) (for_phase (NAME P)) (NAME P) (is_terminal (for_phase (NAME P)))
    (bob_pgp_fp (parties s)) (alice_pgp_fp (parties s)) (h_b (bob s)) (vtxo (alice s))
    (tx_settle_hash (alice s)) (tx_refund_hash (alice s)) created now (insert_push_attempts s)
    reason by_fp htlc {| blob_phase := NAME P; inner := to_value s |}.

Definition row_of {P} (s : SwapState P) (tx : Transaction) : Prop :=
  exists now created reason by_fp htlc, tx = row_for s now created reason by_fp htlc.

Definition persisted {P} (s : SwapState P) (now : Z) (e : Transaction) : Transaction :=
  row_for s now (t_created_at_unix e) (t_cancel_reason e) (t_canceled_by_pgp_fp e)
    (t_htlc_refund_contract_id e).

Lemma row_of_persisted {P} (s : SwapState P) now e : row_of s (persisted s now e).
Proof. by repeat eexists. Qed.

(** What stays the same along the life of a swap. *)
Definition same_swap (tx tx' : Transaction) : Prop :=
  t_swap_id tx' = t_swap_id tx /\ t_bob_pgp_fp tx' = t_bob_pgp_fp tx /\
  t_alice_pgp_fp tx' = t_alice_pgp_fp tx /\
  t_webcash_public_hash tx' = t_webcash_public_hash tx /\
  t_vtxo_outpoint_hash tx' = t_vtxo_outpoint_hash tx /\
  t_tx_settle_hash tx' = t_tx_settle_hash tx /\ t_tx_refund_hash tx' = t_tx_refund_hash tx /\
  t_created_at_unix tx' = t_created_at_unix tx /\
  t_htlc_refund_contract_id tx' = t_htlc_refund_contract_id tx.

Definition position (tx : Transaction) : string * Z := (t_phase tx, t_insert_push_attempts tx).

Definition moves (tx tx' : Transaction) : Prop :=
  same_swap tx tx' /\ phase_edge (insert_push_retry self) (position tx) (position tx').

(** ** The audit chain *)

Definition tips (log : list AuditEntry) : list string := tip_hash <$> log.

Definition signed (e : AuditEntry) : Prop :=
  signature e = identity_sign (identity K) (tag_for_phase (e_phase e)) (canonical_body e).

(** Every entry is signed; the first is the [init] entry and each other one
    commits to an entry before it. *)
Definition linked (log : list AuditEntry) : Prop :=
  forall i e, log !! i = Some e ->
    signed e /\
    (i = 0%nat /\ e_phase e = "init" /\ prior_tip e = "" \/ prior_tip e ∈ tips (take i log)).

Lemma linked_nil : linked [].
Proof. intros i e Hi. by rewrite lookup_nil in Hi. Qed.

Lemma linked_snoc log e :
  linked log -> signed e ->
  log = [] /\ e_phase e = "init" /\ prior_tip e = "" \/ prior_tip e ∈ tips log ->
  linked (log ++ [e]).
Proof.
  intros Hl Hs Hp i e' Hi. apply lookup_snoc_Some in Hi as [[Hlt Hi]|[-> <-]].
  - rewrite take_app_le by lia. by apply Hl.
  - split; [done|]. rewrite take_app_length. destruct Hp as [[-> ?]|?]; [by left|by right].
Qed.

Lemma tips_snoc t log e : t ∈ tips log -> t ∈ tips (log ++ [e]).
Proof. unfold tips. rewrite fmap_app, elem_of_app. by left. Qed.

Lemma tips_last log e : tip_hash e ∈ tips (log ++ [e]).
Proof. unfold tips. rewrite fmap_app, elem_of_app. right. simpl. by apply list_elem_of_singleton. Qed.

(** ** The invariant of a swap *)

Definition attempts_ok (n : Z) : Prop := 0 <= n <= Z.max 1 (insert_push_retry self).

Definition state_ok (id0 : SwapId) (v : View) {P} (s : SwapState P) : Prop :=
  P <> Canceled /\ id s = id0 /\ audit_tip_hex s ∈ tips (v_log v) /\
  attempts_ok (insert_push_attempts s).

(** The audit tip in a stored document. *)
Definition stored_tip (tx : Transaction) : option string :=
  value_get (inner (t_state_blob tx)) "audit_tip_hex" ≫= value_as_str.

Definition row_ok (id0 : SwapId) (v : View) (tx : Transaction) : Prop :=
  (exists P (s : SwapState P), row_of s tx /\ state_ok id0 v s) \/
  (t_swap_id tx = id0 /\ t_phase tx = "canceled" /\ t_status tx = StCanceled /\
   t_terminal tx = true /\ attempts_ok (t_insert_push_attempts tx) /\
   exists t, stored_tip tx = Some t /\ t ∈ tips (v_log v)).

Lemma row_tip id0 v tx : row_ok id0 v tx -> exists t, stored_tip tx = Some t /\ t ∈ tips (v_log v).
Proof.
  intros [(P & s & (now & c & re & b & h & ->) & _ & _ & Ht & _)|(_ & _ & _ & _ & _ & Ht)]; [|done].
  exists (audit_tip_hex s). split; [|done]. apply get_audit_tip.
Qed.

(** A cancel of a stored state leaves the new tip in the document. *)
Lemma cancel_blob_tip {P} (s : SwapState P) tip now :
  value_get (cancel_blob (to_value s) tip now) "audit_tip_hex" ≫= value_as_str = Some tip.
Proof.
  unfold cancel_blob. destruct (insert_state P s "audit_tip_hex" (JStr tip)) as [v1 E1]. rewrite E1.
  destruct (insert_again _ _ _ _ "phase_entered_at" (JNum now) E1) as [v2 E2]. rewrite E2. simpl.
  rewrite (get_other _ _ _ _ "audit_tip_hex" E2) by done. by apply get_inserted in E1.
Qed.

Definition release_of (k : PushKind) : option Session :=
  match k with
  | ReleaseSettle => Some SettleSession
  | ReleaseRefund => Some RefundSession
  | _ => None
  end.

(** The sessions that signed, and those whose signature was handed to the push
    provider, among the events of one swap. *)
Definition sigs_of (l : list Event) : list Session :=
  omap (fun e => match e with Signed _ s => Some s | _ => None end) l.
Definition releases_of (l : list Event) : list Session :=
  omap (fun e => match e with Dispatched p _ => release_of (kind p) | _ => None end) l.
Definition sigs (v : View) : list Session := sigs_of (v_events v).
Definition releases (v : View) : list Session := releases_of (v_events v).

(** A settled or refunded swap has been signed for. *)
Definition finished (v : View) (phase : string) : Prop :=
  (phase = "settled" -> SettleSession ∈ sigs v) /\ (phase = "refunded" -> RefundSession ∈ sigs v).

Record Inv (id0 : SwapId) (v : View) : Prop := {
  inv_log : linked (v_log v);
  inv_row : forall tx, v_row v = Some tx -> row_ok id0 v tx;
  inv_norow : v_row v = None -> sigs v = [];
  inv_once : forall s, s ∈ sigs v -> live v s = false;
  inv_nodup : NoDup (sigs v);
  inv_release : forall s, s ∈ releases v -> s ∈ sigs v;
  inv_refund : RefundSession ∈ sigs v -> forall tx, v_row v = Some tx ->
    t_phase tx = "invalidated" \/ t_phase tx = "refunded";
  inv_settle : spent_final (v_checked v) -> SettleSession ∈ sigs v ->
    forall tx, v_row v = Some tx ->
    t_phase tx = "insert-pushed" \/ t_phase tx = "settled" \/ t_phase tx = "canceled";
  inv_spent : SettleSession ∈ sigs v -> forall tx, v_row v = Some tx ->
    (t_webcash_public_hash tx, Spent) ∈ v_checked v;
  inv_finished : forall tx, v_row v = Some tx -> finished v (t_phase tx);
}.

(** ** One call at a time *)

Lemma row_ok_log id0 v e tx : row_ok id0 v tx -> row_ok id0 (add_log e v) tx.
Proof.
  intros [(P & s & Hr & Hp & Hi & Ht & Ha)|(Hi & Hp & Hs & Hm & Ha & t & Et & Ht)]; [left|right].
  - exists P, s. do 3 (split; [done|]). split; [|done]. simpl. by apply tips_snoc.
  - do 5 (split; [done|]). exists t. split; [done|]. simpl. by apply tips_snoc.
Qed.

Lemma Inv_log id0 v e :
  Inv id0 v -> signed e ->
  v_log v = [] /\ e_phase e = "init" /\ prior_tip e = "" \/ prior_tip e ∈ tips (v_log v) ->
  Inv id0 (add_log e v).
Proof.
  intros [? Hr ????? ? ? ?] Hs Hp. split; [by apply linked_snoc| |done..].
  intros tx Htx. by apply row_ok_log, Hr.
Qed.

Lemma Inv_dead id0 v s : Inv id0 v -> Inv id0 (set_live s false v).
Proof.
  intros [? Hr ? Ho ??????]. destruct s; split; try done; intros [] Hs; simpl; try done; by apply (Ho _ Hs).
Qed.

Lemma Inv_begin id0 v s : Inv id0 v -> sigs v = [] -> Inv id0 (set_live s true v).
Proof.
  intros [? Hr ? Ho ?? ? ? ? ?] Hn.
  assert (forall s', s' ∉ sigs v) as Hn' by (intros s'; rewrite Hn; apply not_elem_of_nil).
  destruct s; split; try done; intros s' Hs; by destruct (Hn' s').
Qed.

Lemma Inv_check id0 v h a : Inv id0 v -> Inv id0 (add_check h a v).
Proof.
  intros [? Hr ?????  Hs Hc ?]. split; try done; simpl.
  - intros Hf. by apply Hs, (spent_final_app _ [(h, a)]).
  - intros Hg tx Htx. apply elem_of_app. left. by eapply Hc.
Qed.

Lemma sigs_event v e : sigs (add_event e v) = sigs v ++ sigs_of [e].
Proof. unfold sigs, sigs_of. simpl. by rewrite omap_app. Qed.

Lemma releases_event v e : releases (add_event e v) = releases v ++ releases_of [e].
Proof. unfold releases, releases_of. simpl. by rewrite omap_app. Qed.

Lemma Inv_push id0 v p b :
  Inv id0 v -> (forall s, release_of (kind p) = Some s -> s ∈ sigs v) ->
  Inv id0 (add_event (Dispatched p b) v).
Proof.
  intros [? ? ? ? ? Hr ? ? ? Hfin] Hp.
  assert (sigs (add_event (Dispatched p b) v) = sigs v) as Es by (by rewrite sigs_event, app_nil_r).
  split; unfold finished; rewrite ?Es; try done.
  intros s. rewrite releases_event, elem_of_app. intros [Hs|Hs]; [by apply Hr|].
  apply Hp. simpl in Hs. destruct (release_of (kind p)); simpl in Hs;
    [by apply list_elem_of_singleton in Hs as ->|by apply not_elem_of_nil in Hs].
Qed.

(** A signature needs a live session, and the phase its kind belongs to. *)
Lemma Inv_sign id0 v s tx :
  Inv id0 v -> live v s = true -> v_row v = Some tx ->
  match s with
  | SettleSession => t_phase tx = "insert-pushed" /\ (t_webcash_public_hash tx, Spent) ∈ v_checked v
  | RefundSession => t_phase tx = "invalidated"
  end -> Inv id0 (add_event (Signed id0 s) (set_live s false v)).
Proof.
  intros [Hl Hr Hn Ho Hd He Hf Hs Hc Hfin] Hlive Htx Hphase.
  assert (s ∉ sigs v) as Hfresh by (intros Hin; apply Ho in Hin; congruence).
  assert (sigs (add_event (Signed id0 s) (set_live s false v)) = sigs v ++ [s]) as Es
    by (rewrite sigs_event; by destruct s).
  assert (releases (add_event (Signed id0 s) (set_live s false v)) = releases v) as Er
    by (rewrite releases_event; destruct s; by rewrite app_nil_r).
  assert (forall s', s' ∈ sigs v ++ [s] <-> s' ∈ sigs v \/ s' = s) as Hin
    by (intros s'; by rewrite elem_of_app, list_elem_of_singleton).
  split; unfold finished; rewrite ?Es, ?Er.
  - by destruct s.
  - by destruct s.
  - destruct s; simpl; congruence.
  - intros s' [Hs'| ->]%Hin; [apply Ho in Hs'|]; destruct s; try done; by destruct s'.
  - apply NoDup_app. repeat split; [done| |apply NoDup_singleton].
    intros s' Hs' ->%list_elem_of_singleton. done.
  - intros s' Hs'. apply Hin. left. by apply He.
  - intros [Hs'| <-]%Hin tx' Htx'.
    + eapply Hf; [done|]. by destruct s.
    + left. simpl in Htx'. congruence.
  - intros Hsf [Hs'| <-]%Hin tx' Htx'.
    + eapply Hs; [by destruct s|done|by destruct s].
    + left. simpl in Htx'. destruct Hphase. congruence.
  - intros [Hs'| <-]%Hin tx' Htx'.
    + destruct s; simpl in *; by eapply Hc.
    + simpl in Htx'. destruct Hphase. simpl. congruence.
  - intros tx' Htx'. assert (v_row v = Some tx') as Hv by (by destruct s).
    destruct (Hfin _ Hv) as [Hse Hrf]. split; intros E; apply Hin; left; auto.
Qed.

Lemma Inv_row id0 v tx tx' :
  Inv id0 v -> v_row v = Some tx -> row_ok id0 v tx' ->
  t_webcash_public_hash tx' = t_webcash_public_hash tx ->
  (RefundSession ∈ sigs v -> t_phase tx' = "invalidated" \/ t_phase tx' = "refunded") ->
  (spent_final (v_checked v) -> SettleSession ∈ sigs v ->
    t_phase tx' = "insert-pushed" \/ t_phase tx' = "settled" \/ t_phase tx' = "canceled") ->
  finished v (t_phase tx') ->
  Inv id0 (set_row tx' v).
Proof.
  intros [Hl Hr Hn Ho Hd He Hf Hs Hc Hfin] Htx Hok Hh HR HS HF.
  split; try done; simpl.
  - intros ? [= <-]. done.
  - intros Hsig ? [= <-]. by apply HR.
  - intros Hsf Hsig ? [= <-]. by apply HS.
  - intros Hsig ? [= <-]. rewrite Hh. by apply Hc.
  - by intros ? [= <-].
Qed.

(** The first row of a swap. *)
Lemma Inv_first id0 v tx :
  Inv id0 v -> v_row v = None -> row_ok id0 v tx -> finished v (t_phase tx) -> Inv id0 (set_row tx v).
Proof.
  intros [Hl Hr Hn Ho Hd He Hf Hs Hc Hfin] Htx Hok HF.
  assert (forall s, s ∉ sigs v) as Hn' by (intros s; rewrite (Hn Htx); apply not_elem_of_nil).
  split; try done; simpl.
  - intros ? [= <-]. done.
  - intros Hsig. by destruct (Hn' _ Hsig).
  - intros _ Hsig. by destruct (Hn' _ Hsig).
  - intros Hsig. by destruct (Hn' _ Hsig).
  - by intros ? [= <-].
Qed.

(** ** The shared steps of the handlers *)

Notation wp := (vwp K).

(** An entry [append] may have written for [phase], committing to [prior]. *)
Definition entry_for (id0 : SwapId) (phase prior : string) (e : AuditEntry) : Prop :=
  e_swap_id e = id0 /\ e_phase e = phase /\ prior_tip e = prior /\ signed e.

Lemma wp_append id0 e v :
  e_swap_id e = id0 ->
  wp id0 (call (AuditAppend e)) (fun r v' => exists e',
    entry_for id0 (e_phase e) (prior_tip e) e' /\ r = Ok (tip_hash e') /\ v' = add_log e' v) v.
Proof.
  intros He. simpl. split; [done|]. intros x v' [-> ->].
  exists (sign_entry (identity K) e). by repeat split.
Qed.

Lemma wp_audit_phase id0 phase payload prior v :
  wp id0 (audit_phase id0 phase payload prior) (fun r v' => exists e,
    entry_for id0 phase prior e /\ r = Ok (tip_hash e) /\ v' = add_log e v) v.
Proof. apply vwp_ask; [done|]. intros ts v' ->. by apply wp_append. Qed.

(** The entry keeps the invariant when the tip it commits to is in the log. *)
Lemma Inv_entry id0 v phase prior e :
  Inv id0 v -> entry_for id0 phase prior e -> prior ∈ tips (v_log v) -> Inv id0 (add_log e v).
Proof. intros HI (_ & _ & <- & Hs) Hp. apply Inv_log; auto. Qed.

Definition same_parties {P} (s : SwapState P) (tx : Transaction) : Prop :=
  bob_pgp_fp (parties s) = t_bob_pgp_fp tx /\ alice_pgp_fp (parties s) = t_alice_pgp_fp tx.

Lemma row_of_parties {P Q} (s : SwapState P) (s' : SwapState Q) tx :
  row_of s tx -> parties s' = parties s -> same_parties s' tx.
Proof. intros (? & ? & ? & ? & ? & ->) Hp. unfold same_parties. by rewrite Hp. Qed.

Lemma wp_persist id0 {P} (s : SwapState P) e v :
  id s = id0 -> P <> SwapInit -> v_row v = Some e -> same_parties s e ->
  wp id0 (persist s (NAME P)) (fun r v' =>
    (exists now, r = Ok tt /\ v' = set_row (persisted s now e) v) \/
    ((exists m, r = Err (Store m)) /\ v' = v)) v.
Proof.
  intros Hid HP He [Hb Ha]. apply vwp_ask; [done|]. intros now v' ->.
  rewrite (proj2 (String.eqb_neq _ _)) by (by destruct P).
  apply vwp_call; [done|]. intros x v' [-> ->]. simpl. rewrite He.
  split; [split; [done|by intros old [= <-]]|].
  intros [[]|e'] v'; simpl; [intros ->; left; by exists now|intros [[m ->] ->]; right; eauto].
Qed.

Lemma wp_persist_init id0 (s : SwapState SwapInit) v :
  id s = id0 -> v_row v = None ->
  wp id0 (persist s "init") (fun r v' =>
    (exists now, r = Ok tt /\ v' = set_row (row_for s now (phase_entered_at s) None None None) v) \/
    ((exists m, r = Err (Store m)) /\ v' = v)) v.
Proof.
  intros Hid Hn. apply vwp_ask; [done|]. intros now v' ->. simpl. rewrite Hn. split; [done|].
  intros [[]|e'] v'; simpl; [intros ->; left; by exists now|intros [[m ->] ->]; right; eauto].
Qed.

Lemma wp_close_htlc id0 k v :
  wp id0 (close_htlc_if_any id0 k) (fun r v' => r = Ok tt /\ v' = v) v.
Proof.
  eapply (vwp_attempt K id0 _ _ (fun r v' => r = Ok (v_row v) /\ v' = v)).
  - simpl. split; [done|]. by intros x v' [-> ->].
  - intros r v' [-> ->]. destruct (v_row v) as [row|]; [|done].
    destruct (t_htlc_refund_contract_id row); [|done].
    eapply (vwp_attempt K id0 _ _ (fun _ v' => v' = v)); [|by intros r v' ->].
    simpl. split; [done|]. by intros x v' ->.
Qed.

(** ** The transitions of [advance_swap] *)

Definition terminal_outcome (id0 : SwapId) (tx : Transaction) : option SwapOutcome :=
  if (t_phase tx =? "settled")%string then Some (OutSettled id0)
  else if (t_phase tx =? "refunded")%string then Some (OutRefunded id0)
  else if (t_phase tx =? "canceled")%string then Some (OutCanceled id0)
  else None.

(** How a handler that found the row [tx] may leave the swap. *)
Definition advanced (id0 : SwapId) (tx : Transaction) (r : res (option SwapOutcome)) (v : View) : Prop :=
  Inv id0 v /\ exists tx', v_row v = Some tx' /\
  match r with
  | Ok (Some o) => terminal_outcome id0 tx' = Some o /\ moves tx tx'
  | Ok None => moves tx tx' /\ t_terminal tx' = false
  | Err _ => tx' = tx \/ moves tx tx'
  end.

Lemma advanced_err id0 tx e v : Inv id0 v -> v_row v = Some tx -> advanced id0 tx (Err e) v.
Proof. intros HI Hv. split; [done|]. exists tx. split; [done|]. by left. Qed.

Lemma moves_persisted {P Q} (s : SwapState P) (s' : SwapState Q) tx now :
  row_of s tx -> id s' = id s -> parties s' = parties s -> bob s' = bob s -> alice s' = alice s ->
  phase_edge (insert_push_retry self) (NAME P, insert_push_attempts s)
    (NAME Q, insert_push_attempts s') ->
  moves tx (persisted s' now tx).
Proof.
  intros (? & ? & ? & ? & ? & ->) Hi Hp Hb Ha He. split; [|done].
  unfold same_swap. simpl. by rewrite Hi, Hp, Hb, Ha.
Qed.

(** Writing the row of the next state. *)
Lemma Inv_persisted id0 {P Q} (s : SwapState P) (s' : SwapState Q) tx now v :
  Inv id0 v -> v_row v = Some tx -> row_of s tx -> bob s' = bob s -> state_ok id0 v s' ->
  (RefundSession ∈ sigs v -> Q = Invalidated \/ Q = Refunded) ->
  (spent_final (v_checked v) -> SettleSession ∈ sigs v -> Q = InsertPushed \/ Q = Settled) ->
  (Q = Settled -> SettleSession ∈ sigs v) -> (Q = Refunded -> RefundSession ∈ sigs v) ->
  Inv id0 (set_row (persisted s' now tx) v).
Proof.
  intros HI Hv (? & ? & ? & ? & ? & ->) Hb Hok HR HS Hse Hrf. eapply Inv_row; try done.
  - left. exists Q, s'. split; [apply row_of_persisted|done].
  - simpl. by rewrite Hb.
  - intros Hs. simpl. destruct (HR Hs) as [-> | ->]; auto.
  - intros Hf Hs. simpl. destruct (HS Hf Hs) as [-> | ->]; auto.
  - by split; destruct Q; try done; intros _; auto.
Qed.

(** No refund signature while the row is in a phase before [invalidated]. *)
Lemma no_refund_sig id0 v tx :
  Inv id0 v -> v_row v = Some tx -> t_phase tx <> "invalidated" -> t_phase tx <> "refunded" ->
  RefundSession ∉ sigs v.
Proof. intros HI Hv Hni Hnr Hs. destruct (inv_refund _ _ HI Hs _ Hv); done. Qed.

Section Advance.
Context (id0 : SwapId).

(** The situation of a handler of phase [P] after decoding. *)
Definition holds {P} (s : SwapState P) (tx : Transaction) (v : View) : Prop :=
  Inv id0 v /\ v_row v = Some tx /\ row_of s tx /\ state_ok id0 v s.

(** A call that keeps the row and the log's tips keeps the situation. *)
Lemma holds_same {P} (s : SwapState P) tx v v' :
  holds s tx v -> Inv id0 v' -> v_row v' = v_row v ->
  (audit_tip_hex s ∈ tips (v_log v) -> audit_tip_hex s ∈ tips (v_log v')) -> holds s tx v'.
Proof.
  intros (HI & Hv & Hr & Hc & Hi & Ht & Ha) HI' Hrow Htip.
  split; [done|]. split; [by rewrite Hrow|]. split; [done|]. split; [done|].
  split; [done|]. split; [by apply Htip|done].
Qed.

Lemma holds_inv {P} (s : SwapState P) tx v : holds s tx v -> Inv id0 v.
Proof. by intros []. Qed.

Lemma holds_log {P} (s : SwapState P) tx v phase e :
  holds s tx v -> entry_for id0 phase (audit_tip_hex s) e -> holds s tx (add_log e v).
Proof.
  intros Hs He. apply (holds_same _ _ _ _ Hs); [|done|apply tips_snoc].
  eapply Inv_entry; [by eapply holds_inv|done|apply Hs].
Qed.

Lemma holds_push {P} (s : SwapState P) tx v p b :
  holds s tx v -> (forall s', release_of (kind p) = Some s' -> s' ∈ sigs v) ->
  holds s tx (add_event (Dispatched p b) v).
Proof.
  intros Hs Hk. apply (holds_same _ _ _ _ Hs); try done. apply Inv_push; [by eapply holds_inv|done].
Qed.

Lemma holds_check {P} (s : SwapState P) tx v h a : holds s tx v -> holds s tx (add_check h a v).
Proof. intros Hs. apply (holds_same _ _ _ _ Hs); try done. eapply Inv_check, holds_inv, Hs. Qed.

Lemma holds_dead {P} (s : SwapState P) tx v s' : holds s tx v -> holds s tx (set_live s' false v).
Proof.
  intros Hs. apply (holds_same _ _ _ _ Hs); try (by destruct s'). eapply Inv_dead, holds_inv, Hs.
Qed.

Lemma holds_err {P} (s : SwapState P) tx v e : holds s tx v -> advanced id0 tx (Err e) v.
Proof. intros (HI & Hv & _). by apply advanced_err. Qed.

Lemma holds_phase {P} (s : SwapState P) tx v : holds s tx v -> t_phase tx = NAME P.
Proof. by intros (_ & _ & (? & ? & ? & ? & ? & ->) & _). Qed.

Lemma holds_hash {P} (s : SwapState P) tx v : holds s tx v -> t_webcash_public_hash tx = h_b (bob s).
Proof. by intros (_ & _ & (? & ? & ? & ? & ? & ->) & _). Qed.

(** The state after [advance] to another phase, with a tip of the log. *)
Lemma holds_next {P} Q (s : SwapState P) tx v now e :
  holds s tx v -> Q <> Canceled -> state_ok id0 (add_log e v) (advance Q s now (tip_hash e)).
Proof.
  intros (HI & Hv & Hr & Hc & Hi & Ht & Ha) HQ.
  split; [done|]. split; [done|]. split; [by apply tips_last|done].
Qed.

Lemma wp_enter_abort (s : SwapState InsertPushed) tx v :
  holds s tx v -> insert_push_retry self <= insert_push_attempts s ->
  (spent_final (v_checked v) -> SettleSession ∉ sigs v) ->
  wp id0 (enter_abort self id0 s) (advanced id0 tx) v.
Proof.
  intros Hs Hexh Hno.
  pose proof (holds_phase _ _ _ Hs) as Hphase.
  eapply vwp_seq; [apply wp_audit_phase|]. intros r v1 (e & He & -> & ->).
  pose proof (holds_next Aborted s tx v 0 e Hs ltac:(done)) as Hok.
  pose proof (holds_log s tx v _ e Hs He) as Hs1.
  apply vwp_ask; [done|]. intros now v2 ->. eapply vwp_lift_ok; [done|].
  eapply vwp_seq; [apply (wp_persist _ (advance Aborted s now (tip_hash e)) tx); [by apply Hs|done|by apply Hs|by eapply row_of_parties; [apply Hs|]]|].
  intros r v2 [(now' & -> & ->)|([m ->] & ->)]; [|by eapply holds_err].
  destruct Hs1 as (HI & Hv & Hr & _).
  assert (Inv id0 (set_row (persisted (advance Aborted s now (tip_hash e)) now' tx) (add_log e v))) as HI'.
  { eapply (Inv_persisted _ s); try done.
    - intros Hsig. exfalso. by eapply (no_refund_sig id0 (add_log e v) tx); rewrite ?Hphase.
    - intros Hf Hsig. by destruct (Hno Hf). }
  assert (moves tx (persisted (advance Aborted s now (tip_hash e)) now' tx)) as Hm.
  { by apply (moves_persisted s); try apply edge_abort. }
  apply vwp_call; [done|]. intros x v3 ->.
  destruct x as [[]|e']; (split; [by apply Inv_push|]); eexists; (split; [done|]); [by split|by right].
Qed.

Lemma wp_retry_push (s : SwapState InsertPushed) tx v :
  holds s tx v -> insert_push_attempts s < insert_push_retry self ->
  wp id0 (retry_push self id0 s) (advanced id0 tx) v.
Proof.
  intros Hs Hlt. pose proof (holds_phase _ _ _ Hs) as Hphase.
  apply vwp_call; [done|]. intros x v1 ->.
  assert (holds s tx (add_event (Dispatched (insert_push self id0 s) (is_ok x)) v)) as Hs1
    by (by apply holds_push).
  destruct x as [[]|e']; [|by eapply holds_err].
  eapply vwp_seq; [apply wp_audit_phase|]. intros r v2 (e & He & -> & ->).
  pose proof (holds_log s tx _ _ e Hs1 He) as Hs2.
  apply vwp_ask; [done|]. intros now v3 ->.
  assert (attempts_ok (insert_push_attempts s)) as Hat by apply Hs.
  assert (insert_pushed_retry s now (tip_hash e) = Ok (mk_state (id s) (parties s) (bob s) (alice s)
    (alice_nonces s) (referee_sessions s) now (insert_push_attempts s + 1) (tip_hash e))) as Hret.
  { unfold insert_pushed_retry, u8_checked_add. unfold u8_range in Hretry.
    by rewrite (proj2 (Z.leb_le _ _)) by lia. }
  eapply vwp_lift_ok; [apply Hret|].
  set (s' := mk_state _ _ _ _ _ _ _ _ _ : SwapState InsertPushed).
  eapply vwp_seq; [apply (wp_persist _ s' tx); [by apply Hs|done|by apply Hs|by eapply row_of_parties; [apply Hs|]]|].
  intros r v4 [(now' & -> & ->)|([m ->] & ->)]; [|by eapply holds_err].
  pose proof Hs2 as (HI & Hv & Hr & Hc & Hi & Ht & _). split.
  - eapply (Inv_persisted _ s); try done.
    + split; [done|]. split; [done|]. split; [by apply tips_last|].
      unfold attempts_ok in *. simpl. lia.
    + intros Hsig. exfalso. by eapply (no_refund_sig id0 _ tx HI Hv); rewrite ?Hphase.
    + by left.
  - eexists. split; [done|]. split; [|done]. apply (moves_persisted s); try done.
    by apply edge_retry.
Qed.

Lemma wp_release_settle (s : SwapState InsertPushed) tx v :
  holds s tx v -> (t_webcash_public_hash tx, Spent) ∈ v_checked v ->
  wp id0 (release_settle self id0 s) (advanced id0 tx) v.
Proof.
  intros Hs Hspent. pose proof (holds_phase _ _ _ Hs) as Hphase.
  eapply vwp_seq; [apply wp_audit_phase|]. intros r v1 (e & He & -> & ->).
  pose proof (fun now => holds_next Settled s tx v now e Hs ltac:(done)) as Hok.
  pose proof (holds_log s tx v _ e Hs He) as Hs1.
  apply vwp_ask; [done|]. intros now v2 ->. eapply vwp_lift_ok; [done|].
  set (s' := advance Settled s now (tip_hash e)).
  apply vwp_call; [done|]. intros [ps|e'] v2; [|intros ->; by eapply holds_err, holds_dead].
  intros [Hlive ->].
  set (v3 := add_event (Signed id0 SettleSession) (set_live SettleSession false (add_log e v))).
  assert (holds s tx v3) as Hs3.
  { apply (holds_same _ _ _ _ Hs1); try done.
    eapply Inv_sign; [by eapply holds_inv|done|by apply Hs1|by split]. }
  assert (SettleSession ∈ sigs v3) as Hsig.
  { unfold v3. rewrite sigs_event. apply elem_of_app. right. by apply list_elem_of_singleton. }
  apply vwp_lift. destruct (json_to_vec _) as [payload|e']; [|by eapply holds_err].
  apply vwp_call; [done|]. intros x v4 ->.
  assert (holds s tx (add_event (Dispatched (settle_push self id0 s' payload) (is_ok x)) v3)) as Hs4
    by (apply holds_push; [done|by intros ? [= <-]]).
  destruct x as [[]|e']; [|by eapply holds_err].
  eapply vwp_seq; [apply (wp_persist _ s' tx); [by apply Hs|done|by apply Hs4|by eapply row_of_parties; [apply Hs|]]|].
  intros r v5 [(now' & -> & ->)|([m ->] & ->)]; [|by eapply holds_err].
  apply vwp_call; [done|]. intros x v6 [-> ->].
  eapply vwp_seq; [apply wp_close_htlc|]. intros r v7 [-> ->].
  pose proof Hs4 as (HI & Hv & Hr & Hc & Hi & Ht & _). split.
  - apply Inv_dead. eapply (Inv_persisted _ s); try done.
    + destruct (Hok now) as (? & ? & ? & ?). done.
    + intros Hrs. exfalso. by eapply (no_refund_sig id0 _ tx HI Hv); rewrite ?Hphase.
    + by right.
    + intros _. rewrite sigs_event. apply elem_of_app. by left.
  - eexists. split; [done|]. split; [done|]. apply (moves_persisted s); try done. apply edge_settle.
Qed.

Lemma wp_insert_pushed tx v (s : SwapState InsertPushed) :
  holds s tx v ->
  wp id0 (advance_from_insert_pushed self id0 (inner (t_state_blob tx))) (advanced id0 tx) v.
Proof.
  intros Hs. pose proof Hs as (HI & Hv & Hr & _). unfold advance_from_insert_pushed.
  assert (decode InsertPushed (inner (t_state_blob tx)) = Ok s) as Hd.
  { destruct Hr as (? & ? & ? & ? & ? & ->). unfold decode. simpl. by rewrite from_to_value. }
  eapply vwp_lift_ok; [apply Hd|]. apply vwp_call; [done|].
  intros [a|e] v' Hstep; simpl in Hstep; subst v'; [|by eapply holds_err].
  pose proof (holds_check s tx v (h_b (bob s)) a Hs) as Hs'.
  unfold tried. cbv beta iota. case_bool_decide as Ha.
  - apply wp_release_settle; [done|]. rewrite (holds_hash _ _ _ Hs). subst a. simpl.
    apply elem_of_app. right. by apply list_elem_of_singleton.
  - destruct (Z.ltb_spec (insert_push_attempts s) (insert_push_retry self)).
    + by apply wp_retry_push.
    + apply wp_enter_abort; [done|done|]. simpl. intros Hf Hsig. apply Ha.
      eapply spent_final_snoc; [done|]. rewrite <- (holds_hash _ _ _ Hs). by eapply inv_spent.
Qed.

Lemma wp_aborted tx v (s : SwapState Aborted) :
  holds s tx v -> wp id0 (advance_from_aborted id0 (inner (t_state_blob tx))) (advanced id0 tx) v.
Proof.
  intros Hs. pose proof Hs as (HI & Hv & Hr & _). pose proof (holds_phase _ _ _ Hs) as Hphase.
  assert (decode Aborted (inner (t_state_blob tx)) = Ok s) as Hd.
  { destruct Hr as (? & ? & ? & ? & ? & ->). unfold decode. simpl. by rewrite from_to_value. }
  eapply vwp_lift_ok; [apply Hd|].
  eapply vwp_seq; [apply wp_audit_phase|]. intros r v1 (e & He & -> & ->).
  pose proof (fun now => holds_next Invalidated s tx v now e Hs ltac:(done)) as Hok.
  pose proof (holds_log s tx v _ e Hs He) as Hs1.
  apply vwp_ask; [done|]. intros now v2 ->. eapply vwp_lift_ok; [done|].
  eapply vwp_seq; [apply (wp_persist _ (advance Invalidated s now (tip_hash e)) tx); [by apply Hs|done|by apply Hs|by eapply row_of_parties; [apply Hs|]]|].
  intros r v3 [(now' & -> & ->)|([m ->] & ->)]; [|by eapply holds_err]. split.
  - eapply (Inv_persisted _ s); try done; [by eapply holds_inv|by left|].
    intros Hf Hsig. exfalso. pose proof (holds_inv _ _ _ Hs) as HI'.
    destruct (inv_settle _ _ HI' Hf Hsig _ Hv) as [E|[E|E]]; by rewrite Hphase in E.
  - eexists. split; [done|]. split; [|done]. apply (moves_persisted s); try done.
    apply edge_invalidate.
Qed.

Lemma wp_invalidated tx v (s : SwapState Invalidated) :
  holds s tx v ->
  wp id0 (advance_from_invalidated self id0 (inner (t_state_blob tx))) (advanced id0 tx) v.
Proof.
  intros Hs. pose proof Hs as (HI & Hv & Hr & _). pose proof (holds_phase _ _ _ Hs) as Hphase.
  assert (decode Invalidated (inner (t_state_blob tx)) = Ok s) as Hd.
  { destruct Hr as (? & ? & ? & ? & ? & ->). unfold decode. simpl. by rewrite from_to_value. }
  eapply vwp_lift_ok; [apply Hd|].
  apply vwp_call; [done|]. intros [ps|e'] v2; [|intros ->; by eapply holds_err, holds_dead].
  intros [Hlive ->].
  set (v1 := add_event (Signed id0 RefundSession) (set_live RefundSession false v)).
  assert (holds s tx v1) as Hs1.
  { apply (holds_same _ _ _ _ Hs); try done. eapply Inv_sign; [by eapply holds_inv|done..]. }
  assert (RefundSession ∈ sigs v1) as Hsig.
  { unfold v1. rewrite sigs_event. apply elem_of_app. right. by apply list_elem_of_singleton. }
  apply vwp_call; [done|]. intros x v3 ->.
  assert (forall p, kind p = ReleaseRefund ->
    holds s tx (add_event (Dispatched p (is_ok x)) v1)) as Hs2.
  { intros p Hp. apply holds_push; [done|]. rewrite Hp. by intros ? [= <-]. }
  destruct x as [[]|e']; [|by eapply holds_err, Hs2].
  eapply vwp_seq; [apply wp_audit_phase|]. intros r v4 (e & He & -> & ->).
  pose proof (fun p Hp now => holds_next Refunded s tx _ now e (Hs2 p Hp) ltac:(done)) as Hok.
  pose proof (fun p Hp => holds_log s tx _ _ e (Hs2 p Hp) He) as Hs3.
  apply vwp_ask; [done|]. intros now v5 ->.
  eapply vwp_seq; [apply (wp_persist _ (refunded s now (tip_hash e)) tx); [by apply Hs|done|by apply Hs|by eapply row_of_parties; [apply Hs|]]|].
  intros r v6 [(now' & -> & ->)|([m ->] & ->)]; [|by eapply holds_err, Hs3].
  apply vwp_call; [done|]. intros x v7 [-> ->].
  eapply vwp_seq; [apply wp_close_htlc|]. intros r v8 [-> ->]. split.
  - apply Inv_dead. eapply (Inv_persisted _ s); try done; [by eapply holds_inv, Hs3|by apply Hok|by right| |].
    2:{ intros _. match goal with |- _ ∈ sigs (add_log _ ?w) => change (RefundSession ∈ sigs w) end.
        rewrite sigs_event. apply elem_of_app. by left. }
    simpl. intros Hf Hsg. exfalso. pose proof (holds_inv _ _ _ Hs1) as HI'.
    destruct (inv_settle _ _ HI' Hf) with (tx := tx) as [E|[E|E]]; try done; try by rewrite Hphase in E.
    unfold sigs in *. simpl in *. unfold sigs_of in *. rewrite omap_app in Hsg. simpl in Hsg.
    by rewrite app_nil_r in Hsg.
  - eexists. split; [done|]. split; [done|]. apply (moves_persisted s); try done. apply edge_refund.
Qed.
End Advance.

(** ** A whole [advance_swap] *)

Definition early (phase : string) : Prop :=
  phase = "init" \/ phase = "zkps-verified" \/ phase = "pre-checked".

Lemma wp_advance id0 tx v :
  Inv id0 v -> v_row v = Some tx ->
  wp id0 (advance_swap self id0) (fun r v' =>
    (t_terminal tx = true /\ r = Ok (terminal_outcome id0 tx) /\ is_Some (terminal_outcome id0 tx) /\ v' = v) \/
    (early (t_phase tx) /\ r = Ok None /\ v' = v) \/
    (t_terminal tx = false /\ advanced id0 tx r v')) v.
Proof.
  intros HI Hv. destruct (inv_row _ _ HI _ Hv) as [(P & s & Hr & Hok)|(_ & Hph & _ & Hterm & _)].
  - assert (holds id0 s tx v) as Hs by done. pose proof Hr as (now & c & re & by_fp & h & Etx).
    apply vwp_call; [done|]. intros x v' [-> ->]. apply vwp_lift. rewrite Hv. subst tx.
    destruct P; cbn [ok_or tried t_phase row_for NAME String.eqb Ascii.eqb Bool.eqb].
    + right. left. by repeat split; left.
    + right. left. by repeat split; right; left.
    + right. left. by repeat split; right; right.
    + eapply vwp_mono; [by apply wp_insert_pushed with s|]. intros r v' Ha. right. by right.
    + left. simpl. eauto.
    + eapply vwp_mono; [by apply wp_aborted with s|]. intros r v' Ha. right. by right.
    + eapply vwp_mono; [by apply wp_invalidated with s|]. intros r v' Ha. right. by right.
    + left. simpl. eauto.
    + by destruct Hok as [Hc _].
  - apply vwp_call; [done|]. intros x v' [-> ->]. apply vwp_lift. rewrite Hv. simpl tried. rewrite Hph.
    left. unfold terminal_outcome. rewrite Hph. simpl. eauto.
Qed.

(** ** Initiation *)

Definition unused_view (v : View) : Prop :=
  v_row v = None /\ v_settle v = false /\ v_refund v = false /\ v_log v = [] /\ v_events v = [].

Lemma Inv_unused id0 v : unused_view v -> Inv id0 v.
Proof.
  intros (Hr & Hs & Hf & Hl & He).
  assert (sigs v = []) as Es by (unfold sigs; by rewrite He).
  assert (releases v = []) as Er by (unfold releases; by rewrite He).
  split; rewrite ?Hr, ?Hl, ?Es, ?Er; try done; try apply linked_nil; try apply NoDup_nil_2;
    try (by intros ? ?%not_elem_of_nil); try (by intros ?%not_elem_of_nil);
    by intros _ ?%not_elem_of_nil.
Qed.

(** How a failed initiation leaves the swap. *)
Definition abandoned (id0 : SwapId) (v : View) : Prop :=
  Inv id0 v /\ forall tx, v_row v = Some tx -> early (t_phase tx).

Lemma holds_abandoned id0 {P} (s : SwapState P) tx v :
  holds id0 s tx v -> early (NAME P) -> abandoned id0 v.
Proof.
  intros Hs He. split; [apply Hs|]. intros tx' Htx'. destruct Hs as (_ & Hv & Hr & _).
  destruct Hr as (? & ? & ? & ? & ? & ->). simplify_eq. done.
Qed.

(** Writing the next state of an initiation. *)
Lemma holds_persisted id0 {P Q} (s : SwapState P) (s' : SwapState Q) tx v now :
  holds id0 s tx v -> early (NAME P) -> bob s' = bob s -> state_ok id0 v s' ->
  Q <> Aborted -> Q <> Settled -> Q <> Refunded -> holds id0 s' (persisted s' now tx) (set_row (persisted s' now tx) v).
Proof.
  intros Hs He Hb Hok HA HS HRf. pose proof (holds_phase _ _ _ _ Hs) as Hp.
  pose proof Hs as (HI & Hv & Hr & _).
  split; [|split; [done|split; [apply row_of_persisted|done]]].
  eapply (Inv_persisted id0 s); try done.
  - intros Hsig. exfalso. destruct (inv_refund _ _ HI Hsig _ Hv) as [E|E]; rewrite Hp in E;
      destruct P; destruct He as [?|[?|?]]; done.
  - intros Hf Hsig. exfalso. destruct (inv_settle _ _ HI Hf Hsig _ Hv) as [E|[E|E]]; rewrite Hp in E;
      destruct P; destruct He as [?|[?|?]]; done.
Qed.

Definition initiated (id0 : SwapId) (P : Phase) (r : res (SwapState P)) (v : View) : Prop :=
  match r with
  | Ok s => exists tx, holds id0 s tx v
  | Err _ => abandoned id0 v
  end.

Lemma wp_mint_backup id0 now_unix p (s : SwapState SwapInit) tx v :
  holds id0 s tx v ->
  wp id0 (mint_backup self id0 now_unix p) (fun _ v' => exists tx', holds id0 s tx' v') v.
Proof.
  intros Hs. eapply (vwp_attempt K id0 _ _ (fun _ v' => v' = v)).
  { simpl. split; [done|]. by intros x v' ->. }
  intros r v' ->. destruct (default None (result_ok r)) as [cid|]; [|by exists tx].
  apply vwp_call; [done|]. intros x v' [-> ->]. pose proof Hs as (HI & Hv & Hr & Hok). rewrite Hv.
  pose proof Hr as (now & c & re & b & h & ->). simpl.
  split; [split; [by destruct Hok as (_ & <- & _)|rewrite Hv; by intros old [= <-]]|].
  intros [[]|e] v'; [intros ->|intros [_ ->]; eauto].
  assert (row_of s (set_htlc (row_for s now c re b h) (Some cid))) as Hr' by (by repeat eexists).
  eexists. split; [|split; [done|split; [apply Hr'|apply Hok]]].
  eapply Inv_row; try done; [left; by exists SwapInit, s|..].
  - intros Hsig. by destruct (inv_refund _ _ HI Hsig _ Hv).
  - intros Hf Hsig. by destruct (inv_settle _ _ HI Hf Hsig _ Hv) as [?|[?|?]].
Qed.

Lemma wp_start_init id0 now_unix p b a n v :
  unused_view v ->
  wp id0 (start_init self id0 now_unix p b a n) (initiated id0 SwapInit) v.
Proof.
  intros (Hrow & Hset & Href & Hlog & Hev).
  assert (Inv id0 v) as HI by (by apply Inv_unused).
  assert (forall v', Inv id0 v' -> v_row v' = None -> abandoned id0 v') as Habn
    by (intros v' HI' Hn; split; [done|by rewrite Hn]).
  assert (sigs v = []) as Hsig by (unfold sigs; by rewrite Hev).
  apply vwp_call; [done|]. intros [pn|e] v1; [intros [_ ->]|intros ->; by apply Habn].
  assert (Inv id0 (set_live SettleSession true v)) as HI1 by (by apply Inv_begin).
  apply vwp_call; [done|]. intros [pn'|e] v1; [intros [_ ->]|intros ->; by apply Habn].
  assert (Inv id0 (set_live RefundSession true (set_live SettleSession true v))) as HI2
    by (by apply Inv_begin).
  eapply vwp_seq; [by apply wp_append|]. intros r v2 (e & He & -> & ->).
  set (v3 := add_log e _).
  assert (Inv id0 v3) as HI3.
  { destruct He as (_ & Hph & Hpr & Hs). apply Inv_log; [done|done|]. left. simpl. by rewrite Hlog. }
  unfold tried. cbv beta iota zeta. set (s := initiate _ _ _ _ _ _ _ _).
  eapply vwp_seq; [by apply wp_persist_init|].
  intros r v4 [(now' & -> & ->)|([m ->] & ->)]; [|by apply Habn].
  assert (state_ok id0 v3 s) as Hok.
  { split; [done|]. split; [done|]. split; [apply tips_last|].
    unfold attempts_ok. simpl. lia. }
  set (tx := row_for s now' _ _ _ _).
  assert (holds id0 s tx (set_row tx v3)) as Hh.
  { split; [apply Inv_first; [done|done|left; exists SwapInit, s; split; [by repeat eexists|done]|by split]|].
    split; [done|]. split; [by repeat eexists|done]. }
  apply vwp_call; [done|]. intros [?|e'] v5 ->; [|eapply (holds_abandoned id0 s tx); [done|by left]].
  eapply vwp_seq; [by eapply wp_mint_backup|]. intros [?|e'] v6 [tx' Hh'].
  - by exists tx'.
  - eapply (holds_abandoned id0 s tx'); [done|by left].
Qed.

Lemma wp_start_zkps id0 (s : SwapState SwapInit) tx v :
  holds id0 s tx v -> wp id0 (start_zkps id0 s) (initiated id0 ZkpsVerified) v.
Proof.
  intros Hs. assert (early (NAME SwapInit)) as Hearly by (by left).
  apply vwp_call; [done|]. intros [ok_bob|e] v1 ->; [|by eapply holds_abandoned].
  apply vwp_call; [done|]. intros [ok_alice|e] v1 ->; [|by eapply holds_abandoned].
  eapply vwp_seq; [apply wp_audit_phase|]. intros r v1 (e & He & -> & ->).
  pose proof (fun now => holds_next id0 ZkpsVerified s tx v now e Hs ltac:(done)) as Hok.
  pose proof (holds_log id0 s tx v _ e Hs He) as Hs1.
  apply vwp_ask; [done|]. intros now v2 ->. apply vwp_lift. unfold verify_zkps.
  destruct (ok_bob && ok_alice); [|by eapply holds_abandoned].
  eapply vwp_seq; [apply (wp_persist id0 (advance ZkpsVerified s now (tip_hash e)) tx);
    [by apply Hs|done|by apply Hs1|by eapply row_of_parties; [apply Hs|]]|].
  intros r v3 [(now' & -> & ->)|([m ->] & ->)]; [|by eapply holds_abandoned].
  eexists. by eapply holds_persisted.
Qed.

Lemma wp_start_pre_check id0 (s : SwapState ZkpsVerified) tx v :
  holds id0 s tx v -> wp id0 (start_pre_check id0 s) (initiated id0 PreChecked) v.
Proof.
  intros Hs. assert (early (NAME ZkpsVerified)) as Hearly by (by right; left).
  apply vwp_call; [done|]. intros [a|e] v1 Hv1; simpl in Hv1; subst v1; [|by eapply holds_abandoned].
  pose proof (holds_check id0 s tx v (h_b (bob s)) a Hs) as Hs0.
  eapply vwp_seq; [apply wp_audit_phase|]. intros r v1 (e & He & -> & ->).
  pose proof (fun now => holds_next id0 PreChecked s tx _ now e Hs0 ltac:(done)) as Hok.
  pose proof (holds_log id0 s tx _ _ e Hs0 He) as Hs1.
  apply vwp_ask; [done|]. intros now v2 ->. apply vwp_lift. unfold pre_check.
  destruct (bool_decide _); [|by eapply holds_abandoned].
  eapply vwp_seq; [apply (wp_persist id0 (advance PreChecked s now (tip_hash e)) tx);
    [by apply Hs|done|by apply Hs1|by eapply row_of_parties; [apply Hs|]]|].
  intros r v3 [(now' & -> & ->)|([m ->] & ->)]; [|by eapply holds_abandoned].
  eexists. by eapply holds_persisted.
Qed.

Definition pushed (id0 : SwapId) {A} (r : res A) (v : View) : Prop :=
  match r with
  | Ok _ => exists (s : SwapState InsertPushed) tx, holds id0 s tx v /\ insert_push_attempts s = 1
  | Err _ => abandoned id0 v
  end.

Lemma wp_start_push id0 (s : SwapState PreChecked) tx v :
  holds id0 s tx v -> wp id0 (start_push self id0 s) (pushed id0) v.
Proof.
  intros Hs. assert (early (NAME PreChecked)) as Hearly by (by right; right).
  apply vwp_call; [done|]. intros x v1 ->.
  assert (holds id0 s tx (add_event (Dispatched (insert_push self id0 s) (is_ok x)) v)) as Hs0
    by (by apply holds_push).
  destruct x as [[]|e]; [|by eapply holds_abandoned].
  eapply vwp_seq; [apply wp_audit_phase|]. intros r v1 (e & He & -> & ->).
  pose proof (holds_log id0 s tx _ _ e Hs0 He) as Hs1.
  apply vwp_ask; [done|]. intros now v2 ->.
  set (s' := insert_pushed_from_pre s now (tip_hash e)).
  eapply vwp_mono; [apply (wp_persist id0 s' tx); [by apply Hs|done|by apply Hs1|by eapply row_of_parties; [apply Hs|]]|].
  intros r v3 [(now' & -> & ->)|([m ->] & ->)]; [|by eapply holds_abandoned].
  exists s'. eexists. split; [|done]. eapply holds_persisted; try done.
  split; [done|]. split; [by apply Hs|]. split; [apply tips_last|].
  unfold attempts_ok. simpl. lia.
Qed.

(** [start_swap] after the clock and the fresh identifier. *)
Definition start_with (id : SwapId) (now_unix : Z) (p : Parties) (b : BobPayload) (a : AlicePayload)
    (n : AliceMusig2Nonces) : M SwapId :=
  initial ← start_init self id now_unix p b a n;
  zkps_state ← start_zkps id initial;
  pre_state ← start_pre_check id zkps_state;
  _ ← start_push self id pre_state;
  mret id.

Lemma wp_start_with id0 now_unix p b a n v :
  unused_view v ->
  wp id0 (start_with id0 now_unix p b a n)
    (fun r v' => (forall i, r = Ok i -> i = id0) /\ pushed id0 r v') v.
Proof.
  intros Hu. eapply vwp_seq; [by apply wp_start_init|]. intros [s|e] v1; [|by intros ?].
  intros [tx Hs]. eapply vwp_seq; [by eapply wp_start_zkps|]. intros [s1|e] v2; [|by intros ?].
  intros [tx1 Hs1]. eapply vwp_seq; [by eapply wp_start_pre_check|]. intros [s2|e] v3; [|by intros ?].
  intros [tx2 Hs2]. eapply vwp_seq; [by eapply wp_start_push|]. intros [[]|e] v4 Hp; [|done].
  split; [by intros ? [= ->]|done].
Qed.

(** ** Cancellation *)

Lemma wp_cancel_commit id0 tx p by_fp reason v :
  Inv id0 v -> v_row v = Some tx -> t_terminal tx = false ->
  t_phase tx <> "aborted" -> t_phase tx <> "invalidated" ->
  wp id0 (cancel_commit self id0 tx p by_fp reason) (fun r v' => Inv id0 v' /\
    ((exists tip now, r = Ok tt /\ v_row v' = Some (canceled_row tx by_fp reason tip now) /\
        v_settle v' = false /\ v_refund v' = false) \/
     (exists m, r = Err (Store m)) /\ v_row v' = Some tx /\ v_settle v' = v_settle v /\
        v_refund v' = v_refund v)) v.
Proof.
  intros HI Hv Hterm Hna Hni.
  destruct (inv_row _ _ HI _ Hv) as [(P & s & Hr & Hok)|(_ & _ & _ & Ht & _)]; [|congruence].
  pose proof Hr as (now0 & c & re & b & h & Etx).
  assert (Inv id0 v /\ v_row v = Some tx /\ row_of s tx /\ state_ok id0 v s) as Hs by done.
  apply vwp_ask; [done|]. intros now v1 ->.
  eapply vwp_seq; [apply wp_audit_phase|]. intros r v1 (e & He & -> & ->).
  assert (holds id0 s tx (add_log e v)) as Hs1.
  { eapply holds_log; [done|]. replace (audit_tip_hex s) with
      (default "" (value_get (inner (t_state_blob tx)) "audit_tip_hex" ≫= value_as_str)); [done|].
    subst tx. simpl. by rewrite get_audit_tip. }
  destruct Hs1 as (HI1 & Hv1 & _ & _ & _ & _ & Hat).
  apply vwp_call.
  { simpl. rewrite Hv. split; [subst tx; apply Hok|by intros old [= <-]]. }
  intros [[]|e'] v2; [intros ->|intros [[m ->] ->]; split; [done|]; right; by split; [eauto|]].
  set (tx' := canceled_row _ _ _ _ _).
  assert (Inv id0 (set_row tx' (add_log e v))) as HI2.
  { eapply Inv_row; try done.
    - right. subst tx. split; [apply Hok|]. do 3 (split; [done|]). split; [apply Hok|].
      exists (tip_hash e). split; [|apply tips_last]. apply cancel_blob_tip.
    - intros Hsig. exfalso. destruct (inv_refund _ _ HI1 Hsig _ Hv1) as [E|E]; [done|].
      subst tx. by destruct P.
    - by right; right. }
  assert (forall v', v_row v' = Some tx' -> Inv id0 v' ->
    wp id0 (_ ← attempt (call (DiscardSession id0 SettleSession));
            _ ← attempt (call (DiscardSession id0 RefundSession));
            close_htlc_if_any id0 CloseCancel) (fun r v'' => Inv id0 v'' /\
      ((exists tip now, r = Ok tt /\ v_row v'' = Some (canceled_row tx by_fp reason tip now) /\
        v_settle v'' = false /\ v_refund v'' = false) \/
       (exists m, r = Err (Store m)) /\ v_row v'' = Some tx /\ v_settle v'' = v_settle v /\
        v_refund v'' = v_refund v)) v') as Htail.
  { intros v' Hrow' HI'.
    eapply (vwp_attempt K id0 _ _ (fun _ w => w = set_live SettleSession false v')).
    { simpl. split; [done|]. by intros x w [_ ->]. }
    intros r w ->.
    eapply (vwp_attempt K id0 _ _ (fun _ w => w = set_live RefundSession false (set_live SettleSession false v'))).
    { simpl. split; [done|]. by intros x w [_ ->]. }
    intros r' w ->. eapply vwp_mono; [apply wp_close_htlc|]. intros r'' w [-> ->].
    split; [by apply (Inv_dead id0 _ RefundSession), (Inv_dead id0 _ SettleSession)|].
    left. exists (tip_hash e), now. by repeat split. }
  unfold tried. destruct (_ && _); [|by apply Htail].
  eapply vwp_attempt; [|intros r w Hw; apply Hw]. simpl. split; [done|].
  intros x w ->. apply Htail; [done|]. by apply Inv_push.
Qed.
End Facts.
