(* ===== verification/RefereeSafety.v ===== *)
(** * The referee over a sequence of requests

    The states the referee reaches by serving initiate, advance and cancel
    requests one after the other, from empty backends and in any external
    world, and the properties of its swaps. *)
From S2P Require Import Prelude Decimal External RefereeState RefereeWorld RefereeView Orchestrator.
From S2P Require Import RefereeFacts.

Inductive request :=
  | ReqStart (p : Parties) (b : BobPayload) (a : AlicePayload) (n : AliceMusig2Nonces)
  | ReqAdvance (id : SwapId)
  | ReqCancel (id : SwapId) (by_fp : PgpFingerprint) (reason sig_hex : string).

Section Safety.
Context `{SwapJson, Hashing, Ed25519, Ed25519Signer, EntryCodec, Musig2Crate, Base64Standard}.
Context {W : Type} `{World W} `{!SwapJsonLaws}.
Variable K : Keys.
Variable self : Orchestrator.

Notation Referee := (St (W := W)).

Definition serve (rq : request) (st : Referee) : Referee :=
  match rq with
  | ReqStart p b a n => (run K (start_swap self p b a n) st).2
  | ReqAdvance id => (run K (advance_swap self id) st).2
  | ReqCancel id by_fp reason sig_hex => (run K (cancel_swap self id by_fp reason sig_hex) st).2
  end.

(** The identifier the next [Uuid::new_v4] gives, and that it is a new one. *)
Definition next_id (st : Referee) : SwapId := mk_id (w_uuid (w_now (world st)).2).1.

Definition unused (id : SwapId) (st : Referee) : Prop := unused_view (view id st).

Inductive reachable : Referee -> Prop :=
  | reach_init w : reachable (mk_st empty_store [] ∅ [] w)
  | reach_serve st rq :
      reachable st ->
      (forall p b a n, rq = ReqStart p b a n -> unused (next_id st) st) ->
      reachable (serve rq st).

(** ** The invariant of every swap *)

Hypothesis Hretry : u8_range (insert_push_retry self).

Notation Inv := (Inv K self).

Lemma Inv_frame id0 v v' : Inv id0 v -> frame v v' -> Inv id0 v'.
Proof.
  intros HI [c ->]. revert v HI. induction c as [|[h a] c IH]; intros v HI.
  - rewrite app_nil_r. by destruct v.
  - replace (v_checked v ++ (h, a) :: c) with (v_checked (add_check h a v) ++ c)
      by (simpl; by rewrite <- app_assoc).
    apply (IH (add_check h a v)). by apply Inv_check.
Qed.

(** A program that keeps the invariant of its own swap keeps every one. *)
Lemma run_inv id0 {A} (p : prog A) (Q : A -> View -> Prop) st :
  (forall id, Inv id (view id st)) -> store_ok (store st) ->
  vwp K id0 p Q (view id0 st) -> (forall a v, Q a v -> Inv id0 v) ->
  (forall id, Inv id (view id (run K p st).2)) /\ store_ok (store (run K p st).2).
Proof.
  intros HI Hok Hw HQ. pose proof (vwp_run K id0 p Q st Hw) as Hr.
  destruct (run K p st) as [a st']. destruct Hr as (Ha & Hf & Hs). simpl.
  split; [|by apply Hs]. intros id. destruct (decide (id = id0)) as [->|Hne]; [by eapply HQ|].
  eapply Inv_frame; [apply HI|by apply Hf].
Qed.

Lemma start_run p b a n st :
  exists now st', run K (start_swap self p b a n) st =
      run K (start_with self (next_id st) now p b a n) st' /\
    store st' = store st /\ audit st' = audit st /\ forall id, view id st' = view id st.
Proof.
  unfold next_id, start_swap, start_with. destruct (w_now (world st)) as [now w1] eqn:En.
  destruct (w_uuid w1) as [u w2] eqn:Eu.
  exists now, (mk_st (store st) (audit st) (sessions st) (events st) w2). simpl.
  split; [|done].
  unfold ask, mbind, M_bind. simpl. unfold from_world at 1. rewrite En. simpl. rewrite Eu.
  unfold set_world. simpl. by rewrite app_nil_r.
Qed.

Lemma wp_advance_unknown id0 v :
  v_row v = None ->
  vwp K id0 (advance_swap self id0) (fun r v' => r = Err (unknown_swap id0) /\ v' = v) v.
Proof.
  intros Hn. apply vwp_call; [done|]. intros x v' [-> ->]. apply vwp_lift. by rewrite Hn.
Qed.

Lemma wp_advance_inv id0 v :
  Inv id0 v -> vwp K id0 (advance_swap self id0) (fun _ v' => Inv id0 v') v.
Proof.
  intros HI. destruct (v_row v) as [tx|] eqn:E.
  - eapply vwp_mono; [by apply wp_advance|].
    intros r v' [(_ & _ & _ & ->)|[(_ & _ & ->)|(_ & Ha & _)]]; done.
  - eapply vwp_mono; [by apply wp_advance_unknown|]. by intros r v' [_ ->].
Qed.

(** The checks of [cancel_swap], and the policy they implement. *)
Definition row_parties (tx : Transaction) : result string Parties :=
  parties_from_value (default VNull (value_get (inner (t_state_blob tx)) "parties")).

Definition signed_by (key : string) (id : SwapId) (by_fp : PgpFingerprint) (reason sig : string) : Prop :=
  verify_party_signature key (party_cancel_message (id_str id) (fp_hex by_fp) reason) sig = Ok tt.

Definition cancel_allowed (id : SwapId) (tx : Transaction) (p : Parties) (by_fp : PgpFingerprint)
    (reason sig : string) : Prop :=
  t_terminal tx = false /\ row_parties tx = Ok p /\
  ((by_fp = bob_pgp_fp p /\ (early (t_phase tx) \/ t_phase tx = "insert-pushed") /\
      signed_by (bob_cancel_pubkey_hex p) id by_fp reason sig) \/
   (by_fp <> bob_pgp_fp p /\ by_fp = alice_pgp_fp p /\ early (t_phase tx) /\
      signed_by (alice_cancel_pubkey_hex p) id by_fp reason sig)).

Lemma cancel_eligible_spec phase is_bob :
  cancel_eligible phase is_bob = Ok tt <->
  early phase \/ (phase = "insert-pushed" /\ is_bob = true).
Proof.
  unfold cancel_eligible, early.
  destruct (phase =? "init")%string eqn:E1, (phase =? "zkps-verified")%string eqn:E2,
    (phase =? "pre-checked")%string eqn:E3; bools; simpl; try naive_solver.
  destruct (phase =? "insert-pushed")%string eqn:E4; bools; destruct is_bob; naive_solver.
Qed.

(** The checks read the row only: either one fails and nothing has changed, or
    the swap is canceled under the policy. *)
Lemma cancel_checks id by_fp reason sig st tx :
  get (store st) id = Some tx ->
  (exists p, cancel_allowed id tx p by_fp reason sig /\
     run K (cancel_swap self id by_fp reason sig) st = run K (cancel_commit self id tx p by_fp reason) st) \/
  ((forall p, ~ cancel_allowed id tx p by_fp reason sig) /\
     exists e, run K (cancel_swap self id by_fp reason sig) st = (Err e, st)).
Proof.
  intros Hget. unfold cancel_swap, call, lift, mbind, M_bind. simpl. rewrite Hget. simpl.
  destruct (t_terminal tx) eqn:Et.
  { right. split; [|by eexists]. intros p (? & _). congruence. }
  fold (row_parties tx).
  destruct (row_parties tx) as [p|e] eqn:Ep; simpl;
    [|right; split; [|by eexists]; intros p (_ & ? & _); congruence].
  assert (forall p', cancel_allowed id tx p' by_fp reason sig -> p' = p) as Hp
    by (intros p' (_ & ? & _); congruence).
  unfold cancel_party.
  destruct (decide (by_fp = bob_pgp_fp p)) as [Hb|Hb]; simpl.
  - destruct (cancel_eligible (t_phase tx) true) as [[]|e] eqn:Ee; simpl.
    + apply cancel_eligible_spec in Ee.
      destruct (verify_party_signature _ _ _) as [[]|e] eqn:Ev; simpl.
      * left. exists p. split; [|done]. split; [done|split; [done|]]. left. naive_solver.
      * right. split; [|by eexists]. intros p' Hc. pose proof (Hp _ Hc) as ->.
        destruct Hc as (_ & _ & [(_ & _ & Hs)|[? _]]); [|done]. unfold signed_by in Hs. congruence.
    + right. split; [|by eexists]. intros p' Hc. pose proof (Hp _ Hc) as ->.
      assert (cancel_eligible (t_phase tx) true = Ok tt) as Ee'; [|congruence].
      apply cancel_eligible_spec. destruct Hc as (_ & _ & [(_ & ? & _)|[? _]]); naive_solver.
  - destruct (decide (by_fp = alice_pgp_fp p)) as [Ha|Ha]; simpl.
    2: { right. split; [|by eexists]. intros p' Hc. pose proof (Hp _ Hc) as ->.
         destruct Hc as (_ & _ & [[? _]|(_ & ? & _)]); done. }
    destruct (cancel_eligible (t_phase tx) false) as [[]|e] eqn:Ee; simpl.
    + apply cancel_eligible_spec in Ee.
      destruct (verify_party_signature _ _ _) as [[]|e] eqn:Ev; simpl.
      * left. exists p. split; [|done]. split; [done|split; [done|]]. right. naive_solver.
      * right. split; [|by eexists]. intros p' Hc. pose proof (Hp _ Hc) as ->.
        destruct Hc as (_ & _ & [[? _]|(_ & _ & _ & Hs)]); [done|]. unfold signed_by in Hs. congruence.
    + right. split; [|by eexists]. intros p' Hc. pose proof (Hp _ Hc) as ->.
      assert (cancel_eligible (t_phase tx) false = Ok tt) as Ee'; [|congruence].
      apply cancel_eligible_spec. destruct Hc as (_ & _ & [[? _]|(_ & _ & ? & _)]); naive_solver.
Qed.

Lemma cancel_allowed_phase id tx p by_fp reason sig :
  cancel_allowed id tx p by_fp reason sig -> t_phase tx <> "aborted" /\ t_phase tx <> "invalidated".
Proof.
  unfold cancel_allowed, early. intros (_ & _ & Hc).
  split; intros E; rewrite E in Hc; destruct Hc as [(_ & Hc & _)|(_ & _ & Hc & _)]; naive_solver.
Qed.

Lemma cancel_unknown id by_fp reason sig st :
  get (store st) id = None ->
  run K (cancel_swap self id by_fp reason sig) st = (Err (unknown_swap id), st).
Proof. intros Hget. unfold cancel_swap, call, lift, mbind, M_bind. simpl. by rewrite Hget. Qed.

Lemma serve_inv rq st :
  (forall p b a n, rq = ReqStart p b a n -> unused (next_id st) st) ->
  (forall id, Inv id (view id st)) -> store_ok (store st) ->
  (forall id, Inv id (view id (serve rq st))) /\ store_ok (store (serve rq st)).
Proof.
  intros Hu HI Hok. destruct rq as [p b a n|id|id by_fp reason sig]; unfold serve.
  - destruct (start_run p b a n st) as (now & st' & -> & Es & _ & Ev).
    eapply run_inv; [by intros id; rewrite Ev|by rewrite Es|by apply wp_start_with; rewrite Ev; eapply Hu|].
    intros r v [_ Hp]. destruct r; [destruct Hp as (? & ? & Hp & _)|]; apply Hp.
  - eapply run_inv; [done|done|by apply wp_advance_inv|done].
  - destruct (get (store st) id) as [tx|] eqn:E; [|by rewrite cancel_unknown].
    destruct (cancel_checks id by_fp reason sig st tx E) as [(p & Hc & ->)|[_ [e ->]]]; [|done].
    pose proof (cancel_allowed_phase _ _ _ _ _ _ Hc) as [Hna Hni].
    eapply run_inv; [done|done|apply (wp_cancel_commit K self id tx p by_fp reason (view id st));
      [done|done|apply Hc|done|done]|]. by intros r v [? _].
Qed.

Lemma reachable_ok st :
  reachable st -> (forall id, Inv id (view id st)) /\ store_ok (store st).
Proof.
  induction 1 as [w|st rq Hr [IH1 IH2] Hu]; [|by apply serve_inv].
  split.
  - intros id. apply Inv_unused. done.
  - repeat split; simpl; try by intros ? ?; rewrite lookup_empty.
    + rewrite lookup_empty. simpl. by intros ?%not_elem_of_empty.
    + intros (? & E & _). by rewrite lookup_empty in E.
    + rewrite lookup_empty. simpl. by intros ?%not_elem_of_empty.
    + intros (? & E & _). by rewrite lookup_empty in E.
Qed.

(** ** Reading the view back *)

Lemma handle_audit_grows {X} (r : Req X) (st : Referee) : audit st `prefix_of` audit (handle K r st).2.
Proof.
  destruct r; simpl; unfold from_world;
    try (destruct (w_seed _); destruct (begin_session _ _ _ _ _));
    try (destruct (partial_sign _ _ _ _ _ _ _));
    repeat case_match; simplify_eq/=; try done. by apply prefix_app_r.
Qed.


Lemma signed_event id s (st : Referee) : Signed id s ∈ events st <-> s ∈ sigs (view id st).
Proof.
  unfold sigs, sigs_of, view. simpl. rewrite list_elem_of_omap. setoid_rewrite list_elem_of_filter. split.
  - intros Hin. exists (Signed id s). simpl. by rewrite bool_decide_true.
  - intros (e & [He Hin] & Es). destruct e as [|i s'|]; simplify_eq/=. by bools; subst.
Qed.

Lemma dispatched_event p b s (st : Referee) :
  Dispatched p b ∈ events st -> release_of (kind p) = Some s -> s ∈ releases (view (push_swap_id p) st).
Proof.
  intros Hin Hk. unfold releases, releases_of, view. simpl. rewrite list_elem_of_omap.
  exists (Dispatched p b). split; [|done]. apply list_elem_of_filter. simpl. by rewrite bool_decide_true.
Qed.

Lemma row_ok_attempts id v tx : row_ok self id v tx -> attempts_ok self (t_insert_push_attempts tx).
Proof.
  intros [(P & s & (? & ? & ? & ? & ? & ->) & _ & _ & _ & Ha)|(_ & _ & _ & _ & Ha & _)]; done.
Qed.

(** What one call of [advance_swap] does to the row it finds. *)
Definition step_of (id : SwapId) (tx : Transaction) (r : res (option SwapOutcome)) (tx' : Transaction)
  : Prop :=
  match r with
  | Ok (Some o) => terminal_outcome id tx' = Some o /\ (tx' = tx \/ moves self tx tx')
  | Ok None => t_terminal tx' = false /\ (moves self tx tx' \/ early (t_phase tx) /\ tx' = tx)
  | Err _ => tx' = tx \/ moves self tx tx'
  end.

Lemma early_pending id v tx : row_ok self id v tx -> early (t_phase tx) -> t_terminal tx = false.
Proof.
  intros [(P & s & (? & ? & ? & ? & ? & ->) & _)|(_ & E & _)] He.
  - simpl in *. by destruct P; destruct He as [?|[?|?]].
  - rewrite E in He. by destruct He as [?|[?|?]].
Qed.

Lemma advance_step id st tx r st' :
  reachable st -> get (store st) id = Some tx -> run K (advance_swap self id) st = (r, st') ->
  (exists tx', get (store st') id = Some tx' /\ step_of id tx r tx' /\
     (t_terminal tx = true -> tx' = tx /\ r = Ok (terminal_outcome id tx))) /\
  (forall id', id' <> id -> get (store st') id' = get (store st) id').
Proof.
  intros Hr Hget Hrun. destruct (reachable_ok st Hr) as [HI _].
  pose proof (vwp_run K id _ _ st (wp_advance K self Hretry id tx (view id st) (HI id) Hget)) as Hw.
  rewrite Hrun in Hw. destruct Hw as (Hw & Hf & _). split.
  - destruct Hw as [(Ht & -> & [o Ho] & Ev)|[(He & -> & Ev)|(Ht & _ & tx' & Hrow & Hres)]].
    + exists tx. split; [change (v_row (view id st') = Some tx); by rewrite Ev|].
      rewrite Ho. split; [|done]. split; [done|by left].
    + exists tx. split; [change (v_row (view id st') = Some tx); by rewrite Ev|].
      assert (t_terminal tx = false) as Ht by exact (early_pending id (view id st) tx (inv_row _ _ _ _ (HI id) tx Hget) He).
      split; [split; [done|by right]|congruence].
    + exists tx'. split; [done|]. split; [|congruence].
      destruct r as [[o|]|e]; simpl; [destruct Hres; by split; [|right]|destruct Hres; by split; [|left]|done].
  - intros id' Hne. destruct (Hf id' Hne) as [c Ec].
    change (v_row (view id' st') = v_row (view id' st)). by rewrite Ec.
Qed.

(** A terminal swap: nothing at all happens. *)
Lemma advance_terminal id st tx :
  get (store st) id = Some tx -> terminal_outcome id tx <> None ->
  run K (advance_swap self id) st = (Ok (terminal_outcome id tx), st).
Proof.
  intros Hget Ht. unfold advance_swap, call, lift, mbind, M_bind. simpl. rewrite Hget. simpl.
  unfold terminal_outcome in *.
  destruct (t_phase tx =? "settled")%string; [done|].
  destruct (t_phase tx =? "refunded")%string; [done|].
  by destruct (t_phase tx =? "canceled")%string.
Qed.

Lemma terminal_outcome_iff id st tx :
  reachable st -> get (store st) id = Some tx ->
  t_terminal tx = true <-> terminal_outcome id tx <> None.
Proof.
  intros Hr Hget. destruct (reachable_ok st Hr) as [HI _].
  destruct (inv_row _ _ _ _ (HI id) _ Hget) as [(P & s & (? & ? & ? & ? & ? & ->) & _)|(_ & E & _ & Et & _)].
  - simpl. unfold terminal_outcome. simpl. by destruct P.
  - unfold terminal_outcome. by rewrite E, Et.
Qed.

(** ** Properties *)

(** C30: [advance_swap] moves a swap along one edge of the phase graph or leaves its
    row alone; it answers an outcome exactly when the row is then in the phase
    of that outcome; a terminal swap is answered without any effect; the other
    swaps keep their rows, and the attempts stay within the retry budget. *)
Theorem advance_follows_graph id st tx r st' :
  reachable st -> get (store st) id = Some tx -> run K (advance_swap self id) st = (r, st') ->
  exists tx', get (store st') id = Some tx' /\
    (t_terminal tx = true -> st' = st /\ r = Ok (terminal_outcome id tx)) /\
    match r with
    | Ok (Some o) => terminal_outcome id tx' = Some o /\ (tx' = tx \/ moves self tx tx')
    | Ok None => t_terminal tx' = false /\ (moves self tx tx' \/ early (t_phase tx) /\ tx' = tx)
    | Err _ => tx' = tx \/ moves self tx tx'
    end /\
    0 <= t_insert_push_attempts tx' <= Z.max 1 (insert_push_retry self) /\
    forall id', id' <> id -> get (store st') id' = get (store st) id'.
Proof.
  intros Hr Hget Hrun.
  destruct (advance_step id st tx r st' Hr Hget Hrun) as [(tx' & Hget' & Hstep & _) Hoth].
  exists tx'. split; [done|]. split; [|split; [done|split; [|done]]].
  - intros Ht%(terminal_outcome_iff id st tx Hr Hget).
    rewrite (advance_terminal id st tx Hget Ht) in Hrun. by simplify_eq.
  - assert (reachable st') as Hr'.
    { replace st' with (serve (ReqAdvance id) st) by (unfold serve; by rewrite Hrun).
      by apply reach_serve. }
    destruct (reachable_ok st' Hr') as [HI' _].
    eapply (row_ok_attempts id). eapply inv_row; [apply HI'|done].
Qed.

(** C26: While the webcash server never takes a report of [Spent] back, the referee
    never produces both of its signatures for one swap; it produces each at
    most once; what it releases it has signed; it signs the settlement only of a
    swap whose hash was reported spent; and a swap that is settled, or refunded,
    has been signed for. *)
Theorem never_both_signed id st :
  reachable st -> spent_final (checks (events st)) ->
  ~ (Signed id SettleSession ∈ events st /\ Signed id RefundSession ∈ events st) /\
  NoDup (sigs (view id st)) /\
  (forall p ok s, Dispatched p ok ∈ events st -> release_of (kind p) = Some s ->
     Signed (push_swap_id p) s ∈ events st) /\
  (Signed id SettleSession ∈ events st ->
     exists tx, get (store st) id = Some tx /\ (t_webcash_public_hash tx, Spent) ∈ checks (events st)) /\
  (forall tx, get (store st) id = Some tx ->
     (t_phase tx = "settled" -> Signed id SettleSession ∈ events st) /\
     (t_phase tx = "refunded" -> Signed id RefundSession ∈ events st)).
Proof.
  intros Hr Hsf. destruct (reachable_ok st Hr) as [HI _].
  assert (forall s, Signed id s ∈ events st -> exists tx, get (store st) id = Some tx) as Hrow.
  { intros s Hs%signed_event. destruct (get (store st) id) as [tx|] eqn:E; [by exists tx|].
    rewrite (inv_norow _ _ _ _ (HI id) E) in Hs. by apply not_elem_of_nil in Hs. }
  split; [|split; [apply (HI id)|split; [|split]]].
  - intros [Hs Hf]. destruct (Hrow _ Hs) as [tx Htx]. apply signed_event in Hs, Hf.
    destruct (inv_settle _ _ _ _ (HI id) Hsf Hs tx Htx) as [E|[E|E]];
      destruct (inv_refund _ _ _ _ (HI id) Hf tx Htx) as [E'|E']; congruence.
  - intros p ok s Hp Hk. apply signed_event. eapply inv_release; [apply HI|].
    by eapply dispatched_event.
  - intros Hs. destruct (Hrow _ Hs) as [tx Htx]. exists tx. split; [done|].
    apply signed_event in Hs. by apply (inv_spent _ _ _ _ (HI id) Hs).
  - intros tx Htx. rewrite !signed_event. exact (inv_finished _ _ _ _ (HI id) tx Htx).
Qed.

(** C34: A cancel is committed exactly under the policy: Bob from any phase up to
    the insert push, Alice only before it, each with a signature of their own
    cancel key over the swap, the requester and the reason.  Any other request
    is refused without effect.  A committed cancel makes the row terminal,
    discards both signing sessions and touches no other swap; it only fails
    when the store rejects the write, the row and the sessions being kept. *)
Theorem cancel_exact id st tx by_fp reason sig r st' :
  reachable st -> get (store st) id = Some tx ->
  run K (cancel_swap self id by_fp reason sig) st = (r, st') ->
  ((exists p, cancel_allowed id tx p by_fp reason sig) /\
     (forall id', id' <> id -> frame (view id' st) (view id' st')) /\
     ((exists tip now, r = Ok tt /\
         get (store st') id = Some (canceled_row tx by_fp reason tip now) /\
         live_in (sessions st') id SettleSession = false /\
         live_in (sessions st') id RefundSession = false) \/
      ((exists m, r = Err (Store m)) /\ get (store st') id = Some tx /\
         forall s, live_in (sessions st') id s = live_in (sessions st) id s))) \/
  ((forall p, ~ cancel_allowed id tx p by_fp reason sig) /\ is_ok r = false /\ st' = st).
Proof.
  intros Hr Hget Hrun. destruct (reachable_ok st Hr) as [HI _].
  destruct (cancel_checks id by_fp reason sig st tx Hget) as [(p & Hc & Hrun')|[Hn [e Hrun']]];
    rewrite Hrun in Hrun'; [left|right; by simplify_eq].
  pose proof (cancel_allowed_phase _ _ _ _ _ _ Hc) as [Hna Hni].
  pose proof (vwp_run K id _ _ st (wp_cancel_commit K self id tx p by_fp reason (view id st)
    (HI id) Hget (proj1 Hc) Hna Hni)) as Hw.
  rewrite <- Hrun' in Hw. destruct Hw as ([_ Hw] & Hf & _).
  split; [by exists p|split; [done|]].
  destruct Hw as [(tip & now & -> & Hrow & Hs1 & Hs2)|([m ->] & Hrow & Hs1 & Hs2)].
  - left. by exists tip, now.
  - right. split; [by exists m|split; [done|]]. by intros [].
Qed.

(** C36: The audit log in memory only grows; for every swap its entries are signed,
    the first one is the [init] entry and every other one commits to an earlier
    one; and the document stored for a swap, canceled ones included, carries the
    tip of one of them, and is the state of its phase unless the swap is
    canceled. *)
Theorem audit_chain id st rq :
  reachable st -> (forall p b a n, rq = ReqStart p b a n -> unused (next_id st) st) ->
  linked K (entries_for (audit (serve rq st)) id) /\
  audit st `prefix_of` audit (serve rq st) /\
  forall tx, get (store (serve rq st)) id = Some tx ->
    (exists e, e ∈ entries_for (audit (serve rq st)) id /\ stored_tip tx = Some (tip_hash e)) /\
    (t_phase tx = "canceled" \/
     exists P (s : SwapState P), inner (t_state_blob tx) = to_value s /\ t_phase tx = NAME P /\
       stored_tip tx = Some (audit_tip_hex s)).
Proof.
  intros Hr Hu. destruct (reachable_ok _ (reach_serve st rq Hr Hu)) as [HI _].
  split; [apply (HI id)|split].
  - assert (forall A (p : prog A) st, audit st `prefix_of` audit (run K p st).2) as Hp.
    { clear. intros A p. induction p as [a|X r k IH]; intros st; simpl; [done|].
      pose proof (handle_audit_grows r st) as Hh. destruct (handle K r st) as [x st'].
      by etrans; [apply Hh|apply IH]. }
    destruct rq; apply Hp.
  - intros tx Htx. pose proof (inv_row _ _ _ _ (HI id) tx Htx) as Hok. split.
    + destruct (row_tip _ _ _ _ Hok) as (t & Et & Hin). unfold tips in Hin.
      apply list_elem_of_fmap in Hin as (e & -> & Hin). by exists e.
    + destruct Hok as [(P & s & (? & ? & ? & ? & ? & ->) & _)|(_ & ? & _)]; [right|by left].
      exists P, s. do 2 (split; [done|]). apply get_audit_tip.
Qed.

(** ** Termination *)

Lemma advance_loop_ends fuel id st tx :
  reachable st -> get (store st) id = Some tx -> ~ early (t_phase tx) ->
  (1 <= fuel)%nat -> (calls_left (insert_push_retry self) (position tx) <= fuel)%nat ->
  let (r, st') := run K (advance_loop self fuel id) st in
  match r with
  | Ok (Some o) => exists tx', get (store st') id = Some tx' /\ terminal_outcome id tx' = Some o
  | Ok None => False
  | Err _ => True
  end.
Proof.
  revert st tx. induction fuel as [|fuel IH]; intros st tx Hr Hget Hne Hpos Hm; [lia|].
  cbn [advance_loop]. unfold mbind, M_bind. rewrite run_pbind.
  destruct (run K (advance_swap self id) st) as [r st1] eqn:Erun.
  destruct (advance_step id st tx r st1 Hr Hget Erun) as [(tx1 & Hget1 & Hstep & _) _].
  destruct r as [[o|]|e]; simpl; [exists tx1; by destruct Hstep| |done].
  destruct Hstep as [Hpend [Hmv|[? _]]]; [|done].
  assert (reachable st1) as Hr1.
  { replace st1 with (serve (ReqAdvance id) st) by (unfold serve; by rewrite Erun). by apply reach_serve. }
  pose proof (phase_edge_decreases _ _ _ (proj2 Hmv)) as Hlt.
  assert (~ early (t_phase tx1) /\ (1 <= calls_left (insert_push_retry self) (position tx1))%nat) as [Hne1 Hpos1].
  { assert (t_terminal tx1 = true <-> terminal_outcome id tx1 <> None) as Hto by (by eapply terminal_outcome_iff).
    destruct Hmv as [_ Hedge]. unfold position in *. unfold early, terminal_outcome, calls_left in *.
    destruct (t_phase tx1 =? "settled")%string eqn:E1; [by rewrite (proj2 Hto) in Hpend|].
    destruct (t_phase tx1 =? "refunded")%string eqn:E2; [by rewrite (proj2 Hto) in Hpend|]. bools.
    by inversion Hedge as [n En En'|n ? En En'|n ? En En'|n En En'|n En En']; simplify_eq/=;
      try congruence; (split; [naive_solver|lia]). }
  apply (IH st1 tx1); try done; lia.
Qed.

(** C35: [run_to_completion] ends: with the retry budget plus two iterations of its
    loop it returns an error or an outcome, and then the row of the swap is in
    the phase of that outcome. *)
Theorem run_to_completion_ends fuel p b a n st r st' :
  reachable st -> unused (next_id st) st ->
  (Z.to_nat (Z.max 1 (insert_push_retry self)) + 2 <= fuel)%nat ->
  run K (run_to_completion self fuel p b a n) st = (r, st') ->
  match r with
  | Ok (Some o) => exists tx, get (store st') (next_id st) = Some tx /\
                     terminal_outcome (next_id st) tx = Some o
  | Ok None => False
  | Err _ => True
  end.
Proof.
  intros Hr Hu Hfuel. unfold run_to_completion, mbind, M_bind. rewrite run_pbind.
  assert (reachable (serve (ReqStart p b a n) st)) as Hr1 by (by apply reach_serve).
  unfold serve in Hr1.
  destruct (start_run p b a n st) as (now & st0 & Erun & _ & _ & Ev). rewrite Erun in *.
  pose proof (vwp_run K (next_id st) _ _ st0 (wp_start_with K self (next_id st) now p b a n
    (view (next_id st) st0) ltac:(by rewrite Ev))) as Hw.
  destruct (run K _ st0) as [[i|e] st1]; simpl; [|by intros [= <- <-]].
  destruct Hw as ([Hi (s & tx & Hs & Hn)] & _ & _). rewrite (Hi i eq_refl).
  pose proof (holds_phase _ _ _ _ _ _ Hs) as Hph. destruct Hs as (HI1 & Hget1 & Hrow & _).
  intros Hloop. pose proof (advance_loop_ends fuel (next_id st) st1 tx Hr1 Hget1) as He.
  rewrite Hloop in He. apply He; [|lia|].
  - rewrite Hph. by intros [?|[?|?]].
  - destruct Hrow as (? & ? & ? & ? & ? & ->). unfold position, calls_left. simpl. lia.
Qed.
End Safety.
