(* ===== verification/RefereeHistory.v ===== *)
(** * The history of a party

    [InMemoryStore::list_by_party] ([referee/src/store/mod.rs]) over the
    indexes that the orchestrator's writes maintain. *)
From S2P Require Import Prelude Decimal External RefereeState RefereeWorld RefereeView Orchestrator.
From S2P Require Import RefereeFacts RefereeSafety.

(** ** Insertion sort *)

Section Sort.
Context {A : Type} (le : A -> A -> bool).
Hypothesis le_total : forall a b, le a b = true \/ le b a = true.
Hypothesis le_trans : forall a b c, le a b = true -> le b c = true -> le a c = true.

Lemma insert_by_perm x l : insert_by le x l ≡ₚ x :: l.
Proof.
  induction l as [|y l IH]; simpl; [done|]. destruct (le x y); [done|]. rewrite IH. constructor.
Qed.

Lemma stable_sort_perm l : stable_sort le l ≡ₚ l.
Proof. induction l as [|x l IH]; simpl; [done|]. by rewrite insert_by_perm, IH. Qed.

Lemma insert_by_sorted x l :
  StronglySorted (fun a b => le a b = true) l ->
  StronglySorted (fun a b => le a b = true) (insert_by le x l).
Proof.
  induction 1 as [|y l Hl IH Hy]; simpl; [by repeat constructor|].
  destruct (le x y) eqn:E.
  - constructor; [by constructor|]. constructor; [done|].
    eapply Forall_impl; [apply Hy|]. intros z Hz. by eapply le_trans.
  - constructor; [done|]. rewrite insert_by_perm. constructor; [|done].
    destruct (le_total x y); congruence.
Qed.

Lemma stable_sort_sorted l : StronglySorted (fun a b => le a b = true) (stable_sort le l).
Proof. induction l as [|x l IH]; simpl; [constructor|]. by apply insert_by_sorted. Qed.
End Sort.

Lemma StronglySorted_take {A} (R : A -> A -> Prop) n l :
  StronglySorted R l -> StronglySorted R (take n l).
Proof.
  intros Hl. revert n. induction Hl as [|x l Hl IH Hx]; intros [|n]; simpl; try constructor; [apply IH|].
  by apply Forall_take.
Qed.

Section History.
Context `{SwapJson}.

Definition role_of (fp : PgpFingerprint) (tx : Transaction) : PartyRole :=
  if decide (t_bob_pgp_fp tx = fp)
  then (if decide (t_alice_pgp_fp tx = fp) then RoleBoth else RoleBob) else RoleAlice.

Definition party_to (fp : PgpFingerprint) (tx : Transaction) : Prop :=
  t_bob_pgp_fp tx = fp \/ t_alice_pgp_fp tx = fp.

#[export] Instance party_to_dec fp tx : Decision (party_to fp tx).
Proof. unfold party_to. apply _. Defined.

Definition swaps_of (w : InMemState) (fp : PgpFingerprint) : gmap string Transaction :=
  filter (fun kv => party_to fp kv.2) (rows w).

Lemma fp_hex_inj (a b : PgpFingerprint) : fp_hex a = fp_hex b <-> a = b.
Proof. destruct a, b; simpl. split; [by intros -> | by intros [= ->]]. Qed.

(** ** One side of the index *)

Section Side.
Context (fp_of : Transaction -> PgpFingerprint) (w : InMemState).
Context (idx : gmap string (gset (Z * string))).
Hypothesis Hidx : indexed fp_of (rows w) idx.

Lemma index_iter_elem fp c i :
  (c, i) ∈ index_iter idx (fp_hex fp) <->
  exists tx, rows w !! i = Some tx /\ fp_of tx = fp /\ c = - t_created_at_unix tx.
Proof.
  unfold index_iter. rewrite (stable_sort_perm key_leb), elem_of_elements, (Hidx (fp_hex fp) c i).
  setoid_rewrite fp_hex_inj. done.
Qed.

Lemma index_iter_nodup fp : NoDup (index_iter idx (fp_hex fp)).*2.
Proof.
  apply NoDup_fmap_2_strong.
  - intros [c i] [c' i'] (tx & Hi & _ & ->)%index_iter_elem (tx' & Hi' & _ & ->)%index_iter_elem E.
    simpl in E. subst i'. by simplify_eq.
  - unfold index_iter. rewrite (stable_sort_perm key_leb). apply NoDup_elements.
Qed.

Lemma index_iter_length fp :
  (forall tx, fp_of tx = fp -> party_to fp tx) ->
  (length (index_iter idx (fp_hex fp)) <= size (swaps_of w fp))%nat.
Proof.
  intros Hp. rewrite <- (length_fmap snd), <- size_dom.
  rewrite <- (size_list_to_set (C := gset string) _ (index_iter_nodup fp)).
  apply subseteq_size. intros i Hi%elem_of_list_to_set.
  apply list_elem_of_fmap in Hi as ([c i'] & -> & (tx & Hi & Hfp & _)%index_iter_elem).
  apply elem_of_dom. exists tx. apply map_lookup_filter_Some. split; [done|]. by apply Hp.
Qed.

(** A side of the answer: the rows at the keys, those [f] keeps. *)
Lemma side_elem (f : Transaction -> option TransactionSummary) (keys : list (Z * string)) m :
  m ∈ omap (fun k : Z * string => tx ← rows w !! k.2; f tx) keys <->
  exists c i tx, (c, i) ∈ keys /\ rows w !! i = Some tx /\ f tx = Some m.
Proof.
  rewrite list_elem_of_omap. split.
  - intros ([c i] & Hk & Hm). apply bind_Some in Hm as (tx & Hi & Hf). by exists c, i, tx.
  - intros (c & i & tx & Hk & Hi & Hf). exists (c, i). split; [done|]. simpl. by rewrite Hi.
Qed.

Lemma side_nodup (f : Transaction -> option TransactionSummary) (keys : list (Z * string)) :
  (forall i tx, rows w !! i = Some tx -> id_str (t_swap_id tx) = i) ->
  (forall tx m, f tx = Some m -> m_swap_id m = t_swap_id tx) ->
  NoDup keys.*2 ->
  NoDup (m_swap_id <$> omap (fun k : Z * string => tx ← rows w !! k.2; f tx) keys).
Proof.
  intros Hk Hf Hnd. induction keys as [|[c i] keys IH]; simpl; [apply NoDup_nil_2|].
  apply NoDup_cons in Hnd as [Hni Hnd]. specialize (IH Hnd).
  destruct (rows w !! i) as [tx|] eqn:Ei; simpl; [|done].
  destruct (f tx) as [m|] eqn:Em; simpl; [|done]. apply NoDup_cons. split; [|done].
  intros (m' & Eid & (c' & i' & tx' & Hin & Hi' & Hf')%side_elem)%list_elem_of_fmap.
  apply Hni. apply list_elem_of_fmap. exists (c', i'). split; [|done]. simpl.
  rewrite <- (Hk i tx Ei), <- (Hk i' tx' Hi'), <- (Hf tx m Em), <- (Hf tx' m' Hf'). by rewrite Eid.
Qed.
End Side.

Section Listing.
Context (w : InMemState) (fp : PgpFingerprint).
Hypothesis Hw : store_ok w.

Definition bob_hit (tx : Transaction) : option TransactionSummary :=
  Some (summary tx (if decide (t_alice_pgp_fp tx = fp) then RoleBoth else RoleBob)).
Definition alice_hit (tx : Transaction) : option TransactionSummary :=
  if decide (t_bob_pgp_fp tx = fp) then None else Some (summary tx RoleAlice).

Definition merged : list TransactionSummary :=
  omap (fun k : Z * string => tx ← rows w !! k.2; bob_hit tx)
    (take MAX_LISTED (index_iter (by_bob w) (fp_hex fp))) ++
  omap (fun k : Z * string => tx ← rows w !! k.2; alice_hit tx)
    (take MAX_LISTED (index_iter (by_alice w) (fp_hex fp))).

Lemma list_by_party_merged :
  list_by_party w fp = take MAX_LISTED
    (stable_sort (fun a b => m_created_at_unix b <=? m_created_at_unix a) merged).
Proof. done. Qed.

Lemma newest_sorted l :
  StronglySorted (fun a b => m_created_at_unix b <= m_created_at_unix a)
    (stable_sort (fun a b => m_created_at_unix b <=? m_created_at_unix a) l).
Proof.
  assert (StronglySorted (fun a b => (m_created_at_unix b <=? m_created_at_unix a) = true)
    (stable_sort (fun a b => m_created_at_unix b <=? m_created_at_unix a) l)) as Hs.
  { apply stable_sort_sorted; intros; rewrite ?Z.leb_le in *; lia. }
  induction Hs as [|x l' Hl IH Hx]; constructor; [done|].
  eapply Forall_impl; [apply Hx|]. intros y. apply Z.leb_le.
Qed.

Lemma merged_elem m :
  m ∈ merged -> exists i tx, swaps_of w fp !! i = Some tx /\ m = summary tx (role_of fp tx).
Proof.
  destruct Hw as (Hk & Hb & Ha). unfold merged. rewrite elem_of_app, !side_elem.
  setoid_rewrite map_lookup_filter_Some. unfold role_of, party_to, bob_hit, alice_hit.
  intros [(c & i & tx & Hin%subseteq_take & Hi & [= <-])|(c & i & tx & Hin%subseteq_take & Hi & Hf)];
    exists i, tx.
  - apply (index_iter_elem _ w _ Hb) in Hin as (tx' & Hi' & Hfp & _).
    assert (tx' = tx) as -> by congruence.
    rewrite (decide_True (P := t_bob_pgp_fp tx = fp)) by done. naive_solver.
  - apply (index_iter_elem _ w _ Ha) in Hin as (tx' & Hi' & Hfp & _).
    assert (tx' = tx) as -> by congruence.
    destruct (decide (t_bob_pgp_fp tx = fp)); [done|]. naive_solver.
Qed.

Lemma merged_complete i tx :
  (size (swaps_of w fp) <= MAX_LISTED)%nat ->
  swaps_of w fp !! i = Some tx -> summary tx (role_of fp tx) ∈ merged.
Proof.
  destruct Hw as (Hk & Hb & Ha). intros Hsz Hi. apply map_lookup_filter_Some in Hi as [Hi Hp].
  unfold merged. rewrite !take_ge.
  - rewrite elem_of_app, !side_elem. unfold role_of, bob_hit, alice_hit.
    destruct (decide (t_bob_pgp_fp tx = fp)) as [Eb|Eb].
    + left. exists (- t_created_at_unix tx), i, tx. split; [|done].
      apply (index_iter_elem _ w _ Hb). by exists tx.
    + right. exists (- t_created_at_unix tx), i, tx. rewrite decide_False by done. split; [|done].
      apply (index_iter_elem _ w _ Ha). exists tx. by destruct Hp.
  - etrans; [|apply Hsz]. apply (index_iter_length _ w _ Ha). by right.
  - etrans; [|apply Hsz]. apply (index_iter_length _ w _ Hb). by left.
Qed.

Lemma merged_nodup : NoDup (m_swap_id <$> merged).
Proof.
  destruct Hw as (Hk & Hb & Ha). unfold merged. rewrite fmap_app.
  assert (forall l n, NoDup l.*2 -> NoDup (take n l : list (Z * string)).*2) as Htake.
  { intros l n Hl. rewrite fmap_take. eapply sublist_NoDup; [done|apply sublist_take]. }
  apply NoDup_app. split; [|split].
  - apply (side_nodup w bob_hit); [done|by intros tx m [= <-]|].
    apply Htake, (index_iter_nodup _ w _ Hb).
  - intros i (m & -> & Hm)%list_elem_of_fmap (m' & Eid & Hm')%list_elem_of_fmap.
    apply side_elem in Hm as (c & j & tx & Hin%subseteq_take & Hj & [= <-]).
    apply side_elem in Hm' as (c' & j' & tx' & _ & Hj' & Hf').
    apply (index_iter_elem _ w _ Hb) in Hin as (tx2 & Hj2 & Hfp & _).
    unfold alice_hit in Hf'. destruct (decide (t_bob_pgp_fp tx' = fp)) as [|Hbob]; [done|].
    injection Hf' as <-. simpl in Eid.
    apply Hk in Hj as Ej. apply Hk in Hj' as Ej'. congruence.
  - apply (side_nodup w alice_hit); [done| |].
    + intros tx m. unfold alice_hit. case_decide; by intros [= <-].
    + apply Htake, (index_iter_nodup _ w _ Ha).
Qed.

Lemma merged_length :
  (length merged <= size (swaps_of w fp))%nat.
Proof.
  destruct Hw as (Hk & _ & _).
  rewrite <- (length_fmap m_swap_id), <- size_dom.
  assert (NoDup (id_str <$> (m_swap_id <$> merged))) as Hnd.
  { apply NoDup_fmap_2; [|apply merged_nodup]. by intros [] [] [= ->]. }
  rewrite <- (length_fmap id_str), <- (size_list_to_set (C := gset string) _ Hnd).
  apply subseteq_size. intros i Hi%elem_of_list_to_set. apply elem_of_dom.
  apply list_elem_of_fmap in Hi as (sid & -> & (m & -> & Hm)%list_elem_of_fmap).
  apply merged_elem in Hm as (i & tx & Hi & ->). exists tx. simpl.
  pose proof Hi as Hi'. apply map_lookup_filter_Some in Hi' as [Hrow _]. by rewrite (Hk i tx Hrow).
Qed.
End Listing.
End History.

Section HistoryTheorem.
Context `{SwapJson, Hashing, Ed25519, Ed25519Signer, EntryCodec, Musig2Crate, Base64Standard}.
Context {W : Type} `{World W} `{!SwapJsonLaws}.

(** The history of a fingerprint lists swaps of that party, each once and with
    its role, newest first and at most 1000; up to 1000 swaps it misses none. *)
Theorem history_exact (K : Keys) (self : Orchestrator) (st : St (W := W)) (fp : PgpFingerprint) :
  u8_range (insert_push_retry self) -> reachable K self st ->
  let l := list_by_party (store st) fp in
  StronglySorted (fun a b => m_created_at_unix b <= m_created_at_unix a) l /\
  (length l <= 1000)%nat /\
  NoDup (m_swap_id <$> l) /\
  (forall m, m ∈ l -> exists id tx, get (store st) id = Some tx /\ party_to fp tx /\
     m = summary tx (role_of fp tx)) /\
  ((size (swaps_of (store st) fp) <= 1000)%nat ->
     forall id tx, get (store st) id = Some tx -> party_to fp tx -> summary tx (role_of fp tx) ∈ l).
Proof.
  intros Hretry Hr. destruct (reachable_ok K self Hretry st Hr) as [_ Hok]. simpl.
  rewrite list_by_party_merged.
  assert (MAX_LISTED = 1000%nat) as Hmax by (unfold MAX_LISTED; lia).
  pose proof (stable_sort_perm (fun a b => m_created_at_unix b <=? m_created_at_unix a)
    (merged (store st) fp)) as Hperm.
  split; [apply StronglySorted_take, newest_sorted|].
  split; [rewrite length_take; lia|].
  split.
  { rewrite fmap_take. eapply sublist_NoDup; [|apply sublist_take].
    rewrite Hperm. by apply merged_nodup. }
  split.
  - intros m Hm%subseteq_take. rewrite Hperm in Hm.
    apply merged_elem in Hm as (i & tx & Hi & ->); [|done].
    apply map_lookup_filter_Some in Hi as [Hi Hp]. by exists (mk_id i), tx.
  - intros Hsz id tx Hget Hp. rewrite take_ge.
    + rewrite Hperm. eapply (merged_complete _ _ Hok (id_str id)); [by rewrite Hmax|].
      by apply map_lookup_filter_Some.
    + rewrite Hperm, Hmax. etrans; [by apply merged_length|done].
Qed.
End HistoryTheorem.
