(* ===== verification/RefereeStores.v ===== *)
(** * The storage interfaces of the referee

    The traits [SwapStore] ([referee/src/store/mod.rs]) and [AuditLog]
    ([referee/src/audit/mod.rs]) as classes whose methods pass the backend's
    state, what their implementations share, and the contracts the orchestrator
    relies on.  A store that [models] a map answers reads from it and changes it
    by whole rows; a write that fails may have taken effect.  A log that
    [holds] the entries of every swap appends to them and never drops one.  The
    in-memory backends are the first instances. *)
From S2P Require Import Prelude Decimal External RefereeState RefereeWorld RefereeView Orchestrator.
From S2P Require Import RefereeFacts RefereeSafety RefereeHistory.

Definition store_error {A} (r : res A) : Prop := exists msg, r = Err (Store msg).

Lemma store_error_intro {A} msg : store_error (A := A) (Err (Store msg)).
Proof. by exists msg. Qed.
#[export] Hint Resolve store_error_intro : core.

(** ** Keys

    Two prefixes clash when they differ at some position of both: no key has
    both. *)
Fixpoint clash (p q : string) : bool :=
  match p, q with
  | String a p', String b q' => if Ascii.eqb a b then clash p' q' else true
  | _, _ => false
  end.

Lemma clash_ne p q x y : clash p q = true -> p +:+ x <> q +:+ y.
Proof.
  revert q. induction p as [|a p IH]; intros [|b q]; simpl; try done.
  destruct (Ascii.eqb_spec a b) as [->|Hne]; [|by intros _ [= ?]].
  intros Hc [= E]. by eapply IH.
Qed.

Lemma prefix_cancel p x y : p +:+ x = p +:+ y -> x = y.
Proof. induction p as [|a p IH]; simpl; [done|]. by intros [= ?%IH]. Qed.

Lemma prefix_ne p x y : x <> y -> p +:+ x <> p +:+ y.
Proof. by intros Hne E%prefix_cancel. Qed.

(** ** Swap stores *)

Section Interface.
Context `{SwapJson}.

Class SwapStore (S : Type) := {
  store_upsert : Transaction -> S -> res unit * S;
  store_get : SwapId -> S -> res (option Transaction) * S;
  store_list_by_party : PgpFingerprint -> S -> res (list TransactionSummary) * S;
  store_mark_terminal : SwapId -> S -> res unit * S;
}.

(** The default [mark_terminal]. *)
Definition mark_nothing {S} (_ : SwapId) (st : S) : res unit * S := (Ok tt, st).

(** [PartyRole] as the database backends compute it. *)
Definition role_in (fp : PgpFingerprint) (tx : Transaction) : PartyRole :=
  if bool_decide (t_bob_pgp_fp tx = fp) && bool_decide (t_alice_pgp_fp tx = fp) then RoleBoth
  else if bool_decide (t_bob_pgp_fp tx = fp) then RoleBob
  else RoleAlice.

(** The loop over the ids of both indexes: each id once, its row read, rows
    that are gone skipped. *)
Fixpoint collect {S} (read : string -> S -> res (option Transaction) * S) (fp : PgpFingerprint)
    (seen : gset string) (ids : list string) (st : S) : res (list TransactionSummary) * S :=
  match ids with
  | [] => (Ok [], st)
  | i :: rest =>
      if bool_decide (i ∈ seen) then collect read fp seen rest st
      else
        match read i st with
        | (Err e, st) => (Err e, st)
        | (Ok None, st) => collect read fp ({[i]} ∪ seen) rest st
        | (Ok (Some tx), st) =>
            let '(r, st) := collect read fp ({[i]} ∪ seen) rest st in
            (out ← r; Ok (summary tx (role_in fp tx) :: out), st)
        end
  end.

(** [sort_by(newest first); truncate(1000)]. *)
Definition newest (l : list TransactionSummary) : list TransactionSummary :=
  take MAX_LISTED (stable_sort (fun a b => m_created_at_unix b <=? m_created_at_unix a) l).

(** ** What a listing promises *)

Definition tx_key (tx : Transaction) : string := id_str (t_swap_id tx).

Notation swaps := (gmap string Transaction).

Definition keyed (m : swaps) : Prop := forall i tx, m !! i = Some tx -> tx_key tx = i.

Definition party_swaps (m : swaps) (fp : PgpFingerprint) : swaps :=
  filter (fun kv => party_to fp kv.2) m.

Definition from_rows (m : swaps) (fp : PgpFingerprint) (s : TransactionSummary) : Prop :=
  exists i tx, m !! i = Some tx /\ party_to fp tx /\ s = summary tx (role_of fp tx).

Record listing_sound (m : swaps) (fp : PgpFingerprint) (l : list TransactionSummary) : Prop := {
  listed_newest_first : StronglySorted (fun a b => m_created_at_unix b <= m_created_at_unix a) l;
  listed_at_most : (length l <= 1000)%nat;
  listed_once : NoDup (m_swap_id <$> l);
  listed_rows : forall s, s ∈ l -> from_rows m fp s;
}.

Definition listing_complete (m : swaps) (fp : PgpFingerprint) (l : list TransactionSummary) : Prop :=
  forall i tx, m !! i = Some tx -> party_to fp tx -> summary tx (role_of fp tx) ∈ l.

Lemma role_in_of fp tx : role_in fp tx = role_of fp tx.
Proof. unfold role_in, role_of. repeat case_bool_decide; repeat case_decide; done. Qed.

Lemma keyed_insert m tx : keyed m -> keyed (<[tx_key tx := tx]> m).
Proof. intros Hk i tx' [[<- <-]|[_ Hi]]%lookup_insert_Some; [done|by apply Hk]. Qed.

Lemma listed_length m fp l :
  keyed m -> NoDup (m_swap_id <$> l) -> (forall s, s ∈ l -> from_rows m fp s) ->
  (length l <= size (party_swaps m fp))%nat.
Proof.
  intros Hk Hnd Hl. rewrite <- (length_fmap m_swap_id), <- (length_fmap id_str), <- size_dom.
  assert (NoDup (id_str <$> (m_swap_id <$> l))) as Hnd'.
  { apply NoDup_fmap_2; [|done]. by intros [] [] [= ->]. }
  rewrite <- (size_list_to_set (C := gset string) _ Hnd').
  apply subseteq_size. intros i Hi%elem_of_list_to_set. apply elem_of_dom.
  apply list_elem_of_fmap in Hi as (sid & -> & (s & -> & Hs)%list_elem_of_fmap).
  destruct (Hl s Hs) as (i & tx & Hi & Hp & ->). exists tx. simpl.
  fold (tx_key tx). rewrite (Hk i tx Hi). by apply map_lookup_filter_Some.
Qed.

(** Rows of the party, each once: sorting and truncating them is a listing. *)
Lemma newest_listing m fp l :
  keyed m -> NoDup (m_swap_id <$> l) -> (forall s, s ∈ l -> from_rows m fp s) ->
  listing_sound m fp (newest l) /\
  ((size (party_swaps m fp) <= 1000)%nat -> listing_complete m fp l -> listing_complete m fp (newest l)).
Proof.
  intros Hk Hnd Hl. assert (MAX_LISTED = 1000%nat) as Hmax by (unfold MAX_LISTED; lia).
  pose proof (stable_sort_perm (fun a b => m_created_at_unix b <=? m_created_at_unix a) l) as Hperm.
  unfold newest. split.
  - split.
    + apply StronglySorted_take, newest_sorted.
    + rewrite length_take. lia.
    + rewrite fmap_take. eapply sublist_NoDup; [|apply sublist_take]. by rewrite Hperm.
    + intros s Hs%subseteq_take. rewrite Hperm in Hs. by apply Hl.
  - intros Hsz Hc i tx Hi Hp. rewrite take_ge; [rewrite Hperm; by apply (Hc i)|].
    rewrite Hperm, Hmax. etrans; [by eapply listed_length|done].
Qed.

(** ** The loop over the ids *)

Section Unseen.
Context (m : swaps) (fp : PgpFingerprint).

(** The rows of the ids not seen before, in order, each once. *)
Fixpoint unseen (seen : gset string) (ids : list string) : list TransactionSummary :=
  match ids with
  | [] => []
  | i :: rest =>
      if bool_decide (i ∈ seen) then unseen seen rest
      else match m !! i with
           | Some tx => summary tx (role_of fp tx) :: unseen ({[i]} ∪ seen) rest
           | None => unseen ({[i]} ∪ seen) rest
           end
  end.

Lemma unseen_elem seen ids s :
  s ∈ unseen seen ids <->
  exists i tx, i ∈ ids /\ i ∉ seen /\ m !! i = Some tx /\ s = summary tx (role_of fp tx).
Proof.
  revert seen. induction ids as [|i ids IH]; intros seen; simpl.
  { split; [by intros ?%elem_of_nil|intros (? & ? & ?%elem_of_nil & _); done]. }
  assert (forall j tx, j ∈ i :: ids -> j ∉ seen -> m !! j = Some tx -> j <> i ->
    j ∈ ids /\ j ∉ ({[i]} ∪ seen)) as Hrest.
  { intros j tx [->|?]%elem_of_cons ? ? ?; [done|set_solver]. }
  case_bool_decide as Hi; [|destruct (m !! i) as [tx|] eqn:Em]; rewrite ?elem_of_cons, ?IH.
  - split; intros (j & tx & Hj & ? & ? & ?); exists j, tx; repeat split; try done.
    + by apply elem_of_cons; right.
    + apply elem_of_cons in Hj as [->|?]; [done|done].
  - split.
    + intros [->|(j & tx' & ? & ? & ? & ->)]; [exists i, tx|exists j, tx']; set_solver.
    + intros (j & tx' & Hj & Hs & Hm & ->). destruct (decide (j = i)) as [->|Hne].
      * left. congruence.
      * right. exists j, tx'. destruct (Hrest j tx' Hj Hs Hm Hne). done.
  - split.
    + intros (j & tx' & ? & ? & ? & ->). exists j, tx'. set_solver.
    + intros (j & tx' & Hj & Hs & Hm & ->). destruct (decide (j = i)) as [->|Hne]; [congruence|].
      exists j, tx'. destruct (Hrest j tx' Hj Hs Hm Hne). done.
Qed.

Lemma unseen_nodup seen ids : keyed m -> NoDup (m_swap_id <$> unseen seen ids).
Proof.
  intros Hk. revert seen. induction ids as [|i ids IH]; intros seen; simpl; [apply NoDup_nil_2|].
  case_bool_decide; [apply IH|]. destruct (m !! i) as [tx|] eqn:Em; [|apply IH].
  rewrite fmap_cons. apply NoDup_cons. split; [|apply IH].
  intros (s & Es & (j & tx' & _ & Hj & Hm & ->)%unseen_elem)%list_elem_of_fmap. simpl in Es.
  apply Hj. apply elem_of_union_l, elem_of_singleton.
  rewrite <- (Hk _ _ Hm), <- (Hk _ _ Em). unfold tx_key. congruence.
Qed.
End Unseen.

Section Collect.
Context {S : Type} (read : string -> S -> res (option Transaction) * S) (I : S -> Prop).
Context (m : swaps) (fp : PgpFingerprint).
Hypothesis Hread : forall i st r st', I st -> read i st = (r, st') ->
  I st' /\ (r = Ok (m !! i) \/ store_error r).

Lemma collect_unseen ids seen st r st' :
  I st -> collect read fp seen ids st = (r, st') ->
  I st' /\ (r = Ok (unseen m fp seen ids) \/ store_error r).
Proof.
  revert seen st r st'. induction ids as [|i ids IH]; intros seen st r st' HI E; simpl in *.
  { simplify_eq. auto. }
  case_bool_decide; [by eapply IH|].
  destruct (read i st) as [x st1] eqn:Er. destruct (Hread _ _ _ _ HI Er) as [HI1 [->|[msg ->]]].
  2: { simplify_eq. auto. }
  destruct (m !! i) as [tx|] eqn:Em; [|by eapply IH].
  destruct (collect read fp ({[i]} ∪ seen) ids st1) as [y st2] eqn:Ec.
  destruct (IH _ _ _ _ HI1 Ec) as [HI2 [->|[msg ->]]]; simplify_eq/=; rewrite ?role_in_of; auto.
Qed.

End Collect.

(** Ids that name swaps of the party, collected, are a listing. *)
Lemma unseen_listing m fp ids :
  keyed m -> (forall i tx, i ∈ ids -> m !! i = Some tx -> party_to fp tx) ->
  listing_sound m fp (newest (unseen m fp ∅ ids)) /\
  ((size (party_swaps m fp) <= 1000)%nat ->
   (forall i tx, m !! i = Some tx -> party_to fp tx -> i ∈ ids) ->
   listing_complete m fp (newest (unseen m fp ∅ ids))).
Proof.
  intros Hk Hids. destruct (newest_listing m fp (unseen m fp ∅ ids)) as [Hs Hc].
  - done.
  - by apply unseen_nodup.
  - intros s (i & tx & Hi & _ & Hm & ->)%unseen_elem. exists i, tx. eauto.
  - split; [done|]. intros Hsz Hall. apply Hc; [done|]. intros i tx Hm Hp.
    apply unseen_elem. exists i, tx. repeat split; [by eapply Hall|set_solver|done].
Qed.
(** ** The contract of a store

    Who swaps with whom, and since when, is fixed when a swap starts:
    [origin] gives it for every id.  A row is [writable] when it agrees with
    it, its redundant fields do, its numbers have their width and the texts that
    go into keys have no slash; the rows the
    orchestrator writes are ([derived_writable], [canceled_writable]). *)

Definition origin_of (tx : Transaction) : PgpFingerprint * PgpFingerprint * Z :=
  (t_bob_pgp_fp tx, t_alice_pgp_fp tx, t_created_at_unix tx).

Definition key_safe (s : string) : bool := str_all (fun c => negb (Ascii.eqb c "/"%char)) s.

Record writable (origin : string -> PgpFingerprint * PgpFingerprint * Z) (tx : Transaction) : Prop := {
  w_origin : origin_of tx = origin (tx_key tx);
  w_terminal : t_terminal tx = is_terminal (t_status tx);
  w_blob : blob_phase (t_state_blob tx) = t_phase tx;
  w_created : u64_range (t_created_at_unix tx);
  w_updated : u64_range (t_updated_at_unix tx);
  w_attempts : u8_range (t_insert_push_attempts tx);
  w_safe : key_safe (tx_key tx) = true;
  w_bob_safe : key_safe (fp_hex (t_bob_pgp_fp tx)) = true;
  w_alice_safe : key_safe (fp_hex (t_alice_pgp_fp tx)) = true;
}.

Lemma derived_writable origin {P} (s : SwapState P) now created reason by_fp htlc :
  origin (id_str (id s)) = (bob_pgp_fp (parties s), alice_pgp_fp (parties s), created) ->
  u64_range now -> u64_range created -> u8_range (insert_push_attempts s) ->
  key_safe (id_str (id s)) = true -> key_safe (fp_hex (bob_pgp_fp (parties s))) = true ->
  key_safe (fp_hex (alice_pgp_fp (parties s))) = true ->
  writable origin (row_for s now created reason by_fp htlc).
Proof. intros. by split. Qed.

Lemma canceled_writable origin tx by_fp reason tip now :
  writable origin tx -> u64_range now -> writable origin (canceled_row tx by_fp reason tip now).
Proof. intros [] Hn. by split. Qed.

(** A listing, complete when the backend returned whole ranges of at most a
    thousand swaps. *)
Definition lists (all : Prop) (m : swaps) (fp : PgpFingerprint) (l : list TransactionSummary) : Prop :=
  listing_sound m fp l /\ (all -> (size (party_swaps m fp) <= 1000)%nat -> listing_complete m fp l).

Class SwapContract (S : Type) `{SwapStore S} (origin : string -> PgpFingerprint * PgpFingerprint * Z) := {
  models : S -> swaps -> Prop;
  caught_up : S -> Prop;
  whole : S -> PgpFingerprint -> Prop;
  upsert_refines : forall st m tx r st', models st m -> writable origin tx ->
    store_upsert tx st = (r, st') ->
    models st' (<[tx_key tx := tx]> m) /\ (r = Ok tt \/ store_error r) \/
    models st' m /\ store_error r;
  get_refines : forall st m i r st', models st m -> store_get i st = (r, st') ->
    models st' m /\ (r = Ok (m !! id_str i) \/ store_error r);
  list_refines : forall st m fp r st', models st m -> key_safe (fp_hex fp) = true -> store_list_by_party fp st = (r, st') ->
    models st' m /\ (store_error r \/ exists l, r = Ok l /\ (caught_up st -> lists (whole st fp) m fp l));
  mark_refines : forall st m i r st', models st m -> is_Some (m !! id_str i) ->
    store_mark_terminal i st = (r, st') -> models st' m;
}.

(** A row kept under its key agrees with the origin of the key. *)
Definition settled_rows (origin : string -> PgpFingerprint * PgpFingerprint * Z) (m : swaps) : Prop :=
  forall i tx, m !! i = Some tx -> tx_key tx = i /\ writable origin tx.

Lemma settled_keyed origin m : settled_rows origin m -> keyed m.
Proof. intros Hm i tx Hi. by apply Hm. Qed.

Lemma settled_insert origin m tx :
  settled_rows origin m -> writable origin tx -> settled_rows origin (<[tx_key tx := tx]> m).
Proof. intros Hm Hw i tx' [[<- <-]|[_ Hi]]%lookup_insert_Some; [done|by apply Hm]. Qed.

Lemma settled_origin origin m i tx : settled_rows origin m -> m !! i = Some tx -> origin_of tx = origin i.
Proof. intros Hm Hi. destruct (Hm i tx Hi) as [<- Hw]. apply Hw. Qed.

(** ** Runs *)

Inductive store_op := OpUpsert (tx : Transaction) | OpGet (i : SwapId) | OpList (fp : PgpFingerprint).

Inductive store_answer :=
  | Wrote (r : res unit)
  | Row (r : res (option Transaction))
  | Listing (r : res (list TransactionSummary)).

Definition serve {S} `{SwapStore S} (o : store_op) (st : S) : store_answer * S :=
  match o with
  | OpUpsert tx => let '(r, st) := store_upsert tx st in (Wrote r, st)
  | OpGet i => let '(r, st) := store_get i st in (Row r, st)
  | OpList fp => let '(r, st) := store_list_by_party fp st in (Listing r, st)
  end.

(** Each operation with the state it met and its answer. *)
Fixpoint serve_all {S} `{SwapStore S} (ops : list store_op) (st : S)
  : list (store_op * S * store_answer) * S :=
  match ops with
  | [] => ([], st)
  | o :: rest =>
      let '(a, st1) := serve o st in
      let '(trace, st2) := serve_all rest st1 in ((o, st, a) :: trace, st2)
  end.

(** What may be answered over a map, and the map after it; [fresh] says that
    the indexes have caught up, [all] that ranges are returned whole. *)
Definition allowed (m : swaps) (o : store_op) (fresh : Prop) (all : PgpFingerprint -> Prop) (a : store_answer) (m' : swaps) : Prop :=
  match o, a with
  | OpUpsert tx, Wrote r =>
      m' = <[tx_key tx := tx]> m /\ (r = Ok tt \/ store_error r) \/ m' = m /\ store_error r
  | OpGet i, Row r => m' = m /\ (r = Ok (m !! id_str i) \/ store_error r)
  | OpList fp, Listing r =>
      m' = m /\ (store_error r \/ exists l, r = Ok l /\ (fresh -> lists (all fp) m fp l))
  | _, _ => False
  end.

Inductive serves {S} (fresh : S -> Prop) (all : S -> PgpFingerprint -> Prop) : swaps -> list (store_op * S * store_answer) -> swaps -> Prop :=
  | serves_nil m : serves fresh all m [] m
  | serves_cons m o st a m1 trace m2 :
      allowed m o (fresh st) (all st) a m1 -> serves fresh all m1 trace m2 ->
      serves fresh all m ((o, st, a) :: trace) m2.

Definition op_ok (origin : string -> PgpFingerprint * PgpFingerprint * Z) (o : store_op) : Prop :=
  match o with
  | OpUpsert tx => writable origin tx
  | OpGet _ => True
  | OpList fp => key_safe (fp_hex fp) = true
  end.

Section Serving.
Context {S : Type} (origin : string -> PgpFingerprint * PgpFingerprint * Z) `{SwapContract S origin}.

Lemma serve_allowed o st m a st' :
  models st m -> op_ok origin o -> serve o st = (a, st') ->
  exists m', allowed m o (caught_up st) (whole st) a m' /\ models st' m'.
Proof.
  intros Hm Ho E. destruct o as [tx|i|fp]; simpl in E.
  - destruct (store_upsert tx st) as [r st1] eqn:Eu. simplify_eq.
    destruct (upsert_refines _ _ _ _ _ Hm Ho Eu) as [[? ?]|[? ?]].
    + exists (<[tx_key tx := tx]> m). simpl. auto.
    + exists m. simpl. auto.
  - destruct (store_get i st) as [r st1] eqn:Eg. simplify_eq.
    destruct (get_refines _ _ _ _ _ Hm Eg). exists m. simpl. auto.
  - destruct (store_list_by_party fp st) as [r st1] eqn:El. simplify_eq.
    destruct (list_refines _ _ _ _ _ Hm Ho El) as (? & ?). exists m. simpl. auto.
Qed.

(** Over any sequence of calls each answer is one the map of the rows allows. *)
Lemma store_serves_rows ops st m trace st' :
  models st m -> Forall (op_ok origin) ops -> serve_all ops st = (trace, st') ->
  exists m', serves caught_up whole m trace m' /\ models st' m'.
Proof.
  intros Hm Hops. revert st m trace st' Hm. induction Hops as [|o ops Ho Hops IH]; intros st m trace st' Hm E.
  - simplify_eq/=. exists m. split; [constructor|done].
  - simpl in E. destruct (serve o st) as [a st1] eqn:Es.
    destruct (serve_all ops st1) as [rest st2] eqn:Ea. simplify_eq.
    destruct (serve_allowed _ _ _ _ _ Hm Ho Es) as (m1 & Hal & Hm1).
    destruct (IH _ _ _ _ Hm1 Ea) as (m2 & Hs & Hm2). exists m2. split; [by econstructor|done].
Qed.
End Serving.

(** ** The in-memory store *)

#[export] Instance InMemoryStore : SwapStore InMemState := {|
  store_upsert tx w := (Ok tt, upsert w tx);
  store_get i w := (Ok (get w i), w);
  store_list_by_party fp w := (Ok (list_by_party w fp), w);
  store_mark_terminal := mark_nothing;
|}.

Lemma store_listing (w : InMemState) (fp : PgpFingerprint) :
  store_ok w -> lists True (rows w) fp (list_by_party w fp).
Proof.
  intros Hw. rewrite list_by_party_merged.
  destruct (newest_listing (rows w) fp (merged w fp)) as [Hs Hc].
  - intros i tx Hi. by apply (proj1 Hw).
  - by apply merged_nodup.
  - intros s (i & tx & Hi & ->)%merged_elem; [|done]. apply map_lookup_filter_Some in Hi as [Hi Hp].
    by exists i, tx.
  - split; [done|]. intros _ Hsz. apply Hc; [done|]. intros i tx Hi Hp.
    eapply (merged_complete _ _ Hw i); [|by apply map_lookup_filter_Some].
    etrans; [done|]. unfold MAX_LISTED. lia.
Qed.

#[export, refine] Instance InMemoryStore_contract origin : SwapContract InMemState origin := {|
  models w m := rows w = m /\ store_ok w /\ settled_rows origin m;
  caught_up _ := True;
  whole _ _ := True;
|}.
Proof.
  - intros st m tx r st' (<- & Hok & Hm) Hw E. simplify_eq/=. left. split; [|by left].
    assert (rows (upsert st tx) = <[tx_key tx := tx]> (rows st)) as ->.
    { unfold upsert, tx_key. by destruct (rows st !! _). }
    split; [done|]. split; [|by apply settled_insert].
    apply upsert_ok; [done|]. intros old Hold. pose proof (settled_origin _ _ _ _ Hm Hold) as E1.
    pose proof (w_origin _ _ Hw) as E2. fold (tx_key tx) in E1. unfold origin_of in *.
    rewrite <- E2 in E1. by simplify_eq.
  - intros st m i r st' (<- & ? & ?) E. by simplify_eq/=; eauto.
  - intros st m fp r st' (<- & Hok & Hm) _ E. simplify_eq/=. split; [done|]. right. eexists. split; [done|].
    intros _. by apply store_listing.
  - intros st m i r st' Hm _ E. by injection E as <- <-.
Defined.
End Interface.

(** ** Audit logs *)

Section Logs.
Context `{Hashing, Ed25519, Ed25519Signer, EntryCodec}.

Class AuditLog (S : Type) := {
  log_append : SigningKey -> AuditEntry -> S -> res string * S;
  log_entries_for : SwapId -> S -> res (list AuditEntry) * S;
  log_tip_for : SwapId -> S -> res string * S;
}.

Definition last_tip (l : list AuditEntry) : string :=
  match last l with Some e => tip_hash e | None => "" end.

Notation book := (string -> list AuditEntry).

(** [n] copies of an entry behind the entries of its swap: an append whose
    confirmation is lost may be repeated. *)
Definition noted (e : AuditEntry) (n : nat) (L : book) : book := fun i =>
  if bool_decide (i = id_str (e_swap_id e)) then L i ++ repeat e n else L i.

Class AuditContract (S : Type) `{AuditLog S} := {
  holds_log : S -> book -> Prop;
  log_caught_up : S -> Prop;
  append_refines : forall st L k e r st', holds_log st L -> u64_range (e_ts_unix e) ->
    log_append k e st = (r, st') ->
    exists n, holds_log st' (noted (sign_entry k e) n L) /\
      (r = Ok (tip_hash e) /\ (0 < n)%nat \/ store_error r);
  entries_refines : forall st L i r st', holds_log st L -> log_entries_for i st = (r, st') ->
    holds_log st' L /\ (log_caught_up st -> r = Ok (L (id_str i)) \/ store_error r);
  tip_refines : forall st L i r st', holds_log st L -> log_tip_for i st = (r, st') ->
    holds_log st' L /\ (log_caught_up st -> r = Ok (last_tip (L (id_str i))) \/ store_error r);
}.

(** Signing leaves the tip alone. *)
Lemma tip_signed k e : tip_hash (sign_entry k e) = tip_hash e.
Proof. done. Qed.

Fixpoint append_all {S} `{AuditLog S} (reqs : list (SigningKey * AuditEntry)) (st : S)
  : list (res string) * S :=
  match reqs with
  | [] => ([], st)
  | (k, e) :: rest =>
      let '(r, st) := log_append k e st in
      let '(rs, st) := append_all rest st in (r :: rs, st)
  end.

(** The entries of a swap whose append was confirmed, and those it was asked
    to append, in order. *)
Definition confirmed_entry (i : string) (x : (SigningKey * AuditEntry) * res string) : option AuditEntry :=
  if is_ok x.2 && bool_decide (id_str (e_swap_id x.1.2) = i) then Some (sign_entry x.1.1 x.1.2) else None.
Definition confirmed (i : string) (reqs : list (SigningKey * AuditEntry)) (rs : list (res string))
  : list AuditEntry := omap (confirmed_entry i) (zip reqs rs).

Section Appending.
Context {S : Type} `{AuditContract S}.

Lemma append_all_holds reqs st L rs st' :
  holds_log st L -> Forall (fun q => u64_range (e_ts_unix q.2)) reqs ->
  append_all reqs st = (rs, st') ->
  exists L', holds_log st' L' /\ forall i, exists more, L' i = L i ++ more /\
    confirmed i reqs rs `sublist_of` more /\
    (forall e, e ∈ more -> exists q, q ∈ reqs /\ e = sign_entry q.1 q.2 /\ id_str (e_swap_id e) = i).
Proof.
  intros HL Hok. revert st L rs st' HL. induction Hok as [|[k e] reqs Ht Hok IH]; intros st L rs st' HL E.
  { simplify_eq/=. exists L. split; [done|]. intros i. exists []. rewrite app_nil_r.
    split; [done|]. split; [constructor|]. by intros ? ?%elem_of_nil. }
  simpl in E. destruct (log_append k e st) as [r st1] eqn:Ea.
  destruct (append_all reqs st1) as [rs1 st2] eqn:Er. simplify_eq.
  destruct (append_refines _ _ _ _ _ _ HL Ht Ea) as (n & HL1 & Hr).
  destruct (IH _ _ _ _ HL1 Er) as (L2 & HL2 & Hall). exists L2. split; [done|]. intros i.
  destruct (Hall i) as (more & Ei & Hsub & Hin). unfold noted in Ei. simpl in Ei.
  unfold confirmed in *. simpl. unfold confirmed_entry at 1. simpl.
  case_bool_decide as Hi.
  - exists (repeat (sign_entry k e) n ++ more). rewrite Ei, <- app_assoc. split; [done|]. split.
    + rewrite (bool_decide_true (id_str (e_swap_id e) = i)), andb_true_r by done.
      destruct Hr as [[-> Hn]|[msg ->]]; simpl.
      * destruct n as [|n]; [lia|]. simpl. apply sublist_skip.
        by apply sublist_inserts_l.
      * by apply sublist_inserts_l.
    + intros e' [->%list_elem_of_In%repeat_spec|He']%elem_of_app.
      * exists (k, e). split; [by left|done].
      * destruct (Hin e' He') as (q & Hq & ?). exists q. split; [by right|done].
  - exists more. split; [done|]. split.
    + rewrite (bool_decide_false (id_str (e_swap_id e) = i)), andb_false_r by done. done.
    + intros e' He'. destruct (Hin e' He') as (q & Hq & ?). exists q. split; [by right|done].
Qed.

(** What a log holds after any appends, and what is then read from it. *)
Lemma log_keeps_confirmed reqs st L rs st1 i :
  holds_log st L -> Forall (fun q => u64_range (e_ts_unix q.2)) reqs ->
  append_all reqs st = (rs, st1) -> log_caught_up st1 ->
  exists more, confirmed (id_str i) reqs rs `sublist_of` more /\
    (forall e, e ∈ more -> exists q, q ∈ reqs /\ e = sign_entry q.1 q.2 /\ e_swap_id e = i) /\
    (forall r st2, log_entries_for i st1 = (r, st2) -> r = Ok (L (id_str i) ++ more) \/ store_error r) /\
    (forall r st2, log_tip_for i st1 = (r, st2) -> r = Ok (last_tip (L (id_str i) ++ more)) \/ store_error r).
Proof.
  intros HL Hok Ea Hc. destruct (append_all_holds _ _ _ _ _ HL Hok Ea) as (L1 & HL1 & Hall).
  destruct (Hall (id_str i)) as (more & Em & Hsub & Hin). exists more. split; [done|]. split; [|split].
  - intros e He. destruct (Hin e He) as (q & Hq & Eq & Ei). exists q. split; [done|]. split; [done|].
    destruct i, (e_swap_id e). simpl in Ei. by subst.
  - intros r st2 Ee. rewrite <- Em. by apply (entries_refines _ _ _ _ _ HL1 Ee).
  - intros r st2 Et. rewrite <- Em. by apply (tip_refines _ _ _ _ _ HL1 Et).
Qed.
End Appending.

(** ** The in-memory log *)

#[export] Instance InMemoryAuditLog : AuditLog (list AuditEntry) := {|
  log_append k e log := let '(tip, log) := audit_append k log e in (Ok tip, log);
  log_entries_for i log := (Ok (entries_for log i), log);
  log_tip_for i log := (Ok (tip_for log i), log);
|}.

Lemma tip_for_last log i : tip_for log i = last_tip (entries_for log i).
Proof.
  unfold tip_for, last_tip, entries_for. induction log as [|e log IH] using rev_ind; [done|].
  rewrite rev_app_distr, filter_app. simpl. rewrite filter_cons, filter_nil.
  case_bool_decide; case_decide; try done.
  - by rewrite last_snoc.
  - by rewrite app_nil_r.
Qed.

#[export, refine] Instance InMemoryAuditLog_contract : AuditContract (list AuditEntry) := {|
  holds_log log L := forall i, entries_for log (mk_id i) = L i;
  log_caught_up _ := True;
|}.
Proof.
  - intros log L k e r st' HL _ E. simplify_eq/=. exists 1%nat. split; [|left; split; [done|lia]].
    intros i. unfold noted. unfold entries_for. rewrite filter_app. fold (entries_for log (mk_id i)).
    rewrite (HL i). rewrite filter_cons, filter_nil. simpl.
    case_decide as E; case_bool_decide as E'; try done.
    + by rewrite E in E'.
    + destruct E. destruct (e_swap_id e). simpl in *. by subst.
    + by rewrite app_nil_r.
  - intros log L i r st' HL E. simplify_eq/=. split; [done|]. intros _. left. destruct i. by rewrite HL.
  - intros log L i r st' HL E. simplify_eq/=. split; [done|]. intros _. left. destruct i.
    by rewrite tip_for_last, HL.
Defined.
End Logs.
