(* ===== verification/RefereeRedis.v ===== *)
(** * The referee over Redis

    [RedisSwapStore] ([referee/src/store/redis.rs]) and [RedisAuditLog]
    ([referee/src/audit/redis.rs]) and their contracts.  A row is a string, the
    two indexes of a party are sorted sets, a log is a list; a row and its index
    entries are written by one Lua script.  The Redis server is a parameter
    ([RefereeRedis]) with the documented effect of each command
    ([RefereeRedisLaws]); a command that fails has run or not. *)
From S2P Require Import Prelude Decimal External Storage Mining RefereeState RefereeWorld RefereeHistory RefereeStores.
From Stdlib Require Import SpecFloat.

(** ** The server *)

Inductive redis_data :=
  | DStr (s : string)
  | DList (l : list string)
  | DZset (z : gmap string spec_float).

Notation redis_keys := (gmap string redis_data).

Inductive RefereeCmd :=
  | EvalUpsert (KEYS ARGV : list string)
  | Get (k : string)
  | ZRevRangeByScore (k : string) (offset count : nat)
  | RPush (k v : string)
  | LRangeAll (k : string)
  | LIndexLast (k : string).

Inductive redis_reply :=
  | IntReply (n : Z)
  | BulkReply (o : option string)
  | ArrayReply (l : list string)
  | ErrorReply (e : string).

Definition wrong_type : string := "WRONGTYPE".

(** A script stops at the first error of a command and keeps what it did. *)
Definition script (A : Type) : Type := redis_keys -> result string A * redis_keys.
#[export] Instance script_ret : MRet script := fun A x db => (Ok x, db).
#[export] Instance script_bind : MBind script := fun A B f m db =>
  match m db with (Ok x, db') => f x db' | (Err e, db') => (Err e, db') end.

(** [T[i]] used as a string. *)
Definition script_arg (t : list string) (i : nat) : script string := fun db =>
  (match i with O => Err "nil" | S j => ok_or (t !! j) "nil" end, db).

(** The score of a decimal integer; the script is sent no other text. *)
Definition score_of (s : string) : option spec_float := f64_of_u64 <$> parse_digits 0 s.

Definition script_set (k v : string) : script unit := fun db => (Ok tt, <[k := DStr v]> db).

Definition script_zadd (k score member : string) : script unit := fun db =>
  match score_of score, db !! k with
  | None, _ => (Err "value is not a valid float", db)
  | Some x, None => (Ok tt, <[k := DZset {[member := x]}]> db)
  | Some x, Some (DZset z) => (Ok tt, <[k := DZset (<[member := x]> z)]> db)
  | Some _, Some _ => (Err wrong_type, db)
  end.

Definition UPSERT_SCRIPT (KEYS ARGV : list string) : script Z :=
  row ← script_arg KEYS 1;
  json ← script_arg ARGV 1;
  _ ← script_set row json;
  bob ← script_arg KEYS 2;
  score ← script_arg ARGV 3;
  member ← script_arg ARGV 2;
  _ ← script_zadd bob score member;
  alice ← script_arg KEYS 3;
  _ ← script_zadd alice score member;
  mret 1.

(** Members by score, highest first, and the later member first among equals. *)
Definition zrev_le (a b : string * spec_float) : bool :=
  if f64_le a.2 b.2 && f64_le b.2 a.2 then String.leb b.1 a.1 else f64_le b.2 a.2.
Definition zrev (z : gmap string spec_float) : list string := (stable_sort zrev_le (map_to_list z)).*1.

Definition zset_at (db : redis_keys) (k : string) : option (gmap string spec_float) :=
  match db !! k with None => Some ∅ | Some (DZset z) => Some z | Some _ => None end.
Definition list_at (db : redis_keys) (k : string) : option (list string) :=
  match db !! k with None => Some [] | Some (DList l) => Some l | Some _ => None end.

(** The documented effect of one command. *)
Definition cmd_exec (c : RefereeCmd) (db : redis_keys) : redis_reply * redis_keys :=
  match c with
  | EvalUpsert KEYS ARGV =>
      match UPSERT_SCRIPT KEYS ARGV db with
      | (Ok n, db') => (IntReply n, db')
      | (Err e, db') => (ErrorReply e, db')
      end
  | Get k =>
      match db !! k with
      | None => (BulkReply None, db)
      | Some (DStr s) => (BulkReply (Some s), db)
      | Some _ => (ErrorReply wrong_type, db)
      end
  | ZRevRangeByScore k offset count =>
      match zset_at db k with
      | Some z => (ArrayReply (take count (drop offset (zrev z))), db)
      | None => (ErrorReply wrong_type, db)
      end
  | RPush k v =>
      match list_at db k with
      | Some l => (IntReply (Z.of_nat (length l + 1)), <[k := DList (l ++ [v])]> db)
      | None => (ErrorReply wrong_type, db)
      end
  | LRangeAll k =>
      match list_at db k with
      | Some l => (ArrayReply l, db)
      | None => (ErrorReply wrong_type, db)
      end
  | LIndexLast k =>
      match list_at db k with
      | Some l => (BulkReply (last l), db)
      | None => (ErrorReply wrong_type, db)
      end
  end.

Definition is_error (r : redis_reply) : bool := match r with ErrorReply _ => true | _ => false end.

Class RefereeRedis := {
  rr_state : Type;
  rr_query : RefereeCmd -> rr_state -> result string redis_reply * rr_state;
  rr_type_error : string;
}.

Class RefereeRedisLaws `{RefereeRedis} := {
  rr_view : rr_state -> redis_keys;
  rr_query_ok : forall c st r st', rr_query c st = (Ok r, st') ->
    cmd_exec c (rr_view st) = (r, rr_view st') /\ is_error r = false;
  rr_query_err : forall c st e st', rr_query c st = (Err e, st') ->
    rr_view st' = rr_view st \/ rr_view st' = (cmd_exec c (rr_view st)).2;
}.

(** [FromRedisValue]. *)
Definition int_of_reply (r : redis_reply) : option Z := match r with IntReply n => Some n | _ => None end.
Definition bulk_of_reply (r : redis_reply) : option (option string) :=
  match r with BulkReply o => Some o | _ => None end.
Definition array_of_reply (r : redis_reply) : option (list string) :=
  match r with ArrayReply l => Some l | _ => None end.

(** A command sent, its reply read as a [T], the error given a context. *)
Definition rr_call `{RefereeRedis} {T} (context : string) (conv : redis_reply -> option T)
    (c : RefereeCmd) (st : rr_state) : res T * rr_state :=
  let '(r, st) := rr_query c st in
  (map_err (fun e => Store (context +:+ e)) (x ← r; ok_or (conv x) rr_type_error), st).

(** ** The store *)

Definition SWAP_KEY_PREFIX : string := "referee:swap:".
Definition BY_BOB_PREFIX : string := "referee:by-bob:".
Definition BY_ALICE_PREFIX : string := "referee:by-alice:".
Definition AUDIT_KEY_PREFIX : string := "referee:audit:".

Definition swap_key (i : SwapId) : string := SWAP_KEY_PREFIX +:+ id_str i.
Definition by_bob_key (fp : PgpFingerprint) : string := BY_BOB_PREFIX +:+ fp_hex fp.
Definition by_alice_key (fp : PgpFingerprint) : string := BY_ALICE_PREFIX +:+ fp_hex fp.
Definition audit_key (i : SwapId) : string := AUDIT_KEY_PREFIX +:+ id_str i.

(** A JSON text read, or an error with a context. *)
Definition decoded {T} `{Serde T} (context text : string) : res T :=
  map_err (fun e => Store (context +:+ e)) (from_json text).

Section Backend.
Context `{RefereeRedis} `{SwapJson} `{Serde Transaction}.

Definition rs_upsert (tx : Transaction) (st : rr_state) : res unit * rr_state :=
  let '(r, st) := rr_call "redis upsert: " int_of_reply
    (EvalUpsert [swap_key (t_swap_id tx); by_bob_key (t_bob_pgp_fp tx); by_alice_key (t_alice_pgp_fp tx)]
       [to_json tx; id_str (t_swap_id tx); show_u64 (t_created_at_unix tx)]) st in
  (_ ← r; Ok tt, st).

(** A row read under a key; [get] and the listing word their errors apart. *)
Definition rs_row (fetch decode key : string) (st : rr_state) : res (option Transaction) * rr_state :=
  let '(raw, st) := rr_call fetch bulk_of_reply (Get key) st in
  (o ← raw;
   match o with
   | None => Ok None
   | Some s => tx ← decoded decode s; Ok (Some tx)
   end, st).

Definition rs_get (i : SwapId) (st : rr_state) : res (option Transaction) * rr_state :=
  rs_row "redis get: " "decode: " (swap_key i) st.

Definition rs_list_by_party (fp : PgpFingerprint) (st : rr_state)
  : res (list TransactionSummary) * rr_state :=
  match rr_call "redis zrev bob: " array_of_reply (ZRevRangeByScore (by_bob_key fp) 0 MAX_LISTED) st with
  | (Err e, st) => (Err e, st)
  | (Ok bob_ids, st) =>
      match rr_call "redis zrev alice: " array_of_reply (ZRevRangeByScore (by_alice_key fp) 0 MAX_LISTED) st with
      | (Err e, st) => (Err e, st)
      | (Ok alice_ids, st) =>
          let '(r, st) := collect (fun i => rs_row "redis fetch row: " "decode row: " (SWAP_KEY_PREFIX +:+ i))
            fp ∅ (bob_ids ++ alice_ids) st in
          (out ← r; Ok (newest out), st)
      end
  end.

#[export] Instance RedisSwapStore : SwapStore rr_state := {|
  store_upsert := rs_upsert;
  store_get := rs_get;
  store_list_by_party := rs_list_by_party;
  store_mark_terminal := mark_nothing;
|}.
End Backend.

(** ** The log *)

Section Log.
Context `{RefereeRedis} `{Hashing, Ed25519, Ed25519Signer, EntryCodec} `{Serde AuditEntry}.

Definition ra_append (identity : SigningKey) (entry : AuditEntry) (st : rr_state) : res string * rr_state :=
  let signed := sign_entry identity entry in
  let tip := tip_hash signed in
  let '(r, st) := rr_call "redis rpush: " (fun r => Some r)
    (RPush (audit_key (e_swap_id signed)) (to_json signed)) st in
  (_ ← r; Ok tip, st).

Definition ra_entries_for (i : SwapId) (st : rr_state) : res (list AuditEntry) * rr_state :=
  let '(items, st) := rr_call "redis lrange: " array_of_reply (LRangeAll (audit_key i)) st in
  (l ← items; mapM (decoded "decode: ") l, st).

Definition ra_tip_for (i : SwapId) (st : rr_state) : res string * rr_state :=
  let '(raw, st) := rr_call "redis lindex: " bulk_of_reply (LIndexLast (audit_key i)) st in
  (o ← raw;
   match o with
   | None => Ok ""
   | Some s => e ← decoded "decode: " s; Ok (tip_hash e)
   end, st).

#[export] Instance RedisAuditLog : AuditLog rr_state := {|
  log_append := ra_append;
  log_entries_for := ra_entries_for;
  log_tip_for := ra_tip_for;
|}.
End Log.

(** ** One call *)

Section Calls.
Context `{RefereeRedisLaws}.

Lemma rr_call_spec {T} context (conv : redis_reply -> option T) c st r st' :
  rr_call context conv c st = (r, st') ->
  (exists x, r = Ok x /\ conv (cmd_exec c (rr_view st)).1 = Some x /\
     rr_view st' = (cmd_exec c (rr_view st)).2) \/
  store_error r /\ (rr_view st' = rr_view st \/ rr_view st' = (cmd_exec c (rr_view st)).2).
Proof.
  unfold rr_call. destruct (rr_query c st) as [[x|e] st1] eqn:Eq; intros [= <- <-]; simpl.
  - apply rr_query_ok in Eq as [-> _]. simpl. destruct (conv x) as [y|] eqn:Ec; simpl; [left; eauto|].
    right. split; [done|by right].
  - apply rr_query_err in Eq. right. split; [done|done].
Qed.

(** A command that only reads. *)
Lemma rr_read_spec {T} context (conv : redis_reply -> option T) c st r st' x :
  rr_call context conv c st = (r, st') -> (cmd_exec c (rr_view st)).2 = rr_view st ->
  (forall y, conv (cmd_exec c (rr_view st)).1 = Some y -> y = x) ->
  rr_view st' = rr_view st /\ (r = Ok x \/ store_error r).
Proof.
  intros E Hd Hx. apply rr_call_spec in E as [(y & -> & Ey & ->)|(He & Hv)]; rewrite ?Hd in *.
  - split; [done|]. left. by rewrite (Hx y Ey).
  - split; [by destruct Hv|by right].
Qed.
End Calls.

Lemma zrev_elem z i : i ∈ zrev z <-> is_Some (z !! i).
Proof.
  unfold zrev. rewrite (stable_sort_perm zrev_le), list_elem_of_fmap. split.
  - intros ([j x] & -> & Hj%elem_of_map_to_list). by exists x.
  - intros [x Hx]. exists (i, x). split; [done|]. by apply elem_of_map_to_list.
Qed.

Lemma zrev_length z : length (zrev z) = size z.
Proof.
  unfold zrev. by rewrite length_fmap, (stable_sort_perm zrev_le), length_map_to_list.
Qed.

(** ** The store has the contract *)

Section StoreContract.
Context `{RefereeRedisLaws} `{SwapJson} `{Serde Transaction} `{!SerdeLaws Transaction}.
Context (origin : string -> PgpFingerprint * PgpFingerprint * Z).

(** An index under a prefix lists, for every fingerprint, the swaps [fp_of]
    gives to it. *)
Definition index_holds (prefix : string) (fp_of : Transaction -> PgpFingerprint) (m : gmap string Transaction)
    (db : redis_keys) : Prop :=
  forall fp, exists z, zset_at db (prefix +:+ fp_hex fp) = Some z /\
    forall i, is_Some (z !! i) <-> exists tx, m !! i = Some tx /\ fp_of tx = fp.

Definition rows_hold (m : gmap string Transaction) (db : redis_keys) : Prop :=
  forall i, db !! (SWAP_KEY_PREFIX +:+ i) = DStr <$> (to_json <$> m !! i).

Record redis_holds (db : redis_keys) (m : gmap string Transaction) : Prop := {
  rh_rows : rows_hold m db;
  rh_bob : index_holds BY_BOB_PREFIX t_bob_pgp_fp m db;
  rh_alice : index_holds BY_ALICE_PREFIX t_alice_pgp_fp m db;
  rh_settled : settled_rows origin m;
}.

Lemma index_frame prefix fp_of m db db' :
  (forall x, db' !! (prefix +:+ x) = db !! (prefix +:+ x)) ->
  index_holds prefix fp_of m db -> index_holds prefix fp_of m db'.
Proof. intros E Hi fp. unfold zset_at. rewrite E. apply Hi. Qed.

(** [ZADD] of a row brings its index up to date. *)
Lemma index_zadd prefix fp_of m db tx :
  index_holds prefix fp_of m db -> (forall old, m !! tx_key tx = Some old -> fp_of old = fp_of tx) ->
  u64_range (t_created_at_unix tx) ->
  let key := prefix +:+ fp_hex (fp_of tx) in
  exists x, script_zadd key (show_u64 (t_created_at_unix tx)) (tx_key tx) db = (Ok tt, <[key := x]> db) /\
    index_holds prefix fp_of (<[tx_key tx := tx]> m) (<[key := x]> db).
Proof.
  intros Hi Hold Hr key. destruct (Hi (fp_of tx)) as (z & Ez & Hz).
  unfold script_zadd, score_of. rewrite show_u64_parse by done. simpl.
  exists (DZset (<[tx_key tx := f64_of_u64 (t_created_at_unix tx)]> z)). split.
  { fold key in Ez. unfold zset_at in Ez. destruct (db !! key) as [[]|]; simplify_eq; done. }
  intros fp. destruct (decide (fp = fp_of tx)) as [->|Hne].
  - fold key. unfold zset_at. rewrite lookup_insert_eq. eexists. split; [done|]. intros i.
    destruct (decide (i = tx_key tx)) as [->|Hi'].
    + rewrite !lookup_insert_eq. split; [by exists tx|done].
    + rewrite !lookup_insert_ne by done. apply Hz.
  - destruct (Hi fp) as (z' & Ez' & Hz'). exists z'. unfold zset_at in *. rewrite lookup_insert_ne.
    + split; [done|]. intros i. rewrite (Hz' i). destruct (decide (i = tx_key tx)) as [->|Hi'].
      * rewrite lookup_insert_eq. split; [|intros (tx' & [= <-] & <-); congruence].
        intros (tx' & Htx & <-). by destruct Hne, (Hold tx' Htx).
      * by rewrite lookup_insert_ne by done.
    + unfold key. apply prefix_ne. intros E. destruct fp, (fp_of tx). simpl in E. congruence.
Qed.

Lemma upsert_script db m tx :
  redis_holds db m -> writable origin tx ->
  exists db', UPSERT_SCRIPT
    [swap_key (t_swap_id tx); by_bob_key (t_bob_pgp_fp tx); by_alice_key (t_alice_pgp_fp tx)]
    [to_json tx; tx_key tx; show_u64 (t_created_at_unix tx)] db = (Ok 1, db') /\
    redis_holds db' (<[tx_key tx := tx]> m).
Proof.
  intros [Hr Hb Ha Hs] Hw.
  assert (forall old, m !! tx_key tx = Some old -> t_bob_pgp_fp old = t_bob_pgp_fp tx /\
    t_alice_pgp_fp old = t_alice_pgp_fp tx) as Hold.
  { intros old Ho%(settled_origin origin); [|done]. rewrite <- (w_origin _ _ Hw) in Ho.
    unfold origin_of in Ho. by simplify_eq. }
  set (db1 := <[swap_key (t_swap_id tx) := DStr (to_json tx)]> db).
  destruct (index_zadd BY_BOB_PREFIX t_bob_pgp_fp m db1 tx) as (x & Ex & Hb').
  { eapply index_frame; [|done]. intros y. unfold db1. by rewrite lookup_insert_ne by by apply clash_ne. }
  { intros. by apply Hold. }
  { apply Hw. }
  set (db2 := <[by_bob_key (t_bob_pgp_fp tx) := x]> db1).
  destruct (index_zadd BY_ALICE_PREFIX t_alice_pgp_fp m db2 tx) as (y & Ey & Ha').
  { eapply index_frame; [|done]. intros z. unfold db2, db1. by rewrite !lookup_insert_ne by by apply clash_ne. }
  { intros. by apply Hold. }
  { apply Hw. }
  exists (<[by_alice_key (t_alice_pgp_fp tx) := y]> db2). split.
  - unfold UPSERT_SCRIPT, mbind, script_bind, script_arg, script_set. simpl. fold db1.
    unfold by_bob_key at 1. rewrite Ex. fold (by_bob_key (t_bob_pgp_fp tx)) db2.
    unfold by_alice_key at 1. by rewrite Ey.
  - split.
    + intros i. unfold db2, db1. do 2 rewrite lookup_insert_ne by by apply clash_ne.
      unfold swap_key. fold (tx_key tx). destruct (decide (i = tx_key tx)) as [->|Hi].
      * by rewrite !lookup_insert_eq.
      * rewrite !lookup_insert_ne; [apply Hr|done|by apply prefix_ne].
    + eapply index_frame; [|done]. intros z. by rewrite lookup_insert_ne by by apply clash_ne.
    + done.
    + by apply settled_insert.
Qed.

(** A read of a row. *)
Lemma row_read db m fetch decode i st r st' :
  redis_holds db m -> rr_view st = db ->
  rs_row fetch decode (SWAP_KEY_PREFIX +:+ i) st = (r, st') ->
  rr_view st' = db /\ (r = Ok (m !! i) \/ store_error r).
Proof.
  intros Hh <- E. unfold rs_row in E.
  destruct (rr_call fetch bulk_of_reply (Get (SWAP_KEY_PREFIX +:+ i)) st) as [raw st1] eqn:Ec.
  simplify_eq. pose proof (rh_rows _ _ Hh i) as Hi.
  destruct (rr_read_spec _ _ _ _ _ _ (to_json <$> m !! i) Ec) as [-> Hraw].
  - unfold cmd_exec. rewrite Hi. by destruct (m !! i).
  - intros y. unfold cmd_exec. rewrite Hi. destruct (m !! i); simpl; by intros [= <-].
  - split; [done|]. destruct Hraw as [->|[msg ->]]; [left|right; by eexists].
    destruct (m !! i) as [tx|]; [|done]. cbn. unfold decoded. by rewrite from_to_json.
Qed.

(** One side of a listing: names of swaps of the fingerprint, all of them up
    to the limit. *)
Lemma side_read prefix fp_of context m fp st r st' :
  index_holds prefix fp_of m (rr_view st) ->
  rr_call context array_of_reply (ZRevRangeByScore (prefix +:+ fp_hex fp) 0 MAX_LISTED) st = (r, st') ->
  rr_view st' = rr_view st /\
  (store_error r \/ exists ids, r = Ok ids /\
     (forall i tx, i ∈ ids -> m !! i = Some tx -> fp_of tx = fp) /\
     ((size (filter (fun kv : string * Transaction => fp_of kv.2 = fp) m) <= 1000)%nat ->
        forall i tx, m !! i = Some tx -> fp_of tx = fp -> i ∈ ids)).
Proof.
  intros Hi E. destruct (Hi fp) as (z & Ez & Hz).
  destruct (rr_read_spec _ _ _ _ _ _ (take MAX_LISTED (zrev z)) E) as [-> Hr].
  - unfold cmd_exec. by rewrite Ez.
  - intros y. unfold cmd_exec. rewrite Ez. simpl. by intros [= <-].
  - split; [done|]. destruct Hr as [->|He]; [|by left]. right. eexists. split; [done|]. split.
    + intros i tx Hin%subseteq_take%zrev_elem%Hz Hm. destruct Hin as (tx' & Hm' & <-). congruence.
    + intros Hsz i tx Hm Hfp. rewrite take_ge; [apply zrev_elem, Hz; eauto|].
      rewrite zrev_length. assert (MAX_LISTED = 1000%nat) as -> by (unfold MAX_LISTED; lia).
      etrans; [|apply Hsz]. rewrite <- !size_dom. apply subseteq_size. intros j Hj.
      apply elem_of_dom, Hz in Hj as (tx' & Hj & Hfp'). apply elem_of_dom. exists tx'.
      by apply map_lookup_filter_Some.
Qed.

Lemma side_size (fp_of : Transaction -> PgpFingerprint) m fp :
  (forall tx, fp_of tx = fp -> party_to fp tx) -> (size (party_swaps m fp) <= 1000)%nat ->
  (size (filter (fun kv : string * Transaction => fp_of kv.2 = fp) m) <= 1000)%nat.
Proof.
  intros Hp Hsz. etrans; [|apply Hsz]. rewrite <- !size_dom. apply subseteq_size. intros i [tx Hi]%elem_of_dom.
  apply map_lookup_filter_Some in Hi as [Hi Hfp]. apply elem_of_dom. exists tx.
  apply map_lookup_filter_Some. split; [done|by apply Hp].
Qed.

Lemma list_read m fp st r st' :
  redis_holds (rr_view st) m -> rs_list_by_party fp st = (r, st') ->
  rr_view st' = rr_view st /\
  (store_error r \/ exists l, r = Ok l /\ lists True m fp l).
Proof.
  intros Hh E. unfold rs_list_by_party in E.
  destruct (rr_call "redis zrev bob: " _ _ st) as [r1 st1] eqn:E1.
  destruct (side_read _ _ _ _ _ _ _ _ (rh_bob _ _ Hh) E1) as [V1 [[msg ->]|(bob & -> & Hb & Hb')]].
  { simplify_eq. auto. }
  destruct (rr_call "redis zrev alice: " _ _ st1) as [r2 st2] eqn:E2.
  pose proof (rh_alice _ _ Hh) as Ha. rewrite <- V1 in Ha.
  destruct (side_read _ _ _ _ _ _ _ _ Ha E2) as [V2 [[msg ->]|(alice & -> & Hl & Hl')]].
  { simplify_eq. rewrite V2. auto. }
  destruct (collect _ fp ∅ (bob ++ alice) st2) as [r3 st3] eqn:E3. simplify_eq.
  destruct (collect_unseen _ (fun s => rr_view s = rr_view st) m fp
    (fun i s x s' V => row_read _ _ _ _ i s x s' Hh V) _ _ _ _ _ (eq_trans V2 V1) E3) as [V3 [->|[msg ->]]];
    [|split; [done|left; by eexists]].
  split; [done|]. right. exists (newest (unseen m fp ∅ (bob ++ alice))). split; [done|].
  destruct (unseen_listing m fp (bob ++ alice)) as [Hs Hc].
  - eapply settled_keyed, Hh.
  - intros i tx [Hi|Hi]%elem_of_app Hm; [left; by eapply Hb|right; by eapply Hl].
  - split; [done|]. intros _ Hsz. apply Hc; [done|]. intros i tx Hm Hp. apply elem_of_app. destruct Hp as [Hp|Hp].
    + left. eapply Hb'; [|done|done]. apply side_size; [by left|done].
    + right. eapply Hl'; [|done|done]. apply side_size; [by right|done].
Qed.

#[export, refine] Instance RedisSwapStore_contract : SwapContract rr_state origin := {|
  models st m := redis_holds (rr_view st) m;
  caught_up _ := True;
  whole _ _ := True;
|}.
Proof.
  - intros st m tx r st' Hm Hw E. simpl in E. unfold rs_upsert in E.
    destruct (rr_call _ _ _ st) as [r1 st1] eqn:E1. simplify_eq.
    destruct (upsert_script _ _ _ Hm Hw) as (db' & Es & Hh).
    apply rr_call_spec in E1 as [(x & -> & _ & ->)|([msg ->] & [-> | ->])]; simpl; [| by right; eauto |];
      fold (tx_key tx); rewrite Es; left; eauto.
  - intros st m i r st' Hm E. destruct (row_read _ _ _ _ _ _ _ _ Hm eq_refl E) as [-> ?]. done.
  - intros st m fp r st' Hm _ E. destruct (list_read _ _ _ _ _ Hm E) as [-> Hr]. split; [done|].
    destruct Hr as [He|(l & -> & Hl)]; [by left|right]. exists l. by split.
  - intros st m i r st' Hm _ E. by injection E as <- <-.
Defined.
End StoreContract.

(** ** The log has the contract *)

Section LogContract.
Context `{RefereeRedisLaws} `{Hashing, Ed25519, Ed25519Signer, EntryCodec}.
Context `{Serde AuditEntry} `{!SerdeLaws AuditEntry}.

Definition redis_log (db : redis_keys) (L : string -> list AuditEntry) : Prop := forall i,
  list_at db (AUDIT_KEY_PREFIX +:+ i) = Some (to_json <$> L i).

Lemma decode_all context (l : list AuditEntry) : mapM (decoded context) (to_json <$> l) = Ok l.
Proof.
  apply mapM_Ok. induction l as [|e l IH]; simpl; constructor; [|done].
  unfold decoded. by rewrite from_to_json.
Qed.

Lemma rpush_noted db L e :
  redis_log db L ->
  redis_log (cmd_exec (RPush (audit_key (e_swap_id e)) (to_json e)) db).2 (noted e 1 L).
Proof.
  intros HL i. unfold cmd_exec, audit_key. rewrite HL. unfold snd, list_at, noted. case_bool_decide as Hi.
  - subst i. rewrite lookup_insert_eq. by rewrite fmap_app.
  - rewrite lookup_insert_ne; [apply HL|]. by apply prefix_ne.
Qed.

Lemma noted_none db L e : redis_log db L -> redis_log db (noted e 0 L).
Proof.
  intros HL i. unfold noted. case_bool_decide; [|done]. simpl. rewrite app_nil_r. by apply HL.
Qed.

#[export, refine] Instance RedisAuditLog_contract : AuditContract rr_state := {|
  holds_log st L := redis_log (rr_view st) L;
  log_caught_up _ := True;
|}.
Proof.
  - intros st L k e r st' HL _ E. simpl in E. unfold ra_append in E.
    destruct (rr_call _ _ _ st) as [r1 st1] eqn:E1. simplify_eq.
    apply rr_call_spec in E1 as [(x & -> & _ & ->)|([msg ->] & [-> | ->])].
    + exists 1%nat. split; [by apply rpush_noted|]. left. split; [done|lia].
    + exists 0%nat. split; [by apply noted_none|right; by eexists].
    + exists 1%nat. split; [by apply rpush_noted|right; by eexists].
  - intros st L i r st' HL E. simpl in E. unfold ra_entries_for in E.
    destruct (rr_call _ _ _ st) as [r1 st1] eqn:E1. simplify_eq.
    destruct (rr_read_spec _ _ _ _ _ _ (to_json <$> L (id_str i)) E1) as [-> Hr].
    + unfold cmd_exec, audit_key. by rewrite HL.
    + unfold cmd_exec, audit_key. rewrite HL. simpl. by intros y [= <-].
    + split; [done|]. intros _. destruct Hr as [->|[msg ->]]; [left|right; by eexists].
      simpl. apply decode_all.
  - intros st L i r st' HL E. simpl in E. unfold ra_tip_for in E.
    destruct (rr_call _ _ _ st) as [r1 st1] eqn:E1. simplify_eq.
    destruct (rr_read_spec _ _ _ _ _ _ (last (to_json <$> L (id_str i))) E1) as [-> Hr].
    + unfold cmd_exec, audit_key. by rewrite HL.
    + unfold cmd_exec, audit_key. rewrite HL. simpl. by intros y [= <-].
    + split; [done|]. intros _. destruct Hr as [->|[msg ->]]; [left|right; by eexists].
      simpl. unfold last_tip. rewrite fmap_last. destruct (last (L (id_str i))); [|done].
      simpl. unfold decoded. by rewrite from_to_json.
Defined.
End LogContract.
