(* ===== verification/RefereeFdb.v ===== *)
(** * The referee over FoundationDB

    [FdbSwapStore] ([referee/src/store/fdb.rs]) and [FdbAuditLog]
    ([referee/src/audit/fdb.rs]) over the cluster of [Fdb].  Keys are ordered
    byte by byte and read by ranges; one call of [get_range] gives a first batch
    of the range, whose size is the service's ([FdbRange]).  The store has the
    contract of [RefereeStores].  The log has not: every entry of a swap is
    written under sequence number zero, so it holds the last one only
    ([fdb_audit_keeps_last]). *)
From S2P Require Import Prelude Decimal External Storage Fdb Dynamo RefereeState RefereeWorld RefereeHistory RefereeStores.

(** ** Ranges *)

Record RangeOption := { range_begin : string; range_end : string; range_limit : option nat; range_reverse : bool }.

(** [RangeOption::from((begin, end))]. *)
Definition range_from (b e : string) : RangeOption :=
  {| range_begin := b; range_end := e; range_limit := None; range_reverse := false |}.

Definition in_range (b e k : string) : bool := String.leb b k && String.ltb k e.

Definition kv_le (a b : string * string) : bool := String.leb a.1 b.1.

Definition range_rows (o : RangeOption) (d : fdb) : list (string * string) :=
  let l := stable_sort kv_le
    (filter (fun kv => in_range (range_begin o) (range_end o) kv.1 = true) (map_to_list d)) in
  let l := if range_reverse o then rev l else l in
  match range_limit o with Some n => take n l | None => l end.

Class FdbRange := {
  batch_size : nat -> list (string * string) -> nat;
  show_fdb : fdb_error -> string;
}.

(** A batch of a range that is not empty is not empty. *)
Class FdbRangeLaws `{FdbRange} : Prop := {
  batch_some : forall it kv l, (0 < batch_size it (kv :: l))%nat;
}.

(** [trx.get_range(&opt, iteration, snapshot)]: the batch of that iteration. *)
Definition trx_get_range `{FdbRange} (o : RangeOption) (iteration : nat) : trx (list (string * string)) :=
  fun d => let l := range_rows o d in (Ok (take (batch_size iteration l) l), d).

Definition fdb_run `{FdbService} `{FdbRange} {T} (context : string) (f : trx T) (st : fstate)
  : res T * fstate :=
  let '(r, st) := db_run f st in (map_err (fun e => Store (context +:+ show_fdb e)) r, st).

Definition byte_ff : string := String (ascii_of_nat 255) EmptyString.

(** ** The store *)

Definition SWAP_PREFIX : string := "referee/swap/".
Definition FDB_BOB_PREFIX : string := "referee/by-bob/".
Definition FDB_ALICE_PREFIX : string := "referee/by-alice/".
Definition FDB_AUDIT_PREFIX : string := "referee/audit/".

(** [format!("{n:020}")]. *)
Definition pad20 (n : Z) : string :=
  str_repeat "0"%char (20 - String.length (show_u64 n)) +:+ show_u64 n.

Definition fdb_swap_key (i : SwapId) : string := SWAP_PREFIX +:+ id_str i.

Definition index_tail (fp : PgpFingerprint) (ts : Z) (i : string) : string :=
  fp_hex fp +:+ "/" +:+ pad20 ts +:+ "/" +:+ i.
Definition index_key (prefix : string) (fp : PgpFingerprint) (ts : Z) (i : SwapId) : string :=
  prefix +:+ index_tail fp ts (id_str i).

(** The first value of [end] is overwritten. *)
Definition index_subspace (prefix : string) (fp : PgpFingerprint) : string * string :=
  let start := prefix +:+ fp_hex fp +:+ "/" in (start, start +:+ byte_ff).

(** What follows the last slash of a key, if it has one. *)
Definition id_of_key (kv : string * string) : option string := after_last "/" kv.1.

Section Backend.
Context `{FdbService} `{FdbRange} `{SwapJson} `{Serde Transaction}.

Definition upsert_trx (row_key bob_key alice_key json : string) : trx unit :=
  _ ← trx_set row_key json;
  _ ← trx_set bob_key "";
  _ ← trx_set alice_key "";
  mret tt.

Definition fs_upsert (tx : Transaction) (st : fstate) : res unit * fstate :=
  fdb_run "fdb upsert: " (upsert_trx (fdb_swap_key (t_swap_id tx))
    (index_key FDB_BOB_PREFIX (t_bob_pgp_fp tx) (t_created_at_unix tx) (t_swap_id tx))
    (index_key FDB_ALICE_PREFIX (t_alice_pgp_fp tx) (t_created_at_unix tx) (t_swap_id tx))
    (to_json tx)) st.

Definition fs_get (i : SwapId) (st : fstate) : res (option Transaction) * fstate :=
  let '(raw, st) := fdb_run "fdb get: " (trx_get (fdb_swap_key i)) st in
  (o ← raw;
   match o with
   | None => Ok None
   | Some s => tx ← map_err (fun e => Store ("decode: " +:+ e)) (from_json s); Ok (Some tx)
   end, st).

(** The newest thousand of each index, as far as the first batch goes. *)
Definition index_option (prefix : string) (fp : PgpFingerprint) : RangeOption :=
  let '(b, e) := index_subspace prefix fp in
  {| range_begin := b; range_end := e; range_limit := Some MAX_LISTED; range_reverse := true |}.

Definition scan_trx (fp : PgpFingerprint) : trx (list string) :=
  bob ← trx_get_range (index_option FDB_BOB_PREFIX fp) 1;
  alice ← trx_get_range (index_option FDB_ALICE_PREFIX fp) 1;
  mret (omap id_of_key (bob ++ alice)).

Definition fs_list_by_party (fp : PgpFingerprint) (st : fstate) : res (list TransactionSummary) * fstate :=
  match fdb_run "fdb scan: " (scan_trx fp) st with
  | (Err e, st) => (Err e, st)
  | (Ok scan, st) =>
      let '(r, st) := collect (fun i => fs_get (mk_id i)) fp ∅ scan st in
      (out ← r; Ok (newest out), st)
  end.

#[export] Instance FdbSwapStore : SwapStore fstate := {|
  store_upsert := fs_upsert;
  store_get := fs_get;
  store_list_by_party := fs_list_by_party;
  store_mark_terminal := mark_nothing;
|}.
End Backend.

(** ** The log *)

Definition entry_key (i : SwapId) (seq : Z) : string := FDB_AUDIT_PREFIX +:+ id_str i +:+ "/" +:+ pad20 seq.
Definition swap_prefix (i : SwapId) : string := FDB_AUDIT_PREFIX +:+ id_str i +:+ "/".
Definition end_prefix (start : string) : string := start +:+ byte_ff.

(** [&key[key.len().saturating_sub(20)..]]. *)
Definition last_20 (key : string) : string :=
  String.substring (String.length key - 20) 20 key.

(** [s.trim_start_matches('0')]. *)
Fixpoint trim_zeros (s : string) : string :=
  match s with
  | String c s' => if Ascii.eqb c "0"%char then trim_zeros s' else s
  | EmptyString => EmptyString
  end.

(** The sequence number after that of a key.  [from_utf8] does not show: a tail
    that is not ASCII text is no number either way.  The increment wraps in a
    release build. *)
Definition seq_after (key : string) : Z :=
  match parse_u64 (trim_zeros (last_20 key)) with
  | Some n => (n + 1) mod 2 ^ 64
  | None => 0
  end.

Section Log.
Context `{FdbService} `{FdbRange} `{Hashing, Ed25519, Ed25519Signer, EntryCodec} `{Serde AuditEntry}.

Definition read_trx (i : SwapId) : trx (list string) :=
  let prefix := swap_prefix i in
  kvs ← trx_get_range (range_from prefix (end_prefix prefix)) 1024;
  mret (kvs.*2).

Definition read_entries (i : SwapId) (st : fstate) : res (list AuditEntry) * fstate :=
  let '(r, st) := fdb_run "fdb get_range: " (read_trx i) st in
  (entries ← r; mapM (fun b => map_err (fun e => Store ("decode: " +:+ e)) (from_json b)) entries, st).

(** The range is read forwards and as a snapshot: the two numbers after the
    option are the iteration and the snapshot flag. *)
Definition append_trx (i : SwapId) (json : string) : trx unit :=
  let prefix := swap_prefix i in
  kvs ← trx_get_range (range_from prefix (end_prefix prefix)) 1;
  let next_seq := match kvs with [] => 0 | kv :: _ => seq_after kv.1 end in
  trx_set (entry_key i next_seq) json.

Definition fa_append (identity : SigningKey) (entry : AuditEntry) (st : fstate) : res string * fstate :=
  let signed := sign_entry identity entry in
  let tip := tip_hash signed in
  let '(r, st) := fdb_run "fdb append: " (append_trx (e_swap_id signed) (to_json signed)) st in
  (_ ← r; Ok tip, st).

Definition fa_tip_for (i : SwapId) (st : fstate) : res string * fstate :=
  let '(r, st) := read_entries i st in
  (entries ← r; Ok (match last entries with Some e => tip_hash e | None => "" end), st).

#[export] Instance FdbAuditLog : AuditLog fstate := {|
  log_append := fa_append;
  log_entries_for := read_entries;
  log_tip_for := fa_tip_for;
|}.
End Log.

(** ** Keys in a range *)

Lemma ascii_compare_refl c : Ascii.compare c c = Eq.
Proof. apply N.compare_refl. Qed.

Lemma compare_prefix p a b : String.compare (p +:+ a) (p +:+ b) = String.compare a b.
Proof.
  induction p as [|c p IH]; simpl; [done|].
  by rewrite ascii_compare_refl.
Qed.

Definition below_ff (s : string) : bool :=
  match s with String c _ => negb (Ascii.eqb c (ascii_of_nat 255)) | EmptyString => true end.

Lemma ltb_ff r : String.ltb r byte_ff = below_ff r.
Proof.
  destruct r as [|c r]; [done|]. unfold String.ltb, byte_ff, below_ff, String.compare.
  destruct (Ascii.eqb_spec c (ascii_of_nat 255)) as [->|Hne].
  - rewrite ascii_compare_refl. by destruct r.
  - assert (Ascii.compare c (ascii_of_nat 255) = Lt) as ->; [|done].
    unfold Ascii.compare. apply N.compare_lt_iff. change (N_of_ascii (ascii_of_nat 255)) with 255%N.
    assert (N_of_ascii c <> 255%N).
    { intros E. apply Hne. rewrite <- (ascii_N_embedding c), E. done. }
    pose proof (N_ascii_bounded c). lia.
Qed.

(** The keys from a prefix up to the prefix followed by 0xff have the prefix. *)
Lemma in_range_prefix p k :
  in_range p (p +:+ byte_ff) k = true <-> exists r, k = p +:+ r /\ below_ff r = true.
Proof.
  unfold in_range, String.leb, String.ltb. rewrite andb_true_iff. split.
  - revert k. induction p as [|a p IH]; intros k; [intros [_ Hk]; exists k; by rewrite <- ltb_ff|].
    destruct k as [|b k]; simpl; [by intros [? ?]|].
    destruct (Ascii.compare a b) eqn:E; rewrite (Ascii.compare_antisym b a), E; simpl; [|by intros [? ?]..].
    apply Ascii.compare_eq_iff in E. subst b. intros Hk. destruct (IH k Hk) as (r & -> & ?). by exists r.
  - intros (r & -> & Hr). rewrite compare_prefix. split.
    + rewrite <- (str_app_nil_r p) at 1. rewrite compare_prefix. by destruct r.
    + rewrite <- ltb_ff in Hr. done.
Qed.

Lemma NoDup_fst_map_to_list_filter (P : string * string -> Prop) `{forall x, Decision (P x)} (d : fdb) :
  NoDup (filter P (map_to_list d)).*1.
Proof.
  apply NoDup_fmap_fst; [|apply NoDup_filter, NoDup_map_to_list].
  intros k v w [_ Hv%elem_of_map_to_list]%list_elem_of_filter [_ Hw%elem_of_map_to_list]%list_elem_of_filter.
  congruence.
Qed.

Lemma elem_of_rev {A} (x : A) l : x ∈ rev l <-> x ∈ l.
Proof. by rewrite !list_elem_of_In, <- in_rev. Qed.

Lemma range_rows_elem o d kv :
  kv ∈ range_rows o d -> d !! kv.1 = Some kv.2 /\ in_range (range_begin o) (range_end o) kv.1 = true.
Proof.
  unfold range_rows. set (l := stable_sort _ _). intros Hkv.
  assert (kv ∈ l) as Hl.
  { assert (kv ∈ (if range_reverse o then rev l else l)) as Hr.
    { destruct (range_limit o); [by eapply subseteq_take|done]. }
    destruct (range_reverse o); [|done]. by rewrite elem_of_rev in Hr. }
  unfold l in Hl. rewrite (stable_sort_perm kv_le), list_elem_of_filter in Hl.
  destruct Hl as [Hr Hm]. split; [|done]. destruct kv. by apply elem_of_map_to_list.
Qed.

(** A range without limit, or with one it does not reach, has every row. *)
Lemma range_rows_all o d k v :
  d !! k = Some v -> in_range (range_begin o) (range_end o) k = true ->
  (forall n, range_limit o = Some n ->
     (size (filter (fun kv : string * string => in_range (range_begin o) (range_end o) kv.1 = true) d) <= n)%nat) ->
  (k, v) ∈ range_rows o d.
Proof.
  intros Hk Hr Hn. unfold range_rows. set (l := stable_sort _ _).
  assert ((k, v) ∈ l) as Hl.
  { unfold l. rewrite (stable_sort_perm kv_le), list_elem_of_filter. split; [done|by apply elem_of_map_to_list]. }
  assert ((k, v) ∈ (if range_reverse o then rev l else l)) as Hr'.
  { destruct (range_reverse o); [by rewrite elem_of_rev|done]. }
  destruct (range_limit o) as [n|]; [|done]. rewrite take_ge; [done|].
  assert (length l = size (filter (fun kv : string * string =>
    in_range (range_begin o) (range_end o) kv.1 = true) d)) as El.
  { unfold l. rewrite (stable_sort_perm kv_le), map_filter_alt, <- length_map_to_list.
    rewrite map_to_list_to_map; [done|]. apply NoDup_fst_map_to_list_filter. }
  specialize (Hn n eq_refl). destruct (range_reverse o); rewrite ?length_rev; lia.
Qed.

(** ** Texts without a slash *)

Lemma split_slash a b r s :
  key_safe a = true -> key_safe b = true -> a +:+ "/" +:+ r = b +:+ "/" +:+ s -> a = b /\ r = s.
Proof.
  unfold key_safe. revert b. induction a as [|c a IH]; intros [|d b] Ha Hb E; simpl in *; simplify_eq; bools; try done.
  destruct (IH b) as [-> ->]; done.
Qed.

Lemma after_last_safe i : key_safe i = true -> after_last "/" i = None.
Proof.
  unfold key_safe. induction i as [|c i IH]; intros Hi; [done|]. simpl in Hi. bools. cbn [after_last].
  rewrite IH by done. cbn [strip_prefix].
  match goal with Hc : Ascii.eqb c _ = false |- _ => rewrite Ascii.eqb_sym, Hc end. done.
Qed.

Lemma after_last_slash p i : key_safe i = true -> after_last "/" (p +:+ "/" +:+ i) = Some i.
Proof.
  intros Hi. induction p as [|c p IH]; [|cbn [after_last String.append] in *; by rewrite IH].
  change (after_last "/" (String "/" i) = Some i). cbn [after_last]. rewrite after_last_safe by done. done.
Qed.

Lemma pad20_digits n : u64_range n -> str_all is_digit (pad20 n) = true.
Proof.
  intros Hn. unfold pad20. rewrite str_all_app, str_all_repeat by done. by apply show_u64_digits.
Qed.

Lemma digits_below_ff s r : str_all is_digit s = true -> below_ff r = true -> below_ff (s +:+ r) = true.
Proof.
  destruct s as [|c s]; [done|]. simpl. intros Hs _. bools.
  destruct (Ascii.eqb_spec c (ascii_of_nat 255)) as [->|]; done.
Qed.

(** ** One run *)

Section Runs.
Context `{FdbLaws} `{!FdbRange}.

Lemma fdb_read {T} context (f : trx T) st r st' :
  (forall d, (f d).2 = d) -> fdb_run context f st = (r, st') ->
  fview st' = fview st /\ ((exists x, r = Ok x /\ (f (fview st)).1 = Ok x) \/ store_error r).
Proof.
  intros Hf E. assert (forall d d', lost f d d' -> d' = d) as Hl.
  { induction 1 as [|d x d1 d2 Ed Hl IH]; [done|]. subst. specialize (Hf d). by rewrite Ed in Hf. }
  unfold fdb_run in E. destruct (db_run f st) as [[x|e] st1] eqn:Er; simplify_eq/=.
  - apply run_ok in Er as (d & ->%Hl & Ef). pose proof (Hf (fview st)) as Hd. rewrite Ef in Hd. simpl in Hd.
    rewrite Hd in Ef |- *. split; [done|]. left. exists x. by rewrite Ef.
  - apply run_err in Er as [->%Hl _]. split; [done|]. right. by eexists.
Qed.

(** A closure that always succeeds, takes [P] to [Q], and keeps [Q] when it is
    run again. *)
Lemma fdb_write {T} context (f : trx T) (P Q : fdb -> Prop) st r st' :
  (forall d, P d \/ Q d -> exists x d', f d = (Ok x, d') /\ Q d') ->
  P (fview st) -> fdb_run context f st = (r, st') ->
  (exists x d, r = Ok x /\ f d = (Ok x, fview st')) /\ Q (fview st') \/
  store_error r /\ (P (fview st') \/ Q (fview st')).
Proof.
  intros Hf HP E. assert (forall d d', lost f d d' -> P d \/ Q d -> P d' \/ Q d') as Hl.
  { induction 1 as [|d x d1 d2 Ed Hl IH]; [done|]. intros Hd. apply IH. right.
    destruct (Hf d Hd) as (y & d' & Ed' & HQ). by replace d1 with d' by congruence. }
  unfold fdb_run in E. destruct (db_run f st) as [[x|e] st1] eqn:Er; simplify_eq/=.
  - apply run_ok in Er as (d & Hd & Ef). left. split; [eauto|].
    destruct (Hf d) as (y & d' & Ed & HQ); [eapply Hl; eauto|].
    by replace (fview st') with d' by congruence.
  - apply run_err in Er as [Hd _]. right. split; [by eexists|]. eapply Hl; eauto.
Qed.
End Runs.

(** ** The store has the contract *)

Section StoreContract.
Context `{FdbLaws} `{!FdbRange} `{SwapJson} `{Serde Transaction} `{!SerdeLaws Transaction}.
Context (origin : string -> PgpFingerprint * PgpFingerprint * Z).

Definition side_holds (prefix : string) (fp_of : Transaction -> PgpFingerprint) (m : gmap string Transaction)
    (d : fdb) : Prop :=
  forall t, is_Some (d !! (prefix +:+ t)) <->
    exists i tx, m !! i = Some tx /\ t = index_tail (fp_of tx) (t_created_at_unix tx) i.

Record fdb_holds (m : gmap string Transaction) (d : fdb) : Prop := {
  fh_rows : forall i, d !! (SWAP_PREFIX +:+ i) = to_json <$> m !! i;
  fh_bob : side_holds FDB_BOB_PREFIX t_bob_pgp_fp m d;
  fh_alice : side_holds FDB_ALICE_PREFIX t_alice_pgp_fp m d;
  fh_settled : settled_rows origin m;
}.

Lemma side_frame prefix fp_of m d d' :
  (forall x, d' !! (prefix +:+ x) = d !! (prefix +:+ x)) ->
  side_holds prefix fp_of m d -> side_holds prefix fp_of m d'.
Proof. intros E Hi t. rewrite E. apply Hi. Qed.

Lemma side_insert prefix fp_of m d tx :
  side_holds prefix fp_of m d ->
  (forall old, m !! tx_key tx = Some old ->
     fp_of old = fp_of tx /\ t_created_at_unix old = t_created_at_unix tx) ->
  side_holds prefix fp_of (<[tx_key tx := tx]> m)
    (<[prefix +:+ index_tail (fp_of tx) (t_created_at_unix tx) (tx_key tx) := ""]> d).
Proof.
  intros Hi Hold t. set (t0 := index_tail (fp_of tx) (t_created_at_unix tx) (tx_key tx)).
  destruct (decide (t = t0)) as [->|Ht].
  - rewrite lookup_insert_eq. split; [|done]. intros _. exists (tx_key tx), tx. by rewrite lookup_insert_eq.
  - rewrite lookup_insert_ne by by apply prefix_ne. rewrite (Hi t).
    split; intros (i & tx' & Hm & Et); exists i, tx'.
    + rewrite lookup_insert_ne; [done|]. intros <-. destruct (Hold _ Hm) as [E1 E2].
      by rewrite E1, E2 in Et.
    + apply lookup_insert_Some in Hm as [[<- <-]|[_ Hm]]; done.
Qed.

Lemma upsert_holds m d tx :
  fdb_holds m d -> writable origin tx ->
  exists d', upsert_trx (fdb_swap_key (t_swap_id tx))
    (index_key FDB_BOB_PREFIX (t_bob_pgp_fp tx) (t_created_at_unix tx) (t_swap_id tx))
    (index_key FDB_ALICE_PREFIX (t_alice_pgp_fp tx) (t_created_at_unix tx) (t_swap_id tx))
    (to_json tx) d = (Ok tt, d') /\ fdb_holds (<[tx_key tx := tx]> m) d'.
Proof.
  intros [Hr Hb Ha Hs] Hw. eexists. split; [done|].
  assert (forall old, m !! tx_key tx = Some old -> origin_of old = origin_of tx) as Hold.
  { intros old Ho%(settled_origin origin); [|done]. by rewrite (w_origin _ _ Hw). }
  unfold index_key. fold (tx_key tx). split.
  - intros i. do 2 rewrite lookup_insert_ne by by apply clash_ne. unfold fdb_swap_key. fold (tx_key tx).
    destruct (decide (i = tx_key tx)) as [->|Hi]; [by rewrite !lookup_insert_eq|].
    rewrite !lookup_insert_ne; [apply Hr|done|by apply prefix_ne].
  - eapply side_frame; [intros z; by rewrite lookup_insert_ne by by apply clash_ne|].
    apply (side_insert _ t_bob_pgp_fp).
    + eapply side_frame; [|done]. intros z. by rewrite lookup_insert_ne by by apply clash_ne.
    + intros old Ho%Hold. unfold origin_of in Ho. by simplify_eq.
  - apply (side_insert _ t_alice_pgp_fp).
    + eapply side_frame; [|done]. intros z. by rewrite !lookup_insert_ne by by apply clash_ne.
    + intros old Ho%Hold. unfold origin_of in Ho. by simplify_eq.
  - by apply settled_insert.
Qed.

Lemma row_get m st i r st' :
  fdb_holds m (fview st) -> fs_get (mk_id i) st = (r, st') ->
  fview st' = fview st /\ (r = Ok (m !! i) \/ store_error r).
Proof.
  intros Hh E. unfold fs_get in E. destruct (fdb_run _ _ st) as [raw st1] eqn:Er. simplify_eq.
  destruct (fdb_read _ (trx_get _) _ _ _ (fun d => eq_refl) Er) as [-> [(x & -> & Ex)|[msg ->]]]; split; try done.
  - left. unfold trx_get, fdb_swap_key in Ex. cbn [fst id_str] in Ex. rewrite (fh_rows _ _ Hh i) in Ex.
    injection Ex as <-.
    destruct (m !! i) as [tx|]; [|done]. simpl. by rewrite from_to_json.
  - right. by eexists.
Qed.

(** The ids of one side: those of swaps of the fingerprint, all of them when
    the range is returned whole. *)
Definition whole_range (o : RangeOption) (d : fdb) : Prop :=
  (length (range_rows o d) <= batch_size 1 (range_rows o d))%nat /\
  (size (filter (fun kv : string * string => in_range (range_begin o) (range_end o) kv.1 = true) d) <= MAX_LISTED)%nat.

Lemma index_option_range prefix fp :
  range_begin (index_option prefix fp) = prefix +:+ fp_hex fp +:+ "/" /\
  range_end (index_option prefix fp) = (prefix +:+ fp_hex fp +:+ "/") +:+ byte_ff.
Proof. done. Qed.

Lemma tail_in_range prefix fp ts i :
  u64_range ts ->
  in_range (range_begin (index_option prefix fp)) (range_end (index_option prefix fp))
    (prefix +:+ index_tail fp ts i) = true.
Proof.
  intros Hts. destruct (index_option_range prefix fp) as [-> ->]. apply in_range_prefix.
  exists (pad20 ts +:+ "/" +:+ i). split; [unfold index_tail; by rewrite !str_app_assoc|].
  by apply digits_below_ff; [apply pad20_digits|].
Qed.

Lemma id_of_index prefix fp ts i v :
  key_safe i = true -> id_of_key (prefix +:+ index_tail fp ts i, v) = Some i.
Proof.
  intros Hi. unfold id_of_key. cbn [fst].
  assert (prefix +:+ index_tail fp ts i = (prefix +:+ fp_hex fp +:+ "/" +:+ pad20 ts) +:+ "/" +:+ i) as ->
    by (unfold index_tail; by rewrite !str_app_assoc).
  by apply after_last_slash.
Qed.

Lemma side_scan prefix fp_of m d fp it :
  side_holds prefix fp_of m d -> settled_rows origin m -> key_safe (fp_hex fp) = true ->
  (forall tx, writable origin tx -> key_safe (fp_hex (fp_of tx)) = true) ->
  let rows := range_rows (index_option prefix fp) d in
  (forall kv, kv ∈ take it rows -> exists i tx, id_of_key kv = Some i /\ m !! i = Some tx /\ fp_of tx = fp) /\
  (whole_range (index_option prefix fp) d -> it = batch_size 1 rows ->
   forall i tx, m !! i = Some tx -> fp_of tx = fp -> exists kv, kv ∈ take it rows /\ id_of_key kv = Some i).
Proof.
  intros Hi Hs Hfp Hsafe rows. split.
  - intros [k v] [Hk Hr]%subseteq_take%range_rows_elem. cbn [fst snd] in Hk, Hr.
    destruct (index_option_range prefix fp) as [Eb Ee]. rewrite Eb, Ee in Hr.
    apply in_range_prefix in Hr as (r & -> & _). rewrite str_app_assoc in Hk.
    destruct (proj1 (Hi (fp_hex fp +:+ "/" +:+ r))) as (i & tx & Hm & Et).
    { rewrite str_app_assoc in Hk. by exists v. }
    destruct (Hs i tx Hm) as [Hkey Hw]. apply split_slash in Et as [Efp ->]; [|done|by apply Hsafe].
    apply fp_hex_inj in Efp. exists i, tx. split; [|done].
    assert ((prefix +:+ fp_hex fp +:+ "/") +:+ pad20 (t_created_at_unix tx) +:+ "/" +:+ i =
      prefix +:+ index_tail fp (t_created_at_unix tx) i) as -> by (unfold index_tail; by rewrite !str_app_assoc).
    apply id_of_index. rewrite <- Hkey. apply Hw.
  - intros [Hb Hsz] -> i tx Hm Ef. destruct (Hs i tx Hm) as [Hkey Hw].
    assert (is_Some (d !! (prefix +:+ index_tail (fp_of tx) (t_created_at_unix tx) i))) as [v Hv].
    { apply Hi. eauto. }
    exists (prefix +:+ index_tail (fp_of tx) (t_created_at_unix tx) i, v). split.
    + rewrite take_ge by done. apply range_rows_all; [done| |].
      * rewrite Ef. apply tail_in_range, Hw.
      * intros n. simpl. by intros [= <-].
    + apply id_of_index. rewrite <- Hkey. apply Hw.
Qed.

Lemma scan_spec m d fp ids :
  fdb_holds m d -> key_safe (fp_hex fp) = true -> (scan_trx fp d).1 = Ok ids ->
  (forall i tx, i ∈ ids -> m !! i = Some tx -> party_to fp tx) /\
  (whole_range (index_option FDB_BOB_PREFIX fp) d -> whole_range (index_option FDB_ALICE_PREFIX fp) d ->
   forall i tx, m !! i = Some tx -> party_to fp tx -> i ∈ ids).
Proof.
  intros Hh Hfp E. simpl in E. injection E as <-.
  destruct (side_scan _ _ _ _ _ (batch_size 1 (range_rows (index_option FDB_BOB_PREFIX fp) d))
    (fh_bob _ _ Hh) (fh_settled _ _ Hh) Hfp (fun tx Hw => w_bob_safe _ _ Hw)) as [B1 B2].
  destruct (side_scan _ _ _ _ _ (batch_size 1 (range_rows (index_option FDB_ALICE_PREFIX fp) d))
    (fh_alice _ _ Hh) (fh_settled _ _ Hh) Hfp (fun tx Hw => w_alice_safe _ _ Hw)) as [A1 A2].
  split.
  - intros i tx (kv & Hkv & Eid)%list_elem_of_omap Hm.
    apply elem_of_app in Hkv as [Hkv|Hkv]; [left; destruct (B1 kv Hkv) as (j & tx' & Ej & Hj & Hp)
      |right; destruct (A1 kv Hkv) as (j & tx' & Ej & Hj & Hp)]; congruence.
  - intros Wb Wa i tx Hm [Hp|Hp]; apply list_elem_of_omap.
    + destruct (B2 Wb eq_refl i tx Hm Hp) as (kv & Hkv & Eid). exists kv. split; [|done].
      apply elem_of_app. by left.
    + destruct (A2 Wa eq_refl i tx Hm Hp) as (kv & Hkv & Eid). exists kv. split; [|done].
      apply elem_of_app. by right.
Qed.

#[export, refine] Instance FdbSwapStore_contract : SwapContract fstate origin := {|
  models st m := fdb_holds m (fview st);
  caught_up _ := True;
  whole st fp := whole_range (index_option FDB_BOB_PREFIX fp) (fview st) /\
    whole_range (index_option FDB_ALICE_PREFIX fp) (fview st);
|}.
Proof.
  - intros st m tx r st' Hm Hw E.
    eapply (fdb_write _ _ (fdb_holds m) (fdb_holds (<[tx_key tx := tx]> m))) in E; [| |done].
    + destruct E as [[([] & d & -> & _) HQ]|[He [HP|HQ]]]; auto.
    + intros d [Hd|Hd]; destruct (upsert_holds _ _ _ Hd Hw) as (d' & Eu & Hd'); exists tt, d'; split; try done.
      by rewrite insert_insert_eq in Hd'.
  - intros st m [i] r st' Hm E. by destruct (row_get _ _ _ _ _ Hm E) as [-> ?].
  - intros st m fp r st' Hm Hfp E. simpl in E. unfold fs_list_by_party in E.
    destruct (fdb_run "fdb scan: " (scan_trx fp) st) as [x st1] eqn:Er.
    destruct (fdb_read _ (scan_trx fp) _ _ _ (fun d => eq_refl) Er) as [V1 [(ids & -> & Ei)|[msg ->]]].
    2: { simplify_eq. rewrite V1. split; [done|]. left. by eexists. }
    destruct (collect _ fp ∅ ids st1) as [y st2] eqn:Ec. simplify_eq.
    destruct (scan_spec _ _ _ _ Hm Hfp Ei) as [Hids Hall].
    assert (forall i s x s', fview s = fview st -> fs_get (mk_id i) s = (x, s') ->
      fview s' = fview st /\ (x = Ok (m !! i) \/ store_error x)) as Hread.
    { intros i s x s' Ev Eg. rewrite <- Ev. apply row_get; [by rewrite Ev|done]. }
    destruct (collect_unseen _ (fun s => fview s = fview st) m fp Hread _ _ _ _ _ V1 Ec) as [-> [->|[msg ->]]];
      (split; [done|]); [right|left; by eexists].
    eexists. split; [done|]. intros _.
    destruct (unseen_listing m fp ids) as [Hs Hc]; [eapply settled_keyed, Hm|done|].
    split; [done|]. intros [Wb Wa] Hsz. apply Hc; [done|]. by apply Hall.
  - intros st m i r st' Hm _ E. by injection E as <- <-.
Defined.
End StoreContract.

(** ** The log keeps one entry a swap *)

Section LogFacts.
Context `{FdbLaws} `{!FdbRange} `{!FdbRangeLaws} `{Hashing, Ed25519, Ed25519Signer, EntryCodec}.
Context `{Serde AuditEntry} `{!SerdeLaws AuditEntry}.

Definition log_tail (i : string) : string := i +:+ "/" +:+ pad20 0.

(** The audit keys hold [E]: one entry, under number zero, for each swap. *)
Definition only_last (E : string -> option AuditEntry) (d : fdb) : Prop :=
  (forall t v, d !! (FDB_AUDIT_PREFIX +:+ t) = Some v <->
     exists i e, E i = Some e /\ t = log_tail i /\ v = to_json e) /\
  (forall i e, E i = Some e -> key_safe i = true).

Definition kept (e : AuditEntry) (E : string -> option AuditEntry) : string -> option AuditEntry :=
  fun j => if bool_decide (j = id_str (e_swap_id e)) then Some e else E j.

Lemma only_last_ext E E' d : (forall i, E i = E' i) -> only_last E d -> only_last E' d.
Proof.
  intros He [Hd Hs]. split; [|intros i e Hi; eapply Hs; by rewrite He].
  intros t v. rewrite (Hd t v). by setoid_rewrite He.
Qed.

Lemma kept_twice e E i : kept e (kept e E) i = kept e E i.
Proof. unfold kept. by case_bool_decide. Qed.

Lemma entry_key_zero i : entry_key i 0 = FDB_AUDIT_PREFIX +:+ log_tail (id_str i).
Proof. done. Qed.

(** The range of a swap: its entry, if it has one. *)
Lemma swap_range E d i :
  only_last E d -> key_safe (id_str i) = true ->
  range_rows (range_from (swap_prefix i) (end_prefix (swap_prefix i))) d =
    match E (id_str i) with Some e => [(entry_key i 0, to_json e)] | None => [] end.
Proof.
  intros [Hd Hs] Hi. set (o := range_from _ _).
  assert (forall kv, kv ∈ range_rows o d -> exists e, E (id_str i) = Some e /\ kv = (entry_key i 0, to_json e)) as Hin.
  { intros [k v] [Hk Hr]%range_rows_elem. cbn [fst snd] in Hk, Hr.
    change (range_begin o) with (swap_prefix i) in Hr. change (range_end o) with (swap_prefix i +:+ byte_ff) in Hr.
    apply in_range_prefix in Hr as (r & -> & _). unfold swap_prefix in Hk. rewrite !str_app_assoc in Hk.
    apply Hd in Hk as (j & e & Ej & Et & ->). unfold log_tail in Et.
    apply split_slash in Et as [<- ->]; [|done|by eapply Hs]. exists e. split; [done|].
    unfold swap_prefix. by rewrite !str_app_assoc. }
  assert (NoDup (range_rows o d)) as Hnd.
  { unfold range_rows. simpl. rewrite (stable_sort_perm kv_le). apply NoDup_filter, NoDup_map_to_list. }
  destruct (E (id_str i)) as [e|] eqn:Ei.
  - assert ((entry_key i 0, to_json e) ∈ range_rows o d) as Hkv.
    { apply range_rows_all; [| |done].
      - rewrite entry_key_zero. apply Hd. eauto.
      - change (in_range (swap_prefix i) (swap_prefix i +:+ byte_ff) (entry_key i 0) = true).
        apply in_range_prefix. exists (pad20 0). split; [|done]. unfold swap_prefix. by rewrite !str_app_assoc. }
    destruct (range_rows o d) as [|x [|y l]]; [by apply elem_of_nil in Hkv| |].
    + destruct (Hin x) as (e' & [= <-] & ->); [by left|done].
    + destruct (Hin x) as (e1 & [= <-] & ->); [by left|].
      destruct (Hin y) as (e2 & [= <-] & ->); [by right; left|].
      apply NoDup_cons in Hnd as [[]%not_elem_of_cons _]. done.
  - destruct (range_rows o d) as [|x l]; [done|]. destruct (Hin x) as (e & [=] & _). by left.
Qed.

Lemma substring_skip p t n : substring (String.length p) n (p +:+ t) = substring 0 n t.
Proof. induction p as [|c p IH]; [done|]. by simpl. Qed.

Lemma last_20_app p t : String.length t = 20%nat -> last_20 (p +:+ t) = substring 0 20 t.
Proof.
  intros Ht. unfold last_20. rewrite str_length_app, Ht.
  replace (String.length p + 20 - 20)%nat with (String.length p) by lia. apply substring_skip.
Qed.

(** The number after zero is zero: the digits of zero are trimmed away. *)
Lemma seq_after_zero i : seq_after (entry_key i 0) = 0.
Proof.
  unfold seq_after. assert (last_20 (entry_key i 0) = pad20 0) as ->; [|done].
  unfold entry_key. rewrite <- (str_app_assoc (id_str i)), <- str_app_assoc. by apply last_20_app.
Qed.

Lemma append_step E d e :
  only_last E d -> key_safe (id_str (e_swap_id e)) = true ->
  exists d', append_trx (e_swap_id e) (to_json e) d = (Ok tt, d') /\ only_last (kept e E) d'.
Proof.
  intros HE He. exists (<[entry_key (e_swap_id e) 0 := to_json e]> d). split.
  - unfold append_trx, trx_get_range, mbind, trx_bind. rewrite (swap_range E) by done.
    destruct (E (id_str (e_swap_id e))) as [x|]; [|by rewrite take_nil].
    pose proof (batch_some 1 (entry_key (e_swap_id e) 0, to_json x) []) as Hb.
    destruct (batch_size 1 _) as [|n]; [lia|]. cbn [take]. cbn [fst]. by rewrite seq_after_zero.
  - destruct HE as [Hd Hs]. split.
    + intros t v. rewrite entry_key_zero, lookup_insert_Some, Hd. unfold kept. split.
      * intros [[<-%prefix_cancel <-]|[Hne (i & x & Ei & -> & ->)]].
        -- exists (id_str (e_swap_id e)), e. by rewrite bool_decide_true.
        -- exists i, x. rewrite bool_decide_false; [done|]. by intros ->.
      * intros (i & x & Ei & -> & ->). case_bool_decide as Hi; [left; by simplify_eq|].
        right. split; [|eauto]. apply prefix_ne. unfold log_tail. intros Ht.
        apply split_slash in Ht as [E' _]; [congruence|done|by eapply Hs].
    + intros i x. unfold kept. case_bool_decide as Hi; [by subst|apply Hs].
Qed.

Lemma append_only_last E st k e r st' :
  only_last E (fview st) -> key_safe (id_str (e_swap_id e)) = true -> fa_append k e st = (r, st') ->
  only_last (kept (sign_entry k e) E) (fview st') \/ is_ok r = false /\ only_last E (fview st').
Proof.
  intros HE He Ea. unfold fa_append in Ea. destruct (fdb_run _ _ st) as [x st1] eqn:Er. simplify_eq.
  eapply (fdb_write _ _ (only_last E) (only_last (kept (sign_entry k e) E))) in Er; [| |done].
  - destruct Er as [[_ HQ]|[[msg ->] [HP|HQ]]]; auto.
  - intros d [Hd|Hd]; destruct (append_step _ _ (sign_entry k e) Hd He) as (d' & Ed & Hd'); exists tt, d'; split; try done.
    eapply only_last_ext; [|done]. apply kept_twice.
Qed.

(** The last entry of a swap among the requests, or the one it had. *)
Definition final (E : string -> option AuditEntry) (es : list AuditEntry) (i : string) : option AuditEntry :=
  match last es with Some e => Some e | None => E i end.

Lemma append_all_last reqs E st rs st' :
  only_last E (fview st) -> Forall (fun q => key_safe (id_str (e_swap_id q.2)) = true) reqs ->
  append_all reqs st = (rs, st') ->
  exists E', only_last E' (fview st') /\
    (Forall (fun r => is_ok r = true) rs -> forall i, E' i = final E (confirmed i reqs rs) i).
Proof.
  intros HE Hs. revert E st rs st' HE.
  induction Hs as [|[k e] reqs Hk Hs IH]; intros E st rs st' HE Ea.
  { simplify_eq/=. by exists E. }
  cbn [append_all] in Ea. destruct (log_append k e st) as [r st1] eqn:E1.
  destruct (append_all reqs st1) as [rs1 st2] eqn:E2. simplify_eq.
  destruct (append_only_last _ _ _ _ _ _ HE Hk E1) as [HE1|[Hr HE1]];
    destruct (IH _ _ _ _ HE1 E2) as (E' & HE' & Hall); exists E'; (split; [done|]).
  - intros [Hr Hrs]%Forall_cons i. rewrite (Hall Hrs i). unfold final, confirmed. cbn [zip zip_with omap list_omap].
    unfold confirmed_entry at 2. cbn [fst snd]. rewrite Hr. unfold kept. simpl.
    rewrite (bool_decide_ext (i = id_str (e_swap_id e)) (id_str (e_swap_id e) = i)) by done.
    case_bool_decide as Hi; [|done]. simpl.
    destruct (omap (confirmed_entry i) (zip reqs rs1)) as [|x l]; [done|]. rewrite last_cons_cons.
    destruct (last (x :: l)) eqn:El; [done|]. by apply last_None in El.
  - intros [Hr' _]%Forall_cons. congruence.
Qed.

Lemma read_trx_last E d i :
  only_last E d -> key_safe (id_str i) = true ->
  (read_trx i d).1 = Ok (option_list (to_json <$> E (id_str i))).
Proof.
  intros HE Hi. unfold read_trx, trx_get_range, mbind, trx_bind. rewrite (swap_range E) by done.
  destruct (E (id_str i)) as [e|]; [|by rewrite take_nil].
  pose proof (batch_some 1024 (entry_key i 0, to_json e) []) as Hb.
  destruct (batch_size 1024 _) as [|n]; [lia|]. cbn [take]. by rewrite take_nil.
Qed.

(** The FoundationDB log overwrites: however many entries are appended to
    an empty log, a swap is left with at most one, and with confirmed appends
    that one is the last. *)
Theorem fdb_audit_keeps_last reqs st rs st1 i l st2 :
  (forall t, fview st !! (FDB_AUDIT_PREFIX +:+ t) = None) ->
  Forall (fun q => key_safe (id_str (e_swap_id q.2)) = true) reqs ->
  append_all reqs st = (rs, st1) -> key_safe (id_str i) = true -> log_entries_for i st1 = (Ok l, st2) ->
  (length l <= 1)%nat /\
  (Forall (fun r => is_ok r = true) rs -> l = option_list (last (confirmed (id_str i) reqs rs))).
Proof.
  intros Hempty Hs Ea Hi Ee.
  assert (only_last (fun _ => None) (fview st)) as HE.
  { split; [|done]. intros t v. rewrite Hempty. split; [done|]. by intros (? & ? & [=] & _). }
  destruct (append_all_last _ _ _ _ _ HE Hs Ea) as (E' & HE' & Hall).
  cbn [log_entries_for FdbAuditLog] in Ee. unfold read_entries in Ee.
  destruct (fdb_run _ _ st1) as [r st3] eqn:Er. injection Ee as El _.
  destruct (fdb_read _ (read_trx i) _ _ _ (fun d => eq_refl) Er) as [_ [(x & -> & Ex)|[msg ->]]]; [|done].
  rewrite (read_trx_last E') in Ex by done. injection Ex as <-.
  assert (l = option_list (E' (id_str i))) as ->.
  { destruct (E' (id_str i)) as [e|]; cbn in El; [rewrite from_to_json in El; cbn in El|]; by injection El. }
  split; [by destruct (E' (id_str i)); simpl; lia|]. intros Hrs. rewrite (Hall Hrs).
  unfold final. by destruct (last _).
Qed.
End LogFacts.
