(* ===== verification/RefereeDynamo.v ===== *)
(** * The referee's swaps on DynamoDB

    [DynamoDbSwapStore] ([referee/src/store/dynamodb.rs]): the codec between
    rows and items, the calls on the table and its two indexes, the creation of
    the table, and the contract of [RefereeStores].  The service is that of
    [Dynamo] with an unconditional update, index queries ([DynamoIndex]) and
    table creation ([DynamoSchema]).  A query may lag behind the table and stop
    after a page; the contract speaks of a listing once the indexes have caught
    up, and calls it complete when no query stopped early. *)
From S2P Require Import Prelude Decimal External Storage Dynamo RefereeState RefereeWorld RefereeHistory RefereeStores.

(** ** Items *)

Section Codec.
Context `{SwapJson} `{Serde Value}.

Definition opt_s (name : string) (v : option string) : list (string * attr) :=
  match v with Some s => [(name, AS s)] | None => [] end.
Definition opt_fp (name : string) (v : option PgpFingerprint) : list (string * attr) :=
  match v with Some f => [(name, AS (fp_hex f))] | None => [] end.

(** [item_for]: the inserts in their order. *)
Definition swap_attrs (tx : Transaction) : list (string * attr) :=
  [(PK, AS (id_str (t_swap_id tx)));
   ("status", AS (status_str (t_status tx)));
   ("phase", AS (t_phase tx));
   ("terminal", ABool (t_terminal tx));
   ("bob_pgp_fp", AS (fp_hex (t_bob_pgp_fp tx)));
   ("alice_pgp_fp", AS (fp_hex (t_alice_pgp_fp tx)));
   ("webcash_public_hash", AS (hash_str (t_webcash_public_hash tx)));
   ("vtxo_outpoint_hash", AS (outpoint_str (t_vtxo_outpoint_hash tx)));
   ("tx_settle_hash", AS (t_tx_settle_hash tx));
   ("tx_refund_hash", AS (t_tx_refund_hash tx));
   ("created_at_unix", AN (show_u64 (t_created_at_unix tx)));
   ("updated_at_unix", AN (show_u64 (t_updated_at_unix tx)));
   ("insert_push_attempts", AN (show_u64 (t_insert_push_attempts tx)))]
  ++ opt_s "cancel_reason" (t_cancel_reason tx)
  ++ opt_fp "canceled_by_pgp_fp" (t_canceled_by_pgp_fp tx)
  ++ opt_s "htlc_refund_contract_id" (t_htlc_refund_contract_id tx)
  ++ [("state_blob", AS (to_json (inner (t_state_blob tx))))].

Definition swap_item (tx : Transaction) : item := set_attrs (swap_attrs tx) ∅.

Definition as_n (a : attr) : option string := match a with AN n => Some n | _ => None end.

Definition read_optional_string (it : item) (k : string) : option string := it !! k ≫= as_s.
Definition read_string (it : item) (k : string) : res string :=
  ok_or (read_optional_string it k) (Store ("missing attr " +:+ k)).
Definition read_u64 (it : item) (k : string) : Z := default 0 (n ← it !! k ≫= as_n; parse_u64 n).

Definition status_of (s : string) : TransactionStatus :=
  if (s =? "settled")%string then StSettled
  else if (s =? "refunded")%string then StRefunded
  else if (s =? "canceled")%string then StCanceled
  else StPending.

(** [as u8] keeps the low byte. *)
Definition item_to_transaction (it : item) : res Transaction :=
  phase ← read_string it "phase";
  let status := status_of (default "pending" (read_optional_string it "status")) in
  inner ← map_err (fun e => Store ("decode state_blob: " +:+ e))
    (from_json (default "null" (read_optional_string it "state_blob")));
  swap_id ← read_string it PK;
  bob ← read_string it "bob_pgp_fp";
  alice ← read_string it "alice_pgp_fp";
  Ok (mk_tx (mk_id swap_id) status phase (is_terminal status) (mk_fp bob) (mk_fp alice)
        (mk_hash (default "" (read_optional_string it "webcash_public_hash")))
        (mk_outpoint (default "" (read_optional_string it "vtxo_outpoint_hash")))
        (default "" (read_optional_string it "tx_settle_hash"))
        (default "" (read_optional_string it "tx_refund_hash"))
        (read_u64 it "created_at_unix") (read_u64 it "updated_at_unix")
        (read_u64 it "insert_push_attempts" mod 2 ^ 8)
        (read_optional_string it "cancel_reason")
        (mk_fp <$> read_optional_string it "canceled_by_pgp_fp")
        (read_optional_string it "htlc_refund_contract_id")
        {| blob_phase := phase; inner := inner |}).
End Codec.

(** ** The service *)

Class DynamoIndex `{DynamoService} := {
  query_index : forall (table index attr_name value : string) (limit : nat),
    dstate -> result sdk_error (list item * bool) * dstate;
  update_item : forall (table key : string) (sets : list (string * attr)),
    dstate -> result sdk_error unit * dstate;
}.

(** A query answers with items and whether there are more.  Once the indexes
    have propagated, the items are those of the table with the value, all of
    them when there are no more. *)
Class DynamoIndexLaws `{DynamoLaws} `{!DynamoIndex} := {
  propagated : dstate -> Prop;
  query_ok : forall table index a v limit st its more st',
    query_index table index a v limit st = (Ok (its, more), st') ->
    dview st' = dview st /\
    (propagated st -> propagated st' /\ exists tbl, dview st !! table = Some tbl /\
       (forall it, it ∈ its -> it !! a = Some (AS v) /\ exists k, tbl !! k = Some it) /\
       (more = false -> forall k it, tbl !! k = Some it -> it !! a = Some (AS v) ->
          is_Some (it !! "created_at_unix" ≫= as_n) -> it ∈ its));
  query_err : forall table index a v limit st e st',
    query_index table index a v limit st = (Err e, st') -> dview st' = dview st;
  update_ok : forall table key sets st st', update_item table key sets st = (Ok tt, st') ->
    dview st' = tx_apply (dview st) (TxUpdate table key sets Always);
  update_err : forall table key sets st e st', update_item table key sets st = (Err e, st') ->
    dview st' = dview st \/ dview st' = tx_apply (dview st) (TxUpdate table key sets Always);
}.

(** ** The store *)

Definition GSI_BOB : string := "byBob".
Definition GSI_ALICE : string := "byAlice".

(** [new], from the variable [DEPLOYMENT_ENV]. *)
Definition deployment_suffix (env : option string) : string :=
  match env with Some s => "-" +:+ s | None => "-testnet" end.
Definition swaps_table (env : option string) : string := "RefereeSwaps" +:+ deployment_suffix env.

Section Backend.
Context `{DynamoIndex} `{SwapJson} `{Serde Value} (table : string).

Definition ds_upsert (tx : Transaction) (st : dstate) : res unit * dstate :=
  let '(r, st) := put_item table (swap_item tx) st in
  (map_err (fun e => Store ("put_item: " +:+ show_sdk e)) r, st).

Definition ds_get (i : SwapId) (st : dstate) : res (option Transaction) * dstate :=
  let '(r, st) := get_item true table (id_str i) st in
  (o ← map_err (fun e => Store ("get_item: " +:+ show_sdk e)) r;
   match o with
   | None => Ok None
   | Some it => tx ← item_to_transaction it; Ok (Some tx)
   end, st).

(** The items of one index: each id once, with the role of the index unless the
    party is on both sides. *)
Fixpoint take_items (fp : PgpFingerprint) (role_when_match : PartyRole) (seen : gset string) (items : list item)
  : res (list TransactionSummary * gset string) :=
  match items with
  | [] => Ok ([], seen)
  | it :: rest =>
      tx ← item_to_transaction it;
      if bool_decide (tx_key tx ∈ seen) then take_items fp role_when_match seen rest
      else
        let role := if bool_decide (t_bob_pgp_fp tx = fp) && bool_decide (t_alice_pgp_fp tx = fp)
                    then RoleBoth else role_when_match in
        rs ← take_items fp role_when_match ({[tx_key tx]} ∪ seen) rest;
        Ok (summary tx role :: rs.1, rs.2)
  end.

Definition query_side (index attr_name : string) (fp : PgpFingerprint) (role : PartyRole) (seen : gset string)
    (st : dstate) : res (list TransactionSummary * gset string) * dstate :=
  let '(r, st) := query_index table index attr_name (fp_hex fp) MAX_LISTED st in
  (its ← map_err (fun e => Store ("query " +:+ index +:+ ": " +:+ show_sdk e)) r;
   take_items fp role seen its.1, st).

Definition ds_list_by_party (fp : PgpFingerprint) (st : dstate) : res (list TransactionSummary) * dstate :=
  match query_side GSI_BOB "bob_pgp_fp" fp RoleBob ∅ st with
  | (Err e, st) => (Err e, st)
  | (Ok (out, seen), st) =>
      let '(r, st) := query_side GSI_ALICE "alice_pgp_fp" fp RoleAlice seen st in
      (out2 ← r; Ok (newest (out ++ out2.1)), st)
  end.

Definition ds_mark_terminal (i : SwapId) (st : dstate) : res unit * dstate :=
  let '(r, st) := update_item table (id_str i) [("terminal", ABool true)] st in
  (map_err (fun e => Store ("mark_terminal: " +:+ show_sdk e)) r, st).

Definition DynamoDbSwapStore : SwapStore dstate := {|
  store_upsert := ds_upsert;
  store_get := ds_get;
  store_list_by_party := ds_list_by_party;
  store_mark_terminal := ds_mark_terminal;
|}.
End Backend.

(** ** The table *)

Record KeySchema := { hash_key : string; range_key : option string }.
Record TableSchema := {
  attributes : list (string * string);
  keys : KeySchema;
  indexes : list (string * KeySchema);
}.

(** The schema of the swaps: one partition key and an index for each party, by
    time, with all attributes. *)
Definition swaps_schema : TableSchema := {|
  attributes := [(PK, "S"); ("bob_pgp_fp", "S"); ("alice_pgp_fp", "S"); ("created_at_unix", "N")];
  keys := {| hash_key := PK; range_key := None |};
  indexes := [(GSI_BOB, {| hash_key := "bob_pgp_fp"; range_key := Some "created_at_unix" |});
              (GSI_ALICE, {| hash_key := "alice_pgp_fp"; range_key := Some "created_at_unix" |})];
|}.

Class DynamoSchema `{DynamoService} := {
  create_schema : string -> TableSchema -> dstate -> result sdk_error unit * dstate;
  table_status : string -> dstate -> result sdk_error (option string) * dstate;
  debug_sdk : sdk_error -> string;
}.

Definition DEADLINE_MS : Z := 30 * 1000.
Definition POLL_MS : Z := 250.

Section Creation.
Context `{DynamoSchema} (name : string) (schema : TableSchema).

(** The loop that waits for [ACTIVE].  [clock k] is the time in milliseconds
    since the deadline was set, read in iteration [k]. *)
Fixpoint wait_active (fuel k : nat) (clock : nat -> Z) (st : dstate) : option (res unit * dstate) :=
  match fuel with
  | O => None
  | S fuel =>
      match table_status name st with
      | (Err e, st) => Some (Err (Store ("describe_table: " +:+ show_sdk e)), st)
      | (Ok s, st) =>
          let status := default "" s in
          if (status =? "ACTIVE")%string then Some (Ok tt, st)
          else if DEADLINE_MS <=? clock k then
            Some (Err (Store ("table " +:+ name +:+ " did not become ACTIVE within 30s (status=" +:+ status +:+ ")")), st)
          else wait_active fuel (S k) clock st
      end
  end.

(** An iteration that goes on sleeps a quarter of a second: 121 are enough. *)
Definition POLLS : nat := S (Z.to_nat (DEADLINE_MS / POLL_MS)).

Definition ensure_schema (clock : nat -> Z) (st : dstate) : option (res unit * dstate) :=
  match create_schema name schema st with
  | (Ok _, st) => wait_active POLLS 0 clock st
  | (Err e, st) =>
      if str_contains "ResourceInUse" (debug_sdk e) then wait_active POLLS 0 clock st
      else Some (Err (Store ("create_table: " +:+ show_sdk e)), st)
  end.

(** The clock when every iteration has slept in full. *)
Definition slept (clock : nat -> Z) : Prop := forall k, Z.of_nat k * POLL_MS <= clock k.

Lemma wait_active_ends fuel k clock st :
  slept clock -> DEADLINE_MS <= Z.of_nat (k + fuel - 1) * POLL_MS -> (0 < fuel)%nat ->
  is_Some (wait_active fuel k clock st).
Proof.
  intros Hs. revert k st. induction fuel as [|fuel IH]; intros k st Hd Hf; [lia|]. simpl.
  destruct (table_status name st) as [[s|e] st1]; [|done].
  destruct (default "" s =? "ACTIVE")%string; [done|].
  destruct (DEADLINE_MS <=? clock k) eqn:E; [done|]. bools. apply IH.
  - replace (S k + fuel - 1)%nat with (k + S fuel - 1)%nat by lia. done.
  - destruct fuel; [|lia]. exfalso. specialize (Hs k). replace (k + 1 - 1)%nat with k in Hd by lia. lia.
Qed.

(** The creation of a table ends, whatever the service answers. *)
Lemma ensure_schema_ends clock st : slept clock -> is_Some (ensure_schema clock st).
Proof.
  intros Hs. unfold ensure_schema.
  assert (forall st, is_Some (wait_active POLLS 0 clock st)) as Hw.
  { intros st1. apply wait_active_ends; [done| |]; unfold POLLS; [by vm_compute|lia]. }
  destruct (create_schema name schema st) as [[[]|e] st1]; [done|].
  destruct (str_contains _ _); [done|by eexists].
Qed.
End Creation.

(** ** The codec *)

(** The last value given to a name. *)
Fixpoint assoc_last (k : string) (sets : list (string * attr)) : option attr :=
  match sets with
  | [] => None
  | (k', v) :: rest =>
      match assoc_last k rest with
      | Some w => Some w
      | None => if (k =? k')%string then Some v else None
      end
  end.

Lemma set_attrs_lookup sets it k :
  set_attrs sets it !! k = match assoc_last k sets with Some v => Some v | None => it !! k end.
Proof.
  revert it. induction sets as [|[k' v] sets IH]; intros it; [done|].
  change (set_attrs ((k', v) :: sets) it) with (set_attrs sets (<[k' := v]> it)). rewrite IH. simpl.
  destruct (assoc_last k sets); [done|]. destruct (String.eqb_spec k k') as [->|Hne].
  - by rewrite lookup_insert_eq.
  - by rewrite lookup_insert_ne.
Qed.

Lemma status_of_str s : status_of (status_str s) = s.
Proof. by destruct s. Qed.

Section CodecFacts.
Context `{SwapJson} `{Serde Value} `{!SerdeLaws Value}.
Context (origin : string -> PgpFingerprint * PgpFingerprint * Z).

(** Two items that differ in the mirror of the status at most. *)
Definition same_row (a b : item) : Prop := forall k, k <> "terminal" -> a !! k = b !! k.

Lemma item_lookup tx k : swap_item tx !! k = assoc_last k (swap_attrs tx).
Proof. unfold swap_item. rewrite set_attrs_lookup, lookup_empty. by destruct (assoc_last _ _). Qed.

(** Reading an item back, whatever its [terminal] attribute says. *)
Lemma row_roundtrip tx it :
  writable origin tx -> same_row it (swap_item tx) -> item_to_transaction it = Ok tx.
Proof.
  intros Hw Hit.
  assert (forall k, k <> "terminal" -> it !! k = swap_item tx !! k) as E by done.
  unfold item_to_transaction, read_u64, read_string, read_optional_string.
  rewrite !E by done. rewrite !item_lookup. unfold swap_attrs.
  pose proof (parse_u64_show _ (w_created _ _ Hw)) as Hc. pose proof (parse_u64_show _ (w_updated _ _ Hw)) as Hu.
  pose proof (w_attempts _ _ Hw) as Ha.
  assert (parse_u64 (show_u64 (t_insert_push_attempts tx)) = Some (t_insert_push_attempts tx)) as Hp.
  { apply parse_u64_show. unfold u8_range, u64_range, u8_max, u64_max in *. lia. }
  pose proof (w_terminal _ _ Hw) as Ht. pose proof (w_blob _ _ Hw) as Hb.
  destruct tx as [[i] st ph te [bob] [alice] [wh] [vo] sh rh cr up at_ reason by_fp htlc [bp inn]]; simpl in *.
  destruct reason as [reason|], by_fp as [[by_fp]|], htlc as [htlc|]; simpl;
    rewrite from_to_json; simpl; rewrite status_of_str, Hc, Hu, Hp; simpl; subst;
    rewrite Z.mod_small by (unfold u8_range, u8_max in Ha; lia); done.
Qed.

(** The item of a row reads back as the row, before and after it is marked
    terminal. *)
Theorem item_roundtrip tx :
  writable origin tx ->
  item_to_transaction (swap_item tx) = Ok tx /\
  item_to_transaction (set_attrs [("terminal", ABool true)] (swap_item tx)) = Ok tx.
Proof.
  intros Hw. split; (apply row_roundtrip; [done|]); [done|]. intros k Hk. simpl. by rewrite lookup_insert_ne.
Qed.
End CodecFacts.

(** ** The store has the contract *)

Section StoreContract.
Context `{DynamoIndexLaws} `{SwapJson} `{Serde Value} `{!SerdeLaws Value}.
Context (origin : string -> PgpFingerprint * PgpFingerprint * Z) (table : string).

Record dynamo_holds (m : gmap string Transaction) (tbl : dtable) : Prop := {
  dh_rows : forall i tx, m !! i = Some tx -> exists it, tbl !! i = Some it /\ same_row it (swap_item tx);
  dh_items : forall i it, tbl !! i = Some it -> is_Some (m !! i);
  dh_settled : settled_rows origin m;
}.

Definition table_holds (st : dstate) (m : gmap string Transaction) : Prop :=
  exists tbl, dview st !! table = Some tbl /\ dynamo_holds m tbl.

Lemma item_key tx : item_pk (swap_item tx) = tx_key tx.
Proof.
  unfold item_pk. rewrite item_lookup. unfold swap_attrs.
  by destruct (t_cancel_reason tx), (t_canceled_by_pgp_fp tx), (t_htlc_refund_contract_id tx).
Qed.

Lemma put_holds m tbl tx :
  dynamo_holds m tbl -> writable origin tx ->
  dynamo_holds (<[tx_key tx := tx]> m) (put_items [swap_item tx] tbl).
Proof.
  intros [Hr Hi Hs] Hw.
  assert (put_items [swap_item tx] tbl = <[tx_key tx := swap_item tx]> tbl) as ->.
  { change (put_items [swap_item tx] tbl) with (<[item_pk (swap_item tx) := swap_item tx]> tbl).
    by rewrite item_key. }
  split.
  - intros i tx' [[<- <-]|[Hne Hm]]%lookup_insert_Some.
    + exists (swap_item tx). by rewrite lookup_insert_eq.
    + destruct (Hr i tx' Hm) as (it & Ei & Hit). exists it. by rewrite lookup_insert_ne.
  - intros i it. destruct (decide (i = tx_key tx)) as [->|Hne].
    { intros _. rewrite lookup_insert_eq. by eexists. }
    rewrite !lookup_insert_ne by done. apply Hi.
  - by apply settled_insert.
Qed.

Lemma mark_holds m tbl i :
  dynamo_holds m tbl -> is_Some (m !! i) ->
  dynamo_holds m (<[i := set_attrs [("terminal", ABool true)] (default {[PK := AS i]} (tbl !! i))]> tbl).
Proof.
  intros [Hr Hi Hs] [tx Hm]. destruct (Hr i tx Hm) as (it & Ei & Hit). rewrite Ei. simpl. split; [| |done].
  - intros j tx' Hj. destruct (decide (j = i)) as [->|Hne].
    + exists (<["terminal" := ABool true]> it). rewrite lookup_insert_eq. split; [done|].
      intros k Hk. rewrite lookup_insert_ne by done. simplify_eq. by apply Hit.
    + destruct (Hr j tx' Hj) as (it' & Ej & Hit'). exists it'. by rewrite lookup_insert_ne.
  - intros j it'. destruct (decide (j = i)) as [->|Hne]; [by rewrite Hm|]. rewrite lookup_insert_ne by done. apply Hi.
Qed.

(** Items of rows of the party, taken from one index after what was seen. *)
Definition rows_of (m : gmap string Transaction) (side : Transaction -> PgpFingerprint) (fp : PgpFingerprint)
    (its : list item) (txs : list Transaction) : Prop :=
  Forall2 (fun it tx => item_to_transaction it = Ok tx /\ m !! tx_key tx = Some tx /\ side tx = fp) its txs.

Lemma take_items_unseen m fp role side seen its txs :
  rows_of m side fp its txs ->
  (forall tx, side tx = fp ->
     (if bool_decide (t_bob_pgp_fp tx = fp) && bool_decide (t_alice_pgp_fp tx = fp) then RoleBoth else role) =
     role_of fp tx) ->
  take_items fp role seen its =
    Ok (unseen m fp seen (tx_key <$> txs), list_to_set (tx_key <$> txs) ∪ seen).
Proof.
  intros Hr Hrole. revert seen. induction Hr as [|it tx its txs (Ed & Em & Ef) Hr IH]; intros seen; simpl.
  { by rewrite (left_id_L ∅ (∪)). }
  rewrite Ed. simpl. case_bool_decide as Hs.
  - rewrite IH. do 2 f_equal. set_solver.
  - rewrite Em, IH, Hrole by done. simpl. do 2 f_equal. set_solver.
Qed.

Lemma unseen_app m fp seen ids ids' :
  unseen m fp seen (ids ++ ids') = unseen m fp seen ids ++ unseen m fp (list_to_set ids ∪ seen) ids'.
Proof.
  revert seen. induction ids as [|i ids IH]; intros seen; simpl.
  { by rewrite (left_id_L ∅ (∪)). }
  assert (list_to_set ids ∪ ({[i]} ∪ seen) = {[i]} ∪ list_to_set ids ∪ seen) as E by set_solver.
  case_bool_decide as Hs.
  - rewrite IH. assert (list_to_set ids ∪ seen = {[i]} ∪ list_to_set ids ∪ seen) as -> by set_solver. done.
  - destruct (m !! i); rewrite IH, E; done.
Qed.

Lemma item_error it (e : RefereeError) : item_to_transaction it = Err e -> exists msg, e = Store msg.
Proof.
  unfold item_to_transaction, read_string. intros E.
  repeat match type of E with
  | context [ok_or ?o _] => destruct o; simpl in E
  | context [map_err _ ?r] => destruct r; simpl in E
  end; simplify_eq/=; eauto.
Qed.

Lemma take_items_error fp role seen its e : take_items fp role seen its = Err e -> exists msg, e = Store msg.
Proof.
  revert seen. induction its as [|it its IH]; intros seen; simpl; [done|].
  destruct (item_to_transaction it) as [tx|e'] eqn:Ei; simpl.
  - case_bool_decide; [apply IH|]. destruct (take_items fp role _ its) eqn:Et; simpl; [done|].
    intros [= ->]. by eapply IH.
  - intros [= ->]. by eapply item_error.
Qed.

Lemma held_item m tbl k it :
  dynamo_holds m tbl -> tbl !! k = Some it ->
  exists tx, m !! k = Some tx /\ tx_key tx = k /\ same_row it (swap_item tx) /\ item_to_transaction it = Ok tx.
Proof.
  intros Hh Hk. destruct (dh_items _ _ Hh _ _ Hk) as [tx Hm]. destruct (dh_rows _ _ Hh _ _ Hm) as (it' & Ek & Hit).
  simplify_eq. destruct (dh_settled _ _ Hh _ _ Hm) as [Hkey Hw]. exists tx. split; [done|]. split; [done|].
  split; [done|]. by eapply row_roundtrip.
Qed.

(** Where the service says it stopped early. *)
Definition no_more (a index : string) (st : dstate) (fp : PgpFingerprint) : Prop :=
  forall st1 its more st2, dview st1 = dview st ->
    query_index table index a (fp_hex fp) MAX_LISTED st1 = (Ok (its, more), st2) -> more = false.

Section Side.
Context (a index : string) (side : Transaction -> PgpFingerprint) (role : PartyRole).
Hypothesis Ha : a <> "terminal".
Hypothesis Hattr : forall tx, swap_item tx !! a = Some (AS (fp_hex (side tx))).

Lemma query_rows m st fp its more st' :
  table_holds st m -> propagated st ->
  query_index table index a (fp_hex fp) MAX_LISTED st = (Ok (its, more), st') ->
  exists txs, rows_of m side fp its txs /\
    (more = false -> forall i tx, m !! i = Some tx -> side tx = fp -> i ∈ (tx_key <$> txs)).
Proof.
  intros (tbl & Et & Hh) Hp E. destruct (query_ok _ _ _ _ _ _ _ _ _ E) as [_ Hq].
  destruct (Hq Hp) as (_ & tbl' & Et' & Hits & Hall). rewrite Et in Et'. injection Et' as <-.
  assert (forall it, it ∈ its -> exists tx, item_to_transaction it = Ok tx /\ m !! tx_key tx = Some tx /\ side tx = fp) as Hrow.
  { intros it Hin. destruct (Hits it Hin) as (Hv & k & Hk).
    destruct (held_item _ _ _ _ Hh Hk) as (tx & Hm & Hkey & Hit & Hd). exists tx. split; [done|].
    rewrite Hkey. split; [done|]. rewrite (Hit a Ha), Hattr in Hv. simplify_eq. by apply fp_hex_inj. }
  assert (exists txs, rows_of m side fp its txs) as [txs Htxs].
  { clear -Hrow. induction its as [|it its IH]; [by exists []; constructor|].
    destruct (Hrow it) as (tx & Htx); [by left|]. destruct IH as [txs Htxs].
    - intros it' Hin. apply Hrow. by right.
    - exists (tx :: txs). by constructor. }
  exists txs. split; [done|]. intros Hm i tx Hi Hs.
  destruct (dh_rows _ _ Hh _ _ Hi) as (it & Ei & Hit). destruct (dh_settled _ _ Hh _ _ Hi) as [Hkey Hw].
  assert (it ∈ its) as Hin.
  { apply (Hall Hm i it Ei).
    - by rewrite (Hit a Ha), Hattr, Hs.
    - rewrite (Hit "created_at_unix"), item_lookup by done. unfold swap_attrs.
      destruct (t_cancel_reason tx), (t_canceled_by_pgp_fp tx), (t_htlc_refund_contract_id tx); by eexists. }
  apply list_elem_of_lookup in Hin as [n Hn]. destruct (Forall2_lookup_l _ _ _ _ _ Htxs Hn) as (tx' & Hn' & Ed & _).
  apply list_elem_of_fmap. exists tx'. split; [|by eapply list_elem_of_lookup_2].
  pose proof (row_roundtrip origin tx it Hw Hit). congruence.
Qed.

Lemma side_step m st fp seen r st' :
  table_holds st m ->
  (forall tx, side tx = fp ->
     (if bool_decide (t_bob_pgp_fp tx = fp) && bool_decide (t_alice_pgp_fp tx = fp) then RoleBoth else role) =
     role_of fp tx) ->
  query_side table index a fp role seen st = (r, st') ->
  dview st' = dview st /\
  (store_error r \/ exists x, r = Ok x /\ (propagated st -> propagated st' /\
     exists ids, x = (unseen m fp seen ids, list_to_set ids ∪ seen) /\
       (forall i tx, i ∈ ids -> m !! i = Some tx -> side tx = fp) /\
       (no_more a index st fp -> forall i tx, m !! i = Some tx -> side tx = fp -> i ∈ ids))).
Proof.
  intros Hh Hrole E. unfold query_side in E. destruct (query_index _ _ _ _ _ st) as [[[its more]|e] st1] eqn:Eq.
  2: { injection E as <- <-. apply query_err in Eq. split; [done|]. left. by eexists. }
  injection E as <- <-. destruct (query_ok _ _ _ _ _ _ _ _ _ Eq) as [Hv Hq]. split; [done|]. simpl.
  destruct (take_items fp role seen its) as [x|e] eqn:Et.
  2: { left. destruct (take_items_error _ _ _ _ _ Et) as [msg ->]. by eexists. }
  right. exists x. split; [done|]. intros Hp. split; [by apply Hq|].
  destruct (query_rows _ _ _ _ _ _ Hh Hp Eq) as (txs & Htxs & Hall). exists (tx_key <$> txs).
  rewrite (take_items_unseen m fp role side seen its txs Htxs Hrole) in Et. injection Et as <-. split; [done|].
  split; [|intros Hn; apply Hall; by eapply (Hn st)].
  intros i tx (tx' & -> & [n Hn]%list_elem_of_lookup)%list_elem_of_fmap Hm.
  destruct (Forall2_lookup_r _ _ _ _ _ Htxs Hn) as (it & _ & _ & Hm' & Hs). congruence.
Qed.
End Side.

Lemma attr_bob tx : swap_item tx !! "bob_pgp_fp" = Some (AS (fp_hex (t_bob_pgp_fp tx))).
Proof.
  rewrite item_lookup. unfold swap_attrs.
  by destruct (t_cancel_reason tx), (t_canceled_by_pgp_fp tx), (t_htlc_refund_contract_id tx).
Qed.

Lemma attr_alice tx : swap_item tx !! "alice_pgp_fp" = Some (AS (fp_hex (t_alice_pgp_fp tx))).
Proof.
  rewrite item_lookup. unfold swap_attrs.
  by destruct (t_cancel_reason tx), (t_canceled_by_pgp_fp tx), (t_htlc_refund_contract_id tx).
Qed.

Lemma list_step m st fp r st' :
  table_holds st m -> ds_list_by_party table fp st = (r, st') ->
  dview st' = dview st /\
  (store_error r \/ exists l, r = Ok l /\ (propagated st ->
     lists (no_more "bob_pgp_fp" GSI_BOB st fp /\ no_more "alice_pgp_fp" GSI_ALICE st fp) m fp l)).
Proof.
  intros Hh E. unfold ds_list_by_party in E.
  destruct (query_side table GSI_BOB "bob_pgp_fp" fp RoleBob ∅ st) as [r1 st1] eqn:E1.
  destruct (side_step "bob_pgp_fp" GSI_BOB t_bob_pgp_fp RoleBob ltac:(done) attr_bob m st fp ∅ r1 st1 Hh)
    as [V1 [[msg ->]|([out seen] & -> & Hq1)]]; [|done| |].
  { intros tx Hs. unfold role_of. rewrite (bool_decide_true (t_bob_pgp_fp tx = fp)), decide_True by done.
    simpl. by case_bool_decide; case_decide. }
  { injection E as <- <-. split; [done|]. left. by eexists. }
  destruct (query_side table GSI_ALICE "alice_pgp_fp" fp RoleAlice seen st1) as [r2 st2] eqn:E2.
  injection E as <- <-.
  destruct (side_step "alice_pgp_fp" GSI_ALICE t_alice_pgp_fp RoleAlice ltac:(done) attr_alice m st1 fp seen r2 st2)
    as [V2 [[msg ->]|([out2 seen2] & -> & Hq2)]]; [| |done| |].
  { destruct Hh as (tbl & Et & Hh). exists tbl. by rewrite V1. }
  { intros tx Hs. unfold role_of. rewrite (bool_decide_true (t_alice_pgp_fp tx = fp)), andb_true_r by done.
    case_bool_decide; case_decide; try done. by rewrite decide_True. }
  { split; [congruence|]. left. by eexists. }
  split; [congruence|]. right. eexists. split; [done|]. intros Hp.
  destruct (Hq1 Hp) as (Hp1 & bob & [= -> ->] & B1 & B2). destruct (Hq2 Hp1) as (_ & alice & [= -> _] & A1 & A2).
  simpl. rewrite <- unseen_app. destruct Hh as (tbl & _ & Hh).
  destruct (unseen_listing m fp (bob ++ alice)) as [Hs Hc]; [eapply settled_keyed, Hh| |].
  { intros i tx [Hi|Hi]%elem_of_app Hm; [left; by eapply B1|right; by eapply A1]. }
  split; [done|]. intros [Nb Na] Hsz. apply Hc; [done|]. intros i tx Hm [Hpb|Hpa]; apply elem_of_app.
  - left. by eapply B2.
  - right. eapply A2; [|done|done]. intros s1 its more s2 Hv. apply Na. congruence.
Qed.

#[export, refine] Instance DynamoDbSwapStore_contract : @SwapContract _ dstate (DynamoDbSwapStore table) origin := {|
  models := table_holds;
  caught_up := propagated;
  whole st fp := no_more "bob_pgp_fp" GSI_BOB st fp /\ no_more "alice_pgp_fp" GSI_ALICE st fp;
|}.
Proof.
  - intros st m tx r st' (tbl & Et & Hh) Hw E. simpl in E. unfold ds_upsert in E.
    destruct (put_item table (swap_item tx) st) as [[[]|e] st1] eqn:Ep; injection E as <- <-.
    + left. split; [|by left]. apply put_item_ok in Ep as [_ Ev]. exists (put_items [swap_item tx] tbl).
      rewrite Ev, lookup_alter_eq, Et. split; [done|by apply put_holds].
    + apply put_item_err in Ep as [Ev|Ev].
      * right. split; [exists tbl; by rewrite Ev|by eexists].
      * left. split; [|right; by eexists]. exists (put_items [swap_item tx] tbl).
        rewrite Ev, lookup_alter_eq, Et. split; [done|by apply put_holds].
  - intros st m [i] r st' (tbl & Et & Hh) E. simpl in E. unfold ds_get in E. simpl in E.
    destruct (get_item true table i st) as [[o|e] st1] eqn:Eg; injection E as <- <-.
    + apply get_item_ok in Eg as (Ev & _ & Hc). destruct (Hc eq_refl) as (tbl' & Et' & ->). rewrite Et in Et'. injection Et' as <-.
      split; [exists tbl; by rewrite Ev|]. left. simpl. destruct (tbl !! i) as [it|] eqn:Ei.
      * destruct (held_item _ _ _ _ Hh Ei) as (tx & Hm & _ & _ & Hd). by rewrite Hd, Hm.
      * destruct (m !! i) as [tx|] eqn:Hm; [|done]. destruct (dh_rows _ _ Hh _ _ Hm) as (it & Ei' & _). congruence.
    + apply get_item_err in Eg. split; [exists tbl; by rewrite Eg|]. right. by eexists.
  - intros st m fp r st' Hh _ E. destruct (list_step _ _ _ _ _ Hh E) as [Ev Hr]. split; [|done].
    destruct Hh as (tbl & Et & Hh). exists tbl. by rewrite Ev.
  - intros st m i r st' (tbl & Et & Hh) Hi E. simpl in E. unfold ds_mark_terminal in E.
    assert (tx_apply (dview st) (TxUpdate table (id_str i) [("terminal", ABool true)] Always) !! table =
      Some (<[id_str i := set_attrs [("terminal", ABool true)] (default {[PK := AS (id_str i)]} (tbl !! id_str i))]> tbl)) as Ea.
    { unfold tx_apply. simpl. by rewrite lookup_alter_eq, Et. }
    destruct (update_item table _ _ st) as [[[]|e] st1] eqn:Eu; injection E as <- <-.
    + apply update_ok in Eu. eexists. rewrite Eu. split; [done|by apply mark_holds].
    + apply update_err in Eu as [Eu|Eu].
      * exists tbl. by rewrite Eu.
      * eexists. rewrite Eu. split; [done|by apply mark_holds].
Defined.
End StoreContract.
