(* ===== verification/RefereeDynamoLog.v ===== *)
(** * The referee's audit log on DynamoDB

    [DynamoDbAuditLog] ([referee/src/audit/dynamodb.rs]): one item for each
    entry under the composite key (swap, sequence number).  An append asks for
    the last number, then puts its item under the next one on condition that
    the key is free, moving on when it is not.  The service ([DynamoAudit]) may
    answer a query from an older state of the partition and may report a
    conflict for a put that took effect; the log still loses nothing and keeps
    its order ([DynamoDbAuditLog_contract]).  A clash of eight numbers in a row
    is an error. *)
From S2P Require Import Prelude Decimal External Storage Dynamo RefereeState RefereeWorld RefereeHistory RefereeStores.
From S2P Require Import RefereeDynamo.

(** ** The service *)

Definition AUDIT_PK : string := "swap_id".
Definition SK : string := "seq".
Definition APPEND_RETRIES : nat := 8.

Definition audit_table_name (env : option string) : string := "RefereeAudit" +:+ deployment_suffix env.

(** The schema of the log: partition and sort key. *)
Definition audit_schema : TableSchema := {|
  attributes := [(AUDIT_PK, "S"); (SK, "N")];
  keys := {| hash_key := AUDIT_PK; range_key := Some SK |};
  indexes := [];
|}.

Notation audit_rows := (gmap (string * Z) item).

(** The composite key of an item. *)
Definition audit_key_of (it : item) : option (string * Z) :=
  pk ← it !! AUDIT_PK ≫= as_s;
  n ← it !! SK ≫= as_n;
  s ← parse_u64 n;
  Some (pk, s).

(** The items of a partition by ascending sequence number. *)
Definition seq_le (a b : Z * item) : bool := a.1 <=? b.1.
Definition partition_rows (pk : string) (rows : audit_rows) : list (Z * item) :=
  stable_sort seq_le (omap (fun kv : (string * Z) * item =>
    if bool_decide (kv.1.1 = pk) then Some (kv.1.2, kv.2) else None) (map_to_list rows)).

Class DynamoAudit `{DynamoService} := {
  put_if_new : string -> item -> dstate -> result sdk_error unit * dstate;
  query_partition : forall (table pk : string) (forward : bool) (limit : option nat),
    dstate -> result sdk_error (list item) * dstate;
  debug_put : sdk_error -> string;
}.

Definition conditional_check_failed `{DynamoAudit} (e : sdk_error) : bool :=
  str_contains "ConditionalCheckFailed" (debug_put e).

(** A put takes effect on a free key only; one that fails may have taken
    effect, also when a retry of the client then finds the key taken.  A query
    sees some earlier rows of the log, a first part of them in order; with
    [settled_reads] it sees all. *)
Class DynamoAuditLaws `{DynamoAudit} := {
  audit_view : dstate -> string -> audit_rows;
  settled_reads : dstate -> Prop;
  put_if_new_ok : forall table it k st st', audit_key_of it = Some k ->
    put_if_new table it st = (Ok tt, st') ->
    audit_view st table !! k = None /\ audit_view st' table = <[k := it]> (audit_view st table);
  put_if_new_err : forall table it k st e st', audit_key_of it = Some k ->
    put_if_new table it st = (Err e, st') ->
    (audit_view st' table = audit_view st table \/
     audit_view st table !! k = None /\ audit_view st' table = <[k := it]> (audit_view st table)) /\
    (conditional_check_failed e = true -> is_Some (audit_view st' table !! k));
  query_partition_ok : forall table pk fwd limit st its st',
    query_partition table pk fwd limit st = (Ok its, st') ->
    audit_view st' table = audit_view st table /\
    exists old n, old ⊆ audit_view st table /\
      its = take n ((if fwd then fun l => l else @rev item) (partition_rows pk old).*2) /\
      (settled_reads st -> old = audit_view st table /\
         match limit with Some m => (m <= n)%nat | None => (length (partition_rows pk old) <= n)%nat end);
  query_partition_err : forall table pk fwd limit st e st',
    query_partition table pk fwd limit st = (Err e, st') -> audit_view st' table = audit_view st table;
  partition_finite : forall st table, Z.of_nat (size (audit_view st table)) < 2 ^ 63;
}.

(** Payloads as text, and [Value::Null], which no payload of the source is. *)
Class PayloadJson := { payload_serde :: Serde json; payload_null : json }.

(** ** The log *)

Section Log.
Context `{DynamoAudit} `{Hashing, Ed25519, Ed25519Signer, EntryCodec} `{PayloadJson} (table : string).

Definition next_seq (i : SwapId) (st : dstate) : res Z * dstate :=
  let '(r, st) := query_partition table (id_str i) false (Some 1%nat) st in
  (its ← map_err (fun e => Store ("query last seq: " +:+ show_sdk e)) r;
   match its with
   | [] => Ok 0
   | it :: _ => Ok ((read_u64 it SK + 1) mod 2 ^ 64)
   end, st).

Definition entry_attrs (e : AuditEntry) (seq : Z) : list (string * attr) :=
  [(AUDIT_PK, AS (id_str (e_swap_id e)));
   (SK, AN (show_u64 seq));
   ("phase", AS (e_phase e));
   ("ts_unix", AN (show_u64 (e_ts_unix e)));
   ("prior_tip", AS (prior_tip e));
   ("phase_payload", AS (to_json (phase_payload e)));
   ("signature", AS (signature e))].
Definition entry_item (e : AuditEntry) (seq : Z) : item := set_attrs (entry_attrs e seq) ∅.

Definition put_with_seq (e : AuditEntry) (seq : Z) (st : dstate) : res bool * dstate :=
  match put_if_new table (entry_item e seq) st with
  | (Ok _, st) => (Ok true, st)
  | (Err e, st) =>
      if conditional_check_failed e then (Ok false, st)
      else (Err (Store ("put_item audit: " +:+ show_sdk e)), st)
  end.

(** The attempts, from a first sequence number on. *)
Fixpoint put_attempts (n : nat) (e : AuditEntry) (seq : Z) (st : dstate) : res unit * dstate :=
  match n with
  | O => (Err (Store "could not append audit entry after 8 retries (high contention)"), st)
  | S n =>
      match put_with_seq e seq st with
      | (Err x, st) => (Err x, st)
      | (Ok true, st) => (Ok tt, st)
      | (Ok false, st) => put_attempts n e ((seq + 1) mod 2 ^ 64) st
      end
  end.

Definition da_append (identity : SigningKey) (entry : AuditEntry) (st : dstate) : res string * dstate :=
  let signed := sign_entry identity entry in
  let tip := tip_hash signed in
  match next_seq (e_swap_id signed) st with
  | (Err x, st) => (Err x, st)
  | (Ok seq, st) =>
      let '(r, st) := put_attempts APPEND_RETRIES signed seq st in
      (_ ← r; Ok tip, st)
  end.

(** A missing or foreign attribute reads as a default. *)
Definition entry_of (i : SwapId) (it : item) : AuditEntry :=
  let payload_json := default "null" (read_optional_string it "phase_payload") in
  mk_entry i
    (default "" (read_optional_string it "phase"))
    (read_u64 it "ts_unix")
    (default "" (read_optional_string it "prior_tip"))
    (match from_json payload_json with Ok v => v | Err _ => payload_null end)
    (default "" (read_optional_string it "signature")).

Definition da_entries_for (i : SwapId) (st : dstate) : res (list AuditEntry) * dstate :=
  let '(r, st) := query_partition table (id_str i) true None st in
  (its ← map_err (fun e => Store ("query entries: " +:+ show_sdk e)) r; Ok (map (entry_of i) its), st).

Definition da_tip_for (i : SwapId) (st : dstate) : res string * dstate :=
  let '(r, st) := query_partition table (id_str i) false (Some 1%nat) st in
  (its ← map_err (fun e => Store ("query tip: " +:+ show_sdk e)) r;
   match its with
   | [] => Ok ""
   | it :: _ => Ok (tip_hash (entry_of i it))
   end, st).

Definition DynamoDbAuditLog : AuditLog dstate := {|
  log_append := da_append;
  log_entries_for := da_entries_for;
  log_tip_for := da_tip_for;
|}.
End Log.

(** ** Items *)

Section Items.
Context `{PayloadJson} `{!SerdeLaws json}.

Lemma entry_item_lookup e s k : entry_item e s !! k = assoc_last k (entry_attrs e s).
Proof. unfold entry_item. rewrite set_attrs_lookup, lookup_empty. by destruct (assoc_last _ _). Qed.

Lemma entry_item_key e s : u64_range s -> audit_key_of (entry_item e s) = Some (id_str (e_swap_id e), s).
Proof.
  intros Hs. unfold audit_key_of. rewrite !entry_item_lookup. simpl. by rewrite parse_u64_show.
Qed.

Lemma entry_item_seq e s : u64_range s -> read_u64 (entry_item e s) SK = s.
Proof. intros Hs. unfold read_u64. rewrite entry_item_lookup. simpl. by rewrite parse_u64_show. Qed.

Lemma entry_roundtrip e s : u64_range (e_ts_unix e) -> entry_of (e_swap_id e) (entry_item e s) = e.
Proof.
  intros Ht. unfold entry_of, read_u64, read_optional_string. rewrite !entry_item_lookup. simpl.
  rewrite parse_u64_show, from_to_json by done. by destruct e.
Qed.
End Items.

(** ** Partitions *)

Lemma partition_elem pk rows s it : (s, it) ∈ partition_rows pk rows <-> rows !! (pk, s) = Some it.
Proof.
  unfold partition_rows. rewrite (stable_sort_perm seq_le), list_elem_of_omap. split.
  - intros ([[pk' s'] it'] & Hin%elem_of_map_to_list & E). simpl in E. by case_bool_decide; simplify_eq.
  - intros Hk. exists ((pk, s), it). split; [by apply elem_of_map_to_list|]. simpl. by rewrite bool_decide_true.
Qed.

Lemma partition_nodup pk rows : NoDup (partition_rows pk rows).*1.
Proof.
  apply NoDup_fmap_fst.
  - intros s it it' H1%partition_elem H2%partition_elem. congruence.
  - unfold partition_rows. rewrite (stable_sort_perm seq_le).
    pose proof (NoDup_map_to_list rows) as Hnd.
    induction Hnd as [|[[pk' s] it] l Hni Hnd IH]; simpl; [apply NoDup_nil_2|].
    case_bool_decide as E; [|done]. simpl in E. subst pk'. apply NoDup_cons. split; [|done].
    intros ([[pk2 s2] it2] & Hin & E)%list_elem_of_omap. simpl in E. by case_bool_decide; simplify_eq.
Qed.

Lemma partition_sorted pk rows : StronglySorted Z.le (partition_rows pk rows).*1.
Proof.
  assert (StronglySorted (fun a b => seq_le a b = true) (partition_rows pk rows)) as Hs.
  { apply stable_sort_sorted; unfold seq_le; intros; rewrite ?Z.leb_le in *; lia. }
  induction Hs as [|x l Hl IH Hx]; simpl; constructor; [done|].
  apply Forall_fmap. eapply Forall_impl; [exact Hx|]. intros y. apply Z.leb_le.
Qed.

(** ** The log has the contract *)

Section Contract.
Context `{DynamoAuditLaws} `{Hashing, Ed25519, Ed25519Signer, EntryCodec} `{PayloadJson} `{!SerdeLaws json}.
Context (table : string).

(** Entry [n] of a swap is the item with number [n]. *)
Record audit_holds (L : string -> list AuditEntry) (rows : audit_rows) : Prop := {
  ah_rows : forall i s, rows !! (i, s) =
    if 0 <=? s then (fun e => entry_item e s) <$> L i !! Z.to_nat s else None;
  ah_entries : forall i e, e ∈ L i -> id_str (e_swap_id e) = i /\ u64_range (e_ts_unix e);
}.

Lemma log_bound L st i :
  audit_holds L (audit_view st table) -> Z.of_nat (length (L i)) < 2 ^ 63.
Proof.
  intros [Hr _]. eapply Z.le_lt_trans; [|apply (partition_finite st table)]. apply Nat2Z.inj_le.
  set (ks := (fun n => (i, Z.of_nat n)) <$> seq 0 (length (L i))).
  assert (NoDup ks) as Hnd.
  { apply NoDup_fmap_2; [intros a b [=]; lia|apply NoDup_seq]. }
  assert (length (L i) = size (list_to_set ks : gset (string * Z))) as ->.
  { rewrite size_list_to_set by done. unfold ks. by rewrite length_fmap, length_seq. }
  rewrite <- size_dom. apply subseteq_size. intros k Hk%elem_of_list_to_set.
  apply list_elem_of_fmap in Hk as (n & -> & Hn%elem_of_seq). apply elem_of_dom. rewrite Hr.
  replace (0 <=? Z.of_nat n) with true by (symmetry; apply Z.leb_le; lia). rewrite Nat2Z.id.
  destruct (L i !! n) as [e|] eqn:E; [by eexists|]. apply lookup_ge_None in E. lia.
Qed.

Lemma holds_free L rows i s :
  audit_holds L rows -> 0 <= s <= Z.of_nat (length (L i)) -> rows !! (i, s) = None -> s = Z.of_nat (length (L i)).
Proof.
  intros [Hr _] Hs Hn. rewrite Hr in Hn. replace (0 <=? s) with true in Hn by (symmetry; apply Z.leb_le; lia).
  apply fmap_None, lookup_ge_None in Hn. lia.
Qed.

Lemma holds_taken L rows i s :
  audit_holds L rows -> is_Some (rows !! (i, s)) -> 0 <= s < Z.of_nat (length (L i)).
Proof.
  intros [Hr _] [it Hi]. rewrite Hr in Hi. destruct (0 <=? s) eqn:E; [|done]. bools.
  apply fmap_Some in Hi as (e & He & _). apply lookup_lt_Some in He. lia.
Qed.

(** A put under the next number. *)
Lemma holds_put L rows e :
  audit_holds L rows -> u64_range (e_ts_unix e) ->
  let i := id_str (e_swap_id e) in let s := Z.of_nat (length (L i)) in
  audit_holds (noted e 1 L) (<[(i, s) := entry_item e s]> rows).
Proof.
  intros [Hr He] Ht i s. split.
  - intros j t. unfold noted. fold i. case_bool_decide as Hj.
    + subst j. destruct (decide (t = s)) as [->|Hne].
      * rewrite lookup_insert_eq. unfold s. replace (0 <=? Z.of_nat _) with true by (symmetry; apply Z.leb_le; lia).
        rewrite Nat2Z.id. change (repeat e 1) with [e]. by rewrite list_lookup_middle.
      * rewrite lookup_insert_ne by congruence. rewrite Hr. destruct (0 <=? t) eqn:Et; [|done]. bools.
        f_equal. destruct (decide (Z.to_nat t < length (L i))%nat) as [Hlt|Hge].
        -- by rewrite lookup_app_l.
        -- rewrite !lookup_ge_None_2; [done| |lia]. rewrite length_app. simpl. unfold s in Hne. lia.
    + rewrite lookup_insert_ne by congruence. apply Hr.
  - intros j e'. unfold noted. case_bool_decide as Hj; [|apply He].
    intros [Hin|Hin]%elem_of_app; [by apply He|]. simpl in Hin. apply elem_of_cons in Hin as [->|Hin]; [done|].
    by apply elem_of_nil in Hin.
Qed.

Lemma noted_add e n k (L : string -> list AuditEntry) i : noted e k (noted e n L) i = noted e (n + k) L i.
Proof. unfold noted. case_bool_decide; [|done]. by rewrite <- app_assoc, repeat_app. Qed.

Lemma noted_zero e (L : string -> list AuditEntry) i : noted e 0 L i = L i.
Proof. unfold noted. case_bool_decide; [|done]. by rewrite app_nil_r. Qed.

Lemma holds_ext L L' rows : (forall i, L i = L' i) -> audit_holds L rows -> audit_holds L' rows.
Proof.
  intros E [Hr He]. split; intros i x; rewrite <- E; [apply Hr|apply He].
Qed.

Lemma put_attempts_spec n e seq st L r st' :
  audit_holds L (audit_view st table) -> u64_range (e_ts_unix e) ->
  0 <= seq <= Z.of_nat (length (L (id_str (e_swap_id e)))) ->
  put_attempts table n e seq st = (r, st') ->
  exists k, audit_holds (noted e k L) (audit_view st' table) /\ (r = Ok tt /\ (0 < k)%nat \/ store_error r).
Proof.
  intros HL Ht. revert seq st L r st' HL. induction n as [|n IH]; intros seq st L r st' HL Hseq E.
  { injection E as <- <-. exists 0%nat. split; [|right; by eexists].
    eapply holds_ext; [|done]. intros i. by rewrite noted_zero. }
  set (i := id_str (e_swap_id e)) in *. pose proof (log_bound _ _ i HL) as Hb.
  assert (u64_range seq) as Hu by (unfold u64_range, u64_max; lia).
  pose proof (entry_item_key e seq Hu) as Hk. fold i in Hk. cbn [put_attempts] in E. unfold put_with_seq in E.
  assert (forall st1, audit_view st table !! (i, seq) = None ->
    audit_view st1 table = <[(i, seq) := entry_item e seq]> (audit_view st table) ->
    audit_holds (noted e 1 L) (audit_view st1 table)) as Hput.
  { intros st1 Hn ->. apply (holds_free _ _ _ _ HL Hseq) in Hn. subst seq. by apply holds_put. }
  destruct (put_if_new table (entry_item e seq) st) as [[[]|x] st1] eqn:Ep.
  { injection E as <- <-. apply (put_if_new_ok _ _ _ _ _ Hk) in Ep as [Hn Hv]. exists 1%nat. split; [by apply Hput|].
    left. split; [done|lia]. }
  destruct (put_if_new_err _ _ _ _ _ _ Hk Ep) as [Hv Hc].
  assert (exists k, audit_holds (noted e k L) (audit_view st1 table)) as [k HL1].
  { destruct Hv as [->|[Hn Hv]]; [exists 0%nat|exists 1%nat; by apply Hput].
    eapply holds_ext; [|done]. intros j. by rewrite noted_zero. }
  destruct (conditional_check_failed x).
  2: { injection E as <- <-. exists k. split; [done|]. right. by eexists. }
  pose proof (holds_taken _ _ _ _ HL1 (Hc eq_refl)) as Hlt.
  rewrite Z.mod_small in E by lia.
  destruct (IH (seq + 1) st1 (noted e k L) r st' HL1) as (k' & HL2 & Hr); [fold i; lia|done|]. exists (k + k')%nat. split.
  - eapply holds_ext; [|done]. intros j. apply noted_add.
  - destruct Hr as [[-> Hk']|He]; [left; split; [done|lia]|by right].
Qed.

(** The next number is never past the end, however old the answer. *)
Lemma next_seq_spec i st L r st' :
  audit_holds L (audit_view st table) -> next_seq table i st = (r, st') ->
  audit_view st' table = audit_view st table /\
  (store_error r \/ exists s, r = Ok s /\ 0 <= s <= Z.of_nat (length (L (id_str i)))).
Proof.
  intros HL E. unfold next_seq in E. destruct (query_partition _ _ _ _ st) as [[its|x] st1] eqn:Eq.
  2: { injection E as <- <-. apply query_partition_err in Eq. split; [done|]. left. by eexists. }
  injection E as <- <-. apply query_partition_ok in Eq as (Hv & old & n & Hold & Hits & _). split; [done|]. right.
  simpl. destruct its as [|it its]; [exists 0; split; [done|lia]|].
  assert (it ∈ (partition_rows (id_str i) old).*2) as Hin.
  { assert (it ∈ rev (partition_rows (id_str i) old).*2) as Hin.
    { eapply (subseteq_take n). rewrite <- Hits. by left. }
    rewrite list_elem_of_In, <- in_rev in Hin. by apply list_elem_of_In. }
  apply list_elem_of_fmap in Hin as ([s it'] & -> & Hin%partition_elem). simpl.
  pose proof (lookup_weaken _ _ _ _ Hin Hold) as Hr. pose proof (holds_taken _ _ _ _ HL (mk_is_Some _ _ Hr)) as Hs.
  pose proof (log_bound _ _ (id_str i) HL) as Hb.
  rewrite (ah_rows _ _ HL) in Hr. replace (0 <=? s) with true in Hr by (symmetry; apply Z.leb_le; lia).
  apply fmap_Some in Hr as (e & _ & ->).
  rewrite entry_item_seq by (unfold u64_range, u64_max; lia). rewrite Z.mod_small by lia.
  eexists. split; [done|lia].
Qed.

Lemma same_keys {A} (l l' : list (Z * A)) :
  l.*1 = l'.*1 -> (forall s x y, (s, x) ∈ l -> (s, y) ∈ l' -> x = y) -> l = l'.
Proof.
  revert l'. induction l as [|[s x] l IH]; intros [|[s' y] l'] E Hxy; simpl in *; simplify_eq; [done|].
  f_equal; [f_equal; eapply Hxy; by left|]. apply IH; [done|]. intros t a b Ha Hb. eapply Hxy; by right.
Qed.

Lemma numbers_sorted k n : StronglySorted Z.le (Z.of_nat <$> seq k n).
Proof.
  revert k. induction n as [|n IH]; intros k; [constructor|]. simpl. constructor; [apply IH|].
  apply list.Forall_forall. intros z (m & -> & Hm%elem_of_seq)%list_elem_of_fmap. lia.
Qed.

(** The items of a swap are its entries in order. *)
Lemma partition_log L rows i :
  audit_holds L rows ->
  partition_rows i rows = imap (fun n e => (Z.of_nat n, entry_item e (Z.of_nat n))) (L i).
Proof.
  intros HL. set (l' := imap _ _).
  assert (forall s it, (s, it) ∈ l' <-> rows !! (i, s) = Some it) as Hl'.
  { intros s it. rewrite (ah_rows _ _ HL). unfold l'. rewrite elem_of_lookup_imap. split.
    - intros (n & e & [= -> ->] & Hn). replace (0 <=? Z.of_nat n) with true by (symmetry; apply Z.leb_le; lia).
      by rewrite Nat2Z.id, Hn.
    - destruct (0 <=? s) eqn:Es; [|done]. bools. intros (e & He & ->)%fmap_Some.
      exists (Z.to_nat s), e. by rewrite Z2Nat.id. }
  assert (l'.*1 = Z.of_nat <$> seq 0 (length (L i))) as Hfst.
  { unfold l'. rewrite fmap_imap. apply list_eq. intros n. rewrite list_lookup_imap, list_lookup_fmap.
    destruct (L i !! n) as [e|] eqn:En; simpl.
    - rewrite lookup_seq_lt by by eapply lookup_lt_Some. done.
    - apply lookup_ge_None in En. by rewrite lookup_seq_ge. }
  apply same_keys.
  - apply (StronglySorted_unique Z.le).
    + apply partition_sorted.
    + rewrite Hfst. apply numbers_sorted.
    + apply NoDup_Permutation; [apply partition_nodup| |].
      * rewrite Hfst. apply NoDup_fmap_2; [intros a b; lia|apply NoDup_seq].
      * intros s. rewrite !list_elem_of_fmap. split; intros ([t it] & -> & Hin); exists (t, it); (split; [done|]).
        -- by apply Hl', partition_elem.
        -- by apply partition_elem, Hl'.
  - intros s x y Hx%partition_elem Hy%Hl'. congruence.
Qed.

Lemma decoded_log L rows i :
  audit_holds L rows -> map (entry_of i) (partition_rows (id_str i) rows).*2 = L (id_str i).
Proof.
  intros HL. rewrite (partition_log _ _ _ HL), fmap_imap. apply list_eq. intros n.
  rewrite list_lookup_fmap, list_lookup_imap. destruct (L (id_str i) !! n) as [e|] eqn:En; [|done]. simpl.
  destruct (ah_entries _ _ HL (id_str i) e) as [Hi Ht]; [by eapply list_elem_of_lookup_2|].
  assert (i = e_swap_id e) as -> by (destruct i, (e_swap_id e); simpl in *; congruence).
  by rewrite entry_roundtrip.
Qed.

#[export, refine] Instance DynamoDbAuditLog_contract : @AuditContract _ _ _ dstate (DynamoDbAuditLog table) := {|
  holds_log st L := audit_holds L (audit_view st table);
  log_caught_up := settled_reads;
|}.
Proof.
  - intros st L k e r st' HL Ht E. simpl in E. unfold da_append in E.
    destruct (next_seq table (e_swap_id (sign_entry k e)) st) as [[s|x] st1] eqn:En.
    2: { injection E as <- <-. destruct (next_seq_spec _ _ _ _ _ HL En) as [Hv [[msg [=]]|(s & [=] & _)]].
         exists 0%nat. rewrite Hv. split; [|right; by eexists; f_equal].
         eapply holds_ext; [|done]. intros i. by rewrite noted_zero. }
    destruct (next_seq_spec _ _ _ _ _ HL En) as [Hv [[msg [=]]|(s' & [= <-] & Hs)]].
    destruct (put_attempts _ _ _ _ st1) as [x st2] eqn:Ep. injection E as <- <-. rewrite <- Hv in HL.
    destruct (put_attempts_spec _ (sign_entry k e) _ _ _ _ _ HL Ht Hs Ep) as (n & HL' & Hx). exists n. split; [done|].
    destruct Hx as [[-> Hn]|[msg ->]]; [by left|right; by eexists].
  - intros st L i r st' HL E. simpl in E. unfold da_entries_for in E.
    destruct (query_partition _ _ _ _ st) as [[its|x] st1] eqn:Eq.
    2: { injection E as <- <-. apply query_partition_err in Eq. rewrite Eq. split; [done|]. intros _. right. by eexists. }
    injection E as <- <-. apply query_partition_ok in Eq as (Hv & old & n & _ & -> & Hset). rewrite Hv. split; [done|].
    intros [-> Hn]%Hset. left. simpl. rewrite take_ge by by rewrite length_fmap. by rewrite (decoded_log L).
  - intros st L i r st' HL E. simpl in E. unfold da_tip_for in E.
    destruct (query_partition _ _ _ _ st) as [[its|x] st1] eqn:Eq.
    2: { injection E as <- <-. apply query_partition_err in Eq. rewrite Eq. split; [done|]. intros _. right. by eexists. }
    injection E as <- <-. apply query_partition_ok in Eq as (Hv & old & n & _ & Hits & Hset). rewrite Hv. split; [done|].
    intros [-> Hn]%Hset. left. simpl. pose proof (decoded_log _ _ i HL) as Hd.
    destruct n as [|n]; [lia|]. simpl. rewrite <- Hd. clear Hd Hv. subst its.
    unfold last_tip. induction (partition_rows (id_str i) _).*2 as [|it l IH] using rev_ind; [done|].
    rewrite rev_app_distr, map_app. simpl. by rewrite last_snoc.
Defined.
End Contract.
