(* ===== verification/RefereeBackends.v ===== *)
(** * The referee's backends: what each store and log does

    The contracts of [RefereeStores], met by the stores in memory, on Redis, on
    FoundationDB and on DynamoDB and by the logs in memory, on Redis and on
    DynamoDB, give what those backends answer: every store serves the rows it
    was given, and every log keeps the entries it confirmed.  The FoundationDB
    log does not ([RefereeFdb.fdb_audit_keeps_last]). *)
From S2P Require Import Prelude Decimal External Storage Fdb Dynamo RefereeState RefereeWorld RefereeView Orchestrator RefereeFacts RefereeSafety RefereeHistory RefereeStores RefereeRedis RefereeFdb RefereeDynamo RefereeDynamoLog.

(** ** Stores *)

(** The store answers any sequence of calls with what [serves] allows: rows as
    they are written, listings sound in a [fresh] state, and complete where the
    ranges come [all] at once. *)
Definition serves_rows `{SwapJson} {S} {store : SwapStore S} (origin : string -> PgpFingerprint * PgpFingerprint * Z)
    (holds : S -> gmap string Transaction -> Prop) (fresh : S -> Prop) (all : S -> PgpFingerprint -> Prop) : Prop :=
  forall ops st m trace st', holds st m -> Forall (op_ok origin) ops -> serve_all ops st = (trace, st') ->
    exists m', serves fresh all m trace m' /\ holds st' m'.

Definition always {S} (_ : S) : Prop := True.
Definition whole_ranges {S} (_ : S) (_ : PgpFingerprint) : Prop := True.

Section Stores.
Context `{SwapJson} `{Serde Transaction} `{!SerdeLaws Transaction} `{Serde Value} `{!SerdeLaws Value}.
Context `{RefereeRedisLaws} `{FdbLaws} `{!FdbRange} `{DynamoIndexLaws}.
Context (origin : string -> PgpFingerprint * PgpFingerprint * Z) (table : string).

(** C38: Whatever the backend, reads and histories are those of the rows: over
    any sequence of calls, writing rows the orchestrator can write and listing
    fingerprints without a slash, a confirmed write replaces exactly its row and
    a failed one does so or nothing; a read gives the row; a listing, once the
    indexes of DynamoDB have caught up, is sound, and complete where the service
    gave whole ranges of at most a thousand swaps. *)
Theorem backend_serves_rows :
  serves_rows (S := InMemState) origin (fun w m => rows w = m /\ store_ok w /\ settled_rows origin m)
    always whole_ranges /\
  serves_rows (store := RedisSwapStore) origin (fun st m => redis_holds origin (rr_view st) m) always whole_ranges /\
  serves_rows (store := FdbSwapStore) origin (fun st m => fdb_holds origin m (fview st)) always
    (fun st fp => whole_range (index_option FDB_BOB_PREFIX fp) (fview st) /\
                  whole_range (index_option FDB_ALICE_PREFIX fp) (fview st)) /\
  serves_rows (store := DynamoDbSwapStore table) origin (table_holds origin table) propagated
    (fun st fp => no_more table "bob_pgp_fp" GSI_BOB st fp /\ no_more table "alice_pgp_fp" GSI_ALICE st fp).
Proof.
  split; [|split; [|split]].
  - exact (store_serves_rows origin (H1 := InMemoryStore_contract origin)).
  - exact (store_serves_rows origin (H1 := RedisSwapStore_contract origin)).
  - exact (store_serves_rows origin (H1 := FdbSwapStore_contract origin)).
  - exact (store_serves_rows origin (H1 := DynamoDbSwapStore_contract origin table)).
Qed.
End Stores.

(** ** Logs *)

(** After any appends the log of a swap holds what it held, then every confirmed
    entry in order, any further one having been asked for; the entries and the
    tip are read from it in a [fresh] state. *)
Definition keeps_confirmed `{Hashing, Ed25519, Ed25519Signer, EntryCodec} {S} {log : AuditLog S}
    (holds : S -> (string -> list AuditEntry) -> Prop) (fresh : S -> Prop) : Prop :=
  forall reqs st L rs st1 i, holds st L -> Forall (fun q => u64_range (e_ts_unix q.2)) reqs ->
    append_all reqs st = (rs, st1) -> fresh st1 ->
    exists more, confirmed (id_str i) reqs rs `sublist_of` more /\
      (forall e, e ∈ more -> exists q, q ∈ reqs /\ e = sign_entry q.1 q.2 /\ e_swap_id e = i) /\
      (forall r st2, log_entries_for i st1 = (r, st2) -> r = Ok (L (id_str i) ++ more) \/ store_error r) /\
      (forall r st2, log_tip_for i st1 = (r, st2) -> r = Ok (last_tip (L (id_str i) ++ more)) \/ store_error r).

Section Logs.
Context `{Hashing, Ed25519, Ed25519Signer, EntryCodec} `{Serde AuditEntry} `{!SerdeLaws AuditEntry}.
Context `{PayloadJson} `{!SerdeLaws json} `{RefereeRedisLaws} `{DynamoAuditLaws} (table : string).

(** C39: The logs in memory, on Redis and on DynamoDB lose no audit entry: after
    any appends, reading the log of a swap gives what it held, then every
    confirmed entry in order; any further entry is one that was asked for; and
    the tip is that of the last of them.  On DynamoDB, where reads lag behind,
    this is what is read once they have caught up. *)
Theorem audit_keeps_confirmed :
  keeps_confirmed (S := list AuditEntry) (fun log L => forall i, entries_for log (mk_id i) = L i) always /\
  keeps_confirmed (log := RedisAuditLog) (fun st L => redis_log (rr_view st) L) always /\
  keeps_confirmed (log := DynamoDbAuditLog table) (fun st L => audit_holds L (audit_view st table)) settled_reads.
Proof.
  split; [|split].
  - exact (log_keeps_confirmed (H4 := InMemoryAuditLog_contract)).
  - exact (log_keeps_confirmed (H4 := RedisAuditLog_contract)).
  - exact (log_keeps_confirmed (H4 := DynamoDbAuditLog_contract table)).
Qed.
End Logs.
