(* ===== verification/RefereeExamples.v ===== *)
(** * The referee on concrete inputs

    The mocks of the repository as a world ([MockVerifier], [MockWebcash],
    [MockRgb], [MockPush], [MockStore]), stand-ins for the libraries, the
    properties of [RefereeSafety] and [RefereeHistory] on a sample swap, and runs
    that show what they leave open: failed pushes and concurrent invocations. *)
From S2P Require Import Prelude Decimal External RefereeState RefereeWorld RefereeView Orchestrator.
From S2P Require Import RefereeFacts RefereeSafety RefereeHistory.

(** ** Libraries *)

(** A stored document is a state with the keys set since, or what a key of it
    holds. *)
Inductive RefValue :=
  | RState (P : Phase) (s : SwapState P) (extra : gmap string json)
  | RParties (p : Parties)
  | RJson (j : json)
  | RNull.

(** What a state of the document reads of the keys set since. *)
Definition reread {P} (extra : gmap string json) (s : SwapState P) : SwapState P :=
  mk_state (id s) (parties s) (bob s) (alice s) (alice_nonces s) (referee_sessions s)
    (match extra !! "phase_entered_at" with Some (JNum t) => t | _ => phase_entered_at s end)
    (insert_push_attempts s)
    (match extra !! "audit_tip_hex" with Some (JStr tip) => tip | _ => audit_tip_hex s end).

#[export] Instance json_doc : SwapJson := {|
  Value := RefValue;
  VNull := RNull;
  to_value P s := RState P s ∅;
  from_value P v := match v with
    | RState Q s extra => match decide (Q = P) with
                          | left E => Ok (reread extra (eq_rect Q SwapState s P E))
                          | right _ => Err "missing field"
                          end
    | _ => Err "invalid type"
    end;
  parties_from_value v := match v with RParties p => Ok p | _ => Err "invalid type" end;
  value_get v k := match v with
    | RState _ s extra => match extra !! k with
                          | Some j => Some (RJson j)
                          | None => if (k =? "parties")%string then Some (RParties (parties s))
                                    else if (k =? "audit_tip_hex")%string then Some (RJson (JStr (audit_tip_hex s)))
                                    else None
                          end
    | _ => None
    end;
  value_as_str v := match v with RJson (JStr s) => Some s | _ => None end;
  object_insert v k j := match v with RState P s extra => Some (RState P s (<[k := j]> extra)) | _ => None end;
  json_to_vec _ := Ok "{}";
|}.

#[export] Instance json_doc_laws : SwapJsonLaws.
Proof.
  split.
  - intros P s. simpl. destruct (decide (P = P)) as [E|]; [|done].
    rewrite (Eqdep_dec.UIP_dec Phase_eq_dec E eq_refl). unfold reread. rewrite !lookup_empty. by destruct s.
  - done.
  - done.
  - by intros.
  - intros [P s extra|ps|i|] k j v' k' j'; [intros [= <-]; by eexists|done..].
  - intros [P s extra|ps|i|] k t v'; [intros [= <-]; simpl; by rewrite lookup_insert_eq|done..].
  - intros [P s extra|ps|i|] k j v' k'; [intros [= <-] Hne; simpl; by rewrite lookup_insert_ne|done..].
Qed.

#[export] Instance signer_ref : Ed25519Signer := {|
  SigningKey := string;
  sk_from_bytes s := s;
  vk_as_bytes s := s;
  ed_sign k m := String.substring 0 64 (k +:+ m +:+ str_repeat " " 64);
|}.

#[export] Instance entry_ref : EntryCodec := {|
  entry_to_vec e := e_phase e +:+ "," +:+ prior_tip e +:+ "," +:+ id_str (e_swap_id e);
|}.

#[export] Instance base64_ref : Base64Standard := {| standard_encode s := s |}.

#[export] Instance musig_ref : Musig2Crate := {|
  PublicKey := string; SecretKey := string; SecNonce := string; MusigPubNonce := string;
  KeyAggContext := list string; AggNonce := string; PartialSignature := string;
  pk_from_slice := Ok;
  sk_from_slice := Ok;
  sk_public_key k := k;
  pk_serialize k := k;
  sec_nonce_build seed k := seed +:+ k;
  public_nonce n := n;
  nonce_serialize n := n;
  nonce_from_bytes := Ok;
  key_agg_new := Ok;
  agg_nonce_sum := String.concat "";
  crate_sign_partial _ k n _ h := Ok (k +:+ n +:+ h);
  partial_serialize p := p;
|}.

(** ** The world of the mocks

    Scripts of answers, first in first out: [MockVerifier] accepts and
    [MockWebcash] answers its default when the script is over; [MockPush] and
    [MockStore] fail where the script says so. *)
Record Mock := mk_mock {
  m_clock : Z;
  m_ids : Z;
  m_zkps : list bool;
  m_default : SpentStatus;
  m_script : list SpentStatus;
  m_push_fails : list bool;
  m_upsert_fails : list bool;
}.

Definition ids_used (m : Mock) : Mock :=
  mk_mock (m_clock m) (m_ids m + 1) (m_zkps m) (m_default m) (m_script m) (m_push_fails m)
    (m_upsert_fails m).

#[export] Instance mock_world : World Mock := {|
  w_now m := (m_clock m, m);
  w_uuid m := (show_u64 (m_ids m), ids_used m);
  w_seed m := (show_u64 (m_ids m), ids_used m);
  w_verify _ _ m := (Ok (default true (head (m_zkps m))),
    mk_mock (m_clock m) (m_ids m) (tail (m_zkps m)) (m_default m) (m_script m) (m_push_fails m)
      (m_upsert_fails m));
  w_check _ m := (Ok (default (m_default m) (head (m_script m))),
    mk_mock (m_clock m) (m_ids m) (m_zkps m) (m_default m) (tail (m_script m)) (m_push_fails m)
      (m_upsert_fails m));
  w_mint_swap_record i _ m := (Ok ("rgb-record-" +:+ i), m);
  w_mint_htlc_refund i _ m := (Ok (Some ("rgb-htlc-" +:+ i)), m);
  w_close_htlc_refund _ _ _ m := (Ok tt, m);
  w_dispatch _ m := (if default false (head (m_push_fails m)) then Err (Push "simulated outage") else Ok tt,
    mk_mock (m_clock m) (m_ids m) (m_zkps m) (m_default m) (m_script m) (tail (m_push_fails m))
      (m_upsert_fails m));
  w_fail_upsert m := (if default false (head (m_upsert_fails m)) then Some "disk full" else None,
    mk_mock (m_clock m) (m_ids m) (m_zkps m) (m_default m) (m_script m) (m_push_fails m)
      (tail (m_upsert_fails m)));
|}.

(** ** A sample swap *)

Definition keys : Keys :=
  {| identity := "referee"; musig_key := {| sk := "secret"; pk := "public" |} |}.

Definition orch (retry : Z) : Orchestrator :=
  {| swap_max_age_secs := 86400; insert_push_retry := retry;
     callback_base_url := "http://test/v1/swap" |}.

Definition bob_fp : PgpFingerprint := mk_fp "bb".
Definition alice_fp : PgpFingerprint := mk_fp "aa".
Definition bob_key : string := str_repeat "1" 32.
Definition alice_key : string := str_repeat "2" 32.

Definition sample_parties : Parties := {|
  bob_pgp_fp := bob_fp; bob_pgp_pubkey_hex := "ee";
  alice_pgp_fp := alice_fp; alice_pgp_pubkey_hex := "ff";
  alice_musig2_pubkey := mk_secp "02";
  bob_cancel_pubkey_hex := hex_encode bob_key; alice_cancel_pubkey_hex := hex_encode alice_key |}.

Definition sample_bob : BobPayload := {|
  h_b := mk_hash "hhhh"; enc_secret_for_alice := mk_pgp "<ct>";
  zkp_payload := {| proof := "1"; public_inputs := [] |} |}.

Definition sample_alice : AlicePayload := {|
  vtxo := mk_outpoint "vvvv"; tx_settle_hash := "ssss"; tx_refund_hash := "rrrr";
  enc_partial_sig_for_bob := mk_pgp "<ct>"; zkp_signature := {| proof := "2"; public_inputs := [] |} |}.

Definition sample_nonces : AliceMusig2Nonces :=
  {| settle_nonce_pub := "11"; refund_nonce_pub := "22" |}.

Definition start_request : request := ReqStart sample_parties sample_bob sample_alice sample_nonces.

Definition fresh (m : Mock) : St (W := Mock) := mk_st empty_store [] ∅ [] m.

(** The pre-check sees the hash unspent, then the script goes on. *)
Definition answers (l : list SpentStatus) : Mock := mk_mock 1000 1 [] Unspent (Unspent :: l) [] [].

Definition started (retry : Z) (l : list SpentStatus) : St (W := Mock) :=
  serve keys (orch retry) start_request (fresh (answers l)).

Definition swap1 : SwapId := mk_id "1".

Definition phase_of (st : St (W := Mock)) (id : SwapId) : option string := t_phase <$> get (store st) id.

Lemma fresh_unused m i : unused i (fresh m).
Proof.
  unfold unused, unused_view, view, live_in, get. simpl. rewrite !lookup_empty.
  split; [done|]. split; [|split; [|done]]; by apply bool_decide_eq_false_2; intros [].
Qed.

Lemma started_reachable retry l : reachable keys (orch retry) (started retry l).
Proof.
  unfold started. apply (reach_serve keys (orch retry) (fresh (answers l)) start_request).
  - apply (reach_init keys (orch retry) (answers l)).
  - intros p b a n _. apply fresh_unused.
Qed.

Lemma retry_range n : 0 <= n <= 255 -> u8_range (insert_push_retry (orch n)).
Proof. intros Hn. unfold u8_range, u8_max. simpl. lia. Qed.

Definition cancel_sig (key : string) (by_fp : PgpFingerprint) (reason : string) : string :=
  hex_encode (ed_sign key (party_cancel_message (id_str swap1) (fp_hex by_fp) reason)).

(** ** Runs *)

Example settles :
  phase_of (serve keys (orch 3) (ReqAdvance swap1) (started 3 [Spent])) swap1 = Some "settled".
Proof. vm_compute. reflexivity. Qed.

Example completes_with_a_refund :
  (run keys (run_to_completion (orch 3) 5 sample_parties sample_bob sample_alice sample_nonces)
     (fresh (answers []))).1 = Ok (Some (OutRefunded swap1)).
Proof. vm_compute. reflexivity. Qed.

(** The bound of [run_to_completion_ends] is tight. *)
Example one_iteration_less :
  (run keys (run_to_completion (orch 3) 4 sample_parties sample_bob sample_alice sample_nonces)
     (fresh (answers []))).1 = Ok None.
Proof. vm_compute. reflexivity. Qed.

Example alice_cannot_withdraw :
  is_ok (run keys (cancel_swap (orch 3) swap1 alice_fp "no" (cancel_sig alice_key alice_fp "no"))
     (started 3 [])).1 = false.
Proof. vm_compute. reflexivity. Qed.

(** ** The properties on the sample swap *)

Lemma advance_follows_graph_witness :
  let st := started 3 [Spent] in
  exists tx tx' r st', get (store st) swap1 = Some tx /\
    run keys (advance_swap (orch 3) swap1) st = (r, st') /\ get (store st') swap1 = Some tx' /\
    0 <= t_insert_push_attempts tx' <= 3.
Proof.
  intros st. destruct (get (store st) swap1) as [tx|] eqn:E; [|by vm_compute in E].
  destruct (run keys (advance_swap (orch 3) swap1) st) as [r st'] eqn:Er.
  destruct (advance_follows_graph keys (orch 3) (retry_range 3 ltac:(lia)) swap1 st tx r st'
    (started_reachable 3 [Spent]) E Er) as (tx' & Hget & _ & _ & Ha & _).
  exists tx, tx', r, st'. split; [reflexivity|]. split; [reflexivity|]. split; [exact Hget|exact Ha].
Defined.

Lemma spent_final_sample : spent_final (checks (events
  (serve keys (orch 3) (ReqAdvance swap1) (started 3 [Spent])))).
Proof.
  assert (checks (events (serve keys (orch 3) (ReqAdvance swap1) (started 3 [Spent]))) =
    [(mk_hash "hhhh", Unspent); (mk_hash "hhhh", Spent)]) as -> by (by vm_compute).
  intros [|[|i]] [|[|j]] h a Hij; simpl; try lia; naive_solver.
Qed.

Lemma never_both_signed_witness :
  let st := serve keys (orch 3) (ReqAdvance swap1) (started 3 [Spent]) in
  existsb (fun e => match e with Signed _ SettleSession => true | _ => false end) (events st) = true /\
  ~ (Signed swap1 SettleSession ∈ events st /\ Signed swap1 RefundSession ∈ events st).
Proof.
  intros st. split; [by vm_compute|].
  apply (never_both_signed keys (orch 3) (retry_range 3 ltac:(lia)) swap1 st).
  - apply (reach_serve keys (orch 3) (started 3 [Spent]) (ReqAdvance swap1));
      [apply started_reachable|]. intros p b a n E. discriminate E.
  - apply spent_final_sample.
Defined.

Lemma cancel_exact_witness :
  let st := started 3 [] in
  let sig := cancel_sig bob_key bob_fp "no" in
  exists tx r st', get (store st) swap1 = Some tx /\
    run keys (cancel_swap (orch 3) swap1 bob_fp "no" sig) st = (r, st') /\ r = Ok tt /\
    exists p, cancel_allowed swap1 tx p bob_fp "no" sig.
Proof.
  intros st sig. destruct (get (store st) swap1) as [tx|] eqn:E; [|by vm_compute in E].
  destruct (run keys (cancel_swap (orch 3) swap1 bob_fp "no" sig) st) as [r st'] eqn:Er.
  assert (r = Ok tt) as Hr.
  { assert ((run keys (cancel_swap (orch 3) swap1 bob_fp "no" sig) st).1 = Ok tt) as Hr
      by (vm_compute; reflexivity). by rewrite Er in Hr. }
  exists tx, r, st'. split; [reflexivity|]. split; [reflexivity|]. split; [exact Hr|].
  destruct (cancel_exact keys (orch 3) (retry_range 3 ltac:(lia)) swap1 st tx bob_fp "no" sig r st'
    (started_reachable 3 []) E Er) as [[Hp _]|(_ & Hn & _)]; [exact Hp|]. rewrite Hr in Hn. discriminate Hn.
Defined.

(** Bob cancels before the insert is pushed: the document of the canceled swap
    carries the tip of the entry written for the cancel. *)
Lemma audit_chain_witness :
  let sig := cancel_sig bob_key bob_fp "no" in
  let st := started 3 [] in
  let rq := ReqCancel swap1 bob_fp "no" sig in
  let st' := serve keys (orch 3) rq st in
  length (entries_for (audit st') swap1) = 5%nat /\
  linked keys (entries_for (audit st') swap1) /\ audit st `prefix_of` audit st' /\
  exists tx e, get (store st') swap1 = Some tx /\ t_phase tx = "canceled" /\
    e ∈ entries_for (audit st') swap1 /\ stored_tip tx = Some (tip_hash e).
Proof.
  intros sig st rq st'. split; [by vm_compute|].
  assert (forall p b a n, rq = ReqStart p b a n -> unused (next_id st) st) as Hu
    by (intros p b a n E; discriminate E).
  destruct (audit_chain keys (orch 3) (retry_range 3 ltac:(lia)) swap1 st rq
    (started_reachable 3 []) Hu) as (Hl & Hp & Hrow). split; [exact Hl|]. split; [exact Hp|].
  assert (match get (store st') swap1 with Some tx => t_phase tx = "canceled" | None => False end) as Hc
    by (vm_compute; reflexivity).
  fold st' in Hrow. destruct (get (store st') swap1) as [tx|] eqn:E; [|destruct Hc].
  destruct (Hrow tx eq_refl) as [(e & He & Ht) _]. exists tx, e. split; [reflexivity|].
  split; [exact Hc|]. split; [exact He|exact Ht].
Defined.

Lemma run_to_completion_ends_witness :
  exists r st', run keys (run_to_completion (orch 3) 5 sample_parties sample_bob sample_alice
      sample_nonces) (fresh (answers [])) = (r, st') /\ r = Ok (Some (OutRefunded swap1)) /\
    exists tx, get (store st') swap1 = Some tx /\ terminal_outcome swap1 tx = Some (OutRefunded swap1).
Proof.
  destruct (run keys (run_to_completion (orch 3) 5 sample_parties sample_bob sample_alice
      sample_nonces) (fresh (answers []))) as [r st'] eqn:Er.
  pose proof completes_with_a_refund as Hr. rewrite Er in Hr. simpl in Hr.
  exists r, st'. split; [reflexivity|]. split; [exact Hr|].
  pose proof (run_to_completion_ends keys (orch 3) (retry_range 3 ltac:(lia)) 5 _ _ _ _ _ r st'
    (reach_init keys (orch 3) (answers [])) (fresh_unused _ _) ltac:(simpl; lia) Er) as He.
  rewrite Hr in He.
  replace (next_id (mk_st empty_store [] ∅ [] (answers []))) with swap1 in He by (by vm_compute). exact He.
Defined.

Lemma history_exact_witness :
  let st := started 3 [] in
  (size (swaps_of (store st) alice_fp) <= 1000)%nat /\
  exists tx, get (store st) swap1 = Some tx /\ t_alice_pgp_fp tx = alice_fp /\
    summary tx (role_of alice_fp tx) ∈ list_by_party (store st) alice_fp.
Proof.
  intros st.
  assert ((size (swaps_of (store st) alice_fp) <= 1000)%nat) as Hsz.
  { replace (size (swaps_of (store st) alice_fp)) with 1%nat by (by vm_compute). lia. }
  split; [exact Hsz|]. destruct (get (store st) swap1) as [tx|] eqn:E; [|by vm_compute in E].
  assert (t_alice_pgp_fp tx = alice_fp) as Ha.
  { assert (t_alice_pgp_fp <$> get (store st) swap1 = Some alice_fp) as Ha by (by vm_compute).
    rewrite E in Ha. by injection Ha. }
  exists tx. split; [reflexivity|]. split; [exact Ha|].
  apply (history_exact keys (orch 3) st alice_fp (retry_range 3 ltac:(lia)) (started_reachable 3 []))
    with (id := swap1); [exact Hsz|exact E|right; exact Ha].
Defined.

(** ** What the properties leave open *)

Definition signed_in (s : Session) (st : St (W := Mock)) : bool :=
  existsb (fun e => match e with Signed _ s' => same_session s s' | _ => false end) (events st).

Definition dispatched_in (k : PushKind -> bool) (st : St (W := Mock)) : bool :=
  existsb (fun e => match e with Dispatched p ok => k (kind p) && ok | _ => false end) (events st).

(** Two invocations of [advance_swap] that overlap: the first reads the hash
    unspent and is suspended, the second reads it spent and hands out the
    settlement signature, then the first writes [aborted] and two more
    invocations hand out the refund signature before the second one discards
    its session.  The webcash server never took an answer back. *)
Definition overlapping : list nat :=
  [0; 0; 1; 1; 1; 1; 1; 1; 1]%nat ++ repeat 0%nat 20 ++ repeat 2%nat 20 ++ repeat 3%nat 20.

Definition race_state : St (W := Mock) :=
  (sys_run keys overlapping (repeat (advance_swap (orch 1) swap1) 4, started 1 [Unspent; Spent])).2.

Example racing_advances_sign_both :
  checks (events race_state) =
    [(mk_hash "hhhh", Unspent); (mk_hash "hhhh", Unspent); (mk_hash "hhhh", Spent)] /\
  signed_in SettleSession race_state = true /\ signed_in RefundSession race_state = true /\
  dispatched_in (fun k => match k with ReleaseSettle => true | _ => false end) race_state = true /\
  dispatched_in (fun k => match k with ReleaseRefund => true | _ => false end) race_state = true.
Proof. vm_compute. repeat split. Qed.

(** A cancel that read the row before a settlement and writes it after: the
    terminal row [settled] is overwritten. *)
Definition cancel_race : St (W := Mock) :=
  let adv : M unit := _ ← advance_swap (orch 3) swap1; mret tt in
  let can := cancel_swap (orch 3) swap1 bob_fp "no" (cancel_sig bob_key bob_fp "no") in
  (sys_run keys ([0]%nat ++ repeat 1%nat 20 ++ repeat 0%nat 20) ([can; adv], started 3 [Spent])).2.

Example terminal_row_overwritten :
  phase_of cancel_race swap1 = Some "canceled" /\
  dispatched_in (fun k => match k with ReleaseSettle => true | _ => false end) cancel_race = true.
Proof. vm_compute. repeat split. Qed.

(** The push that releases the settlement fails: the signing session is used up,
    so every later [advance_swap] fails, and each adds one more [settled] entry
    that commits to the same earlier entry. *)
Definition failed_release : St (W := Mock) :=
  serve keys (orch 3) start_request
    (fresh (mk_mock 1000 1 [] Spent [Unspent] [false; true] [])).

Definition retried : St (W := Mock) :=
  serve keys (orch 3) (ReqAdvance swap1) (serve keys (orch 3) (ReqAdvance swap1) failed_release).

Example failed_release_is_final :
  (run keys (advance_swap (orch 3) swap1) failed_release).1 = Err (Push "simulated outage") /\
  (run keys (advance_swap (orch 3) swap1) retried).1 = Err (Musig2 "no live session: 1 / Settle") /\
  phase_of retried swap1 = Some "insert-pushed" /\
  (let settled := filter (fun e => e_phase e = "settled") (audit retried) in
   length settled = 2%nat /\ length (remove_dups (prior_tip <$> settled)) = 1%nat).
Proof. vm_compute. repeat split. Qed.

(** A rejected proof leaves a [zkps-verified] entry in the log. *)
Example rejected_proof_is_logged :
  let st := serve keys (orch 3) start_request (fresh (mk_mock 1000 1 [true; false] Unspent [] [] [])) in
  phase_of st swap1 = Some "init" /\ e_phase <$> audit st = ["init"; "zkps-verified"].
Proof. vm_compute. repeat split. Qed.

(** When the invalidate push fails the refund goes out without it. *)
Example refund_without_invalidate :
  let st0 := serve keys (orch 1) start_request
    (fresh (mk_mock 1000 1 [] Unspent [] [false; true] [])) in
  let advance_once st := serve keys (orch 1) (ReqAdvance swap1) st in
  let st := advance_once (advance_once (advance_once st0)) in
  (run keys (advance_swap (orch 1) swap1) st0).1 = Err (Push "simulated outage") /\
  phase_of st swap1 = Some "refunded" /\
  dispatched_in (fun k => match k with ReleaseRefund => true | _ => false end) st = true /\
  dispatched_in (fun k => match k with Invalidate => true | _ => false end) st = false.
Proof. vm_compute. repeat split. Qed.

(** A webcash server that takes a report back: after a failed release both
    signatures are produced, which [never_both_signed] excludes by hypothesis. *)
Example retracted_report_signs_both :
  let st0 := serve keys (orch 1) start_request
    (fresh (mk_mock 1000 1 [] Unspent [Unspent; Spent] [false; true] [])) in
  let advance_once st := serve keys (orch 1) (ReqAdvance swap1) st in
  let st := advance_once (advance_once (advance_once (advance_once st0))) in
  signed_in SettleSession st = true /\ signed_in RefundSession st = true.
Proof. vm_compute. repeat split. Qed.

(** A second initiation is a second swap. *)
Example start_is_not_idempotent :
  let st := serve keys (orch 3) start_request (started 3 []) in size (rows (store st)) = 2%nat.
Proof. vm_compute. reflexivity. Qed.
