(* ===== verification/RefereeStoreReference.v ===== *)
(** * Concrete servers and codecs for the referee's backends

    Instances of every parameter of the storage files, with the laws assumed of
    them: a Redis that loses replies, range batches of a FoundationDB, indexes
    and updates of the DynamoDB of [BackendReference], a DynamoDB partition with
    conditional puts, and texts for rows, entries and payloads. *)
From S2P Require Import Prelude Decimal External Storage Fdb Dynamo BackendReference.
From S2P Require Import RefereeState RefereeWorld RefereeHistory RefereeExamples RefereeStores RefereeRedis RefereeFdb.
From S2P Require Import RefereeDynamo RefereeDynamoLog.

(** ** Texts *)

(** A value as the bits of its code. *)
Fixpoint bits (p : positive) : string :=
  match p with
  | xI p => String "1"%char (bits p)
  | xO p => String "0"%char (bits p)
  | xH => EmptyString
  end.
Fixpoint of_bits (s : string) : option positive :=
  match s with
  | EmptyString => Some xH
  | String c s' =>
      p ← of_bits s';
      if Ascii.eqb c "1"%char then Some (xI p) else if Ascii.eqb c "0"%char then Some (xO p) else None
  end.

Lemma of_bits_bits p : of_bits (bits p) = Some p.
Proof. by induction p as [p IH|p IH|]; simpl; rewrite ?IH. Qed.

Definition bits_serde {T} `{Countable T} : Serde T := {|
  to_json x := bits (encode x);
  from_json s := ok_or (p ← of_bits s; decode p) "invalid code";
|}.

Lemma bits_serde_laws {T} `{Countable T} : @SerdeLaws T bits_serde.
Proof. split. intros x. simpl. by rewrite of_bits_bits; simpl; rewrite decode_encode. Qed.

(** A stored state is a text here. *)
#[export] Instance text_doc : SwapJson := {|
  Value := string;
  VNull := "null";
  to_value P s := NAME P;
  from_value _ _ := Err "unsupported";
  parties_from_value _ := Err "unsupported";
  value_get _ _ := None;
  value_as_str := Some;
  object_insert _ _ _ := None;
  json_to_vec _ := Ok "{}";
|}.

#[export] Instance value_serde : Serde (@Value text_doc) := {| to_json v := v; from_json v := Ok v |}.
#[export] Instance value_serde_laws : SerdeLaws (@Value text_doc).
Proof. by split. Qed.

#[export] Instance status_eq_dec : EqDecision TransactionStatus.
Proof. solve_decision. Defined.
#[export, refine] Instance status_countable : Countable TransactionStatus :=
  inj_countable status_str (fun s => Some (status_of s)) _.
Proof. by intros []. Defined.

Definition tx_fields (tx : Transaction) :=
  ((id_str (t_swap_id tx), t_status tx, t_phase tx, t_terminal tx,
    fp_hex (t_bob_pgp_fp tx), fp_hex (t_alice_pgp_fp tx)),
   (hash_str (t_webcash_public_hash tx), outpoint_str (t_vtxo_outpoint_hash tx),
    t_tx_settle_hash tx, t_tx_refund_hash tx),
   (t_created_at_unix tx, t_updated_at_unix tx, t_insert_push_attempts tx),
   (t_cancel_reason tx, fp_hex <$> t_canceled_by_pgp_fp tx, t_htlc_refund_contract_id tx),
   (blob_phase (t_state_blob tx), inner (t_state_blob tx) : string)).

Definition tx_of_fields (x : string * TransactionStatus * string * bool * string * string *
    (string * string * string * string) * (Z * Z * Z) * (option string * option string * option string) *
    (string * string)) : Transaction :=
  let '(a, st, ph, te, bob, alice, (wh, vo, sh, rh), (cr, up, at_), (reason, by_fp, htlc), (bp, inn)) := x in
  mk_tx (mk_id a) st ph te (mk_fp bob) (mk_fp alice) (mk_hash wh) (mk_outpoint vo) sh rh cr up at_
    reason (mk_fp <$> by_fp) htlc {| blob_phase := bp; inner := inn |}.

#[export] Instance tx_eq_dec : EqDecision (@Transaction text_doc).
Proof.
  intros x y. destruct (decide (tx_fields x = tx_fields y)) as [E|E]; [left|right; by intros ->].
  destruct x as [[] ? ? ? [] [] [] [] ? ? ? ? ? ? [[]|] ? []], y as [[] ? ? ? [] [] [] [] ? ? ? ? ? ? [[]|] ? []];
    unfold tx_fields in E; simpl in E; by simplify_eq.
Defined.
#[export, refine] Instance tx_countable : Countable (@Transaction text_doc) := inj_countable' tx_fields tx_of_fields _.
Proof. by intros [[] ? ? ? [] [] [] [] ? ? ? ? ? ? [[]|] ? []]. Defined.

#[export] Instance tx_serde : Serde (@Transaction text_doc) := bits_serde.
#[export] Instance tx_serde_laws : SerdeLaws (@Transaction text_doc) := bits_serde_laws.

(** Payloads: an object is a node of its members, each a name and a value. *)
Fixpoint json_tree (j : json) : gen_tree (string + bool + Z) :=
  match j with
  | JStr s => GenLeaf (inl (inl s))
  | JBool b => GenLeaf (inl (inr b))
  | JNum n => GenLeaf (inr n)
  | JObj fs => GenNode 0 ((fix members (l : list (string * json)) := match l with
      | [] => []
      | (k, v) :: l' => GenLeaf (inl (inl k)) :: json_tree v :: members l'
      end) fs)
  end.

Fixpoint tree_json (t : gen_tree (string + bool + Z)) : json :=
  match t with
  | GenLeaf (inl (inl s)) => JStr s
  | GenLeaf (inl (inr b)) => JBool b
  | GenLeaf (inr n) => JNum n
  | GenNode _ l => JObj ((fix members (l : list (gen_tree (string + bool + Z))) := match l with
      | GenLeaf (inl (inl k)) :: v :: l' => (k, tree_json v) :: members l'
      | _ => []
      end) l)
  end.

Fixpoint tree_json_tree (j : json) : tree_json (json_tree j) = j.
Proof.
  destruct j as [s|b|n|fs]; [reflexivity..|]. simpl. f_equal.
  induction fs as [|[k v] fs IH]; [reflexivity|]. simpl. rewrite tree_json_tree. do 2 f_equal. exact IH.
Qed.

Definition json_text (j : json) : string := bits (encode (json_tree j)).

#[export] Instance payload_ref : PayloadJson := {|
  payload_serde := {|
    to_json := json_text;
    from_json s := ok_or (p ← of_bits s; tree_json <$> decode p) "invalid payload";
  |};
  payload_null := JObj [];
|}.

Lemma json_text_back j : (p ← of_bits (json_text j); tree_json <$> decode p) = Some j.
Proof. unfold json_text. rewrite of_bits_bits. simpl. rewrite decode_encode. simpl. by rewrite tree_json_tree. Qed.

#[export] Instance payload_ref_laws : @SerdeLaws json payload_serde.
Proof. split. intros j. unfold to_json, from_json. simpl. by rewrite json_text_back. Qed.

Definition entry_fields (e : AuditEntry) : string * string * Z * string * string * string :=
  (id_str (e_swap_id e), e_phase e, e_ts_unix e, prior_tip e, json_text (phase_payload e), signature e).

#[export] Instance entry_serde : Serde AuditEntry := {|
  to_json e := bits (encode (entry_fields e));
  from_json s := ok_or
    (p ← of_bits s;
     x ← decode p;
     let '(i, ph, ts, tip, pl, sig) := (x : string * string * Z * string * string * string) in
     q ← of_bits pl;
     t ← decode q;
     Some (mk_entry (mk_id i) ph ts tip (tree_json t) sig)) "invalid entry";
|}.

#[export] Instance entry_serde_laws : SerdeLaws AuditEntry.
Proof.
  split. intros [[i] ph ts tip pl sig]. unfold to_json, from_json. simpl. rewrite of_bits_bits. simpl.
  rewrite decode_encode. simpl. unfold json_text. rewrite of_bits_bits. simpl. rewrite decode_encode. simpl.
  by rewrite tree_json_tree.
Qed.

(** ** Redis

    The state carries, for the commands to come, whether the reply is lost. *)
#[export] Instance redis_server : RefereeRedis := {|
  rr_state := redis_keys * list bool;
  rr_query c st :=
    match cmd_exec c st.1, st.2 with
    | (_, d), true :: rest => (Err "broken pipe", (d, rest))
    | (ErrorReply e, d), lost => (Err e, (d, tail lost))
    | (r, d), lost => (Ok r, (d, tail lost))
    end;
  rr_type_error := "response was of incompatible type";
|}.

#[export] Instance redis_server_laws : RefereeRedisLaws.
Proof.
  refine {| rr_view := fun st : @rr_state redis_server => st.1 : redis_keys |}.
  - intros c [d lost] r st' E. simpl in *. destruct (cmd_exec c d) as [x d'] eqn:Ec.
    destruct x, lost as [|[] lost]; simplify_eq/=; done.
  - intros c [d lost] e st' E. simpl in *. destruct (cmd_exec c d) as [x d'] eqn:Ec.
    destruct x, lost as [|[] lost]; simplify_eq/=; by right.
Defined.

(** ** FoundationDB: batches of two rows in the first iteration, whole ranges
    later *)
#[export] Instance range_ref : FdbRange := {|
  batch_size it l := if (it <=? 1)%nat then 2%nat else length l;
  show_fdb e := match e with CustomError m => m | FdbError _ => "code" end;
|}.
#[export] Instance range_ref_laws : FdbRangeLaws.
Proof. split. intros it kv l. simpl. destruct (it <=? 1)%nat; simpl; lia. Qed.

(** ** DynamoDB: indexes without lag, pages of the limit *)

Definition newer_item (a b : item) : bool := read_u64 b "created_at_unix" <=? read_u64 a "created_at_unix".

Definition indexed_items (a v : string) (tbl : dtable) : list item :=
  stable_sort newer_item (filter (fun it => it !! a = Some (AS v) /\
    is_Some (it !! "created_at_unix" ≫= as_n)) (map_to_list tbl).*2).

#[export] Instance index_ref : DynamoIndex := {|
  query_index t _ a v limit := guarded (fun s =>
    match tabs s !! t with
    | Some tbl =>
        let l := indexed_items a v tbl in
        (Ok (take limit l, bool_decide (limit < length l)%nat), s)
    | None => (Err (Service "ResourceNotFoundException"), s)
    end);
  update_item t key sets := guarded (fun s =>
    match tabs s !! t with
    | Some _ => (Ok tt, set_tabs (tx_apply (tabs s) (TxUpdate t key sets Always)) s)
    | None => (Err (Service "ResourceNotFoundException"), s)
    end);
|}.

Lemma indexed_items_elem a v tbl it :
  it ∈ indexed_items a v tbl <->
  (it !! a = Some (AS v) /\ is_Some (it !! "created_at_unix" ≫= as_n)) /\ exists k, tbl !! k = Some it.
Proof.
  unfold indexed_items. rewrite (stable_sort_perm newer_item), list_elem_of_filter. split.
  - intros [Hv ([k it'] & -> & Hin%elem_of_map_to_list)%list_elem_of_fmap]. eauto.
  - intros [Hv [k Hk]]. split; [done|]. apply list_elem_of_fmap. exists (k, it). split; [done|].
    by apply elem_of_map_to_list.
Qed.

#[export] Instance index_ref_laws : DynamoIndexLaws.
Proof.
  refine {| propagated := fun _ : @dstate dynamo_ref => True |}.
  - intros t i a v limit s its more s' E. called E. destruct (tabs s !! t) as [tbl|] eqn:Et; [|done].
    injection E as <- <- <-. split; [done|]. intros _. split; [done|]. exists tbl. split; [done|]. split.
    + intros it Hin%subseteq_take. apply indexed_items_elem in Hin as [[Hv _] Hk]. done.
    + intros Hm k it Hk Hv Hc. apply bool_decide_eq_false in Hm. rewrite take_ge by lia.
      apply indexed_items_elem. eauto.
  - intros t i a v limit s e s' E. called E. destruct (tabs s !! t); [done|]. by injection E as _ <-.
  - intros t k sets s s' E. called E. destruct (tabs s !! t); [|done]. by injection E as <-.
  - intros t k sets s e s' E. called E; [by left|]. destruct (tabs s !! t); [done|]. injection E as _ <-. by left.
Defined.

(** ** DynamoDB: a log

    The state carries, for the puts to come, whether the client puts again
    after an answer it did not get, and so meets its own item. *)
Record LogRef := mk_log { logs : gmap string audit_rows; again : list bool }.

Definition log_size : Z := 2 ^ 63.
Definition rows_at (s : LogRef) (t : string) : audit_rows :=
  let rows := default ∅ (logs s !! t) in
  if bool_decide (Z.of_nat (size rows) < log_size) then rows else ∅.

Definition log_put (t : string) (it : item) (s : LogRef) : result RefError unit * LogRef :=
  let s1 := mk_log (logs s) (tail (again s)) in
  match audit_key_of it with
  | None => (Err (Service "ValidationException"), s1)
  | Some k =>
      let rows := rows_at s t in
      match rows !! k with
      | Some _ => (Err (Service "ConditionalCheckFailedException"), s1)
      | None =>
          let rows' := <[k := it]> rows in
          if bool_decide (Z.of_nat (size rows') < log_size) then
            let s2 := mk_log (<[t := rows']> (logs s)) (tail (again s)) in
            if default false (head (again s)) then (Err (Service "ConditionalCheckFailedException"), s2) else (Ok tt, s2)
          else (Err BackendReference.Dispatch, s1)
      end
  end.

Definition log_query (t pk : string) (fwd : bool) (limit : option nat) (s : LogRef)
  : result RefError (list item) * LogRef :=
  let l := (if fwd then fun l => l else @rev item) (partition_rows pk (rows_at s t)).*2 in
  (Ok (match limit with Some n => take n l | None => l end), s).

Definition unsupported {X} (s : LogRef) : result RefError X * LogRef := (Err BackendReference.Dispatch, s).

Definition log_service : DynamoService := {|
  dstate := LogRef;
  sdk_error := RefError;
  show_sdk e := match e with BackendReference.Dispatch => "dispatch failure" | Service _ => "service error" end;
  service_debug e := match e with BackendReference.Dispatch => None | Service d => Some d end;
  transact_write_items _ := unsupported;
  batch_write_item _ _ := unsupported;
  batch_get_item _ _ := unsupported;
  get_item _ _ _ := unsupported;
  put_item _ _ := unsupported;
  describe_table _ := unsupported;
  create_table _ := unsupported;
|}.

#[export] Instance log_ref : @DynamoAudit log_service := {|
  put_if_new := log_put : string -> item -> @dstate log_service -> result (@sdk_error log_service) unit * @dstate log_service;
  query_partition := log_query : string -> string -> bool -> option nat -> @dstate log_service ->
    result (@sdk_error log_service) (list item) * @dstate log_service;
  debug_put e := match (e : RefError) with BackendReference.Dispatch => "DispatchFailure" | Service d => d end;
|}.

Lemma rows_at_same s l t : rows_at (mk_log (logs s) l) t = rows_at s t.
Proof. done. Qed.

Lemma log_put_spec t it k s r s' :
  audit_key_of it = Some k -> log_put t it s = (r, s') ->
  (r <> Ok tt /\ rows_at s' t = rows_at s t /\
     (r = Err (Service "ConditionalCheckFailedException") -> is_Some (rows_at s t !! k))) \/
  (rows_at s t !! k = None /\ rows_at s' t = <[k := it]> (rows_at s t)).
Proof.
  intros Hk. unfold log_put. rewrite Hk. destruct (rows_at s t !! k) eqn:Er.
  { intros [= <- <-]. left. split; [done|]. split; [done|]. by eexists. }
  case_bool_decide as Hb; [|intros [= <- <-]; by left].
  intros E. right. split; [done|].
  assert (rows_at s' t = <[k := it]> (rows_at s t)) as Hv; [|done].
  destruct (default false (head (again s))); injection E as _ <-;
    unfold rows_at at 1; simpl; rewrite lookup_insert_eq; simpl; by rewrite bool_decide_true.
Qed.

#[export] Instance log_ref_laws : @DynamoAuditLaws log_service log_ref.
Proof.
  refine {| audit_view := rows_at : @dstate log_service -> string -> audit_rows;
            settled_reads := fun _ : @dstate log_service => True |}.
  - intros t it k s s' Hk E. by destruct (log_put_spec _ _ _ _ _ _ Hk E) as [[[] _]|?].
  - intros t it k s e s' Hk E. destruct (log_put_spec _ _ _ _ _ _ Hk E) as [(_ & Hv & Hc)|[Hn Hv]].
    + split; [by left|]. intros Hf. rewrite Hv. apply Hc. destruct e as [|d]; [done|]. f_equal. f_equal.
      simpl in E. unfold log_put in E. rewrite Hk in E. repeat case_match; by simplify_eq.
    + split; [by right|]. intros _. rewrite Hv, lookup_insert_eq. by eexists.
  - intros t pk fwd limit s its s' E. injection E as <- <-. split; [done|].
    exists (rows_at s t), (match limit with Some n => n | None => length (partition_rows pk (rows_at s t)) end).
    split; [done|]. split.
    + destruct limit; [done|]. rewrite take_ge; [done|]. destruct fwd; rewrite ?length_rev; by rewrite length_fmap.
    + intros _. split; [done|]. by destruct limit.
  - intros t pk fwd limit s e s' E. done.
  - intros s t. simpl. unfold rows_at. case_bool_decide; [done|]. by rewrite map_size_empty.
Defined.

(** ** Creation of tables: a table that becomes active in time *)
#[export] Instance schema_ref : @DynamoSchema dynamo_ref := {|
  create_schema t _ := create_table t;
  table_status t := guarded (fun s =>
    match tabs s !! t with
    | Some _ => (Ok (Some (if busy s then "CREATING" else "ACTIVE")), s)
    | None => (Err (Service "ResourceNotFoundException"), s)
    end);
  debug_sdk e := match (e : RefError) with BackendReference.Dispatch => "DispatchFailure" | Service d => d end;
|}.
