(* ===== verification/RefereeStoreExamples.v ===== *)
(** * The referee's backends on concrete inputs

    The properties of [RefereeBackends], [RefereeFdb] and [RefereeDynamo] on sample
    swaps and entries over the servers of [RefereeStoreReference], and runs that
    show what the contracts leave out: a FoundationDB listing cut after its
    first batch, one under a fingerprint with a slash, a DynamoDB row that
    exists only as a terminal mark, an entry appended twice. *)
From S2P Require Import Prelude Decimal External Storage Fdb Dynamo BackendReference.
From S2P Require Import RefereeState RefereeWorld RefereeView RefereeHistory RefereeExamples RefereeStores RefereeRedis.
From S2P Require Import RefereeFdb RefereeDynamo RefereeDynamoLog RefereeBackends RefereeStoreReference.

(** ** Samples *)

Definition bob_fp : PgpFingerprint := mk_fp "b0b".
Definition alice_fp : PgpFingerprint := mk_fp "a11ce".
Definition sample_origin (_ : string) : PgpFingerprint * PgpFingerprint * Z := (bob_fp, alice_fp, 1700).

Definition sample_row (i phase : string) (updated : Z) : Transaction :=
  mk_tx (mk_id i) (for_phase phase) phase (is_terminal (for_phase phase)) bob_fp alice_fp (mk_hash "h") (mk_outpoint "o")
    "settle" "refund" 1700 updated 1 None (Some alice_fp) None {| blob_phase := phase; inner := "{}" |}.

Lemma sample_writable i phase updated :
  key_safe i = true -> u64_range updated -> writable sample_origin (sample_row i phase updated).
Proof. intros Hi Hu. split; try done; unfold u64_range, u8_range, u64_max, u8_max; simpl; lia. Qed.

Definition sample_ops : list store_op :=
  [OpUpsert (sample_row "s1" "init" 1700); OpUpsert (sample_row "s2" "init" 1701);
   OpUpsert (sample_row "s1" "settled" 1702); OpGet (mk_id "s1"); OpGet (mk_id "s3"); OpList alice_fp].

Lemma sample_ops_ok : Forall (op_ok sample_origin) sample_ops.
Proof.
  repeat constructor; try (apply sample_writable; [done|unfold u64_range, u64_max; lia]); done.
Qed.

Definition sample_swaps : DynamoRef := mk_dynamo {["RefereeSwaps-testnet" := ∅]} false 0.

Lemma no_rows : settled_rows sample_origin (∅ : gmap string Transaction).
Proof. done. Qed.

Lemma redis_empty lost : models (SwapContract := RedisSwapStore_contract sample_origin)
  ((∅, lost) : @rr_state redis_server) ∅.
Proof. split; [done| | |done]; intros fp; exists ∅; (split; [done|]); intros i; by split; [intros []|intros (? & ? & _)]. Qed.

Lemma fdb_empty acks : models (SwapContract := FdbSwapStore_contract sample_origin)
  ((∅, acks) : @fstate fdb_ref) ∅.
Proof. split; [done| | |done]; intros t; by split; [intros []|intros (? & ? & ? & _)]. Qed.

Lemma dynamo_empty : table_holds sample_origin (swaps_table None) (sample_swaps : @dstate dynamo_ref) ∅.
Proof. exists ∅. split; [done|]. by split. Qed.

Lemma memory_empty : models (SwapContract := InMemoryStore_contract sample_origin) empty_store ∅.
Proof.
  split; [done|]. split; [|done]. split; [done|]. split; intros fp c i; by split; [|intros (? & ? & _)].
Qed.

(** ** Stores *)

(** The second commit of the FoundationDB store is not acknowledged and runs
    again; the second reply of the Redis store is lost. *)
Lemma backend_serves_rows_witness :
  (let r := serve_all (S := InMemState) sample_ops empty_store in
   exists m, serves always whole_ranges ∅ r.1 m) /\
  (let r := serve_all (S := @rr_state redis_server) sample_ops (∅, [false; true]) in
   exists m, serves always whole_ranges ∅ r.1 m /\ redis_holds sample_origin (rr_view r.2) m) /\
  (let r := serve_all (S := @fstate fdb_ref) sample_ops (∅, [false; true]) in
   exists m, serves always (fun st fp => whole_range (index_option FDB_BOB_PREFIX fp) (fview st) /\
      whole_range (index_option FDB_ALICE_PREFIX fp) (fview st)) ∅ r.1 m /\ fdb_holds sample_origin m (fview r.2)) /\
  (let r := serve_all (H := text_doc) (H0 := DynamoDbSwapStore (swaps_table None)) sample_ops sample_swaps in
   exists m, serves propagated (fun st fp => no_more (swaps_table None) "bob_pgp_fp" GSI_BOB st fp /\
      no_more (swaps_table None) "alice_pgp_fp" GSI_ALICE st fp) ∅ r.1 m /\
     table_holds sample_origin (swaps_table None) r.2 m).
Proof.
  destruct (backend_serves_rows (H := text_doc) (H7 := dynamo_ref) sample_origin (swaps_table None))
    as (Hmem & Hredis & Hfdb & Hddb).
  split; [|split; [|split]].
  - destruct (Hmem sample_ops _ ∅ _ _ memory_empty sample_ops_ok (surjective_pairing _)) as (m & Hs & _). by exists m.
  - exact (Hredis sample_ops _ ∅ _ _ (redis_empty [false; true]) sample_ops_ok (surjective_pairing _)).
  - exact (Hfdb sample_ops _ ∅ _ _ (fdb_empty [false; true]) sample_ops_ok (surjective_pairing _)).
  - exact (Hddb sample_ops _ ∅ _ _ dynamo_empty sample_ops_ok (surjective_pairing _)).
Defined.

(** What the runs answer, row by row. *)
Definition answered (a : store_answer) : string * option (list string) :=
  match a with
  | Wrote (Ok _) => ("written", None)
  | Row (Ok None) => ("no row", None)
  | Row (Ok (Some tx)) => (t_phase tx, None)
  | Listing (Ok l) => ("listing", Some (map (fun m => id_str (m_swap_id m) +:+ ":" +:+ m_phase m) l))
  | Wrote (Err (Store m)) | Row (Err (Store m)) | Listing (Err (Store m)) => (m, None)
  | _ => ("other", None)
  end.

Example redis_run :
  map (fun x => answered x.2) (serve_all (S := @rr_state redis_server) sample_ops (∅, [false; true])).1 =
  [("written", None); ("redis upsert: broken pipe", None); ("written", None); ("settled", None); ("no row", None);
   ("listing", Some ["s2:init"; "s1:settled"])].
Proof. vm_compute. reflexivity. Qed.

Example fdb_run_answers :
  map (fun x => answered x.2) (serve_all (S := @fstate fdb_ref) sample_ops (∅, [false; true])).1 =
  [("written", None); ("written", None); ("written", None); ("settled", None); ("no row", None);
   ("listing", Some ["s2:init"; "s1:settled"])].
Proof. vm_compute. reflexivity. Qed.

Example dynamo_run :
  map (fun x => answered x.2)
    (serve_all (H := text_doc) (H0 := DynamoDbSwapStore (swaps_table None)) sample_ops sample_swaps).1 =
  [("written", None); ("written", None); ("written", None); ("settled", None); ("no row", None);
   ("listing", Some ["s1:settled"; "s2:init"])].
Proof. vm_compute. reflexivity. Qed.

Lemma item_roundtrip_witness :
  writable sample_origin (sample_row "s1" "settled" 1702) /\
  item_to_transaction (swap_item (sample_row "s1" "settled" 1702)) = Ok (sample_row "s1" "settled" 1702).
Proof.
  assert (writable sample_origin (sample_row "s1" "settled" 1702)) as Hw.
  { apply sample_writable; [done|unfold u64_range, u64_max; lia]. }
  split; [exact Hw|]. exact (proj1 (item_roundtrip sample_origin _ Hw)).
Defined.

(** The FoundationDB listing reads the first batch of a range only: of three
    swaps of Alice, the batch of two misses the oldest. *)
Example batch_cuts_listing :
  let ops := [OpUpsert (sample_row "s1" "init" 1700); OpUpsert (sample_row "s2" "init" 1700);
              OpUpsert (sample_row "s3" "init" 1700); OpList alice_fp] in
  answered <$> last (serve_all (S := @fstate fdb_ref) ops (∅, [])).1.*2 =
  Some ("listing", Some ["s3:init"; "s2:init"]).
Proof. vm_compute. reflexivity. Qed.

(** Under a text that continues Alice's index key past a slash, her swap is
    listed as that party's, in the role of Alice. *)
Example slash_lists_a_stranger :
  let ops := [OpUpsert (sample_row "s1" "init" 1700);
              OpList (mk_fp "a11ce/00000000000000001700")] in
  match last (serve_all (S := @fstate fdb_ref) ops (∅, [])).1.*2 with
  | Some (Listing (Ok [m])) => m_alice_pgp_fp m = alice_fp /\ m_role m = RoleAlice
  | _ => False
  end.
Proof. vm_compute. split; reflexivity. Qed.

(** Marking a swap that does not exist creates an item that no read accepts. *)
Example mark_creates_an_item :
  let st := (ds_mark_terminal (swaps_table None) (mk_id "ghost") sample_swaps).2 in
  (ds_get (H1 := text_doc) (swaps_table None) (mk_id "ghost") st).1 = Err (Store "missing attr phase").
Proof. vm_compute. reflexivity. Qed.

(** A table that is still being created after half a minute is an error. *)
Example creation_times_out :
  fst <$> ensure_schema "T" swaps_schema (fun k => Z.of_nat k * POLL_MS) (mk_dynamo ∅ true 0 : @dstate dynamo_ref) =
  Some (Err (Store "table T did not become ACTIVE within 30s (status=CREATING)")).
Proof. vm_compute. reflexivity. Qed.

(** ** Logs *)

Definition sample_entry (i phase prior : string) (ts : Z) : AuditEntry :=
  mk_entry (mk_id i) phase ts prior (JObj [("info", JStr phase)]) "".

Definition sample_reqs : list (@SigningKey signer_ref * AuditEntry) :=
  [("k", sample_entry "s1" "init" "" 1700); ("k", sample_entry "s2" "init" "" 1701);
   ("k", sample_entry "s1" "zkps-verified" "t1" 1702); ("k", sample_entry "s1" "settled" "t2" 1703)].

Lemma sample_reqs_ok : Forall (fun q : @SigningKey signer_ref * AuditEntry => u64_range (e_ts_unix q.2)) sample_reqs.
Proof. repeat constructor; simpl; unfold u64_max; lia. Qed.

Lemma sample_reqs_safe : Forall (fun q : @SigningKey signer_ref * AuditEntry => key_safe (id_str (e_swap_id q.2)) = true) sample_reqs.
Proof. by repeat constructor. Qed.

Definition empty_log (lost : list bool) : @dstate log_service := mk_log ∅ lost.

Lemma redis_log_empty lost : holds_log ((∅, lost) : @rr_state redis_server) (fun _ => []).
Proof. by intros i. Qed.

Lemma dynamo_log_empty lost : audit_holds (fun _ => []) (audit_view (empty_log lost) (audit_table_name None)).
Proof. split; [intros i s; simpl; by destruct (0 <=? s)|by intros i e Hi%elem_of_nil]. Qed.

(** The second append to Redis loses its reply; the second put to DynamoDB is
    sent twice, so its entry is there twice. *)
Lemma audit_keeps_confirmed_witness :
  (let r := append_all (S := @rr_state redis_server) sample_reqs (∅, [false; true]) in
   exists l, (log_entries_for (S := @rr_state redis_server) (mk_id "s1") r.2).1 = Ok l /\ length l = 3%nat /\
     confirmed "s1" sample_reqs r.1 `sublist_of` l /\
     (log_tip_for (S := @rr_state redis_server) (mk_id "s1") r.2).1 = Ok (last_tip l)) /\
  (let A := DynamoDbAuditLog (audit_table_name None) in
   let r := append_all (H1 := signer_ref) (H3 := A) sample_reqs (empty_log [false; true]) in
   exists l, (log_entries_for (H1 := signer_ref) (AuditLog := A) (mk_id "s2") r.2).1 = Ok l /\ length l = 2%nat /\
     confirmed "s2" sample_reqs r.1 `sublist_of` l).
Proof.
  destruct (audit_keeps_confirmed (H1 := signer_ref) (H9 := log_ref_laws) (audit_table_name None)) as (_ & Hredis & Hddb).
  split; cbv zeta.
  - set (st1 := (append_all (S := @rr_state redis_server) sample_reqs (∅, [false; true])).2).
    destruct (Hredis sample_reqs _ _ _ _ (mk_id "s1") (redis_log_empty [false; true]) sample_reqs_ok
      (surjective_pairing _) I) as (more & Hsub & _ & Hl & Ht).
    destruct (log_entries_for (S := @rr_state redis_server) (mk_id "s1") st1) as [l st2] eqn:E.
    destruct (log_tip_for (S := @rr_state redis_server) (mk_id "s1") st1) as [t st3] eqn:Et.
    assert (length <$> (log_entries_for (S := @rr_state redis_server) (mk_id "s1") st1).1 = Ok 3%nat) as Hlen
      by (vm_compute; reflexivity).
    assert (is_ok (log_tip_for (S := @rr_state redis_server) (mk_id "s1") st1).1 = true) as Hok by (vm_compute; reflexivity).
    rewrite E in Hlen. rewrite Et in Hok.
    destruct (Hl l st2 E) as [El|[msg El]]; [|rewrite El in Hlen; discriminate Hlen].
    destruct (Ht t st3 Et) as [Etip|[msg Etip]]; [|rewrite Etip in Hok; discriminate Hok].
    subst l. exists more. split; [reflexivity|]. split; [by injection Hlen|]. split; [exact Hsub|exact Etip].
  - set (A := DynamoDbAuditLog (audit_table_name None)).
    set (st1 := (append_all (H1 := signer_ref) (H3 := A) sample_reqs (empty_log [false; true])).2).
    destruct (Hddb sample_reqs _ _ _ _ (mk_id "s2") (dynamo_log_empty [false; true]) sample_reqs_ok
      (surjective_pairing _) I) as (more & Hsub & _ & Hl & _).
    destruct (log_entries_for (H1 := signer_ref) (AuditLog := A) (mk_id "s2") st1) as [l st2] eqn:E.
    assert (length <$> (log_entries_for (H1 := signer_ref) (AuditLog := A) (mk_id "s2") st1).1 = Ok 2%nat) as Hlen
      by (vm_compute; reflexivity).
    rewrite E in Hlen. destruct (Hl l st2 E) as [El|[msg El]]; [|rewrite El in Hlen; discriminate Hlen].
    subst l. exists more. split; [reflexivity|]. split; [by injection Hlen|exact Hsub].
Defined.

Lemma fdb_audit_keeps_last_witness :
  let r := append_all (S := @fstate fdb_ref) sample_reqs (∅, [false; true]) in
  exists l, (log_entries_for (S := @fstate fdb_ref) (mk_id "s1") r.2).1 = Ok l /\
    length (confirmed "s1" sample_reqs r.1) = 3%nat /\ (length l <= 1)%nat /\
    l = option_list (last (confirmed "s1" sample_reqs r.1)).
Proof.
  cbv zeta.
  destruct (log_entries_for (S := @fstate fdb_ref) (mk_id "s1")
    (append_all (S := @fstate fdb_ref) sample_reqs (∅, [false; true])).2) as [[l|e] st2] eqn:E; [|by vm_compute in E].
  destruct (fdb_audit_keeps_last sample_reqs ((∅, [false; true]) : @fstate fdb_ref) _ _ (mk_id "s1") l st2
    (fun t => lookup_empty _) sample_reqs_safe (surjective_pairing _) eq_refl E) as [Hl Hlast].
  exists l. split; [done|]. split; [by vm_compute|]. split; [exact Hl|]. apply Hlast.
  assert (forallb is_ok (append_all (S := @fstate fdb_ref) sample_reqs (∅, [false; true])).1 = true) as Hok
    by (vm_compute; reflexivity).
  apply list.Forall_forall. intros x Hx. rewrite forallb_forall in Hok. apply Hok. by apply list_elem_of_In.
Defined.

(** Of the three entries appended for a swap the log serves the last, whose
    predecessor is no longer there. *)
Example fdb_log_forgets :
  let r := append_all (S := @fstate fdb_ref) sample_reqs (∅, []) in
  map e_phase <$> (log_entries_for (S := @fstate fdb_ref) (mk_id "s1") r.2).1 = Ok ["settled"].
Proof. vm_compute. reflexivity. Qed.
