(* ===== verification/LegacyDynamo.v ===== *)
(** * The legacy server: DynamoDB backend

    [DynamoDbStore] of [crates/server/src/db/dynamodb.rs].  Its tables have keys
    of their own names, the audit log one of two attributes, so the service is
    described here with the key of each table ([DynamoDb], [DynamoDbLaws]); items
    and attributes are those of [Dynamo].

    The store sends the requests of a batch at the same time ([join_all],
    [try_join_all]).  The service takes them in some order, which the store does
    not choose: [Joining] gives it, and of the requests that [try_join_all] drops
    after an error those that were under way.  A request that is under way is
    given its effect before the method answers. *)
From S2P Require Import Prelude Decimal Amount External AssetCore Storage Redis Records LegacyProtocol LegacyStore LegacyReplace LegacyRedis Dynamo.

(** ** Futures joined *)

Class Joining (S : Type) := {
  arrival_order : nat -> S -> list nat;
  still_sent : list nat -> S -> list nat;
}.

Class JoiningLaws (S : Type) `{!Joining S} : Prop := {
  arrival_order_all : forall n st, arrival_order n st ≡ₚ seq 0 n;
  still_sent_some : forall l st, still_sent l st ⊆+ l;
}.

Section Join.
Context {S X E : Type} `{!Joining S}.

(** The futures [order] names, one after the other. *)
Fixpoint run_in {Y} (order : list nat) (fs : list (S -> Y * S)) (st : S) : list (nat * Y) * S :=
  match order with
  | [] => ([], st)
  | i :: rest =>
      match fs !! i with
      | Some f =>
          let '(y, st) := f st in
          let '(ys, st) := run_in rest fs st in ((i, y) :: ys, st)
      | None => run_in rest fs st
      end
  end.

(** The answers in the order of the futures. *)
Definition in_order {Y} (n : nat) (done : list (nat * Y)) : list Y :=
  omap (fun i => (list_to_map done : gmap nat Y) !! i) (seq 0 n).

Definition join_all (fs : list (S -> X * S)) (st : S) : list X * S :=
  let '(done, st) := run_in (arrival_order (length fs) st) fs st in (in_order (length fs) done, st).

Fixpoint try_in (order : list nat) (fs : list (S -> result E X * S)) (st : S) : result E (list (nat * X)) * S :=
  match order with
  | [] => (Ok [], st)
  | i :: rest =>
      match fs !! i with
      | Some f =>
          match f st with
          | (Err e, st) => let '(_, st) := run_in (still_sent rest st) fs st in (Err e, st)
          | (Ok x, st) => let '(r, st) := try_in rest fs st in (xs ← r; Ok ((i, x) :: xs), st)
          end
      | None => try_in rest fs st
      end
  end.

Definition try_join_all (fs : list (S -> result E X * S)) (st : S) : result E (list X) * S :=
  let '(r, st) := try_in (arrival_order (length fs) st) fs st in (done ← r; Ok (in_order (length fs) done), st).
End Join.

Module Ddb.

(** ** Tables by their keys *)

Record table := { key_names : list string; rows : gmap (list string) item }.
Notation tables := (gmap string table).

Definition key_of (names : list string) (it : item) : list string :=
  map (fun n => default EmptyString (it !! n ≫= as_s)) names.

(** [attribute_exists(p) AND a = v], [attribute_not_exists(p)]. *)
Inductive condition := Always | ExistsAnd (p a : string) (v : attr) | NotExists (p : string).

Definition holds_on (c : condition) (it : option item) : bool :=
  match c with
  | Always => true
  | ExistsAnd p a v =>
      match it with
      | Some i => bool_decide (is_Some (i !! p)) && bool_decide (i !! a = Some v)
      | None => false
      end
  | NotExists p => match it with Some i => bool_decide (i !! p = None) | None => true end
  end.

(** [Update] of the item with a key, and [Put]. *)
Inductive write :=
  | Update (name : string) (key : item) (sets : list (string * attr)) (c : condition)
  | Put (name : string) (it : item) (c : condition).

Definition write_table (w : write) : string := match w with Update name _ _ _ | Put name _ _ => name end.
Definition write_condition (w : write) : condition := match w with Update _ _ _ c | Put _ _ c => c end.
Definition write_key (w : write) : item := match w with Update _ key _ _ => key | Put _ it _ => it end.
Definition written (w : write) (old : option item) : item :=
  match w with Update _ key sets _ => set_attrs sets (default key old) | Put _ it _ => it end.

Definition key_in (t : table) (w : write) : list string := key_of (key_names t) (write_key w).
Definition put_row (t : table) (k : list string) (it : item) : table :=
  {| key_names := key_names t; rows := <[k := it]> (rows t) |}.

Definition write_target (T : tables) (w : write) : option (string * list string) :=
  t ← T !! write_table w; Some (write_table w, key_in t w).
Definition write_holds (T : tables) (w : write) : bool :=
  match T !! write_table w with
  | Some t => holds_on (write_condition w) (rows t !! key_in t w)
  | None => false
  end.
Definition write_apply (T : tables) (w : write) : tables :=
  alter (fun t => put_row t (key_in t w) (written w (rows t !! key_in t w))) (write_table w) T.

(** The documented effect of [TransactWriteItems], and its limit of 100. *)
Definition transact (ws : list write) (T : tables) : option tables :=
  if bool_decide (NoDup (write_target T <$> ws)) && (length ws <=? 100)%nat && forallb (write_holds T) ws
  then Some (foldl write_apply T ws) else None.

Definition put_rows (its : list item) (t : table) : table :=
  foldl (fun t it => put_row t (key_of (key_names t) it) it) t its.

(** A projection keeps the attributes it names. *)
Definition project (names : option (list string)) (it : item) : item :=
  match names with None => it | Some ns => filter (fun p => p.1 ∈ ns) it end.

Class DynamoDb := {
  db : Type;
  sdk_error : Type;
  show_sdk : sdk_error -> string;
  transact_write_items : list write -> db -> result sdk_error unit * db;
  batch_write_item : string -> list item -> db -> result sdk_error (list item) * db;
  batch_get_item : string -> list item -> option (list string) -> db -> result sdk_error (list item * list item) * db;
  get_item : string -> item -> db -> result sdk_error (option item) * db;
  put_item : string -> item -> db -> result sdk_error unit * db;
  describe_table : string -> db -> result sdk_error unit * db;
  create_table : string -> list (string * string) -> db -> result sdk_error unit * db;
}.

(** One call that reads or writes items, whatever it answers. *)
Inductive service_call `{DynamoDb} (st st' : db) : Prop :=
  | call_transact ws r : transact_write_items ws st = (r, st') -> service_call st st'
  | call_batch_write name its r : batch_write_item name its st = (r, st') -> service_call st st'
  | call_batch_get name keys names r : batch_get_item name keys names st = (r, st') -> service_call st st'
  | call_get name key r : get_item name key st = (r, st') -> service_call st st'
  | call_put name it r : put_item name it st = (r, st') -> service_call st st'.

(** The item of a table with a key. *)
Definition item_at (T : tables) (name : string) (key : item) : option item :=
  t ← T !! name; rows t !! key_of (key_names t) key.

(** The documented behaviour of the calls on the tables the service holds.  A
    batch write may leave items unprocessed and a batch read keys; a request
    that fails may have had its effect.  The store never asks for consistent
    reads, so a read gives an item as it was at some time, each item of a batch
    at a time of its own: [dpast] is what the tables held after each call, the
    present included. *)
Class DynamoDbLaws `{DynamoDb} := {
  dview : db -> tables;
  dpast : db -> list tables;
  past_present : forall st, dview st ∈ dpast st;
  past_grows : forall st st', service_call st st' -> dpast st' = dview st' :: dpast st;
  transact_ok : forall ws st st', transact_write_items ws st = (Ok tt, st') ->
    transact ws (dview st) = Some (dview st');
  transact_err : forall ws st e st', transact_write_items ws st = (Err e, st') ->
    dview st' = dview st \/ transact ws (dview st) = Some (dview st');
  batch_write_any : forall name its st r st', batch_write_item name its st = (r, st') ->
    exists done, done ⊆ its /\ dview st' = alter (put_rows done) name (dview st) /\
      (forall rest, r = Ok rest -> done ++ rest ≡ₚ its);
  batch_get_ok : forall name keys names st found rest st',
    batch_get_item name keys names st = (Ok (found, rest), st') ->
    dview st' = dview st /\ NoDup keys /\ (length keys <= 100)%nat /\ rest ⊆ keys /\
    exists seen : item -> option item,
      (forall k, exists D, D ∈ dpast st /\ seen k = item_at D name k) /\
      found ≡ₚ omap (fun k => project names <$> seen k) (filter (fun k => k ∉ rest) keys);
  batch_get_err : forall name keys names st e st', batch_get_item name keys names st = (Err e, st') ->
    dview st' = dview st;
  get_item_any : forall name key st r st', get_item name key st = (r, st') ->
    dview st' = dview st /\
    forall o, r = Ok o -> exists D, D ∈ dpast st /\ o = item_at D name key;
  put_item_ok : forall name it st st', put_item name it st = (Ok tt, st') ->
    is_Some (dview st !! name) /\ dview st' = alter (put_rows [it]) name (dview st);
  put_item_err : forall name it st e st', put_item name it st = (Err e, st') ->
    dview st' = dview st \/ dview st' = alter (put_rows [it]) name (dview st);
  describe_any : forall name st r st', describe_table name st = (r, st') ->
    dview st' = dview st /\ (r = Ok tt -> is_Some (dview st !! name));
  create_ok : forall name keys st st', create_table name keys st = (Ok tt, st') ->
    dview st !! name = None /\ dview st' = <[name := {| key_names := keys.*1; rows := ∅ |}]> (dview st);
  create_err : forall name keys st e st', create_table name keys st = (Err e, st') ->
    dview st' = dview st \/
    (dview st !! name = None /\ dview st' = <[name := {| key_names := keys.*1; rows := ∅ |}]> (dview st));
}.

(** ** The store *)

(** [DynamoDbStore::new]: the names, from the variable [DEPLOYMENT_ENV]. *)
Definition new_tables (deployment_env : option string) : DynamoTables :=
  let suffix := match deployment_env with Some e => "-" +:+ e | None => "-testnet" end in
  {| tokens_table := "WebcashTokens" +:+ suffix;
     mining_table := "WebcashMiningState" +:+ suffix;
     audit_table := "WebcashAuditLog" +:+ suffix |}.

Section Store.
Context `{DynamoDb} `{!Joining db} `{Chrono} `{Serde Db.ReplacementRecord} `{Serde Db.BurnRecord}
  `{Serde Legacy.MiningState} (T : DynamoTables).

(** The keys, all of type S. *)
Definition table_specs : list (string * string * option string) :=
  [(tokens_table T, "public_hash", None); (mining_table T, "id", None);
   (audit_table T, "log_id", Some "created_at")].

Fixpoint create_missing (specs : list (string * string * option string)) (st : db) : result string unit * db :=
  match specs with
  | [] => (Ok tt, st)
  | (name, pk, range) :: rest =>
      match describe_table name st with
      | (Ok _, st) => create_missing rest st
      | (Err _, st) =>
          match create_table name ((pk, "S") :: match range with Some rk => [(rk, "S")] | None => [] end) st with
          | (Ok _, st) => create_missing rest st
          | (Err e, st) => (Err (show_sdk e), st)
          end
      end
  end.
Definition ensure_tables (st : db) : result string unit * db := create_missing table_specs st.

Definition as_bool (a : attr) : option bool := match a with ABool b => Some b | _ => None end.
Definition as_n (a : attr) : option string := match a with AN n => Some n | _ => None end.

Definition read_time (it : item) (name : string) : option DateTime :=
  (it !! name ≫= as_s) ≫= parse_from_rfc3339.
Definition read_spent (it : item) : bool := default false (it !! "spent" ≫= as_bool).

Definition item_to_token (now : DateTime) (it : item) : option Db.TokenRecord :=
  hash ← it !! "public_hash" ≫= as_s;
  amount ← (it !! "amount_wats" ≫= as_n) ≫= parse_i64;
  Some {| Db.public_hash := hash;
          Db.amount_wats := amount;
          Db.spent := read_spent it;
          Db.created_at := default now (read_time it "created_at");
          Db.spent_at := read_time it "spent_at";
          Db.origin := match it !! "origin" ≫= as_s with Some "replaced" => Db.Replaced | _ => Db.Mined end |}.

(** The item an insert puts has no [spent_at]. *)
Definition insert_item (r : Db.TokenRecord) : item :=
  set_attrs [("public_hash", AS (Db.public_hash r));
             ("amount_wats", AN (show_i64 (Db.amount_wats r)));
             ("spent", ABool (Db.spent r));
             ("created_at", AS (to_rfc3339 (Db.created_at r)));
             ("origin", AS (show_token_origin (Db.origin r)))] ∅.

Definition output_item (r : Db.TokenRecord) : item :=
  match Db.spent_at r with
  | Some sa => <["spent_at" := AS (to_rfc3339 sa)]> (insert_item r)
  | None => insert_item r
  end.

Definition write_chunk (chunk : list Db.TokenRecord) (st : db) : result string unit * db :=
  let '(r, st) := batch_write_item (tokens_table T) (map insert_item chunk) st in
  (_ ← map_err (fun e => "batch insert failed: " +:+ show_sdk e) r; Ok tt, st).

Definition ddb_insert_tokens (records : list Db.TokenRecord) (st : db) : result string unit * db :=
  match records with
  | [] => (Ok tt, st)
  | _ => let '(r, st) := try_join_all (map write_chunk (chunks 25 records)) st in (_ ← r; Ok tt, st)
  end.

Definition hash_key (h : string) : item := {[ "public_hash" := AS h ]}.

Definition read_chunk (chunk : list string) (st : db) : result string (list item) * db :=
  let '(r, st) := batch_get_item (tokens_table T) (map hash_key chunk) None st in
  (res ← map_err (fun e => "batch get failed: " +:+ show_sdk e) r; Ok res.1, st).

(** The later item of a hash stands. *)
Definition index_by {V} (f : item -> option V) (its : list item) : gmap string V :=
  foldl (fun m it =>
    match it !! "public_hash" ≫= as_s, f it with Some h, Some v => <[h := v]> m | _, _ => m end) ∅ its.

Definition ddb_get_tokens (now : DateTime) (hashes : list string) (st : db)
  : result string (list (option Db.TokenRecord)) * db :=
  match hashes with
  | [] => (Ok [], st)
  | _ =>
      let '(r, st) := try_join_all (map read_chunk (chunks 100 hashes)) st in
      (all_items ← r;
       let item_map := index_by Some (concat all_items) in
       Ok (map (fun h => item_map !! h ≫= item_to_token now) hashes), st)
  end.

Definition ddb_check_tokens (hashes : list string) (st : db) : result string (list (string * option bool)) * db :=
  match hashes with
  | [] => (Ok [], st)
  | _ =>
      let '(r, st) := batch_get_item (tokens_table T) (map hash_key hashes) (Some ["public_hash"; "spent"]) st in
      (res ← map_err (fun e => "batch check failed: " +:+ show_sdk e) r;
       let item_map := index_by (fun it => Some (read_spent it)) res.1 in
       Ok (map (fun h => (h, item_map !! h)) hashes), st)
  end.

(** [SET spent = :true_val, spent_at = :now] on condition
    [attribute_exists(public_hash) AND spent = :false_val]. *)
Definition spend_write (now h : string) : write :=
  Update (tokens_table T) (hash_key h) [("spent", ABool true); ("spent_at", AS now)]
    (ExistsAnd "public_hash" "spent" (ABool false)).

Definition output_write (r : Db.TokenRecord) : write :=
  Put (tokens_table T) (output_item r) (NotExists "public_hash").

Definition audit_write (id created action data : string) : write :=
  Put (audit_table T)
    (set_attrs [("log_id", AS id); ("created_at", AS created); ("action", AS action); ("data", AS data)] ∅) Always.

Definition replace_writes (now : DateTime) (op : Db.ReplaceOp) : list write :=
  map (spend_write (to_rfc3339 now)) (Db.ro_inputs op) ++ map output_write (Db.ro_outputs op)
  ++ [audit_write (Db.rr_id (Db.ro_record op)) (to_rfc3339 (Db.rr_created_at (Db.ro_record op))) "replace"
        (to_json (Db.ro_record op))].

Definition exec_replace (now : DateTime) (op : Db.ReplaceOp) (st : db) : result string unit * db :=
  let '(r, st) := transact_write_items (replace_writes now op) st in
  (map_err (fun e => "replace transaction failed: " +:+ show_sdk e) r, st).

Definition replace_result (r : result string unit) : ReplaceResult :=
  match r with Ok _ => ReplaceOk | Err e => ReplaceFailed e end.

Definition ddb_batch_replace (now : DateTime) (ops : list Db.ReplaceOp) (st : db) : list ReplaceResult * db :=
  join_all (map (fun op st => let '(r, st) := exec_replace now op st in (replace_result r, st)) ops) st.

Definition burn_writes (now : DateTime) (hash : string) (record : Db.BurnRecord) : list write :=
  [spend_write (to_rfc3339 now) hash;
   audit_write (Db.br_id record) (to_rfc3339 (Db.br_burned_at record)) "burn" (to_json record)].

Definition exec_burn (now : DateTime) (hash : string) (record : Db.BurnRecord) (st : db) : result string unit * db :=
  let '(r, st) := transact_write_items (burn_writes now hash record) st in
  (map_err (fun e => "burn transaction failed: " +:+ show_sdk e) r, st).

Definition ddb_batch_burn (now : DateTime) (ops : list (string * Db.BurnRecord)) (st : db) : result string unit * db :=
  let '(r, st) := try_join_all (map (fun '(hash, record) => exec_burn now hash record) ops) st in (_ ← r; Ok tt, st).

Definition current_key : item := {[ "id" := AS "current" ]}.

Definition ddb_get_mining_state (st : db) : result string (option Legacy.MiningState) * db :=
  let '(r, st) := get_item (mining_table T) current_key st in
  (o ← map_err show_sdk r;
   match o with
   | None => Ok None
   | Some it =>
       data ← ok_or (it !! "data" ≫= as_s) "missing data field";
       s ← from_json data; Ok (Some s)
   end, st).

Definition ddb_update_mining_state (state : Legacy.MiningState) (st : db) : result string unit * db :=
  let '(r, st) := put_item (mining_table T) (<["data" := AS (to_json state)]> current_key) st in
  (map_err show_sdk r, st).

Definition DdbStore : Db.LedgerStore db := {|
  Db.insert_tokens := ddb_insert_tokens;
  Db.get_tokens := ddb_get_tokens;
  Db.check_tokens := ddb_check_tokens;
  Db.batch_replace := ddb_batch_replace;
  Db.batch_burn := ddb_batch_burn;
  Db.get_mining_state := ddb_get_mining_state;
  Db.update_mining_state := ddb_update_mining_state;
|}.
End Store.
End Ddb.
