(* ===== verification/LegacyDynamoFacts.v ===== *)
(** * The legacy server over DynamoDB: what the store keeps

    The token table of [Ddb] as an abstract ledger ([Ledger]) by token hash:
    every request of a batch that takes effect is a step of the ledger, in the
    order in which the service takes the requests.  An insert is not a step of
    the ledger: it overwrites.  So a hash is spent at most once as long as it is
    not inserted again.  A read gives what the table held at some time, or
    misses. *)
From S2P Require Import Prelude Decimal Amount External AssetCore Storage Redis Records Conservation Ledger LegacyProtocol LegacyStore LegacyReplace LegacyMiner LegacyMinerFacts LegacyRedis LegacyFleet Dynamo DynamoFacts LegacyDynamo.
Import Ddb.

(** ** Joined futures *)

Lemma filter_id {X} (P : X -> Prop) `{forall x, Decision (P x)} (l : list X) : Forall P l -> filter P l = l.
Proof. induction 1 as [|x l Hx _ IH]; [done|]. by rewrite filter_cons_True, IH. Qed.

Section Joined.
Context {S L : Type} `{JoiningLaws S} (holds : S -> L -> Prop).

(** The answers of futures that moved the state one after the other. *)
Inductive moved {Y} (step : nat -> Y -> L -> L -> Prop) : list (nat * Y) -> L -> L -> Prop :=
  | moved_nil l : moved step [] l l
  | moved_cons i y done l l1 l2 : step i y l l1 -> moved step done l1 l2 -> moved step ((i, y) :: done) l l2.

Lemma moved_app {Y} (step : nat -> Y -> L -> L -> Prop) a b l l1 l2 :
  moved step a l l1 -> moved step b l1 l2 -> moved step (a ++ b) l l2.
Proof. induction 1; [done|]. intros Hb. econstructor; eauto. Qed.

Definition moves {Y} (step : nat -> Y -> L -> L -> Prop) (fs : list (S -> Y * S)) : Prop :=
  forall i f st l y st', fs !! i = Some f -> holds st l -> f st = (y, st') -> exists l', holds st' l' /\ step i y l l'.

Lemma run_in_moves {Y} step (fs : list (S -> Y * S)) order st l done st' :
  moves step fs -> holds st l -> run_in order fs st = (done, st') ->
  exists l', holds st' l' /\ moved step done l l' /\ done.*1 = filter (fun i => (i < length fs)%nat) order.
Proof.
  intros Hf. revert st l done. induction order as [|i order IH]; intros st l done Hl; cbn [run_in].
  { intros [= <- <-]. exists l. split_and!; [done|constructor|done]. }
  destruct (fs !! i) as [f|] eqn:Ei.
  - destruct (f st) as [y st1] eqn:Ef. destruct (run_in order fs st1) as [ys st2] eqn:Er. intros [= <- <-].
    destruct (Hf _ _ _ _ _ _ Ei Hl Ef) as (l1 & H1 & Hs). destruct (IH _ _ _ H1 Er) as (l2 & H2 & Hm & Hd).
    exists l2. split_and!; [done|by econstructor|]. rewrite fmap_cons, Hd, filter_cons_True; [done|]. by eapply lookup_lt_Some.
  - intros Er. destruct (IH _ _ _ Hl Er) as (l2 & H2 & Hm & Hd). exists l2. split_and!; [done..|].
    rewrite filter_cons_False; [done|]. apply lookup_ge_None in Ei. lia.
Qed.

Lemma filter_in_range n l : l ≡ₚ seq 0 n -> filter (fun i => (i < n)%nat) l ≡ₚ seq 0 n.
Proof.
  intros ->. assert (filter (fun i => (i < n)%nat) (seq 0 n) = seq 0 n) as ->; [|done].
  apply filter_id, Forall_forall. intros i Hi%elem_of_seq. lia.
Qed.

(** The answers by index are those of the futures. *)
Lemma in_order_all {Y} n (done : list (nat * Y)) :
  done.*1 ≡ₚ seq 0 n -> length (in_order n done) = n /\ done ≡ₚ zip (seq 0 n) (in_order n done).
Proof.
  intros Hp. assert (NoDup done.*1) as Hnd by (rewrite Hp; apply NoDup_seq).
  assert (forall k, k ⊆ done.*1 -> NoDup k ->
    zip k (omap (fun i => (list_to_map done : gmap nat Y) !! i) k) =
      omap (fun i => y ← (list_to_map done : gmap nat Y) !! i; Some (i, y)) k /\
    length (omap (fun i => (list_to_map done : gmap nat Y) !! i) k) = length k) as Hz.
  { induction k as [|i k IH]; intros Hk Hn; [done|]. apply NoDup_cons in Hn as [_ Hn].
    destruct (IH ltac:(set_solver) Hn) as [E1 E2]. cbn.
    assert (i ∈ done.*1) as ([j y] & -> & Hy)%list_elem_of_fmap by set_solver.
    cbn. rewrite (elem_of_list_to_map_1 _ _ _ Hnd Hy). cbn. by rewrite E1, E2. }
  destruct (Hz (seq 0 n)) as [E1 E2]; [rewrite <- Hp; done|apply NoDup_seq|].
  unfold in_order. split; [by rewrite E2, length_seq|]. rewrite E1, <- Hp.
  clear Hp Hz E1 E2. assert (omap (fun i => y ← (list_to_map done : gmap nat Y) !! i; Some (i, y)) done.*1 = done) as ->; [|done].
  assert (forall k, k ⊆ done -> omap (fun i => y ← (list_to_map done : gmap nat Y) !! i; Some (i, y)) k.*1 = k) as Hk.
  { induction k as [|[i y] k IH]; intros Hk; [done|]. cbn.
    rewrite (elem_of_list_to_map_1 _ i y Hnd) by set_solver. cbn. rewrite IH by set_solver. done. }
  by apply Hk.
Qed.

Lemma join_all_moves {Y} step (fs : list (S -> Y * S)) st l ys st' :
  moves step fs -> holds st l -> join_all fs st = (ys, st') ->
  length ys = length fs /\
  exists done l', holds st' l' /\ moved step done l l' /\ done ≡ₚ zip (seq 0 (length fs)) ys.
Proof.
  intros Hf Hl. unfold join_all. destruct (run_in _ fs st) as [done st1] eqn:Er. intros [= <- <-].
  destruct (run_in_moves _ _ _ _ _ _ _ Hf Hl Er) as (l' & Hl' & Hm & Hd).
  destruct (in_order_all (length fs) done) as [Hn Hp].
  { rewrite Hd. apply filter_in_range, arrival_order_all. }
  split; [done|]. eauto.
Qed.

Definition succeeded {E X} (xs : list (nat * X)) : list (nat * result E X) := (fun p => (p.1, Ok p.2)) <$> xs.

Lemma try_in_moves {E X} step (fs : list (S -> result E X * S)) order st l r st' :
  moves step fs -> holds st l -> try_in order fs st = (r, st') ->
  exists done l', holds st' l' /\ moved step done l l' /\ done.*1 ⊆+ order /\
    match r with
    | Ok xs => done = succeeded xs /\ xs.*1 = filter (fun i => (i < length fs)%nat) order
    | Err e => exists i, (i, Err e) ∈ done
    end.
Proof.
  intros Hf. revert st l r. induction order as [|i order IH]; intros st l r Hl; cbn [try_in].
  { intros [= <- <-]. exists [], l. split_and!; [done|constructor|done..]. }
  destruct (fs !! i) as [f|] eqn:Ei.
  - destruct (f st) as [y st1] eqn:Ef. destruct (Hf _ _ _ _ _ _ Ei Hl Ef) as (l1 & H1 & Hs).
    destruct y as [x|e].
    + destruct (try_in order fs st1) as [r1 st2] eqn:Er. intros [= <- <-].
      destruct (IH _ _ _ H1 Er) as (done & l2 & H2 & Hm & Hd & Hr).
      exists ((i, Ok x) :: done), l2. split_and!; [done|by econstructor|by apply submseteq_skip|].
      destruct r1 as [xs|e]; [|by destruct Hr as [j Hj]; exists j; apply elem_of_cons; right].
      destruct Hr as [-> Hx]. split; [done|]. rewrite fmap_cons, Hx, filter_cons_True; [done|]. by eapply lookup_lt_Some.
    + destruct (run_in (still_sent order st1) fs st1) as [more st2] eqn:Er. intros [= <- <-].
      destruct (run_in_moves _ _ _ _ _ _ _ Hf H1 Er) as (l2 & H2 & Hm & Hd).
      exists ((i, Err e) :: more), l2. split_and!; [done|by econstructor| |exists i; apply elem_of_cons; by left].
      rewrite fmap_cons, Hd. apply submseteq_skip. etrans; [apply sublist_submseteq, sublist_filter|apply still_sent_some].
  - intros Er. destruct (IH _ _ _ Hl Er) as (done & l2 & H2 & Hm & Hd & Hr). exists done, l2.
    split_and!; [done..|by apply submseteq_cons|]. destruct r as [xs|e]; [|done]. destruct Hr as [-> Hx].
    split; [done|]. rewrite filter_cons_False; [done|]. apply lookup_ge_None in Ei. lia.
Qed.

Lemma try_join_all_moves {E X} step (fs : list (S -> result E X * S)) st l r st' :
  moves step fs -> holds st l -> try_join_all fs st = (r, st') ->
  exists done l', holds st' l' /\ moved step done l l' /\ done.*1 ⊆+ seq 0 (length fs) /\
    match r with
    | Ok xs => length xs = length fs /\ done ≡ₚ succeeded (zip (seq 0 (length fs)) xs)
    | Err e => exists i, (i, Err e) ∈ done
    end.
Proof.
  intros Hf Hl. unfold try_join_all. destruct (try_in _ fs st) as [r1 st1] eqn:Er. intros [= <- <-].
  destruct (try_in_moves _ _ _ _ _ _ _ Hf Hl Er) as (done & l' & Hl' & Hm & Hd & Hr).
  exists done, l'. split_and!; [done..|by rewrite arrival_order_all in Hd|].
  destruct r1 as [xs|e]; [|done]. destruct Hr as [-> Hx]. cbn.
  destruct (in_order_all (length fs) xs) as [Hn Hp]; [rewrite Hx; apply filter_in_range, arrival_order_all|].
  split; [done|]. unfold succeeded. by rewrite <- Hp.
Qed.
End Joined.

(** ** Lists by index *)

Lemma omap_lookup_seq {X Y Z} (f : X -> Y -> Z) (xs : list X) (ys : list Y) :
  length ys = length xs ->
  omap (fun p => x ← xs !! p.1; Some (f x p.2)) (zip (seq 0 (length xs)) ys) = zip_with f xs ys.
Proof.
  assert (forall pre, length ys = length xs ->
    omap (fun p => x ← (pre ++ xs) !! p.1; Some (f x p.2)) (zip (seq (length pre) (length xs)) ys) = zip_with f xs ys) as Hg;
    [|intros Hl; exact (Hg [] Hl)].
  revert ys. induction xs as [|x xs IH]; intros [|y ys] pre Hl; simplify_eq/=; [done|].
  rewrite list_lookup_middle by done. cbn. f_equal. specialize (IH ys (pre ++ [x]) Hl).
  rewrite length_app, <- app_assoc in IH. cbn in IH. by rewrite Nat.add_comm in IH.
Qed.

Lemma omap_lookup_all {X} (xs : list X) : omap (fun i => xs !! i) (seq 0 (length xs)) = xs.
Proof.
  assert (forall pre, omap (fun i => (pre ++ xs) !! i) (seq (length pre) (length xs)) = xs) as Hg; [|exact (Hg [])].
  induction xs as [|x xs IH]; intros pre; [done|]. cbn. rewrite list_lookup_middle by done. cbn. f_equal.
  specialize (IH (pre ++ [x])). rewrite length_app, <- app_assoc in IH. cbn in IH. by rewrite Nat.add_comm in IH.
Qed.

Lemma omap_submseteq_lookup {X} (xs : list X) is_ : is_ ⊆+ seq 0 (length xs) -> omap (fun i => xs !! i) is_ ⊆+ xs.
Proof.
  intros (k & Hk)%submseteq_Permutation.
  assert (omap (fun i => xs !! i) is_ ++ omap (fun i => xs !! i) k ≡ₚ xs) as <-; [|by apply submseteq_inserts_r].
  by rewrite <- omap_app, <- Hk, omap_lookup_all.
Qed.

(** ** Items and fields *)

Section Rows.
Context `{Chrono}.

(** An item of the token table and the fields it stands for. *)
Record token_row (h : string) (f : fields) (it : item) : Prop := {
  row_hash : it !! "public_hash" = Some (AS h);
  row_typed : forall name a, it !! name = Some a -> attr_typed name a;
  row_spent : exists b, it !! "spent" = Some (ABool b);
  row_fields : forall name, f !! name = if decide (name = "public_hash") then None else it !! name ≫= attr_str;
}.

Lemma row_field h f it name : token_row h f it -> name <> "public_hash" -> f !! name = it !! name ≫= attr_str.
Proof. intros [_ _ _ E] Hne. by rewrite E, decide_False. Qed.

Lemma row_text h f it name : token_row h f it -> name <> "public_hash" -> name <> "amount_wats" -> name <> "spent" ->
  it !! name ≫= as_s = f !! name.
Proof.
  intros Hr H1 H2 H3. rewrite (row_field h f it) by done. destruct (it !! name) as [a|] eqn:Ea; [|done].
  pose proof (row_typed _ _ _ Hr _ _ Ea) as Ht. unfold attr_typed in Ht.
  destruct (String.eqb_spec name "amount_wats"); [done|]. destruct (String.eqb_spec name "spent"); [done|].
  by destruct Ht as [s ->].
Qed.

Lemma row_flag h f it : token_row h f it -> read_spent it = spent_field f /\ spent_hash f = read_spent it.
Proof.
  intros Hr. assert (read_spent it = spent_field f) as E.
  { unfold read_spent, spent_field. rewrite (row_field h f it) by done.
    destruct (row_spent _ _ _ Hr) as [b ->]. by destruct b. }
  split; [done|]. by rewrite spent_field_hash, E.
Qed.

(** The store reads a row as the Redis store reads its fields. *)
Lemma token_row_read now h f it : token_row h f it -> item_to_token now it = hash_to_token now h f.
Proof.
  intros Hr. unfold item_to_token, hash_to_token. rewrite (row_hash _ _ _ Hr). cbn [mbind option_bind as_s].
  assert ((it !! "amount_wats" ≫= as_n) ≫= parse_i64 = amount_field_of f) as ->.
  { unfold amount_field_of. rewrite (row_field h f it) by done.
    destruct (it !! "amount_wats") as [a|] eqn:Ea; [|done].
    destruct (row_typed _ _ _ Hr _ _ Ea) as [n ->]. done. }
  destruct (amount_field_of f) as [amount|]; [|done]. cbn. unfold created_field, time_field, read_time.
  destruct (row_flag _ _ _ Hr) as [-> _]. rewrite !(row_text h f it) by done. done.
Qed.

Lemma spend_row now h f it :
  token_row h f it -> token_row h (mark_hash now f) (set_attrs [("spent", ABool true); ("spent_at", AS now)] it).
Proof.
  intros Hr. unfold set_attrs, mark_hash. cbn [foldl fst snd]. split.
  - rewrite !lookup_insert_ne by done. apply Hr.
  - intros name a. destruct (decide (name = "spent_at")) as [->|H1]; [rewrite lookup_insert_eq; intros [= <-]; cbn; eauto|].
    rewrite lookup_insert_ne by done.
    destruct (decide (name = "spent")) as [->|H2]; [rewrite lookup_insert_eq; intros [= <-]; cbn; eauto|].
    rewrite lookup_insert_ne by done. apply Hr.
  - rewrite lookup_insert_ne, lookup_insert_eq by done. eauto.
  - intros name. destruct (decide (name = "spent_at")) as [->|H1]; [by rewrite !lookup_insert_eq|].
    rewrite !(lookup_insert_ne _ "spent_at") by done.
    destruct (decide (name = "spent")) as [->|H2]; [by rewrite !lookup_insert_eq|].
    rewrite !(lookup_insert_ne _ "spent") by done. apply Hr.
Qed.

Definition output_fields (r : Db.TokenRecord) : fields := webcash_to_fields (webcash_of r).

(** What an insert stores: the record without the time it was spent. *)
Definition insert_fields (r : Db.TokenRecord) : fields := delete "spent_at" (output_fields r).

Lemma insert_item_row r : token_row (Db.public_hash r) (insert_fields r) (insert_item r).
Proof.
  unfold insert_item, insert_fields, output_fields, webcash_to_fields, set_attrs. cbn [foldl fst snd].
  rewrite show_origin_of. cbn [webcash_of w_spent w_spent_at w_created_at w_amount_wats].
  split.
  - by simplify_map_eq.
  - intros name a. unfold attr_typed. rewrite !lookup_insert_Some, lookup_empty.
    intros [[<- <-]|[? [[<- <-]|[? [[<- <-]|[? [[<- <-]|[? [[<- <-]|[? [=]]]]]]]]]]]; cbn; eauto.
  - eexists. by simplify_map_eq.
  - intros name. destruct (decide (name = "spent_at")) as [->|H1].
    { rewrite lookup_delete_eq. by simplify_map_eq. }
    rewrite lookup_delete_ne by done. destruct (Db.spent_at r) as [sa|]; cbn [insert_opt fmap option_fmap option_map];
    (destruct (decide (name = "origin")) as [->|H2]; [by simplify_map_eq|];
     rewrite !(lookup_insert_ne _ "origin") by done; rewrite ?(lookup_insert_ne _ "spent_at") by done;
     destruct (decide (name = "created_at")) as [->|H3]; [by simplify_map_eq|];
     rewrite !(lookup_insert_ne _ "created_at") by done;
     destruct (decide (name = "spent")) as [->|H4]; [simplify_map_eq; by destruct (Db.spent r)|];
     rewrite !(lookup_insert_ne _ "spent") by done;
     destruct (decide (name = "amount_wats")) as [->|H5]; [by simplify_map_eq|];
     rewrite !(lookup_insert_ne _ "amount_wats") by done; rewrite lookup_empty;
     case_decide; [done|]; by rewrite lookup_insert_ne, lookup_empty).
Qed.

Lemma output_item_row r : token_row (Db.public_hash r) (output_fields r) (output_item r).
Proof.
  pose proof (insert_item_row r) as Hr. unfold output_item.
  assert (forall name, name <> "spent_at" -> insert_fields r !! name = output_fields r !! name) as Hne.
  { intros name Hn. unfold insert_fields. by rewrite lookup_delete_ne. }
  assert (output_fields r !! "spent_at" = to_rfc3339 <$> Db.spent_at r) as Hs.
  { unfold output_fields, webcash_to_fields. cbn [webcash_of w_spent_at]. destruct (Db.spent_at r); cbn; by simplify_map_eq. }
  destruct (Db.spent_at r) as [sa|].
  - split.
    + rewrite lookup_insert_ne by done. apply Hr.
    + intros name a. destruct (decide (name = "spent_at")) as [->|H1]; [rewrite lookup_insert_eq; intros [= <-]; cbn; eauto|].
      rewrite lookup_insert_ne by done. apply Hr.
    + rewrite lookup_insert_ne by done. apply Hr.
    + intros name. destruct (decide (name = "spent_at")) as [->|H1]; [by rewrite lookup_insert_eq, Hs|].
      rewrite lookup_insert_ne by done. rewrite <- Hne by done. apply Hr.
  - split; [apply Hr..|]. intros name. destruct (decide (name = "spent_at")) as [->|H1].
    + rewrite Hs. cbn. pose proof (row_fields _ _ _ Hr "spent_at") as E. unfold insert_fields in E.
      rewrite lookup_delete_eq in E. exact E.
    + rewrite <- Hne by done. apply Hr.
Qed.
End Rows.

(** ** The token table as a ledger *)

Section Table.
Context `{DynamoDbLaws} `{!Joining db} {JL : JoiningLaws db} `{Chrono} `{Serde Db.ReplacementRecord} `{Serde Db.BurnRecord}
  `{Serde Legacy.MiningState} (T : DynamoTables)
  (Hat : audit_table T <> tokens_table T) (Hmt : mining_table T <> tokens_table T).
Implicit Types (D : tables) (l : ledger) (op : Db.ReplaceOp).

Definition table_holds (t : table) l : Prop := key_names t = ["public_hash"] /\
  (forall h, match l !! h with
             | Some f => exists it, rows t !! [h] = Some it /\ token_row h f it
             | None => rows t !! [h] = None
             end) /\
  forall k it, rows t !! k = Some it -> exists h, k = [h].

Definition ddb_models D l : Prop := exists t, D !! tokens_table T = Some t /\ table_holds t l.

(** What the tables were: before its creation the token table held nothing. *)
Definition no_tokens : table := {| key_names := ["public_hash"]; rows := ∅ |}.
Definition ddb_was D l : Prop := table_holds (default no_tokens (D !! tokens_table T)) l.

Lemma ddb_models_was D l : ddb_models D l -> ddb_was D l.
Proof. intros (t & Et & Hm). unfold ddb_was. by rewrite Et. Qed.

(** The token table stands for [l], and every table before it for a ledger that
    has become [l] in the way [R] says. *)
Definition ddb_held (R : ledger -> ledger -> Prop) : db -> ledger -> Prop := lived dview dpast ddb_models ddb_was R.

(** A ledger the token table has stood for. *)
Definition recorded (st : db) (l0 : ledger) : Prop := exists D, D ∈ dpast st /\ ddb_was D l0.

Lemma key_of_hash names (it : item) h :
  names = ["public_hash"] -> it !! "public_hash" = Some (AS h) -> key_of names it = [h].
Proof. intros -> E. unfold key_of. cbn. by rewrite E. Qed.

Lemma holds_row t l h it f :
  table_holds t l -> token_row h f it -> table_holds (put_row t [h] it) (<[h := f]> l).
Proof.
  intros (Hk & Hr & Hd) Ht. split_and!; [done| |].
  - intros j. cbn [rows put_row]. destruct (decide (j = h)) as [->|Hne].
    + rewrite !lookup_insert_eq. eauto.
    + rewrite !lookup_insert_ne by congruence. apply Hr.
  - intros k i. cbn [rows put_row]. destruct (decide (k = [h])) as [->|Hne]; [eauto|].
    rewrite lookup_insert_ne by done. apply Hd.
Qed.

(** A write that carries out a step of the ledger. *)
Definition carries (w : write) (step : ledger -> result refusal ledger) : Prop :=
  forall D l, ddb_models D l -> write_holds D w = true ->
    exists l', step l = Ok l' /\ ddb_models (write_apply D w) l'.

Lemma ddb_spend_carries now h : carries (spend_write T now h) (consume now h).
Proof.
  intros D l (t & Et & Hm) Hh. unfold write_holds, write_apply in *. cbn [write_table write_condition written spend_write] in *.
  rewrite Et in Hh.
  assert (key_in t (spend_write T now h) = [h]) as Ek by (apply key_of_hash; [apply Hm|done]).
  rewrite Ek in Hh. pose proof (proj1 (proj2 Hm) h) as Hr. unfold consume.
  destruct (rows t !! [h]) as [it|] eqn:Ei; [|done]. apply andb_true_iff in Hh as [_ Hs%bool_decide_eq_true_1].
  destruct (l !! h) as [f|]; [|done]. destruct Hr as (it' & [= <-] & Hr).
  assert (spent_hash f = false) as -> by (rewrite (proj2 (row_flag _ _ _ Hr)); unfold read_spent; by rewrite Hs).
  eexists. split; [done|]. exists (put_row t [h] (set_attrs [("spent", ABool true); ("spent_at", AS now)] it)). split.
  - rewrite lookup_alter_eq, Et. cbn [fmap option_fmap option_map]. by rewrite Ek, Ei.
  - apply holds_row; [done|]. by apply spend_row.
Qed.

Lemma ddb_output_carries r : carries (output_write T r) (create (Db.public_hash r, output_fields r)).
Proof.
  intros D l (t & Et & Hm) Hh. unfold write_holds, write_apply in *. cbn [write_table write_condition written output_write] in *.
  rewrite Et in Hh. pose proof (output_item_row r) as Ho.
  assert (key_in t (output_write T r) = [Db.public_hash r]) as Ek by (apply key_of_hash; [apply Hm|apply Ho]).
  rewrite Ek in Hh. pose proof (proj1 (proj2 Hm) (Db.public_hash r)) as Hr. unfold create. cbn [fst snd].
  destruct (rows t !! _) as [it|] eqn:Ei.
  { destruct (l !! _); [|done]. destruct Hr as (it' & [= <-] & [Eh _ _ _]).
    cbn in Hh. by rewrite Eh, bool_decide_false in Hh. }
  destruct (l !! _); [by destruct Hr as (? & ? & _)|]. eexists. split; [done|].
  exists (put_row t [Db.public_hash r] (output_item r)). split; [|by apply holds_row].
  rewrite lookup_alter_eq, Et. cbn [fmap option_fmap option_map]. by rewrite Ek.
Qed.

Lemma ddb_audit_models D l id c a d : ddb_models D l -> ddb_models (write_apply D (audit_write T id c a d)) l.
Proof.
  intros (t & Et & Hm). exists t. split; [|done]. unfold write_apply. cbn [write_table audit_write]. by rewrite lookup_alter_ne.
Qed.

(** *** Transactions, one write after the other *)

Fixpoint write_run (ws : list write) D : option tables :=
  match ws with
  | [] => Some D
  | w :: rest => if write_holds D w then write_run rest (write_apply D w) else None
  end.

Lemma write_target_some D w k : write_holds D w = true -> write_target D w = k ->
  exists t, D !! write_table w = Some t /\ k = Some (write_table w, key_in t w).
Proof. unfold write_holds, write_target. destruct (D !! write_table w) as [t|]; [|done]. intros _ <-. by exists t. Qed.

Lemma apply_keeps_target D w u : write_target (write_apply D w) u = write_target D u.
Proof.
  unfold write_target, write_apply. destruct (decide (write_table u = write_table w)) as [E|Hne].
  - rewrite <- E, lookup_alter_eq. by destruct (D !! write_table u).
  - by rewrite lookup_alter_ne.
Qed.

Lemma holds_frame D w u : write_holds D u = true ->
  write_target D w <> write_target D u -> write_holds (write_apply D w) u = true.
Proof.
  intros Hu Hne. unfold write_holds, write_apply, write_target in *.
  destruct (decide (write_table u = write_table w)) as [E|Ht]; [|by rewrite lookup_alter_ne].
  rewrite <- E in Hne |- *. rewrite lookup_alter_eq. destruct (D !! write_table u) as [t|]; [|done].
  cbn [fmap option_fmap option_map mbind option_bind] in *. unfold key_in in *. cbn [key_names put_row rows].
  rewrite lookup_insert_ne; [done|]. intros Ek. apply Hne. by rewrite Ek.
Qed.

Lemma ddb_transact_run ws D D' : transact ws D = Some D' -> write_run ws D = Some D'.
Proof.
  unfold transact. destruct (_ && _) eqn:E; [|done]. apply andb_true_iff in E as [E Hh].
  apply andb_true_iff in E as [Hnd%bool_decide_eq_true_1 _]. intros [= <-].
  revert D Hnd Hh. induction ws as [|w ws IH]; intros D Hnd Hh; [done|].
  rewrite fmap_cons in Hnd. apply NoDup_cons in Hnd as [Hni Hnd]. cbn [forallb] in Hh.
  apply andb_true_iff in Hh as [Hw Hh]. cbn [write_run foldl]. rewrite Hw. apply IH.
  - erewrite list_fmap_ext; [exact Hnd|]. intros i u _. apply apply_keeps_target.
  - rewrite forallb_forall in *. intros u Hu. apply holds_frame; [by apply Hh|].
    intros Et. apply Hni. rewrite Et. apply list_elem_of_fmap. exists u. split; [done|]. by apply list_elem_of_In.
Qed.

Lemma write_run_app a b D : write_run (a ++ b) D = write_run a D ≫= write_run b.
Proof. revert D. induction a as [|w a IH]; intros D; cbn; [done|]. destruct (write_holds D w); [apply IH|done]. Qed.

(** Writes that carry out steps run those steps. *)
Lemma writes_carry {X} (f : X -> write) (step : X -> ledger -> result refusal ledger)
    (all : list X -> ledger -> result refusal ledger) xs D D' l :
  (forall x, carries (f x) (step x)) -> (forall l, all [] l = Ok l) ->
  (forall x xs l, all (x :: xs) l = (l1 ← step x l; all xs l1)) ->
  ddb_models D l -> write_run (map f xs) D = Some D' -> exists l', all xs l = Ok l' /\ ddb_models D' l'.
Proof.
  intros Hc Hnil Hcons. revert D l. induction xs as [|x xs IH]; intros D l Hm; cbn [map write_run].
  { intros [= <-]. by exists l. }
  destruct (write_holds D (f x)) eqn:Eh; [|done]. intros Er.
  destruct (Hc x D l Hm Eh) as (l1 & E1 & Hm1). destruct (IH _ _ Hm1 Er) as (l2 & E2 & Hm2).
  exists l2. split; [|done]. by rewrite Hcons, E1.
Qed.

(** A replace on the ledger, by hash. *)
Definition output_entries op : list (string * fields) :=
  (fun r => (Db.public_hash r, output_fields r)) <$> Db.ro_outputs op.
Definition token_step (now : DateTime) op (l : ledger) : result refusal ledger :=
  replace_ledger (to_rfc3339 now) (Db.ro_inputs op) (output_entries op) l.

Lemma ddb_replace_transacts now op D D' l :
  ddb_models D l -> transact (replace_writes T now op) D = Some D' ->
  exists l', token_step now op l = Ok l' /\ ddb_models D' l'.
Proof.
  intros Hm Et%ddb_transact_run. unfold replace_writes in Et. rewrite write_run_app in Et.
  apply bind_Some in Et as (D1 & E1 & Et). rewrite write_run_app in Et. apply bind_Some in Et as (D2 & E2 & E3).
  destruct (writes_carry _ (consume (to_rfc3339 now)) (consume_all (to_rfc3339 now)) _ _ _ _
    (ddb_spend_carries _) ltac:(done) ltac:(done) Hm E1) as (l1 & Hc1 & Hm1).
  destruct (writes_carry _ (fun r => create (Db.public_hash r, output_fields r))
    (fun rs => create_all ((fun r => (Db.public_hash r, output_fields r)) <$> rs)) _ _ _ _
    ddb_output_carries ltac:(done) ltac:(done) Hm1 E2) as (l2 & Hc2 & Hm2).
  exists l2. split; [unfold token_step, replace_ledger; by rewrite Hc1|].
  cbn [write_run] in E3. destruct (write_holds D2 _); [|done]. injection E3 as <-. by apply ddb_audit_models.
Qed.

Lemma ddb_burn_transacts now h (b : Db.BurnRecord) D D' l :
  ddb_models D l -> transact (burn_writes T now h b) D = Some D' ->
  exists l', consume (to_rfc3339 now) h l = Ok l' /\ ddb_models D' l'.
Proof.
  intros Hm Et%ddb_transact_run. unfold burn_writes in Et. cbn [write_run] in Et.
  destruct (write_holds D _) eqn:Eh; [|done].
  destruct (ddb_spend_carries (to_rfc3339 now) h D l Hm Eh) as (l1 & E1 & Hm1).
  destruct (write_holds _ (audit_write _ _ _ _ _)); [|done]. injection Et as <-. exists l1. split; [done|].
  by apply ddb_audit_models.
Qed.

(** An answer to a step: a success took effect, a failure did or did not. *)
Definition outcome {E} (step : ledger -> result refusal ledger) (r : result E unit) l l' : Prop :=
  match r with Ok _ => step l = Ok l' | Err _ => l' = l \/ step l = Ok l' end.

Lemma ddb_transaction ws (step : ledger -> result refusal ledger) st l r st' :
  (forall D', transact ws (dview st) = Some D' -> exists l', step l = Ok l' /\ ddb_models D' l') ->
  ddb_models (dview st) l -> transact_write_items ws st = (r, st') ->
  exists l', ddb_models (dview st') l' /\ outcome step r l l'.
Proof.
  intros Hs Hm E. destruct r as [[]|e].
  - apply transact_ok in E as (l' & Es & Hm')%Hs. exists l'. by split.
  - apply transact_err in E as [->|(l' & Es & Hm')%Hs]; [exists l|exists l']; split; try done; [by left|by right].
Qed.

Lemma token_step_evolves now op l l' : token_step now op l = Ok l' -> evolves l l'.
Proof. intros Hr%replace_ledger_Ok. by eapply replaced_evolves. Qed.

(** *** Inserts *)

(** An insert overwrites. *)
Definition overwrite (rs : list Db.TokenRecord) l : ledger :=
  foldl (fun l r => <[Db.public_hash r := insert_fields r]> l) l rs.

Lemma put_rows_holds rs t l : table_holds t l -> table_holds (put_rows (map insert_item rs) t) (overwrite rs l).
Proof.
  unfold put_rows, overwrite. revert t l. induction rs as [|r rs IH]; intros t l Hm; cbn [map foldl]; [done|].
  pose proof (insert_item_row r) as Hr. rewrite (key_of_hash _ _ (Db.public_hash r)); [|apply Hm|apply Hr].
  apply IH. by apply holds_row.
Qed.

Lemma overwrite_other rs l h : (forall r, r ∈ rs -> Db.public_hash r <> h) -> overwrite rs l !! h = l !! h.
Proof.
  unfold overwrite. revert l. induction rs as [|r rs IH]; intros l Hn; cbn; [done|].
  rewrite IH by (intros x Hx; apply Hn; by right). apply lookup_insert_ne, Hn. by left.
Qed.

Lemma subset_map {X Y} (f : X -> Y) (ys : list Y) xs : ys ⊆ map f xs -> exists zs, ys = map f zs /\ zs ⊆ xs.
Proof.
  induction ys as [|y ys IH]; intros Hs; [exists []; split; [done|by intros x Hx%elem_of_nil]|].
  destruct IH as (zs & -> & Hz); [by intros z Hin; apply Hs; right|].
  assert (y ∈ f <$> xs) as (x & -> & Hx)%list_elem_of_fmap by (apply Hs; by left).
  exists (x :: zs). split; [done|]. by intros z [->|Hin]%elem_of_cons; [|apply Hz].
Qed.

(** *** The methods

    The ledgers of the past are those [stood] says, related to the present by
    [R]. *)

Section Methods.
Context (stood : tables -> ledger -> Prop) (R : ledger -> ledger -> Prop) `{!PreOrder R}
  (Hstood : forall D l, ddb_models D l -> stood D l) (Hevolves : forall l l', evolves l l' -> R l l').

Definition held : db -> ledger -> Prop := lived dview dpast ddb_models stood R.

Lemma held_step st st' l l' : service_call st st' -> held st l -> ddb_models (dview st') l' -> R l l' -> held st' l'.
Proof. intros Hc%past_grows. by apply lived_step. Qed.

Lemma held_transaction ws (step : ledger -> result refusal ledger) st l r st' :
  (forall D', transact ws (dview st) = Some D' -> exists l', step l = Ok l' /\ ddb_models D' l') ->
  (forall l', step l = Ok l' -> evolves l l') ->
  held st l -> transact_write_items ws st = (r, st') ->
  exists l', held st' l' /\ outcome step r l l'.
Proof.
  intros Hs He Hl E. destruct (ddb_transaction _ _ _ _ _ _ Hs (proj1 Hl) E) as (l' & Hm' & Ho).
  exists l'. split; [|done]. eapply held_step; [by eapply call_transact|done..|].
  destruct r; [by apply Hevolves, He|]. destruct Ho as [->|Ho]; [done|by apply Hevolves, He].
Qed.

Definition answer_outcome (now : DateTime) op (r : ReplaceResult) l l' : Prop :=
  match r with ReplaceOk => token_step now op l = Ok l' | ReplaceFailed _ => l' = l \/ token_step now op l = Ok l' end.

(** Requests with their answers, in the order in which they took effect. *)
Inductive answered (now : DateTime) : list (Db.ReplaceOp * ReplaceResult) -> ledger -> ledger -> Prop :=
  | answered_nil l : answered now [] l l
  | answered_cons op r h l l1 l2 : answer_outcome now op r l l1 -> answered now h l1 l2 ->
      answered now ((op, r) :: h) l l2.

Lemma ddb_replace_answers now ops st l rs st' :
  held st l -> ddb_batch_replace T now ops st = (rs, st') ->
  length rs = length ops /\
  exists h l', held st' l' /\ answered now h l l' /\ h ≡ₚ zip ops rs.
Proof.
  intros Hm Eb. unfold ddb_batch_replace in Eb.
  eapply (join_all_moves held (fun i r l l' => exists op, ops !! i = Some op /\ answer_outcome now op r l l')) in Eb
    as (Hn & done & l' & Hm' & Hmv & Hp); [|intros i f s k y s' Hi Hk Ef|exact Hm].
  - rewrite length_map in Hn, Hp. split; [done|].
    exists (omap (fun p => op ← ops !! p.1; Some (op, p.2)) done), l'. split_and!; [done| |].
    + clear Hp Hm' Hm. induction Hmv as [k|i r done k k1 k2 (op & Eo & Ho) _ IH]; [constructor|].
      cbn. rewrite Eo. cbn. econstructor; [done|]. by apply IH.
    + rewrite Hp. by rewrite (omap_lookup_seq pair).
  - rewrite list_lookup_fmap in Hi. apply fmap_Some in Hi as (op & Eo & ->).
    unfold exec_replace in Ef. destruct (transact_write_items _ s) as [r s1] eqn:Et. injection Ef as <- <-.
    destruct (held_transaction _ (token_step now op) _ _ _ _
      (fun D' => ddb_replace_transacts now op (dview s) D' k (proj1 Hk)) (fun k' => token_step_evolves now op k k') Hk Et)
      as (k' & Hk' & Ho).
    exists k'. split; [done|]. exists op. split; [done|]. by destruct r.
Qed.

(** What a batch of burns spent: some of its hashes, all of them when it is
    confirmed. *)
Lemma ddb_burn_answers now ops st l r st' :
  held st l -> ddb_batch_burn T now ops st = (r, st') ->
  exists burned l', held st' l' /\ consumed (to_rfc3339 now) burned l l' /\ burned ⊆+ ops.*1 /\
    (r = Ok tt -> burned ≡ₚ ops.*1).
Proof.
  intros Hm. unfold ddb_batch_burn. destruct (try_join_all _ st) as [r1 st1] eqn:Eb. intros [= <- <-].
  eapply (try_join_all_moves held
    (fun i r l l' => exists h b, ops !! i = Some (h, b) /\ outcome (consume (to_rfc3339 now) h) r l l')) in Eb
    as (done & l' & Hm' & Hmv & Hd & Hr); [|intros i f s k y s' Hi Hk Ef|exact Hm].
  - rewrite length_map in Hd, Hr.
    assert (exists burned, consume_all (to_rfc3339 now) burned l = Ok l' /\
      burned ⊆+ omap (fun i => ops.*1 !! i) done.*1 /\
      ((forall i e, (i, Err e) ∉ done) -> burned = omap (fun i => ops.*1 !! i) done.*1)) as (burned & Ec & Hs & He).
    { clear Hd Hr Hm' Hm. induction Hmv as [k|i y done k k1 k2 (h & b & Eo & Ho) _ (bs & Ec & Hs & He)]; [by exists []|].
      assert (ops.*1 !! i = Some h) as Eh by (by rewrite list_lookup_fmap, Eo).
      assert (consume (to_rfc3339 now) h k = Ok k1 \/ (k1 = k /\ exists e, y = Err e)) as [E1|(-> & e & ->)]
        by (destruct y; [by left|destruct Ho as [->|?]; [right; eauto|by left]]).
      - exists (h :: bs). cbn [consume_all fmap list_fmap fst omap list_omap]. rewrite E1, Eh. split_and!; [done|by apply submseteq_skip|].
        intros Hn. f_equal. apply He. intros j e Hj. apply (Hn j e). by right.
      - exists bs. cbn [fmap list_fmap fst omap list_omap]. rewrite Eh. split_and!; [done|by apply submseteq_cons|].
        intros Hn. destruct (Hn i e). by left. }
    exists burned, l'. split_and!; [done|by apply consume_all_Ok| |].
    + etrans; [exact Hs|]. apply omap_submseteq_lookup. by rewrite length_fmap.
    + destruct r1 as [xs|e]; [|done]. intros _. destruct Hr as [Hl Hp]. rewrite He.
      * rewrite Hp. unfold succeeded. rewrite <- list_fmap_compose.
        assert (fst <$> zip (seq 0 (length ops)) xs = seq 0 (length ops)) as E.
        { apply fst_zip. by rewrite length_seq, Hl. }
        transitivity (omap (fun i => ops.*1 !! i) (fst <$> zip (seq 0 (length ops)) xs)); [done|].
        by rewrite E, <- (length_fmap fst ops), omap_lookup_all.
      * intros i e Hi. rewrite Hp in Hi. by apply list_elem_of_fmap in Hi as ([j x] & [=] & _).
  - rewrite list_lookup_fmap in Hi. apply fmap_Some in Hi as ([h b] & Eo & ->).
    unfold exec_burn in Ef. destruct (transact_write_items _ s) as [r s1] eqn:Et. injection Ef as <- <-.
    destruct (held_transaction _ (consume (to_rfc3339 now) h) _ _ _ _
      (fun D' => ddb_burn_transacts now h b (dview s) D' k (proj1 Hk)) (fun k' => consume_evolves _ h k k') Hk Et)
      as (k' & Hk' & Ho).
    exists k'. split; [done|]. exists h, b. split; [done|]. by destruct r.
Qed.

(** Whatever an insert answers, it has overwritten some of its records. *)
Lemma ddb_insert_overwrites rs st l r st' :
  (forall done l, R l (overwrite done l)) ->
  held st l -> ddb_insert_tokens T rs st = (r, st') ->
  exists done, held st' (overwrite done l) /\ done ⊆ rs.
Proof.
  intros Hover Hm. unfold ddb_insert_tokens. destruct rs as [|r0 rs0]; [intros [= <- <-]; by exists []|].
  set (rs := r0 :: rs0). clearbody rs. destruct (try_join_all _ st) as [r1 st1] eqn:Eb. intros [= <- <-].
  eapply (try_join_all_moves held (fun i r l l' => exists done, l' = overwrite done l /\ done ⊆ rs)) in Eb
    as (done & l' & Hm' & Hmv & _); [|intros i f s k y s' Hi Hk Ef|exact Hm].
  - assert (exists done, l' = overwrite done l /\ done ⊆ rs) as (ws & -> & Hs); [|by exists ws].
    clear Hm' Hm. induction Hmv as [k|i y done k k1 k2 (a & -> & Ha) _ (b & -> & Hb)]; [exists []; split; [done|by intros x Hx%elem_of_nil]|].
    exists (a ++ b). unfold overwrite. rewrite foldl_app. split; [done|]. by intros x [?|?]%elem_of_app; [apply Ha|apply Hb].
  - rewrite list_lookup_fmap in Hi. apply fmap_Some in Hi as (chunk & Eo & ->).
    assert (chunk ⊆ rs) as Hc.
    { rewrite <- (concat_chunks 25 rs). intros x Hx. apply list_elem_of_In, in_concat. exists chunk.
      split; apply list_elem_of_In; [by eapply list_elem_of_lookup_2|done]. }
    unfold write_chunk in Ef. destruct (batch_write_item _ _ s) as [y1 s1] eqn:Ew. injection Ef as _ <-.
    pose proof (call_batch_write _ _ _ _ _ Ew) as Hcall.
    apply batch_write_any in Ew as (ws & Hs & Ev & _). apply subset_map in Hs as (zs & -> & Hz).
    exists (overwrite zs k). split; [|exists zs; split; [done|by transitivity chunk]].
    eapply held_step; [done..| |apply Hover].
    destruct Hk as [(t & Et & Hk) _]. exists (put_rows (map insert_item zs) t).
    rewrite Ev, lookup_alter_eq, Et. split; [done|]. by apply put_rows_holds.
Qed.

(** *** Reads *)

(** Reads change nothing: no past is added but the present. *)
Definition unchanged (st st' : db) : Prop := dview st' = dview st /\ dpast st' ⊆ dpast st.

Lemma read_unchanged (st s s' : db) : unchanged st s -> service_call s s' -> dview s' = dview s -> unchanged st s'.
Proof.
  intros [Hv Hp] Hc%past_grows Hs. split; [congruence|]. rewrite Hc, Hs, Hv.
  intros D [->|Hin]%elem_of_cons; [apply past_present|by apply Hp].
Qed.

Lemma unchanged_held (s s' : db) l : held s l -> service_call s s' -> dview s' = dview s -> held s' l.
Proof. intros Hl Hc Hv. eapply held_step; [done..| |done]. rewrite Hv. apply Hl. Qed.

(** A record read was on a ledger of the past, or the read missed. *)
Definition once_read (now : DateTime) (st : db) l (h : string) (o : option Db.TokenRecord) : Prop :=
  o = None \/ exists l0 f, recorded st l0 /\ R l0 l /\ l0 !! h = Some f /\ o = hash_to_token now h f.
Definition once_checked (st : db) l (h : string) (a : string * option bool) : Prop :=
  a.1 = h /\ forall b, a.2 = Some b -> exists l0, recorded st l0 /\ R l0 l /\ spent_of l0 h = Some b.

(** An item a read of the table found. *)
Definition found_row st l (names : option (list string)) (it : item) : Prop :=
  exists l0 h f row, recorded st l0 /\ R l0 l /\ l0 !! h = Some f /\ token_row h f row /\ it = project names row.

Lemma batch_get_rows st keys names s l r s' :
  unchanged st s -> held s l -> batch_get_item (tokens_table T) keys names s = (r, s') ->
  unchanged st s' /\ held s' l /\
  ((forall D l, stood D l -> ddb_was D l) -> forall its rest, r = Ok (its, rest) -> Forall (found_row st l names) its).
Proof.
  intros Hu Hl Eg. pose proof (call_batch_get _ _ _ _ _ _ Eg) as Hc. destruct r as [[found rest]|e].
  2:{ apply batch_get_err in Eg. split_and!; [by eapply read_unchanged|by eapply unchanged_held|done]. }
  apply batch_get_ok in Eg as (Ev & _ & _ & _ & seen & Hseen & Hp).
  split_and!; [by eapply read_unchanged|by eapply unchanged_held|].
  intros Hw its rest' [= <- <-]. rewrite Hp. apply Forall_forall.
  intros it (k & _ & (row & Er & ->)%fmap_Some)%list_elem_of_omap.
  destruct (Hseen k) as (D & HD & Es). rewrite Er in Es. destruct (proj2 Hl D HD) as (l0 & Hst & HR).
  pose proof (Hw _ _ Hst) as Hwas. pose proof Hwas as (Hk & Hr & Hd).
  assert (rows (default no_tokens (D !! tokens_table T)) !! key_of (key_names (default no_tokens (D !! tokens_table T))) k
    = Some row) as Et by (unfold item_at in Es; by destruct (D !! tokens_table T)).
  destruct (Hd _ _ Et) as [h Eh]. rewrite Eh in Et. specialize (Hr h). destruct (l0 !! h) as [f|] eqn:El; [|congruence].
  destruct Hr as (row' & Er' & Hrow). rewrite Et in Er'. injection Er' as <-. exists l0, h, f, row.
  split_and!; [|done..]. exists D. split; [by apply Hu|done].
Qed.

Lemma index_by_elem {V} (f : item -> option V) (its : list item) h v :
  index_by f its !! h = Some v -> exists it, it ∈ its /\ it !! "public_hash" ≫= as_s = Some h /\ f it = Some v.
Proof.
  induction its as [|it its IH] using rev_ind; [unfold index_by; cbn [foldl]; by rewrite lookup_empty|].
  unfold index_by. rewrite foldl_app. cbn [foldl]. fold (index_by f its). intros E.
  assert (index_by f its !! h = Some v -> exists it0, it0 ∈ its ++ [it] /\ it0 !! "public_hash" ≫= as_s = Some h /\ f it0 = Some v) as Hi.
  { intros (x & Hx & ?)%IH. exists x. split; [|done]. apply elem_of_app. by left. }
  destruct (it !! "public_hash" ≫= as_s) as [j|] eqn:Ej; [|by apply Hi]. destruct (f it) as [w|] eqn:Ew; [|by apply Hi].
  destruct (decide (j = h)) as [->|Hne]; [|rewrite lookup_insert_ne in E by done; by apply Hi].
  rewrite lookup_insert_eq in E. injection E as ->. exists it. split_and!; [|done..]. apply elem_of_app. right. by left.
Qed.

Lemma moved_constant {L Y} (Q : nat -> Y -> Prop) (done : list (nat * Y)) (k k' : L) :
  moved (fun i y a b => b = a /\ Q i y) done k k' -> k' = k /\ Forall (fun p => Q p.1 p.2) done.
Proof. induction 1 as [|i y done k k1 k2 [-> Hq] _ [-> IH]]; [done|]. split; [done|]. by constructor. Qed.

Lemma ddb_get_reads now hs st l r st' :
  held st l -> ddb_get_tokens T now hs st = (r, st') ->
  held st' l /\
  ((forall D l, stood D l -> ddb_was D l) -> forall out, r = Ok out -> Forall2 (once_read now st l) hs out).
Proof.
  intros Hm. unfold ddb_get_tokens. destruct hs as [|h0 hs0].
  { intros [= <- <-]. split; [done|]. intros _ out [= <-]. constructor. }
  set (hs := h0 :: hs0). clearbody hs. destruct (try_join_all _ st) as [r1 st1] eqn:Eg. intros [= <- <-].
  eapply (try_join_all_moves (fun (s : db) (k : ledger) => k = l /\ unchanged st s /\ held s k)
    (fun i r k k' => k' = k /\ ((forall D l, stood D l -> ddb_was D l) -> forall its, r = Ok its -> Forall (found_row st l None) its))) in Eg
    as (done & l' & (-> & _ & Hm') & Hmv & _ & Hr);
    [|intros i f s k y s' Hi (-> & Hu & Hk) Ef|exact (conj eq_refl (conj (conj eq_refl (reflexivity _)) Hm))].
  - apply moved_constant in Hmv as [_ Ha]. split; [done|]. intros Hw out Eo. destruct r1 as [xs|e]; [|done].
    injection Eo as <-. destruct Hr as [Hl Hp].
    assert (Forall (found_row st l None) (concat xs)) as Hf.
    { apply Forall_forall. intros it (its & Hx & Hi)%list_elem_of_In%in_concat. apply list_elem_of_In in Hx, Hi.
      apply list_elem_of_lookup in Hx as [i Ei].
      assert ((i, Ok its) ∈ done) as Hin.
      { rewrite Hp. apply list_elem_of_fmap. exists (i, its). split; [done|]. apply list_elem_of_lookup.
        exists i. apply lookup_zip_with_Some. exists i, its. split_and!; [done| |done].
        apply lookup_seq. split; [lia|]. apply lookup_lt_Some in Ei. lia. }
      rewrite Forall_forall in Ha. specialize (Ha _ Hin Hw its eq_refl). rewrite Forall_forall in Ha. by apply Ha. }
    apply Forall2_fmap_r, Forall_Forall2_diag, Forall_forall. intros h _. unfold once_read, compose.
    destruct (index_by Some (concat xs) !! h) as [it|] eqn:Ei; [|by left].
    apply index_by_elem in Ei as (it' & Hi & Eh & [= ->]). rewrite Forall_forall in Hf.
    destruct (Hf _ Hi) as (l0 & h' & f & row & Hrec & HR & El & Hrow & ->). cbn [project] in *.
    rewrite (row_hash _ _ _ Hrow) in Eh. injection Eh as ->. right. exists l0, f. split_and!; [done..|].
    cbn. by apply token_row_read.
  - rewrite list_lookup_fmap in Hi. apply fmap_Some in Hi as (chunk & _ & ->). unfold read_chunk in Ef.
    destruct (batch_get_item _ _ _ s) as [y1 s1] eqn:Eq. injection Ef as <- <-.
    destruct (batch_get_rows _ _ _ _ _ _ _ Hu Hk Eq) as (Hu' & Hk' & Hf). exists l. split_and!; [done..|].
    intros Hw its Ei. destruct y1 as [[its' rest]|e]; [|done]. injection Ei as <-. by eapply Hf.
Qed.

Lemma ddb_check_reads hs st l r st' :
  held st l -> ddb_check_tokens T hs st = (r, st') ->
  held st' l /\
  ((forall D l, stood D l -> ddb_was D l) -> forall out, r = Ok out -> Forall2 (once_checked st l) hs out).
Proof.
  intros Hm. unfold ddb_check_tokens. destruct hs as [|h0 hs0].
  { intros [= <- <-]. split; [done|]. intros _ out [= <-]. constructor. }
  set (hs := h0 :: hs0). clearbody hs. destruct (batch_get_item _ _ _ st) as [r1 st1] eqn:Eg. intros [= <- <-].
  destruct (batch_get_rows st _ _ _ _ _ _ (conj eq_refl (reflexivity _)) Hm Eg) as (_ & Hm' & Hf).
  split; [done|]. intros Hw out Eo.
  destruct r1 as [[its rest]|e]; [|done]. injection Eo as <-. specialize (Hf Hw its rest eq_refl). cbn [fst].
  apply Forall2_fmap_r, Forall_Forall2_diag, Forall_forall. intros h _. unfold compose. split; [done|]. cbn [fst snd]. intros b Eb.
  apply index_by_elem in Eb as (it & Hi & Eh & [= <-]). rewrite Forall_forall in Hf.
  destruct (Hf _ Hi) as (l0 & h' & f & row & Hrec & HR & El & Hrow & ->). unfold project in *.
  assert (forall name, name = "public_hash" \/ name = "spent" ->
    filter (fun p : string * attr => p.1 ∈ ["public_hash"; "spent"]) row !! name = row !! name) as Hn.
  { intros name Hname. destruct (row !! name) as [a|] eqn:Ea.
    - apply map_lookup_filter_Some. split; [done|]. destruct Hname as [->| ->]; set_solver.
    - apply map_lookup_filter_None. by left. }
  rewrite Hn, (row_hash _ _ _ Hrow) in Eh by (by left). injection Eh as ->. exists l0. split_and!; [done..|].
  unfold spent_of. rewrite El. cbn. f_equal.
  rewrite (proj2 (row_flag _ _ _ Hrow)). unfold read_spent. by rewrite Hn by (by right).
Qed.

Lemma ddb_get_mining_held st l r st' : held st l -> ddb_get_mining_state T st = (r, st') -> dview st' = dview st /\ held st' l.
Proof.
  unfold ddb_get_mining_state. destruct (get_item _ _ st) as [r1 st1] eqn:Eg. intros Hl [= _ <-].
  pose proof (call_get _ _ _ _ _ Eg) as Hc. apply get_item_any in Eg as [Ev _]. split; [done|by eapply unchanged_held].
Qed.

Lemma ddb_update_mining_held s st l r st' : held st l -> ddb_update_mining_state T s st = (r, st') -> held st' l.
Proof.
  intros Hl. unfold ddb_update_mining_state. destruct (put_item _ _ st) as [r1 st1] eqn:Ep. intros [= _ <-].
  eapply held_step; [by eapply call_put|done| |done]. destruct Hl as [(t & Et & Hm) _].
  exists t. split; [|done]. destruct r1 as [[]|e].
  - apply put_item_ok in Ep as [_ ->]. by rewrite lookup_alter_ne.
  - apply put_item_err in Ep as [->| ->]; [done|]. by rewrite lookup_alter_ne.
Qed.
End Methods.

End Table.

(** ** Calls of a store, and the spends they confirm *)

Section Calls.
Context `{Chrono} {S : Type} `{!Db.LedgerStore S}.

Inductive db_call :=
  | CallInsert (records : list Db.TokenRecord)
  | CallGet (now : DateTime) (hashes : list string)
  | CallCheck (hashes : list string)
  | CallReplace (now : DateTime) (ops : list Db.ReplaceOp)
  | CallBurn (now : DateTime) (ops : list (string * Db.BurnRecord))
  | CallGetMining
  | CallSetMining (state : Legacy.MiningState).

Definition inserts (h : string) (c : db_call) : Prop :=
  match c with CallInsert rs => exists r, r ∈ rs /\ Db.public_hash r = h | _ => False end.

Definition replace_spends (h : string) (p : Db.ReplaceOp * ReplaceResult) : nat :=
  match p.2 with ReplaceOk => if decide (h ∈ Db.ro_inputs p.1) then 1 else 0 | ReplaceFailed _ => 0 end.
Definition hash_spends (h j : string) : nat := if decide (j = h) then 1 else 0.

(** The confirmed spends of [h] in one call, and the state after it. *)
Definition call_spends (h : string) (c : db_call) (st : S) : nat * S :=
  match c with
  | CallInsert rs => (O, (Db.insert_tokens rs st).2)
  | CallGet now hs => (O, (Db.get_tokens now hs st).2)
  | CallCheck hs => (O, (Db.check_tokens hs st).2)
  | CallReplace now ops =>
      let '(rs, st) := Db.batch_replace now ops st in (sum_list_with (replace_spends h) (zip ops rs), st)
  | CallBurn now ops =>
      let '(r, st) := Db.batch_burn now ops st in
      (match r with Ok _ => sum_list_with (hash_spends h) ops.*1 | Err _ => O end, st)
  | CallGetMining => (O, (Db.get_mining_state st).2)
  | CallSetMining s => (O, (Db.update_mining_state s st).2)
  end.

Fixpoint all_spends (h : string) (cs : list db_call) (st : S) : nat * S :=
  match cs with
  | [] => (O, st)
  | c :: rest =>
      let '(n, st) := call_spends h c st in
      let '(m, st) := all_spends h rest st in ((n + m)%nat, st)
  end.
End Calls.

Section Spends.
Context `{Chrono} (h : string).
Implicit Types (l : ledger).

(** A number of spends of [h] next to what the ledger knows of it. *)
Definition spending (n : nat) l l' : Prop :=
  (n = O /\ (spent_of l h = Some true -> spent_of l' h = Some true)) \/
  (n = 1%nat /\ spent_of l h <> Some true /\ spent_of l' h = Some true).

Lemma spending_none l l' : stays_spent l l' -> spending 0 l l'.
Proof. intros Hs. left. split; [done|]. apply Hs. Qed.

Lemma spending_add a b l l1 l2 : spending a l l1 -> spending b l1 l2 -> spending (a + b) l l2.
Proof.
  intros [[-> H1]|(-> & H1 & H2)] [[-> H3]|(-> & H3 & H4)].
  - left. split; [done|]. auto.
  - right. split_and!; [done| |done]. intros E. auto.
  - right. split_and!; [done|done|auto].
  - congruence.
Qed.

Lemma marked_spent now f l' : l' !! h = Some (mark_hash now f) -> spent_of l' h = Some true.
Proof. unfold spent_of. intros ->. cbn. by rewrite spent_mark. Qed.

Lemma unspent_not f l : l !! h = Some f -> spent_hash f = false -> spent_of l h <> Some true.
Proof. unfold spent_of. intros ->. cbn. by intros ->. Qed.

Lemma answer_spending now op r l l' : answer_outcome now op r l l' -> spending (replace_spends h (op, r)) l l'.
Proof.
  unfold replace_spends. cbn [fst snd]. destruct r as [|m]; cbn [answer_outcome].
  - intros Hr%replace_ledger_Ok. case_decide as Hi; [|by eapply spending_none, replaced_keeps_spent].
    destruct (replaced_spent _ _ _ _ _ Hr h Hi) as (f & Hf & Hu & Hl). right.
    split_and!; [done|by eapply unspent_not|by eapply marked_spent].
  - intros [->|Hr%replace_ledger_Ok]; apply spending_none; [done|by eapply replaced_keeps_spent].
Qed.

Lemma answered_spending now hist l l' :
  answered now hist l l' -> spending (sum_list_with (replace_spends h) hist) l l'.
Proof.
  induction 1 as [l|op r hist l l1 l2 Ho _ IH]; [by apply spending_none|].
  cbn [sum_list_with]. eapply spending_add; [by apply answer_spending in Ho|done].
Qed.

Lemma hash_spends_in (hs : list string) :
  NoDup hs -> sum_list_with (hash_spends h) hs = if decide (h ∈ hs) then 1%nat else O.
Proof.
  induction 1 as [|j hs Hj _ IH]; [done|]. cbn [sum_list_with]. rewrite IH. unfold hash_spends.
  destruct (decide (j = h)) as [->|Hne]; repeat case_decide; try set_solver; done.
Qed.

Lemma consumed_spending now hs l l' : consumed now hs l l' -> spending (sum_list_with (hash_spends h) hs) l l'.
Proof.
  intros [Hnd Hm Hf]. rewrite hash_spends_in by done. case_decide as Hi.
  - destruct (Hm h Hi) as (f & El & Hu & El'). right. split_and!; [done|by eapply unspent_not|by eapply marked_spent].
  - left. split; [done|]. unfold spent_of. by rewrite Hf.
Qed.

Lemma spending_forget n l l' : spending n l l' -> spending 0 l l'.
Proof. intros [[_ ?]|(_ & _ & ?)]; by left. Qed.
End Spends.

(** ** The store *)

Section DdbFacts.
Context `{DynamoDbLaws} `{!Joining db} {JL : JoiningLaws db} `{Chrono} `{Serde Db.ReplacementRecord}
  `{Serde Db.BurnRecord} `{Serde Legacy.MiningState} (T : DynamoTables)
  (Hat : audit_table T <> tokens_table T) (Hmt : mining_table T <> tokens_table T).
#[local] Instance ddb_store : Db.LedgerStore db := DdbStore T.

(** A token reported spent is spent, and one reported unspent is known but may
    have been spent since. *)
Definition safe_flag l (h : string) (a : string * option bool) : Prop :=
  a.1 = h /\ forall b, a.2 = Some b -> exists b', spent_of l h = Some b' /\ (b = true -> b' = true).

Lemma once_checked_safe R st l h a :
  (forall l l', R l l' -> evolves l l') -> once_checked T R st l h a -> safe_flag l h a.
Proof.
  intros HR [Ha Hc]. split; [done|]. intros b (l0 & _ & He%HR & Hs)%Hc. unfold spent_of in *.
  destruct (l0 !! h) as [f0|] eqn:E0; [|done]. injection Hs as <-.
  destruct (evolves_earlier _ _ _ _ He E0) as (f & -> & Hf). exists (spent_hash f). split; [done|].
  by apply earlier_spent.
Qed.

(** C18: The legacy DynamoDB store over the abstract ledger, whatever preorder [R]
    relates the ledgers of its past to the present one, as long as [R] allows for
    creating and spending tokens.  The requests of a batch take effect one after
    the other, in some order, each answered by what it did, a failure having had
    its effect or none.  A confirmed burn spends exactly its tokens.  An insert,
    confirmed or not, overwrites some of its records.  The reads are eventually
    consistent: one gives what a ledger of the past held, or misses; where tokens
    have only been created and spent, one reported spent is spent. *)
Theorem ddb_refines R `{!PreOrder R} st l :
  (forall l l', evolves l l' -> R l l') -> ddb_held T R st l ->
  (forall now ops rs st', Db.batch_replace now ops st = (rs, st') -> length rs = length ops /\
     exists order l', ddb_held T R st' l' /\ answered now order l l' /\ order ≡ₚ zip ops rs) /\
  (forall now ops r st', Db.batch_burn now ops st = (r, st') -> exists burned l', ddb_held T R st' l' /\
     consumed (to_rfc3339 now) burned l l' /\ burned ⊆+ ops.*1 /\ (r = Ok tt -> burned ≡ₚ ops.*1)) /\
  (forall rs r st', (forall done l, R l (overwrite done l)) -> Db.insert_tokens rs st = (r, st') ->
     exists done, ddb_held T R st' (overwrite done l) /\ done ⊆ rs) /\
  (forall now hs r st', Db.get_tokens now hs st = (r, st') ->
     ddb_held T R st' l /\ forall out, r = Ok out -> Forall2 (once_read T R now st l) hs out) /\
  (forall hs r st', Db.check_tokens hs st = (r, st') ->
     ddb_held T R st' l /\ forall out, r = Ok out -> Forall2 (once_checked T R st l) hs out /\
       ((forall l l', R l l' -> evolves l l') -> Forall2 (safe_flag l) hs out)) /\
  (forall r st', Db.get_mining_state st = (r, st') -> dview st' = dview st /\ ddb_held T R st' l) /\
  (forall s r st', Db.update_mining_state s st = (r, st') -> ddb_held T R st' l).
Proof.
  intros He Hm. pose proof (ddb_models_was T) as Hw. split_and!; intros *.
  - by apply ddb_replace_answers.
  - by apply ddb_burn_answers.
  - intros Hover. by apply ddb_insert_overwrites.
  - intros E. eapply ddb_get_reads in E as [Hm' Hr]; [|done..]. split; [done|]. by apply Hr.
  - intros E. eapply ddb_check_reads in E as [Hm' Hr]; [|done..]. split; [done|]. intros out Eo.
    specialize (Hr (fun _ _ H => H) out Eo). split; [done|]. intros HR. eapply Forall2_impl; [exact Hr|].
    intros h a. by apply once_checked_safe.
  - by apply ddb_get_mining_held.
  - by apply ddb_update_mining_held.
Qed.

(** Nothing said of the past. *)
Notation present := (held T (fun _ _ => True) (fun _ _ => True)).

#[local] Instance any_preorder : PreOrder (fun _ _ : ledger => True).
Proof. by split. Qed.

Lemma present_models st l : ddb_models T (dview st) l -> present st l.
Proof. intros Hm. split; [done|]. intros D _. by exists l. Qed.

Let Hst D l : ddb_models T D l -> True := fun _ => I.
Let Hev l l' : evolves l l' -> True := fun _ => I.

Lemma ddb_call_spends h c st l :
  present st l -> ~ inserts h c ->
  exists l', present (call_spends h c st).2 l' /\ spending h (call_spends h c st).1 l l'.
Proof.
  intros Hm Hi. destruct c as [rs|now hs|hs|now ops|now ops| |s]; cbn [call_spends].
  - destruct (Db.insert_tokens rs st) as [r st'] eqn:E.
    destruct (ddb_insert_overwrites T _ _ Hst _ _ _ _ _ (fun _ _ => I) Hm E) as (ws & Hm' & Hd).
    exists (overwrite ws l). split; [done|]. left. split; [done|]. unfold spent_of.
    rewrite overwrite_other; [done|]. intros x Hx Ex. apply Hi. exists x. split; [by apply Hd|done].
  - destruct (Db.get_tokens now hs st) as [r st'] eqn:E.
    destruct (ddb_get_reads T _ _ Hst _ _ _ _ _ _ Hm E) as [Hm' _].
    exists l. split; [done|]. by apply spending_none.
  - destruct (Db.check_tokens hs st) as [r st'] eqn:E.
    destruct (ddb_check_reads T Hat Hmt _ _ Hst Hev _ _ _ _ _ Hm E) as [Hm' _].
    exists l. split; [done|]. by apply spending_none.
  - destruct (Db.batch_replace now ops st) as [rs st'] eqn:E.
    destruct (ddb_replace_answers T Hat _ _ Hst Hev _ _ _ _ _ _ Hm E) as (_ & order & l' & Hm' & Ha & Hp).
    exists l'. split; [done|]. cbn [fst]. rewrite <- Hp. by eapply answered_spending.
  - destruct (Db.batch_burn now ops st) as [r st'] eqn:E.
    destruct (ddb_burn_answers T Hat _ _ Hst Hev _ _ _ _ _ _ Hm E) as (burned & l' & Hm' & Hc & _ & Hok).
    exists l'. split; [done|]. apply (consumed_spending h) in Hc. cbn [fst]. destruct r as [[]|e]; [|by eapply spending_forget].
    by rewrite <- (Hok eq_refl).
  - destruct (Db.get_mining_state st) as [r st'] eqn:E.
    destruct (ddb_get_mining_held T _ _ Hst _ _ _ _ Hm E) as [_ Hm'].
    exists l. split; [done|]. by apply spending_none.
  - destruct (Db.update_mining_state s st) as [r st'] eqn:E.
    pose proof (ddb_update_mining_held T Hmt _ _ Hst _ _ _ _ _ Hm E) as Hm'.
    exists l. split; [done|]. by apply spending_none.
Qed.

(** C17: Over the legacy DynamoDB store a hash is confirmed spent at most once, by
    whichever calls, as long as no call inserts it; and never when it is spent
    already. *)
Theorem ddb_spends_once h cs st l :
  ddb_models T (dview st) l -> Forall (fun c => ~ inserts h c) cs ->
  ((all_spends h cs st).1 <= 1)%nat /\ (spent_of l h = Some true -> (all_spends h cs st).1 = O).
Proof.
  intros Hm%present_models Hcs.
  assert (exists l', present (all_spends h cs st).2 l' /\ spending h (all_spends h cs st).1 l l')
    as (l' & _ & [[-> _]|(-> & Hu & _)]); [|split; [lia|done]|split; [lia|by intros ?%Hu]].
  revert st l Hm. induction Hcs as [|c cs Hc _ IH]; intros st l Hm; [exists l; split; [done|by apply spending_none]|].
  destruct (ddb_call_spends h c st l Hm Hc) as (l1 & Hm1 & Hs1). cbn [all_spends].
  destruct (call_spends h c st) as [n st1]. destruct (IH st1 l1 Hm1) as (l2 & Hm2 & Hs2).
  destruct (all_spends h cs st1) as [m st2]. exists l2. split; [done|]. by eapply spending_add.
Qed.
End DdbFacts.

(** ** The mining state

    The promise the miner rests on ([MinerFacts.MiningStore]) asks for reads that
    see the last write, which this store does not ask DynamoDB for: the state it
    reads is one that was stored at some time. *)
Section Mining.
Context `{DynamoDbLaws} `{!Joining db} `{Chrono} `{Serde Db.ReplacementRecord}
  `{Serde Db.BurnRecord} `{SerdeLaws Legacy.MiningState} (T : DynamoTables).
#[local] Instance mining_ddb : Db.LedgerStore db := DdbStore T.

(** The mining state tables hold: [Some None] where nothing is stored, [None]
    where what is stored cannot be read. *)
Definition stored_in (D : tables) : option (option Legacy.MiningState) :=
  match item_at D (mining_table T) current_key with
  | None => Some None
  | Some it => data ← it !! "data" ≫= as_s; s ← result_ok (from_json data); Some (Some s)
  end.

Lemma ddb_put_mining s st st' t :
  dview st !! mining_table T = Some t -> key_names t = ["id"] ->
  ddb_update_mining_state T s st = (Ok tt, st') -> stored_in (dview st') = Some (Some s).
Proof.
  intros Et Ek. unfold ddb_update_mining_state. destruct (put_item _ _ st) as [r1 st1] eqn:Ep.
  destruct r1 as [[]|e]; [|done]. intros [= <-]. apply put_item_ok in Ep as [_ Ev].
  assert (key_of ["id"] (<["data" := AS (to_json s)]> current_key) = ["current"]) as Ei.
  { unfold key_of, current_key. cbn [map]. by rewrite lookup_insert_ne, lookup_singleton_eq by done. }
  unfold stored_in, item_at. rewrite Ev, lookup_alter_eq, Et. cbn [fmap option_fmap option_map mbind option_bind put_rows foldl].
  unfold put_row. cbn [key_names rows]. rewrite Ek, Ei. change (key_of ["id"] current_key) with ["current"].
  rewrite lookup_insert_eq. rewrite lookup_insert_eq. cbn. by rewrite from_to_json.
Qed.

Lemma ddb_read_mining st m st' :
  ddb_get_mining_state T st = (Ok m, st') -> exists D, D ∈ dpast st /\ stored_in D = Some m.
Proof.
  unfold ddb_get_mining_state. destruct (get_item _ _ st) as [r1 st1] eqn:Eg. destruct r1 as [o|e]; [|done].
  apply get_item_any in Eg as [_ Ho]. destruct (Ho o eq_refl) as (D & HD & Eo).
  intros [= E _]. exists D. split; [done|]. unfold stored_in. rewrite <- Eo. cbn in E.
  destruct o as [it|]; [|by injection E as <-].
  destruct (it !! "data" ≫= as_s) as [data|]; [|done]. cbn in E |- *.
  destruct (from_json data) as [x|e]; [|done]. by injection E as <-.
Qed.
End Mining.

(** ** The tables *)

Section Tables.
Context `{DynamoDbLaws} (T : DynamoTables).

(** Once [ensure_tables] has succeeded the three tables exist, and those there
    were have not changed. *)
Lemma ddb_ensure_tables st st' :
  ensure_tables T st = (Ok tt, st') ->
  (forall name t, dview st !! name = Some t -> dview st' !! name = Some t) /\
  Forall (fun name => is_Some (dview st' !! name)) [tokens_table T; mining_table T; audit_table T].
Proof.
  unfold ensure_tables. assert (forall specs st, create_missing specs st = (Ok tt, st') ->
    (forall name t, dview st !! name = Some t -> dview st' !! name = Some t) /\
    Forall (fun spec => is_Some (dview st' !! spec.1.1)) specs) as Hg.
  { clear st. induction specs as [|[[name pk] range] specs IH]; intros st; cbn [create_missing]; [by intros [= <-]|].
    destruct (describe_table name st) as [[[]|e] st1] eqn:Ed; pose proof (describe_any _ _ _ _ Ed) as [Ev Hex].
    - intros [Hk Hs]%IH. rewrite Ev in Hk. split; [done|]. constructor; [|done].
      destruct (Hex eq_refl) as [t Et]. exists t. by apply Hk.
    - destruct (create_table _ _ st1) as [[[]|e'] st2] eqn:Ec; [|done]. intros [Hk Hs]%IH.
      apply create_ok in Ec as [En Ec]. rewrite Ev in *. split.
      + intros n t En'. apply Hk. rewrite Ec, lookup_insert_ne; [done|congruence].
      + constructor; [|done]. cbn [fst]. eexists. apply Hk. by rewrite Ec, lookup_insert_eq. }
  intros E. apply Hg in E as [Hk Hs]. split; [done|]. cbn in Hs. by repeat (apply Forall_cons in Hs as [? Hs]; constructor).
Qed.
End Tables.
