(* ===== verification/LegacyDynamoExamples.v ===== *)
(** * The legacy DynamoDB store on concrete data

    A DynamoDB that answers at once and takes the requests of a batch in the
    reverse order, or leaves all but the first item of a batch unprocessed, or
    answers reads from the tables of some calls before; the
    properties of [LegacyDynamoFacts] on it, and runs that show what an insert
    does to a token that is there, or is not written. *)
From S2P Require Import Prelude Decimal Amount External Tokens AssetCore Storage Redis Records Ledger Reference LegacyProtocol LegacyStore LegacyReplace LegacyMiner LegacyMinerFacts LegacyRedis LegacyFleet Dynamo LegacyDynamo LegacyDynamoFacts LegacyExamples.
Import Old Ddb.

(** ** The service *)

(** The tables, whether only the first item of a batch is processed, what the
    tables were before each earlier call, and how many calls a read lags behind. *)
Record Cloud := cloud_at { held_tables : tables; lagging : bool; was : list tables; lag : nat }.
Definition mk_cloud (T : tables) (lazy : bool) : Cloud := cloud_at T lazy [] 0.
Inductive Fault := Validation | Canceled | NoTable | TableExists.

Definition processed (c : Cloud) (n : nat) : nat := if lagging c then Nat.min 1 n else n.
Definition remember (c : Cloud) : Cloud := cloud_at (held_tables c) (lagging c) (held_tables c :: was c) (lag c).
Definition set_tables (T : tables) (c : Cloud) : Cloud := cloud_at T (lagging c) (was c) (lag c).
Definition history (c : Cloud) : list tables := held_tables c :: was c.

(** What a read sees. *)
Definition seen_tables (c : Cloud) : tables := nth (lag c) (history c) (held_tables c).

#[export] Instance cloud : DynamoDb := {|
  db := Cloud;
  sdk_error := Fault;
  show_sdk _ := "service error";
  transact_write_items ws c :=
    match transact ws (held_tables c) with
    | Some T => (Ok tt, set_tables T (remember c))
    | None => (Err Canceled, remember c)
    end;
  batch_write_item name its c :=
    if bool_decide ((length its <= 25)%nat /\ is_Some (held_tables c !! name)) then
      let n := processed c (length its) in
      (Ok (drop n its), set_tables (alter (put_rows (take n its)) name (held_tables c)) (remember c))
    else (Err Validation, remember c);
  batch_get_item name keys names c :=
    if bool_decide (NoDup keys /\ (length keys <= 100)%nat /\ is_Some (held_tables c !! name)) then
      let rest := drop (processed c (length keys)) keys in
      (Ok (omap (fun k => project names <$> item_at (seen_tables c) name k) (filter (fun k => k ∉ rest) keys), rest), remember c)
    else (Err Validation, remember c);
  get_item name key c :=
    match held_tables c !! name with
    | Some _ => (Ok (item_at (seen_tables c) name key), remember c)
    | None => (Err NoTable, remember c)
    end;
  put_item name it c :=
    match held_tables c !! name with
    | Some _ => (Ok tt, set_tables (alter (put_rows [it]) name (held_tables c)) (remember c))
    | None => (Err NoTable, remember c)
    end;
  describe_table name c := match held_tables c !! name with Some _ => (Ok tt, c) | None => (Err NoTable, c) end;
  create_table name keys c :=
    match held_tables c !! name with
    | Some _ => (Err TableExists, c)
    | None => (Ok tt, set_tables (<[name := {| key_names := keys.*1; rows := ∅ |}]> (held_tables c)) c)
    end;
|}.

Lemma alter_nothing name (T : tables) : alter (put_rows []) name T = T.
Proof.
  apply map_eq. intros i. destruct (decide (i = name)) as [->|Hne];
    [rewrite lookup_alter_eq; by destruct (T !! name)|by rewrite lookup_alter_ne].
Qed.

Lemma seen_past c : seen_tables c ∈ history c.
Proof.
  unfold seen_tables. destruct (nth_in_or_default (lag c) (history c) (held_tables c)) as [Hn| ->]; [|by constructor].
  by apply list_elem_of_In.
Qed.

(** Every call records what the tables were. *)
Lemma cloud_records (st st' : @db cloud) : service_call st st' -> was st' = history st.
Proof.
  intros [ws r E|name its r E|name keys names r E|name key r E|name it r E]; simpl in E.
  - destruct (transact ws _); by injection E as _ <-.
  - case_bool_decide; by injection E as _ <-.
  - case_bool_decide; by injection E as _ <-.
  - destruct (held_tables st !! name); by injection E as _ <-.
  - destruct (held_tables st !! name); by injection E as _ <-.
Qed.

#[export] Instance cloud_laws : DynamoDbLaws.
Proof.
  refine {| dview := held_tables : @db cloud -> tables; dpast := history : @db cloud -> list tables |}; simpl.
  - intros st. by constructor.
  - intros st st' Hc%cloud_records. unfold history at 1. by rewrite Hc.
  - intros ws st st'. destruct (transact ws _); [|done]. by intros [= <-].
  - intros ws st e st'. destruct (transact ws _); [done|]. intros [= _ <-]. by left.
  - intros name its st r st'. case_bool_decide as Hb.
    + intros [= <- <-]. exists (take (processed st (length its)) its). split_and!; [|done|].
      * intros x Hx. rewrite <- (take_drop (processed st (length its)) its). apply elem_of_app. by left.
      * intros rest [= <-]. by rewrite take_drop.
    + intros [= <- <-]. exists []. split_and!; [by intros x Hx%elem_of_nil|by rewrite alter_nothing|done].
  - intros name keys names st found rest st'. case_bool_decide as Hb; [|done]. destruct Hb as (Hnd & Hl & _).
    intros [= <- <- <-]. split_and!; [done..| |].
    + intros x Hx. rewrite <- (take_drop (processed st (length keys)) keys). apply elem_of_app. by right.
    + exists (item_at (seen_tables st) name). split; [|done]. intros k. eexists. split; [apply seen_past|done].
  - intros name keys names st e st'. case_bool_decide; [done|]. by intros [= _ <-].
  - intros name key st r st'. destruct (held_tables st !! name) as [t|]; intros [= <- <-]; (split; [done|]); [|done].
    intros o [= <-]. eexists. split; [apply seen_past|done].
  - intros name it st st'. destruct (held_tables st !! name) as [t|]; [|done]. intros [= <-]. split; [by exists t|done].
  - intros name it st e st'. destruct (held_tables st !! name) as [t|]; [done|]. intros [= _ <-]. by left.
  - intros name st r st'. destruct (held_tables st !! name) as [t|]; intros [= <- <-]; (split; [done|]); [by exists t|done].
  - intros name keys st st'. destruct (held_tables st !! name) as [t|]; [done|]. by intros [= <-].
  - intros name keys st e st'. destruct (held_tables st !! name) as [t|]; [|done]. intros [= _ <-]. by left.
Defined.

#[export] Instance last_first : Joining Cloud := {| arrival_order n _ := rev (seq 0 n); still_sent l _ := l |}.
#[export] Instance last_first_laws : JoiningLaws Cloud.
Proof. split; [intros n st; simpl; by rewrite <- Permutation_rev|done]. Qed.

(** ** A small ledger *)

Definition names : DynamoTables := new_tables None.
#[export] Instance cloud_store : Db.LedgerStore Cloud := DdbStore names.

Definition blank : Cloud := (ensure_tables names (mk_cloud ∅ false)).2.
Definition with_tokens (rs : list Db.TokenRecord) : Cloud := (Db.insert_tokens rs blank).2.
Definition lagged (c : Cloud) : Cloud := cloud_at (held_tables c) true (was c) (lag c).
Definition prompt (c : Cloud) : Cloud := cloud_at (held_tables c) false (was c) (lag c).
Definition behind (n : nat) (c : Cloud) : Cloud := cloud_at (held_tables c) (lagging c) (was c) n.

Lemma blank_models : ddb_models names (dview blank) ∅.
Proof. eexists. split; [reflexivity|]. split_and!; [done|intros h; by rewrite lookup_empty|]. by intros k it. Qed.

Lemma one_token_models c : ddb_models names (dview (with_tokens [token c 300])) (overwrite [token c 300] ∅).
Proof.
  destruct (Db.insert_tokens [token c 300] blank) as [r st] eqn:E.
  eexists. split; [reflexivity|]. apply (put_rows_holds [token c 300]).
  split_and!; [done|intros h; by rewrite lookup_empty|]. by intros k it.
Qed.

Definition burn_record (id h : string) : Db.BurnRecord := {|
  Db.br_id := id; Db.br_public_hash := h; Db.br_amount_wats := 300; Db.br_burned_at := noon |}.

(** Two replaces of the same token in one batch: the service takes the second
    first. *)
Definition rivals : list Db.ReplaceOp :=
  [old_op "1" [hash "a"] [token "b" 300]; old_op "2" [hash "a"] [token "c" 300]].
Example the_last_wins :
  (Db.batch_replace noon rivals (with_tokens [token "a" 300])).1 =
  [ReplaceFailed "replace transaction failed: service error"; ReplaceOk].
Proof. vm_compute. reflexivity. Qed.

Lemma one_token_held n c : ddb_held names evolves (behind n (with_tokens [token c 300])) (overwrite [token c 300] ∅).
Proof.
  split; [exact (one_token_models c)|]. intros D [->|[->|[]%elem_of_nil]%elem_of_cons]%elem_of_cons.
  - eexists. split; [exact (ddb_models_was _ _ _ (one_token_models c))|done].
  - exists ∅. split; [|by intros h f]. exact (ddb_models_was _ _ _ blank_models).
Qed.

(** Two rival replaces, of which the service takes the second first; a check
    sent afterwards, by a read two calls behind, still finds the token
    unspent. *)
Lemma ddb_refines_witness :
  let st := behind 2 (with_tokens [token "a" 300]) in
  let res := Db.batch_replace noon rivals st in
  (exists order l', ddb_held names evolves res.2 l' /\ answered noon order (overwrite [token "a" 300] ∅) l' /\
    order ≡ₚ zip rivals [ReplaceFailed "replace transaction failed: service error"; ReplaceOk] /\
    Forall2 (safe_flag l') [hash "a"] [(hash "a", Some false)]) /\
  (Db.check_tokens [hash "a"] res.2).1 = Ok [(hash "a", Some false)] /\
  (Db.check_tokens [hash "a"] (behind 0 res.2)).1 = Ok [(hash "a", Some true)].
Proof.
  set (st := behind 2 (with_tokens [token "a" 300])). set (res := Db.batch_replace noon rivals st).
  assert ((Db.check_tokens [hash "a"] res.2).1 = Ok [(hash "a", Some false)]) as Ec by (vm_compute; reflexivity).
  split; [|split; [exact Ec|vm_compute; reflexivity]].
  pose proof (fun l l' (He : evolves l l') => He) as Hr.
  destruct (ddb_refines names ltac:(done) ltac:(done) evolves st _ Hr (one_token_held 2 "a")) as (Hrep & _).
  destruct (Hrep noon rivals res.1 res.2 (surjective_pairing res)) as (_ & order & l' & Hm & Ha & Hp).
  exists order, l'. split; [exact Hm|]. split; [exact Ha|]. split; [exact Hp|].
  destruct (ddb_refines names ltac:(done) ltac:(done) evolves res.2 l' Hr Hm) as (_ & _ & _ & _ & Hchk & _).
  destruct (Hchk [hash "a"] _ _ (surjective_pairing (Db.check_tokens [hash "a"] res.2))) as [_ Ho].
  exact (proj2 (Ho _ Ec) Hr).
Defined.

(** ** Spending once, and again after an insert *)

Definition spend_calls : list db_call :=
  [CallReplace noon rivals; CallCheck [hash "a"; hash "c"]; CallBurn noon [(hash "a", burn_record "3" (hash "a"))];
   CallReplace noon [old_op "4" [hash "a"] [token "d" 300]]].

Lemma ddb_spends_once_witness :
  (all_spends (hash "a") spend_calls (with_tokens [token "a" 300])).1 = 1%nat /\
  ((all_spends (hash "a") spend_calls (with_tokens [token "a" 300])).1 <= 1)%nat.
Proof.
  split; [vm_compute; reflexivity|].
  apply (ddb_spends_once names ltac:(done) ltac:(done) (hash "a") spend_calls (with_tokens [token "a" 300]) _
    (one_token_models "a")).
  repeat constructor; by intros ?.
Defined.

(** A spent token inserted again is unspent again. *)
Example insert_revives_a_spent_token :
  (all_spends (hash "a") [CallReplace noon [old_op "1" [hash "a"] [token "b" 300]]; CallInsert [token "a" 300];
                          CallReplace noon [old_op "2" [hash "a"] [token "c" 300]]] (with_tokens [token "a" 300])).1
  = 2%nat.
Proof. vm_compute. reflexivity. Qed.

(** So a miner who mines the same secret twice can spend it twice: over Redis
    the second report is refused. *)
Definition replace_one (id : string) (c : ascii) (st : Cloud) : list ReplaceResult * Cloud :=
  Db.batch_replace noon [old_op id [hash "a"] [token c 300]] st.
Definition mine (sys : option Legacy.MiningState * Cloud) : option Legacy.MiningState * Cloud :=
  Miner.miner_step Miner.Testnet cfg sys (Miner.Report clock "mint").
Example mined_twice_spent_twice :
  let sys1 := mine (Miner.miner_step Miner.Testnet cfg (None, blank) (Miner.Start noon)) in
  let r1 := replace_one "1" "b" sys1.2 in
  let sys2 := mine (sys1.1, r1.2) in
  let r2 := replace_one "2" "c" sys2.2 in
  (r1.1, r2.1) = ([ReplaceOk], [ReplaceOk]).
Proof. vm_compute. reflexivity. Qed.

(** An insert is confirmed though the service has left a record unprocessed. *)
Example insert_forgets :
  let '(r, st) := Db.insert_tokens [token "a" 300; token "b" 300] (lagged blank) in
  (r, result_ok (Db.get_tokens noon [hash "a"; hash "b"] (prompt st)).1) = (Ok tt, Some [Some (token "a" 300); None]).
Proof. vm_compute. reflexivity. Qed.

(** A check of more than a hundred hashes fails: it is one request. *)
Definition many (n : nat) : list string := map (fun i => show_u64 (Z.of_nat i)) (seq 0 n).
Example check_is_one_request :
  (is_ok (Db.check_tokens (many 100) blank).1, is_ok (Db.check_tokens (many 101) blank).1,
   is_ok (Db.get_tokens noon (many 101) blank).1) = (true, false, true).
Proof. vm_compute. reflexivity. Qed.

(** The miner over this store: a restart whose read lags behind starts from a
    state of before its last report. *)
Example mining_state_of_before :
  let sys := Miner.miner_run Miner.Testnet cfg life (None, blank) in
  let read c := match (Db.get_mining_state c).1 with Ok (Some m) => Some (Legacy.ms_mining_reports_count m) | _ => None end in
  (read sys.2, read (behind 4 sys.2)) = (Some 3, Some 2).
Proof. vm_compute. reflexivity. Qed.
