(* ===== verification/RefereeSigner.v ===== *)
(** * The referee's keys, signers, verifiers and push transport

    [referee/src/musig2.rs]: the trait [Musig2Signer] as a class with its
    contract, [MockSigner] and [RealSigner] as instances.  [sign.rs]: loading
    the identity.  [zkp.rs]: [MockVerifier] and [ArkworksVerifier].  [push.rs]:
    [HttpPush].  The crates behind them are classes; a file is what reading its
    path gives. *)
From S2P Require Import Prelude Decimal External RefereeState RefereeWorld RefereeView.

(** ** The trait and its contract *)

Class Musig2Signer (S : Type) := {
  pubshare : S -> Secp256k1Pubkey;
  signer_begin : SwapId -> Session -> S -> res PubNonce * S;
  signer_sign : SwapId -> Session -> string -> Secp256k1Pubkey -> PubNonce -> S -> res PartialSig * S;
  signer_discard : SwapId -> Session -> S -> res unit * S;
}.

(** Which sessions are live after one was begun, or ended. *)
Definition toggled (live : SwapId -> Session -> bool) (i : SwapId) (s : Session) (b : bool)
  : SwapId -> Session -> bool :=
  fun i' s' => if bool_decide (i' = i) && same_session s' s then b else live i' s'.

Class SignerContract (S : Type) `{Musig2Signer S} := {
  signer_live : S -> SwapId -> Session -> bool;
  begin_contract : forall st i s r st', signer_begin i s st = (r, st') ->
    match r with
    | Ok _ => signer_live st i s = false /\
              forall i' s', signer_live st' i' s' = toggled (signer_live st) i s true i' s'
    | Err e => signer_live st i s = true /\ st' = st
    end;
  sign_contract : forall st i s h k n r st', signer_sign i s h k n st = (r, st') ->
    (is_ok r = true -> signer_live st i s = true) /\
    forall i' s', signer_live st' i' s' = toggled (signer_live st) i s false i' s';
  discard_contract : forall st i s r st', signer_discard i s st = (r, st') ->
    r = Ok tt /\ forall i' s', signer_live st' i' s' = toggled (signer_live st) i s false i' s';
  pubshare_stable : forall st i s h k n,
    pubshare (signer_begin i s st).2 = pubshare st /\
    pubshare (signer_sign i s h k n st).2 = pubshare st /\
    pubshare (signer_discard i s st).2 = pubshare st;
}.

(** ** Sequences of calls *)

Inductive signer_op :=
  | OpBegin (i : SwapId) (s : Session)
  | OpSign (i : SwapId) (s : Session) (tx_hash : string) (k : Secp256k1Pubkey) (n : PubNonce)
  | OpDiscard (i : SwapId) (s : Session).

(** What a call did: began a session, signed for it, or dropped it unsigned. *)
Inductive signer_did := DidBegin | DidSign | DidDrop | DidNothing.
#[export] Instance signer_did_eq_dec : EqDecision signer_did.
Proof. solve_decision. Defined.

Section Calls.
Context {S : Type} `{Musig2Signer S}.

Definition serve_signer (o : signer_op) (st : S) : (SwapId * Session * signer_did) * S :=
  match o with
  | OpBegin i s => let (r, st') := signer_begin i s st in
      ((i, s, if is_ok r then DidBegin else DidNothing), st')
  | OpSign i s h k n => let (r, st') := signer_sign i s h k n st in
      ((i, s, if is_ok r then DidSign else DidDrop), st')
  | OpDiscard i s => let (_, st') := signer_discard i s st in ((i, s, DidDrop), st')
  end.

Fixpoint serve_signers (ops : list signer_op) (st : S) : list (SwapId * Session * signer_did) * S :=
  match ops with
  | [] => ([], st)
  | o :: rest =>
      let (d, st1) := serve_signer o st in
      let (ds, st2) := serve_signers rest st1 in (d :: ds, st2)
  end.
End Calls.

(** How often a session was begun, signed for, dropped. *)
Definition times (i : SwapId) (s : Session) (d : signer_did) (l : list (SwapId * Session * signer_did)) : nat :=
  length (filter (fun x => x = (i, s, d)) l).

Lemma times_cons i s d x l :
  times i s d (x :: l) = ((if decide (x = (i, s, d)) then 1 else 0) + times i s d l)%nat.
Proof. unfold times. rewrite filter_cons. by case_decide. Qed.

Lemma toggled_at live i s b : toggled live i s b i s = b.
Proof. unfold toggled. rewrite bool_decide_true by done. by destruct s. Qed.

Lemma toggled_ne live i s b i' s' : (i', s') <> (i, s) -> toggled live i s b i' s' = live i' s'.
Proof.
  intros Hne. unfold toggled. case_bool_decide as Hi; [|done]. subst i'.
  destruct s, s'; simpl; congruence.
Qed.

Section Contract.
Context {S : Type} `{SignerContract S}.

(** One call, seen from one session. *)
Lemma serve_signer_spec o st i s x st' :
  serve_signer o st = (x, st') ->
  match decide (x.1 = (i, s)) with
  | left _ => match x.2 with
      | DidBegin => signer_live st i s = false /\ signer_live st' i s = true
      | DidSign => signer_live st i s = true /\ signer_live st' i s = false
      | DidDrop => signer_live st' i s = false
      | DidNothing => st' = st
      end
  | right _ => signer_live st' i s = signer_live st i s
  end.
Proof.
  destruct o as [i0 s0|i0 s0 h k n|i0 s0]; simpl.
  - destruct (signer_begin i0 s0 st) as [r st1] eqn:E. apply begin_contract in E. intros [= <- <-]. simpl.
    destruct (decide ((i0, s0) = (i, s))) as [Heq|Hne].
    + simplify_eq. destruct r; simpl; [|by destruct E]. destruct E as [El E].
      by rewrite E, toggled_at.
    + destruct r; simpl; [destruct E as [_ E]; by rewrite E, toggled_ne|by destruct E as [_ ->]].
  - destruct (signer_sign i0 s0 h k n st) as [r st1] eqn:E. apply sign_contract in E as [El E].
    intros [= <- <-]. simpl. destruct (decide ((i0, s0) = (i, s))) as [Heq|Hne].
    + simplify_eq. destruct r; simpl; rewrite E, toggled_at; auto.
    + by rewrite E, toggled_ne.
  - destruct (signer_discard i0 s0 st) as [r st1] eqn:E. apply discard_contract in E as [_ E].
    intros [= <- <-]. simpl. destruct (decide ((i0, s0) = (i, s))) as [Heq|Hne].
    + simplify_eq. by rewrite E, toggled_at.
    + by rewrite E, toggled_ne.
Qed.

Definition live_count (st : S) (i : SwapId) (s : Session) : nat := if signer_live st i s then 1 else 0.

(** C29: Whatever the signer behind the trait, a nonce signs at most once: over any
    calls a session is signed for at most as often as it was begun (or was live
    at the start), and what was begun is signed, dropped, or live at the end. *)
Theorem signer_signs_once ops st trace st' i s :
  serve_signers ops st = (trace, st') ->
  (times i s DidSign trace + live_count st' i s <= times i s DidBegin trace + live_count st i s)%nat /\
  (times i s DidBegin trace + live_count st i s <=
     times i s DidSign trace + times i s DidDrop trace + live_count st' i s)%nat.
Proof.
  revert st trace st'. induction ops as [|o ops IH]; intros st trace st'; simpl.
  { intros [= <- <-]. unfold times. simpl. lia. }
  destruct (serve_signer o st) as [x st1] eqn:Eo. destruct (serve_signers ops st1) as [ds st2] eqn:Er.
  intros [= <- <-]. destruct (IH _ _ _ Er) as [Hu Hl].
  pose proof (serve_signer_spec o st i s x st1 Eo) as Hx. rewrite !times_cons. unfold live_count in *.
  destruct x as [[i0 s0] d]. simpl in Hx. destruct (decide ((i0, s0) = (i, s))) as [Heq|Hne].
  - simplify_eq. destruct d; [destruct Hx as [-> E1]|destruct Hx as [-> E1]| |subst st1];
      try rewrite E1 in *; try rewrite Hx in *; repeat case_decide; simplify_eq; try lia.
    destruct (signer_live st i s); lia.
  - rewrite Hx in *. rewrite !decide_False by congruence. lia.
Qed.
End Contract.

(** ** [MockSigner] *)

Section Mock.
Context `{Hashing}.

(** [HashSet<(String, Session)>]. *)
Record MockSigner := { mock_pubshare : Secp256k1Pubkey; mock_sessions : gset (string * Session) }.

Definition MockSigner_new : MockSigner :=
  {| mock_pubshare := mk_secp ("02" +:+ String.concat EmptyString (repeat "42" 32)); mock_sessions := ∅ |}.

Definition set_mock_sessions (g : MockSigner) (ss : gset (string * Session)) : MockSigner :=
  {| mock_pubshare := mock_pubshare g; mock_sessions := ss |}.

Definition session_bytes (s : Session) : string :=
  match s with SettleSession => "settle" | RefundSession => "refund" end.

Definition id_debug (id : SwapId) : string := "SwapId(" +:+ debug_str (id_str id) +:+ ")".

Definition mock_begin_session (id : SwapId) (s : Session) (g : MockSigner) : res PubNonce * MockSigner :=
  let key := (id_str id, s) in
  if decide (key ∈ mock_sessions g) then
    (Err (Musig2 ("session already begun for " +:+ id_debug id +:+ " × " +:+ session_debug s)), g)
  else
    let half := sha256_hex (id_str id +:+ session_bytes s) in
    (Ok (mk_pub_nonce (half +:+ half)), set_mock_sessions g ({[key]} ∪ mock_sessions g)).

Definition mock_partial_sign (id : SwapId) (s : Session) (tx_hash : string)
    (alice_pubshare : Secp256k1Pubkey) (alice_pub_nonce : PubNonce) (g : MockSigner)
  : res PartialSig * MockSigner :=
  let key := (id_str id, s) in
  if decide (key ∈ mock_sessions g) then
    (Ok (mk_partial (sha256_hex (id_str id +:+ session_bytes s +:+ tx_hash))),
     set_mock_sessions g (mock_sessions g ∖ {[key]}))
  else (Err (Musig2 ("no live session for " +:+ id_debug id +:+ " × " +:+ session_debug s)), g).

Definition mock_discard_session (id : SwapId) (s : Session) (g : MockSigner) : res unit * MockSigner :=
  (Ok tt, set_mock_sessions g (mock_sessions g ∖ {[(id_str id, s)]})).

#[export] Instance MockSigner_signer : Musig2Signer MockSigner := {|
  pubshare := mock_pubshare;
  signer_begin := mock_begin_session;
  signer_sign := mock_partial_sign;
  signer_discard := mock_discard_session;
|}.

Definition mock_live (g : MockSigner) (i : SwapId) (s : Session) : bool :=
  bool_decide ((id_str i, s) ∈ mock_sessions g).

Lemma toggled_key live i s b i' s' :
  toggled live i s b i' s' = if bool_decide ((id_str i', s') = (id_str i, s)) then b else live i' s'.
Proof.
  unfold toggled. replace (bool_decide ((id_str i', s') = (id_str i, s)))
    with (bool_decide (i' = i) && same_session s' s); [done|].
  apply Bool.eq_iff_eq_true. rewrite <- session_key, bool_decide_eq_true.
  split; congruence.
Qed.

Lemma mock_live_insert ss k k' :
  bool_decide (k' ∈ ({[k]} ∪ ss : gset (string * Session))) =
    if bool_decide (k' = k) then true else bool_decide (k' ∈ ss).
Proof.
  destruct (decide (k' = k)) as [->|Hne]; [rewrite !bool_decide_true by set_solver; done|].
  rewrite (bool_decide_false (k' = k)) by done. apply bool_decide_ext. set_solver.
Qed.

Lemma mock_live_delete ss k k' :
  bool_decide (k' ∈ (ss ∖ {[k]} : gset (string * Session))) =
    if bool_decide (k' = k) then false else bool_decide (k' ∈ ss).
Proof.
  destruct (decide (k' = k)) as [->|Hne].
  - rewrite (bool_decide_true (k = k)) by done. apply bool_decide_false. set_solver.
  - rewrite (bool_decide_false (k' = k)) by done. apply bool_decide_ext. set_solver.
Qed.

#[export, refine] Instance MockSigner_contract : SignerContract MockSigner :=
  {| signer_live := mock_live |}.
Proof.
  - intros g i s r g'. simpl. unfold mock_begin_session, mock_live.
    case_decide as Hin; intros [= <- <-]; [by rewrite bool_decide_true|].
    split; [by apply bool_decide_false|]. intros i' s'. rewrite toggled_key. apply mock_live_insert.
  - intros g i s h k n r g'. simpl. unfold mock_partial_sign, mock_live.
    case_decide as Hin; intros [= <- <-]; simpl; (split; [intros ?; try done; by apply bool_decide_true|]);
      intros i' s'; rewrite toggled_key; [apply mock_live_delete|].
    destruct (decide ((id_str i', s') = (id_str i, s))) as [E|Hne].
    + rewrite (bool_decide_true _ E), E. by apply bool_decide_false.
    + by rewrite (bool_decide_false _ Hne).
  - intros g i s r g'. simpl. unfold mock_discard_session, mock_live. intros [= <- <-].
    split; [done|]. intros i' s'. rewrite toggled_key. apply mock_live_delete.
  - intros g i s h k n. simpl. unfold mock_begin_session, mock_partial_sign. by repeat case_decide.
Defined.
End Mock.

(** ** [RealSigner]

    The sessions of [RefereeWorld] with the key, and the thread's generator. *)

Class ThreadRng (R : Type) := { fill_bytes : R -> string * R }.

Section Real.
Context `{Hashing, Musig2Crate} {R : Type} `{ThreadRng R}.

Record RealState := mk_real {
  real_key : RealSigner;
  real_sessions : gmap (string * Session) LiveSession;
  real_rng : R;
}.

Definition real_pubshare (g : RealState) : Secp256k1Pubkey :=
  mk_secp (hex_encode (pk_serialize (pk (real_key g)))).

#[export] Instance RealSigner_signer : Musig2Signer RealState := {|
  pubshare := real_pubshare;
  signer_begin i s g :=
    match real_sessions g !! (id_str i, s) with
    | Some _ => ((begin_session (real_key g) "" (real_sessions g) i s).1, g)
    | None =>
        let (seed, rng) := fill_bytes (real_rng g) in
        let (x, ss) := begin_session (real_key g) seed (real_sessions g) i s in
        (x, mk_real (real_key g) ss rng)
    end;
  signer_sign i s h k n g :=
    let (x, ss) := partial_sign (real_key g) (real_sessions g) i s h k n in
    (x, mk_real (real_key g) ss (real_rng g));
  signer_discard i s g :=
    (Ok tt, mk_real (real_key g) (discard_session (real_sessions g) i s) (real_rng g));
|}.

#[export, refine] Instance RealSigner_contract : SignerContract RealState :=
  {| signer_live g := live_in (real_sessions g) |}.
Proof.
  - intros g i s r g'. simpl. destruct (real_sessions g !! (id_str i, s)) as [l|] eqn:El.
    + unfold begin_session. rewrite El. intros [= <- <-]. split; [|done].
      unfold live_in. rewrite El. by apply bool_decide_true.
    + destruct (fill_bytes _) as [seed rng].
      destruct (begin_session _ _ _ _ _) as [x ss] eqn:E. intros [= <- <-].
      unfold begin_session in E. rewrite El in E. injection E as <- <-. simpl.
      split; [unfold live_in; rewrite El; by apply bool_decide_false; intros []|].
      intros i' s'. by rewrite live_in_insert.
  - intros g i s h k n r g'. simpl. destruct (partial_sign _ _ _ _ _ _ _) as [x ss] eqn:E.
    intros [= <- <-]. apply partial_sign_live in E as [Hl ->]. split; [done|]. intros i' s'. simpl.
    by rewrite live_in_delete.
  - intros g i s r g'. simpl. intros [= <- <-]. split; [done|]. intros i' s'. simpl.
    unfold discard_session. by rewrite live_in_delete.
  - intros g i s h k n. simpl. unfold real_pubshare. split; [|split; [|done]].
    + case_match; simpl; [done|]. destruct (fill_bytes _). by destruct (begin_session _ _ _ _ _).
    + by destruct (partial_sign _ _ _ _ _ _ _).
Defined.
End Real.

(** ** Files of keys *)

(** [char::is_whitespace], as the UTF-8 encodings of the characters. *)
Definition spaces : list (list Z) :=
  ((fun n => [Z.of_nat n]) <$> seq 9 5) ++ [[32]; [194; 133]; [194; 160]; [225; 154; 128]]
  ++ ((fun n => [226; 128; Z.of_nat n]) <$> seq 128 11)
  ++ [[226; 128; 168]; [226; 128; 169]; [226; 128; 175]; [226; 129; 159]; [227; 128; 128]].

Fixpoint strip_list (pre s : list Z) : option (list Z) :=
  match pre, s with
  | [], _ => Some s
  | a :: pre', b :: s' => if a =? b then strip_list pre' s' else None
  | _, [] => None
  end.

(** One character of [ws] at a time off the front; [fuel] is the length. *)
Fixpoint trim_front (fuel : nat) (ws : list (list Z)) (s : list Z) : list Z :=
  match fuel with
  | O => s
  | S fuel' =>
      match head (omap (fun w => strip_list w s) ws) with
      | Some s' => trim_front fuel' ws s'
      | None => s
      end
  end.

(** [str::trim]. *)
Definition str_trim (s : string) : string :=
  let b := List.map (fun c => Z.of_nat (nat_of_ascii c)) (list_ascii_of_string s) in
  let front := trim_front (length b) spaces b in
  let back := @rev Z (trim_front (length b) (List.map (@rev Z) spaces) (@rev Z front)) in
  string_of_list_ascii (List.map (fun z => ascii_of_nat (Z.to_nat z)) back).

(** [std::fs]: the text, and the bytes, at a path. *)
Class Files := {
  read_to_string : string -> result string string;
  read : string -> result string string;
}.

Section Keys.
Context `{Hashing, Ed25519Signer, Musig2Crate, Files}.

(** [Identity::load_from_file]. *)
Definition load_identity (path : string) : res SigningKey :=
  s ← map_err (fun e => Crypto ("identity file: " +:+ e)) (read_to_string path);
  bytes ← map_err (fun e => Crypto ("identity hex: " +:+ e)) (hex_decode (str_trim s));
  if (String.length bytes =? 32)%nat then Ok (sk_from_bytes bytes)
  else Err (Crypto ("identity must be 32 bytes, got " +:+ show_u64 (Z.of_nat (String.length bytes)))).

Definition pubkey_hex (sk : SigningKey) : string := hex_encode (vk_as_bytes sk).

(** [RealSigner::load_from_file], without its empty table of sessions. *)
Definition load_signer (path : string) : res RealSigner :=
  raw ← map_err (fun e => Crypto ("musig2 secret file: " +:+ e)) (read_to_string path);
  bytes ← map_err (fun e => Crypto ("musig2 secret hex: " +:+ e)) (hex_decode (str_trim raw));
  if (String.length bytes =? 32)%nat then
    sk ← map_err (fun e => Crypto ("musig2 secret: " +:+ e)) (sk_from_slice bytes);
    Ok {| sk := sk; pk := sk_public_key sk |}
  else Err (Crypto "musig2 secret must be 32 bytes").
End Keys.

(** ** Verifiers ([zkp.rs]) *)

(** [MockVerifier]: the outcomes still scripted. *)
Definition with_outcomes (outcomes : list bool) : list bool := outcomes.
Definition always_ok : list bool := with_outcomes [].
Definition always_reject : list bool := repeat false (Z.to_nat 1024).

Definition mock_verify (_ : Circuit) (_ : Groth16Proof) (q : list bool) : res bool * list bool :=
  (Ok (default true (head q)), tail q).

(** The arkworks crates. *)
Class Groth16Crate := {
  G16Proof : Type; Fr : Type; VerifyingKey16 : Type; PreparedKey : Type;
  vk_deserialize : string -> result string VerifyingKey16;
  vk_prepare : VerifyingKey16 -> PreparedKey;
  proof_deserialize : string -> result string G16Proof;
  fr_from_be_bytes_mod_order : string -> Fr;
  verify_proof : PreparedKey -> G16Proof -> list Fr -> result string bool;
}.

Section Arkworks.
Context `{Groth16Crate, Files}.

Record ArkworksVerifier := { vk_bob_payload : PreparedKey; vk_alice_signature : PreparedKey }.

Definition load_vk (path : string) : res VerifyingKey16 :=
  bytes ← map_err (fun e => Crypto ("vk read " +:+ path +:+ ": " +:+ e)) (read path);
  map_err (fun e => Crypto ("vk decode " +:+ path +:+ ": " +:+ e)) (vk_deserialize bytes).

Definition load_verifier (vk_bob_path vk_alice_path : string) : res ArkworksVerifier :=
  vk_bob ← load_vk vk_bob_path;
  vk_alice ← load_vk vk_alice_path;
  Ok {| vk_bob_payload := vk_prepare vk_bob; vk_alice_signature := vk_prepare vk_alice |}.

Definition vk_for (v : ArkworksVerifier) (c : Circuit) : PreparedKey :=
  match c with CircuitBobPayload => vk_bob_payload v | CircuitAliceSignature => vk_alice_signature v end.

Definition decode_proof (bytes : string) : res G16Proof :=
  map_err (fun e => Crypto ("proof decode: " +:+ e)) (proof_deserialize bytes).

Definition decode_public_inputs (inputs : list string) : res (list Fr) :=
  mapM (fun bytes =>
    if (32 <? String.length bytes)%nat then Err (Crypto "public input larger than 32 bytes")
    else Ok (fr_from_be_bytes_mod_order bytes)) inputs.

Definition ark_verify (v : ArkworksVerifier) (c : Circuit) (p : Groth16Proof) : res bool :=
  g ← decode_proof (proof p);
  inputs ← decode_public_inputs (public_inputs p);
  map_err (fun e => Crypto ("groth16 verify: " +:+ e)) (verify_proof (vk_for v c) g inputs).

(** A proof is accepted exactly when it and its inputs decode and the pairing
    check holds; whatever does not decode is an error of the class [Crypto],
    which is not the rejection of a proof. *)
Lemma ark_verify_exact v c p :
  (ark_verify v c p = Ok true <->
     exists g inputs, proof_deserialize (proof p) = Ok g /\
       Forall (fun b => (String.length b <= 32)%nat) (public_inputs p) /\
       inputs = fr_from_be_bytes_mod_order <$> public_inputs p /\
       verify_proof (vk_for v c) g inputs = Ok true) /\
  (forall e, ark_verify v c p = Err e -> exists m, e = Crypto m).
Proof.
  assert (forall l, Forall (fun b => (String.length b <= 32)%nat) l /\
      decode_public_inputs l = Ok (fr_from_be_bytes_mod_order <$> l) \/
    ~ Forall (fun b => (String.length b <= 32)%nat) l /\
      decode_public_inputs l = Err (Crypto "public input larger than 32 bytes")) as Hin.
  { induction l as [|b l IH]; [by left|]. unfold decode_public_inputs in *. cbn [mapM].
    destruct (Nat.ltb_spec 32 (String.length b)); [right; split; [|done]; intros [? _]%Forall_cons; lia|].
    destruct IH as [[Hl ->]|[Hl ->]]; [left|right]; (split; [|done]).
    - constructor; [lia|done].
    - by intros [_ ?]%Forall_cons. }
  assert (forall (P : Prop) m, ~ P ->
    (@Err RefereeError bool (Crypto m) = Ok true <-> P) /\
    (forall e, @Err RefereeError bool (Crypto m) = Err e -> exists m, e = Crypto m)) as Herr
    by (intros P m HP; split; [by split|intros e [= <-]; by exists m]).
  unfold ark_verify, decode_proof.
  destruct (proof_deserialize (proof p)) as [g|e] eqn:Eg; simpl; [|apply Herr; by intros (? & ? & [=] & _)].
  destruct (Hin (public_inputs p)) as [[Hl ->]|[Hl ->]]; simpl; [|apply Herr; by intros (? & ? & _ & ? & _)].
  destruct (verify_proof _ _ _) as [b|e] eqn:Ev; simpl;
    [|apply Herr; intros (g' & i & [= <-] & _ & -> & E); congruence].
  split; [|done]. split; [intros [= ->]; by exists g, (fr_from_be_bytes_mod_order <$> public_inputs p)|].
  intros (g' & i & [= <-] & _ & -> & E). congruence.
Qed.
End Arkworks.

(** ** [HttpPush] ([push.rs]) *)

(** [serde_json], [hmac] and [reqwest]; the answer of a POST is its status. *)
Class PushCrates (W : Type) := {
  push_to_vec : PushRequest -> result string string;
  hmac_sha256 : string -> string -> string;
  http_post : string -> list (string * string) -> string -> W -> result string Z * W;
  status_display : Z -> string;
}.

Section HttpPush.
Context `{Hashing} {W : Type} `{PushCrates W}.

Record HttpPush := { url : string; hmac_key : string }.

Definition hmac (self : HttpPush) (body : string) : string := hex_encode (hmac_sha256 (hmac_key self) body).

Definition dispatch (self : HttpPush) (req : PushRequest) (w : W) : res unit * W :=
  match push_to_vec req with
  | Err e => (Err (BadRequest ("json: " +:+ e)), w)
  | Ok body =>
      let (resp, w') := http_post (url self)
        [("X-Push-HMAC", hmac self body); ("Content-Type", "application/json")] body w in
      (match resp with
       | Err e => Err (Push ("send: " +:+ e))
       | Ok status =>
           if (200 <=? status) && (status <? 300) then Ok tt
           else Err (Push ("push provider returned " +:+ status_display status))
       end, w')
  end.

(** The push counts as delivered exactly on a 2xx answer to the signed body. *)
Lemma dispatch_exact self req w r w' :
  dispatch self req w = (r, w') ->
  (r = Ok tt <-> exists body status, push_to_vec req = Ok body /\
     http_post (url self) [("X-Push-HMAC", hmac self body); ("Content-Type", "application/json")] body w
       = (Ok status, w') /\ 200 <= status < 300).
Proof.
  unfold dispatch. destruct (push_to_vec req) as [body|e]; [|intros [= <- <-]; naive_solver].
  destruct (http_post _ _ _ _) as [[status|e] w1] eqn:Ep; intros [= <- <-];
    [|split; [done|]; intros (b & st & [= <-] & E & _); congruence].
  split.
  - destruct (Z.leb_spec 200 status), (Z.ltb_spec status 300); simpl; try done. intros _.
    by exists body, status.
  - intros (b & st & [= <-] & E & ?). assert (st = status) as -> by congruence.
    by rewrite (proj2 (Z.leb_le _ _)), (proj2 (Z.ltb_lt _ _)) by lia.
Qed.
End HttpPush.
