(* ===== verification/RefereeRouter.v ===== *)
(** * The referee's HTTP router

    [referee/src/api/router.rs]: the route table, the extractors, one handler
    per endpoint and the mapping of errors.  Matching a path against a
    pattern, percent-decoding and [Json]'s deserialisation are [axum]'s. *)
From S2P Require Import Prelude Decimal External RefereeState RefereeWorld RefereeView Orchestrator.
From S2P Require Import RefereeFacts RefereeSafety RefereeSigner.

Definition VERSION : string := "0.3.3".

(** ** Bodies *)

Record PubkeyResponse := {
  ed25519_pubkey_hex : string; musig2_pubshare_hex : string; referee_version : string }.

Record InitiateRequest := {
  iq_parties : Parties; iq_bob : BobPayload; iq_alice : AlicePayload; iq_alice_nonces : AliceMusig2Nonces }.
Record InitiateResponse := { i_swap_id : string; i_phase : string }.

Record AckRequest := { ack_kind : string; receipt_sig_hex : string }.

Record CancelRequest := { by_pgp_fp : string; reason : string; signature_hex : string }.
Record CancelResponse := { c_swap_id : string; c_phase : string; c_terminal : bool }.

(** The object of [poll_status], key by key. *)
Record PollStatus := {
  p_swap_id : string; p_status : string; p_phase : string; p_terminal : bool;
  p_bob_pgp_fp : string; p_alice_pgp_fp : string;
  p_created_at_unix : Z; p_updated_at_unix : Z; p_insert_push_attempts : Z;
  p_cancel_reason : option string; p_canceled_by_pgp_fp : option PgpFingerprint;
  p_htlc_refund_contract_id : option string }.

(** ** Errors *)

Definition error_message (e : RefereeError) : string :=
  match e with
  | BadRequest m | ZkpRejected m | Musig2 m | InvalidTransition m | Store m | External m | Push m
  | Crypto m | Internal m => m
  end.

(** [{:?}]. *)
Definition error_debug (e : RefereeError) : string :=
  match e with
  | BadRequest _ => "BadRequest" | ZkpRejected _ => "ZkpRejected" | Musig2 _ => "Musig2"
  | InvalidTransition _ => "InvalidTransition" | Store _ => "Store" | External _ => "External"
  | Push _ => "Push" | Crypto _ => "Crypto" | Internal _ => "Internal"
  end +:+ "(" +:+ debug_str (error_message e) +:+ ")".

(** The response of an [ApiError]. *)
Definition error_response (e : RefereeError) : Z * json :=
  (http_status e, JObj [("error", JStr (error_message e)); ("kind", JStr (error_debug e))]).

(** ** Routes *)

Inductive Method := GET | POST.
#[export] Instance Method_eq_dec : EqDecision Method.
Proof. solve_decision. Defined.

Inductive Seg := Lit (s : string) | Param.

(** A literal segment matches itself, a parameter any segment but the empty one. *)
Fixpoint match_path (pattern : list Seg) (path : list string) : option (list string) :=
  match pattern, path with
  | [], [] => Some []
  | Lit s :: pattern', x :: path' => if (s =? x)%string then match_path pattern' path' else None
  | Param :: pattern', x :: path' =>
      if (x =? EmptyString)%string then None else cons x <$> match_path pattern' path'
  | _, _ => None
  end.

(** A request as its handler receives it. *)
Inductive Endpoint :=
  | EPubkey
  | EInitiate (req : InitiateRequest)
  | EAdvance (id : string)
  | ECancel (id : string) (req : CancelRequest)
  | EAudit (id : string)
  | EPoll (id : string)
  | EAck (id : string) (req : AckRequest)
  | EPartySwaps (fp : string).

(** [axum]'s extractors; [AdvanceRequest] has no field. *)
Class Axum := {
  Rejection : Type;
  rejection_status : Rejection -> Z;
  percent_decode : string -> result Rejection string;
  json_initiate : string -> result Rejection InitiateRequest;
  json_advance : string -> result Rejection unit;
  json_cancel : string -> result Rejection CancelRequest;
  json_ack : string -> result Rejection AckRequest;
}.

Record HttpRequest := { method : Method; path : list string; http_body : string }.

Section Extract.
Context `{Axum}.

(** The handlers' signatures: path first, then the body. *)
Definition with_path (f : string -> string -> result Rejection Endpoint) (raw : list string)
    (body : string) : result Rejection Endpoint :=
  match raw with
  | x :: _ => y ← percent_decode x; f y body
  | [] => f EmptyString body
  end.

Definition build_router : list (Method * list Seg * (list string -> string -> result Rejection Endpoint)) := [
  (GET, [Lit "v1"; Lit "pubkey"], fun _ _ => Ok EPubkey);
  (POST, [Lit "v1"; Lit "swap"; Lit "initiate"],
    fun _ body => req ← json_initiate body; Ok (EInitiate req));
  (POST, [Lit "v1"; Lit "swap"; Param; Lit "advance"],
    with_path (fun id body => _ ← json_advance body; Ok (EAdvance id)));
  (POST, [Lit "v1"; Lit "swap"; Param; Lit "cancel"],
    with_path (fun id body => req ← json_cancel body; Ok (ECancel id req)));
  (GET, [Lit "v1"; Lit "swap"; Param; Lit "audit"], with_path (fun id _ => Ok (EAudit id)));
  (POST, [Lit "v1"; Lit "swap"; Param; Lit "poll"], with_path (fun id _ => Ok (EPoll id)));
  (POST, [Lit "v1"; Lit "swap"; Param; Lit "ack"],
    with_path (fun id body => req ← json_ack body; Ok (EAck id req)));
  (GET, [Lit "v1"; Lit "parties"; Param; Lit "swaps"], with_path (fun fp _ => Ok (EPartySwaps fp)))
]%string.

(** What is answered without a handler. *)
Inductive Refusal := NotFound | MethodNotAllowed | Rejected (r : Rejection).

Definition refusal_status (r : Refusal) : Z :=
  match r with NotFound => 404 | MethodNotAllowed => 405 | Rejected r => rejection_status r end.

Definition extract (h : HttpRequest) : result Refusal Endpoint :=
  match head (omap (fun r : Method * list Seg * _ =>
      raw ← match_path r.1.2 (path h); Some (r.1.1, r.2, raw)) build_router) with
  | Some (m, f, raw) =>
      if decide (m = method h) then map_err Rejected (f raw (http_body h)) else Err MethodNotAllowed
  | None => Err NotFound
  end.
End Extract.

(** ** Handlers *)

(** A 200 reply, or an [ApiError]. *)
Inductive ApiReply :=
  | RPubkey (b : PubkeyResponse)
  | RInitiate (b : InitiateResponse)
  | RAdvance (b : AdvanceResponse)
  | RCancel (b : CancelResponse)
  | RAudit (l : list AuditEntry)
  | RPoll (b : PollStatus)
  | RAck
  | RSwaps (l : list TransactionSummary)
  | RError (e : RefereeError).

Definition reply_status (r : ApiReply) : Z := match r with RError e => (error_response e).1 | _ => 200 end.

Definition poll_body `{SwapJson} (tx : Transaction) : PollStatus := {|
  p_swap_id := id_str (t_swap_id tx);
  p_status := status_str (t_status tx);
  p_phase := t_phase tx;
  p_terminal := t_terminal tx;
  p_bob_pgp_fp := fp_hex (t_bob_pgp_fp tx);
  p_alice_pgp_fp := fp_hex (t_alice_pgp_fp tx);
  p_created_at_unix := t_created_at_unix tx;
  p_updated_at_unix := t_updated_at_unix tx;
  p_insert_push_attempts := t_insert_push_attempts tx;
  p_cancel_reason := t_cancel_reason tx;
  p_canceled_by_pgp_fp := t_canceled_by_pgp_fp tx;
  p_htlc_refund_contract_id := t_htlc_refund_contract_id tx |}.

Section Router.
Context `{SwapJson, Hashing, Ed25519, Ed25519Signer, EntryCodec, Musig2Crate, Base64Standard}.
Context `{Axum}.
Variable K : Keys.
Variable self : Orchestrator.

Definition pubkey : PubkeyResponse := {|
  ed25519_pubkey_hex := pubkey_hex (identity K);
  musig2_pubshare_hex := hex_encode (pk_serialize (pk (musig_key K)));
  referee_version := VERSION |}.

Definition router_initiate (req : InitiateRequest) : M InitiateResponse :=
  id ← start_swap self (iq_parties req) (iq_bob req) (iq_alice req) (iq_alice_nonces req);
  mret {| i_swap_id := id_str id; i_phase := "insert-pushed" |}.

Definition audit_for (raw : string) : M (list AuditEntry) := call (AuditEntriesFor (mk_id raw)).

Definition poll_status (raw : string) : M PollStatus :=
  row ← call (StoreGet (mk_id raw));
  tx ← lift (ok_or row (BadRequest "unknown swap_id"));
  mret (poll_body tx).

Definition router_cancel (raw : string) (req : CancelRequest) : M CancelResponse :=
  _ ← cancel_swap self (mk_id raw) (mk_fp (by_pgp_fp req)) (reason req) (signature_hex req);
  mret {| c_swap_id := raw; c_phase := "canceled"; c_terminal := true |}.

Definition router_party_swaps (fp : string) : M (list TransactionSummary) := call (StoreListByParty (mk_fp fp)).

(** [map_err(ApiError)] and [Json]. *)
Definition answer {A} (ok : A -> ApiReply) (m : M A) : prog ApiReply :=
  pbind m (fun r => Ret match r with Ok a => ok a | Err e => RError e end).

Definition serve_endpoint (e : Endpoint) : prog ApiReply :=
  match e with
  | EPubkey => Ret (RPubkey pubkey)
  | EInitiate req => answer RInitiate (router_initiate req)
  | EAdvance id => answer RAdvance (router_advance self id)
  | ECancel id req => answer RCancel (router_cancel id req)
  | EAudit id => answer RAudit (audit_for id)
  | EPoll id => answer RPoll (poll_status id)
  | EAck _ _ => Ret RAck
  | EPartySwaps fp => answer RSwaps (router_party_swaps fp)
  end.

(** The whole service: one HTTP request to one status and reply. *)
Definition serve_http (h : HttpRequest) : prog (result Refusal ApiReply) :=
  match extract h with
  | Ok e => pbind (serve_endpoint e) (fun r => Ret (Ok r))
  | Err r => Ret (Err r)
  end.

Definition http_reply_status (r : result Refusal ApiReply) : Z :=
  match r with Ok a => reply_status a | Err r => refusal_status r end.

(** ** What a reply says *)

Context {W : Type} `{World W} `{!SwapJsonLaws}.
Notation Referee := (St (W := W)).

Hypothesis Hretry : u8_range (insert_push_retry self).

(** The swap an endpoint may change. *)
Definition endpoint_target (e : Endpoint) (st : Referee) : option SwapId :=
  match e with
  | EInitiate _ => Some (next_id st)
  | EAdvance i => Some (mk_id i)
  | ECancel i _ => Some (mk_id i)
  | _ => None
  end.

Definition row_in (st : Referee) (i phase : string) (terminal : bool) : Prop :=
  exists tx, get (store st) (mk_id i) = Some tx /\ t_phase tx = phase /\ t_terminal tx = terminal.

(** Before, request, reply, after. *)
Definition truthful (st : Referee) (e : Endpoint) (r : ApiReply) (st' : Referee) : Prop :=
  match e, r with
  | EPubkey, RPubkey b => b = pubkey
  | EInitiate _, RInitiate b => mk_id (i_swap_id b) = next_id st /\ row_in st' (i_swap_id b) (i_phase b) false
  | EAdvance i, RAdvance b => a_swap_id b = i /\ row_in st' i (a_phase b) (a_terminal b)
  | ECancel i _, RCancel b => c_swap_id b = i /\ row_in st' i (c_phase b) (c_terminal b)
  | EAudit i, RAudit l => l = entries_for (audit st) (mk_id i) /\ linked K l
  | EPoll i, RPoll b =>
      row_in st i (p_phase b) (p_terminal b) /\
      p_status b = status_str (for_phase (p_phase b)) /\ p_terminal b = is_terminal (for_phase (p_phase b))
  | EPoll i, RError e => e = BadRequest "unknown swap_id" /\ get (store st) (mk_id i) = None
  | EAck _ _, RAck => True
  | EPartySwaps fp, RSwaps l => l = list_by_party (store st) (mk_fp fp)
  | EInitiate _, RError e | EAdvance _, RError e | ECancel _ _, RError e => 400 <= http_status e < 600
  | _, _ => False
  end.

Lemma http_status_error e : 400 <= http_status e < 600.
Proof. destruct e; simpl; lia. Qed.

Lemma run_answer {A} (ok : A -> ApiReply) (m : M A) (st : Referee) :
  run K (answer ok m) st =
    let (r, st') := run K m st in (match r with Ok a => ok a | Err e => RError e end, st').
Proof. unfold answer. rewrite run_pbind. by destruct (run K m st). Qed.

Lemma run_bind {A B} (m : M A) (f : A -> M B) (st : Referee) :
  run K (m ≫= f) st =
    let (r, st') := run K m st in match r with Ok a => run K (f a) st' | Err e => (Err e, st') end.
Proof. unfold mbind, M_bind. rewrite run_pbind. by destruct (run K m st) as [[a|e] st']. Qed.

Lemma row_phase id v tx :
  row_ok self id v tx ->
  t_status tx = for_phase (t_phase tx) /\ t_terminal tx = is_terminal (for_phase (t_phase tx)).
Proof. by intros [(P & s & (? & ? & ? & ? & ? & ->) & _)|(_ & -> & -> & -> & _)]. Qed.

Lemma frame_row (st st' : Referee) id : frame (view id st) (view id st') ->
  get (store st') id = get (store st) id.
Proof. intros [c Ec]. change (v_row (view id st') = v_row (view id st)). by rewrite Ec. Qed.

(** The three endpoints that change a swap serve a request of [RefereeSafety]. *)
Lemma initiate_truthful req (st : Referee) r st' :
  reachable K self st -> unused (next_id st) st ->
  run K (serve_endpoint (EInitiate req)) st = (r, st') ->
  reachable K self st' /\ truthful st (EInitiate req) r st' /\
  forall i, i <> next_id st -> get (store st') i = get (store st) i.
Proof.
  intros Hr Hu. cbn [serve_endpoint]. rewrite run_answer. unfold router_initiate. rewrite run_bind.
  set (rq := ReqStart (iq_parties req) (iq_bob req) (iq_alice req) (iq_alice_nonces req)).
  assert (reachable K self (serve K self rq st)) as Hr1 by (apply reach_serve; [done|]; intros; done).
  unfold rq, serve in Hr1.
  destruct (start_run K self (iq_parties req) (iq_bob req) (iq_alice req) (iq_alice_nonces req) st)
    as (now & st0 & Erun & Es & _ & Ev). rewrite Erun in *.
  pose proof (vwp_run K (next_id st) _ _ st0 (wp_start_with K self (next_id st) now (iq_parties req)
    (iq_bob req) (iq_alice req) (iq_alice_nonces req)
    (view (next_id st) st0) ltac:(by rewrite Ev))) as Hw.
  destruct (run K (start_with _ _ _ _ _ _ _) st0) as [[i|e] st1]; cbn [fst snd] in *;
    [change (run K (mret ?x) ?s) with (@Ok RefereeError _ x, s)|]; intros [= <- <-];
    destruct Hw as (Hw & Hf & _); (split; [done|]); (split; [|by intros i' Hne; rewrite <- Es; apply frame_row, Hf]).
  - destruct Hw as [Hi (s & tx & Hs & _)]. rewrite (Hi i eq_refl).
    assert (mk_id (id_str (next_id st)) = next_id st) as En by (by destruct (next_id st)).
    unfold truthful, row_in. cbn [i_swap_id i_phase]. rewrite En. split; [done|]. exists tx.
    pose proof (holds_phase _ _ _ _ _ _ Hs) as Hph. destruct Hs as (_ & Hg & (? & ? & ? & ? & ? & ->) & _).
    done.
  - apply http_status_error.
Qed.

Lemma advance_truthful i (st : Referee) r st' :
  reachable K self st -> run K (serve_endpoint (EAdvance i)) st = (r, st') ->
  reachable K self st' /\ truthful st (EAdvance i) r st' /\
  forall j, j <> mk_id i -> get (store st') j = get (store st) j.
Proof.
  intros Hr. cbn [serve_endpoint]. rewrite run_answer. unfold router_advance. rewrite run_bind.
  assert (reachable K self (serve K self (ReqAdvance (mk_id i)) st)) as Hr1
    by (by apply reach_serve). unfold serve in Hr1.
  destruct (run K (advance_swap self (mk_id i)) st) as [r1 st1] eqn:Ea. simpl in Hr1.
  destruct (get (store st) (mk_id i)) as [tx|] eqn:Eg.
  - destruct (advance_step K self Hretry (mk_id i) st tx r1 st1 Hr Eg Ea) as [(tx' & Eg' & Hs & _) Hoth].
    destruct r1 as [o|e]; [|intros [= <- <-]; (split; [done|]); split; [apply http_status_error|done]].
    rewrite run_bind. simpl. rewrite Eg'. simpl. intros [= <- <-]. split; [done|]. split; [|done].
    simpl. split; [done|]. exists tx'. split; [done|]. split; [done|]. destruct o as [o|]; simpl in Hs.
    + apply (terminal_outcome_iff K self Hretry (mk_id i) st1 tx' Hr1 Eg'). by destruct Hs as [-> _].
    + by destruct Hs.
  - pose proof (vwp_run K _ _ _ st (wp_advance_unknown K self (mk_id i) (view (mk_id i) st) Eg)) as Hw.
    rewrite Ea in Hw. destruct Hw as ([-> _] & Hf & _). intros [= <- <-]. split; [done|].
    split; [simpl; lia|]. intros j Hne. by apply frame_row, Hf.
Qed.

Lemma cancel_truthful i req (st : Referee) r st' :
  reachable K self st -> run K (serve_endpoint (ECancel i req)) st = (r, st') ->
  reachable K self st' /\ truthful st (ECancel i req) r st' /\
  forall j, j <> mk_id i -> get (store st') j = get (store st) j.
Proof.
  intros Hr. cbn [serve_endpoint]. rewrite run_answer. unfold router_cancel. rewrite run_bind.
  set (rq := ReqCancel (mk_id i) (mk_fp (by_pgp_fp req)) (reason req) (signature_hex req)).
  assert (reachable K self (serve K self rq st)) as Hr1 by (by apply reach_serve).
  unfold rq, serve in Hr1. destruct (reachable_ok K self Hretry st Hr) as [HI _].
  destruct (get (store st) (mk_id i)) as [tx|] eqn:Eg.
  2: { rewrite cancel_unknown in * by done. intros [= <- <-]. split; [done|]. split; [simpl; lia|done]. }
  destruct (cancel_checks K self (mk_id i) (mk_fp (by_pgp_fp req)) (reason req) (signature_hex req) st tx Eg)
    as [(p & Hc & Erun)|[_ [e Erun]]]; rewrite Erun in *.
  2: { intros [= <- <-]. split; [done|]. split; [apply http_status_error|done]. }
  pose proof (cancel_allowed_phase _ _ _ _ _ _ Hc) as [Hna Hni].
  pose proof (vwp_run K (mk_id i) _ _ st (wp_cancel_commit K self (mk_id i) tx p (mk_fp (by_pgp_fp req)) (reason req)
    (view (mk_id i) st) (HI _) Eg (proj1 Hc) Hna Hni)) as Hw.
  destruct (run K (cancel_commit _ _ _ _ _ _) st) as [r1 st1]. destruct Hw as ([_ Hw] & Hf & _).
  assert (forall j, j <> mk_id i -> get (store st1) j = get (store st) j) as Hoth
    by (intros j Hne; by apply frame_row, Hf).
  destruct r1 as [[]|e]; simpl; intros [= <- <-]; (split; [done|]); (split; [|done]).
  - destruct Hw as [(tip & now & _ & Hrow & _)|([m [=]] & _)]. split; [done|]. by eexists.
  - apply http_status_error.
Qed.

(** One endpoint. *)
Lemma endpoint_truthful e (st : Referee) r st' :
  reachable K self st -> (forall req, e = EInitiate req -> unused (next_id st) st) ->
  run K (serve_endpoint e) st = (r, st') ->
  reachable K self st' /\ truthful st e r st' /\
  (endpoint_target e st = None -> st' = st) /\
  forall i, endpoint_target e st <> Some i -> get (store st') i = get (store st) i.
Proof.
  intros Hr Hu Erun. destruct (reachable_ok K self Hretry st Hr) as [HI _].
  assert (st' = st -> truthful st e r st' -> reachable K self st' /\ truthful st e r st' /\
    (endpoint_target e st = None -> st' = st) /\
    forall i, endpoint_target e st <> Some i -> get (store st') i = get (store st) i) as Hread by (by intros ->).
  destruct e as [|req|i|i req|i|i|i req|fp].
  - simpl in Erun. simplify_eq. by apply Hread.
  - destruct (initiate_truthful req st r st' Hr (Hu req eq_refl) Erun) as (? & ? & Ho).
    split; [done|]. split; [done|]. split; [done|]. intros i Hi. apply Ho. intros ->. by apply Hi.
  - destruct (advance_truthful i st r st' Hr Erun) as (? & ? & Ho).
    split; [done|]. split; [done|]. split; [done|]. intros j Hj. apply Ho. intros ->. by apply Hj.
  - destruct (cancel_truthful i req st r st' Hr Erun) as (? & ? & Ho).
    split; [done|]. split; [done|]. split; [done|]. intros j Hj. apply Ho. intros ->. by apply Hj.
  - simpl in Erun. simplify_eq. apply Hread; [done|]. split; [done|]. apply (HI (mk_id i)).
  - simpl in Erun. destruct (get (store st) (mk_id i)) as [tx|] eqn:Eg; simpl in Erun; simplify_eq;
      apply Hread; try done. destruct (row_phase _ _ _ (inv_row _ _ _ _ (HI (mk_id i)) tx Eg)) as [Es Et].
    simpl. rewrite Es. split; [by exists tx|done].
  - simpl in Erun. simplify_eq. by apply Hread.
  - simpl in Erun. simplify_eq. by apply Hread.
Qed.

(** C28: Over the in-memory store and log, requests being served one by one and a
    new swap drawing an unused id, every answer of the HTTP service is true of
    the store it leaves: the phase and the
    terminal flag a client reads are those of the row, a new swap is persisted
    under the id it is given, the history and the audit chain are the recorded
    ones, and only the addressed swap may have changed (none by a read). *)
Theorem replies_truthful h (st : Referee) r st' :
  reachable K self st -> (forall req, extract h = Ok (EInitiate req) -> unused (next_id st) st) ->
  run K (serve_http h) st = (r, st') ->
  reachable K self st' /\
  match extract h with
  | Ok e => exists a, r = Ok a /\ truthful st e a st' /\
      (endpoint_target e st = None -> st' = st) /\
      forall i, endpoint_target e st <> Some i -> get (store st') i = get (store st) i
  | Err f => r = Err f /\ st' = st
  end.
Proof.
  intros Hr Hu. unfold serve_http. destruct (extract h) as [e|f]; [|by intros [= <- <-]].
  rewrite run_pbind. destruct (run K (serve_endpoint e) st) as [a st1] eqn:Ee. simpl. intros [= <- <-].
  destruct (endpoint_truthful e st a st1 Hr) as (? & ? & ? & ?); [|done|].
  - intros req ->. by eapply Hu.
  - split; [done|]. by exists a.
Qed.
End Router.
