(* ===== verification/RefereeBoot.v ===== *)
(** * The referee's binary

    [referee/src/config.rs]: the configuration from the environment.
    [main.rs]: what the binary refuses, and the collaborators it wires.
    [clients/mod.rs]: the mock clients, which every build is wired with.  A
    step relation over the running requests, with any store, signer, verifier
    and interleaving, shows what follows for the swaps. *)
From S2P Require Import Prelude Decimal External RefereeState RefereeWorld RefereeView Orchestrator.
From S2P Require Import RefereeFacts RefereeSafety RefereeStores RefereeSigner RefereeRouter.

(** ** Configuration *)

(** [std::net::SocketAddr]. *)
Class SocketAddrStd := {
  SocketAddr : Type;
  parse_addr : string -> result string SocketAddr;
  show_addr : SocketAddr -> string;
}.

Section Config.
Context `{SocketAddrStd}.
Variable env : string -> option string.

Record Config := {
  cfg_bind : SocketAddr;
  identity_key_path : string;
  rgb_server_url : string;
  webcash_server_url : string;
  push_webhook_url : string;
  push_webhook_hmac_key_path : string;
  db_backend : string;
  redis_url : option string;
  dynamodb_endpoint : option string;
  fdb_cluster_file : option string;
  cfg_swap_max_age_secs : Z;
  cfg_insert_push_retry : Z;
  retry_backoff_ms : Z;
}.

Definition default_swap_max_age_secs : Z := 86400.
Definition default_insert_push_retry : Z := 3.
Definition default_retry_backoff_ms : Z := 250.

(** [str::parse::<u8>]. *)
Definition parse_u8 (s : string) : option Z := n ← parse_u64 s; if n <=? u8_max then Some n else None.

Definition require_env (key : string) : res string :=
  ok_or (env key) (Internal ("env " +:+ key +:+ " not set")).

(** [var(key).ok().and_then(|s| s.parse().ok()).unwrap_or_else(d)]. *)
Definition number_env (parse : string -> option Z) (key : string) (d : Z) : Z :=
  default d (env key ≫= parse).

Definition from_env : res Config :=
  bind_text ← require_env "REFEREE_BIND";
  addr ← map_err (fun e => BadRequest ("REFEREE_BIND: " +:+ e)) (parse_addr bind_text);
  identity ← require_env "REFEREE_IDENTITY_KEY_PATH";
  rgb ← require_env "REFEREE_RGB_SERVER_URL";
  webcash ← require_env "REFEREE_WEBCASH_SERVER_URL";
  push ← require_env "REFEREE_PUSH_WEBHOOK_URL";
  hmac ← require_env "REFEREE_PUSH_WEBHOOK_HMAC_KEY_PATH";
  Ok {| cfg_bind := addr;
        identity_key_path := identity;
        rgb_server_url := rgb;
        webcash_server_url := webcash;
        push_webhook_url := push;
        push_webhook_hmac_key_path := hmac;
        db_backend := default "inmem" (env "WEBCASH_DB_BACKEND");
        redis_url := env "REDIS_URL";
        dynamodb_endpoint := env "DYNAMODB_ENDPOINT";
        fdb_cluster_file := env "FDB_CLUSTER_FILE";
        cfg_swap_max_age_secs := number_env parse_u64 "REFEREE_SWAP_MAX_AGE_SECS" default_swap_max_age_secs;
        cfg_insert_push_retry := number_env parse_u8 "REFEREE_INSERT_PUSH_RETRY" default_insert_push_retry;
        retry_backoff_ms := number_env parse_u64 "REFEREE_RETRY_BACKOFF_MS" default_retry_backoff_ms |}.

Definition required : list string :=
  ["REFEREE_BIND"; "REFEREE_IDENTITY_KEY_PATH"; "REFEREE_RGB_SERVER_URL"; "REFEREE_WEBCASH_SERVER_URL";
   "REFEREE_PUSH_WEBHOOK_URL"; "REFEREE_PUSH_WEBHOOK_HMAC_KEY_PATH"].

Lemma from_env_required c k : from_env = Ok c -> k ∈ required -> is_Some (env k).
Proof.
  assert (forall k v, require_env k = Ok v -> is_Some (env k)) as Hk
    by (intros k' v; unfold require_env; destruct (env k'); [by eexists|done]).
  unfold from_env. intros Ec. repeat (apply bind_Ok in Ec as (? & ?%Hk & Ec) || apply bind_Ok in Ec as (? & _ & Ec)).
  unfold required. rewrite !elem_of_cons, elem_of_nil. naive_solver.
Qed.

Lemma parse_u8_range s n : parse_u8 s = Some n -> n <= u8_max.
Proof. unfold parse_u8. destruct (parse_u64 s) as [m|]; simpl; [|done]. case_match eqn:E; [|done].
  intros [= <-]. by apply Z.leb_le. Qed.
End Config.

(** ** The mock clients ([clients/mod.rs]) *)

Record MockWebcash := { default_status : SpentStatus; script : list SpentStatus }.

Definition scripted (d : SpentStatus) (s : list SpentStatus) : MockWebcash :=
  {| default_status := d; script := s |}.
Definition always_unspent : MockWebcash := scripted Unspent [].

Definition mock_check (_ : WebcashPublicHash) (m : MockWebcash) : res SpentStatus * MockWebcash :=
  (Ok (default (default_status m) (head (script m))), scripted (default_status m) (tail (script m))).

Record MockRgb := {
  calls : list (string * json);
  htlc_mints : list (string * HtlcRefundParams);
  htlc_closes : list (string * string * HtlcCloseKind) }.

Definition MockRgb_new : MockRgb := {| calls := []; htlc_mints := []; htlc_closes := [] |}.

Definition mock_mint_swap_record (swap_id : string) (payload : json) (m : MockRgb) : res string * MockRgb :=
  (Ok ("rgb-record-" +:+ swap_id),
   {| calls := calls m ++ [(swap_id, payload)]; htlc_mints := htlc_mints m; htlc_closes := htlc_closes m |}).
Definition mock_mint_htlc_refund (swap_id : string) (params : HtlcRefundParams) (m : MockRgb)
  : res (option string) * MockRgb :=
  (Ok (Some ("rgb-htlc-" +:+ swap_id)),
   {| calls := calls m; htlc_mints := htlc_mints m ++ [(swap_id, params)]; htlc_closes := htlc_closes m |}).
Definition mock_close_htlc_refund (swap_id contract_id : string) (k : HtlcCloseKind) (m : MockRgb)
  : res unit * MockRgb :=
  (Ok tt,
   {| calls := calls m; htlc_mints := htlc_mints m;
      htlc_closes := htlc_closes m ++ [(swap_id, contract_id, k)] |}).

(** ** Wiring ([main.rs]) *)

Record Features := {
  zkp_arkworks : bool; musig2_real : bool; with_redis : bool; with_dynamodb : bool; with_fdb : bool }.

(** How the process ends before it serves: [exit(2)], an [Err] of [main], a panic. *)
Inductive Exit := ConfigError (e : RefereeError) | Failed (msg : string) | Panicked (msg : string).

Inductive Backend :=
  | InMem
  | OnRedis (url : string)
  | OnDynamo (endpoint : option string)
  | OnFdb (cluster : option string).

(** Opening the store and the log of a backend (for DynamoDB with the tables of
    [RefereeDynamo] ensured), and the listening socket; the answer is the
    error's text. *)
Class Host `{SocketAddrStd} := {
  open_backend : Backend -> option string;
  bind_listener : SocketAddr -> option string;
}.

Definition display (e : RefereeError) : string :=
  match e with
  | BadRequest m => "bad request: " +:+ m
  | ZkpRejected m => "zkp verification failed: " +:+ m
  | Musig2 m => "musig2: " +:+ m
  | InvalidTransition m => "invalid state transition: " +:+ m
  | Store m => "store: " +:+ m
  | External m => "external rail: " +:+ m
  | Push m => "push: " +:+ m
  | Crypto m => "crypto: " +:+ m
  | Internal m => "internal: " +:+ m
  end.

Definition show_bool (b : bool) : string := if b then "true" else "false".

Section Main.
Context `{Hashing, Ed25519Signer, Musig2Crate, Groth16Crate, Files, Host}.
Variable f : Features.
Variable env : string -> option string.

Definition refuse_mocks_in_production : result Exit unit :=
  if zkp_arkworks f && musig2_real f then Ok tt
  else if bool_decide (env "REFEREE_ALLOW_MOCK_CRYPTO" = Some "1") then Ok tt
  else Err (Failed ("refusing to boot with mock cryptographic backends. Build with " +:+
    "`cargo build --release -p referee --features zkp-arkworks,musig2-real` " +:+
    "for production, or set REFEREE_ALLOW_MOCK_CRYPTO=1 for dev/testing. " +:+
    "(zkp-arkworks=" +:+ show_bool (zkp_arkworks f) +:+ ", musig2-real=" +:+ show_bool (musig2_real f) +:+ ")")).

Definition build_storage (c : Config) : result Exit Backend :=
  let opened b := match open_backend b with Some e => Err (Failed e) | None => Ok b end in
  if (db_backend c =? "inmem")%string then opened InMem
  else if with_redis f && (db_backend c =? "redis")%string then
    opened (OnRedis (default "redis://127.0.0.1:6379" (redis_url c)))
  else if with_dynamodb f && (db_backend c =? "dynamodb")%string then opened (OnDynamo (dynamodb_endpoint c))
  else if with_fdb f && (db_backend c =? "fdb")%string then opened (OnFdb (fdb_cluster_file c))
  else Err (Failed ("unknown WEBCASH_DB_BACKEND=" +:+ db_backend c +:+ ". Build with the matching " +:+
    "feature flag (--features redis|dynamodb|fdb) and re-set the " +:+
    "env var. Default is `inmem` (dev-only).")).

Inductive BuiltVerifier := MockVerifier (outcomes : list bool) | RealVerifier (v : ArkworksVerifier).
Inductive BuiltSigner := MockMusig (g : MockSigner) | RealMusig (g : RealSigner).

Definition unset (s : string) : bool := (s =? EmptyString)%string.

Definition build_verifier : result Exit BuiltVerifier :=
  if zkp_arkworks f then
    let vk_bob := default EmptyString (env "REFEREE_VK_BOB_PATH") in
    let vk_alice := default EmptyString (env "REFEREE_VK_ALICE_PATH") in
    if unset vk_bob || unset vk_alice then
      Err (Panicked ("zkp-arkworks feature enabled but REFEREE_VK_BOB_PATH and " +:+
        "REFEREE_VK_ALICE_PATH are not set. The verifying keys for " +:+
        "Bob's payload-honesty and Alice's signature-honesty circuits " +:+
        "are produced by extro-node's circuit definitions. See " +:+
        "webycash-server/referee/docs/zkp-circuits.md for the file " +:+
        "format. Until those fixtures land, run with mock crypto: " +:+
        "remove `--features zkp-arkworks` and set " +:+
        "REFEREE_ALLOW_MOCK_CRYPTO=1."))
    else match load_verifier vk_bob vk_alice with
         | Ok v => Ok (RealVerifier v)
         | Err e => Err (Panicked ("ArkworksVerifier::load_from_files: " +:+ error_debug e))
         end
  else Ok (MockVerifier always_ok).

Definition build_musig_signer : result Exit BuiltSigner :=
  if musig2_real f then
    let key_path := default EmptyString (env "REFEREE_MUSIG2_KEY_PATH") in
    if unset key_path then
      Err (Panicked ("musig2-real feature enabled but REFEREE_MUSIG2_KEY_PATH is " +:+
        "not set. Provide a file path containing the referee's " +:+
        "secp256k1 secret share, hex-encoded (32 bytes)."))
    else match load_signer key_path with
         | Ok g => Ok (RealMusig g)
         | Err e => Err (Panicked ("RealSigner::load_from_file: " +:+ error_debug e))
         end
  else Ok (MockMusig MockSigner_new).

(** The orchestrator with its collaborators. *)
Record Binary := {
  b_identity : SigningKey;
  b_verifier : BuiltVerifier;
  b_musig : BuiltSigner;
  b_webcash : MockWebcash;
  b_rgb : MockRgb;
  b_push : HttpPush;
  b_backend : Backend;
  b_retry_backoff_ms : Z;
  b_orch : Orchestrator;
}.

(** [main] up to the call of [axum::serve]. *)
Definition main : result Exit Binary :=
  config ← map_err ConfigError (from_env env);
  _ ← refuse_mocks_in_production;
  identity ← map_err (fun e => Failed (display e)) (load_identity (identity_key_path config));
  hmac_key_hex ← map_err (fun e => Failed ("read push hmac key: " +:+ e))
    (read_to_string (push_webhook_hmac_key_path config));
  hmac_key_bytes ← map_err (fun e => Failed ("decode push hmac key: " +:+ e))
    (hex_decode (str_trim hmac_key_hex));
  verifier ← build_verifier;
  musig ← build_musig_signer;
  backend ← build_storage config;
  let b := {|
    b_identity := identity; b_verifier := verifier; b_musig := musig;
    b_webcash := always_unspent; b_rgb := MockRgb_new;
    b_push := {| url := push_webhook_url config; hmac_key := hmac_key_bytes |};
    b_backend := backend;
    b_retry_backoff_ms := retry_backoff_ms config;
    b_orch := {| swap_max_age_secs := cfg_swap_max_age_secs config;
                 insert_push_retry := cfg_insert_push_retry config;
                 callback_base_url := "http://" +:+ show_addr (cfg_bind config) +:+ "/v1/swap" |} |} in
  match bind_listener (cfg_bind config) with
  | Some e => Err (Failed e)
  | None => Ok b
  end.

(** No mock cryptography without the explicit opt-in; the clients are mocks. *)
Lemma main_wiring b :
  main = Ok b ->
  ((exists v g, b_verifier b = RealVerifier v /\ b_musig b = RealMusig g) \/
   env "REFEREE_ALLOW_MOCK_CRYPTO" = Some "1") /\
  b_webcash b = always_unspent /\ b_rgb b = MockRgb_new /\
  forall k, k ∈ required -> is_Some (env k).
Proof.
  unfold main. intros Hm.
  apply bind_Ok in Hm as (c & Ec%map_err_Ok & Hm). apply bind_Ok in Hm as ([] & Er & Hm).
  do 3 apply bind_Ok in Hm as (? & _ & Hm).
  apply bind_Ok in Hm as (v & Ev & Hm). apply bind_Ok in Hm as (g & Eg & Hm).
  apply bind_Ok in Hm as (bk & _ & Hm). destruct (bind_listener _); [done|]. injection Hm as <-. simpl.
  split; [|split; [done|split; [done|]]; intros k; by apply (from_env_required env c)].
  unfold refuse_mocks_in_production, build_verifier, build_musig_signer in *.
  destruct (zkp_arkworks f && musig2_real f) eqn:Ef; [left|right]; bools.
  - destruct (zkp_arkworks f), (musig2_real f); try done. simpl in *.
    split_match Ev. split_match Eg. by eexists _, _.
  - by case_bool_decide.
Qed.
End Main.

(** ** The binary at work

    Any number of requests run at once.  A call is answered by the wired
    client, by the store with a row that was in it or was handed to it since,
    and by the rest of the world with anything. *)

Section Running.
Context `{SwapJson, Hashing, Ed25519, Ed25519Signer, EntryCodec, Musig2Crate, Base64Standard}.
Context `{Axum, Groth16Crate, Files, Host}.

(** A call and its answer. *)
Inductive exchange := | Exchange {X : Type} (r : Req X) (x : X).

Record Sys := mk_sys {
  running : list (prog (result Refusal ApiReply));
  s_webcash : MockWebcash;
  s_rgb : MockRgb;
  written : list Transaction;
}.

Definition answers (s : Sys) {X} (r : Req X) : X -> Sys -> Prop :=
  match r in Req X return X -> Sys -> Prop with
  | WebcashCheck h => fun x s' => let (y, w) := mock_check h (s_webcash s) in
      x = y /\ s' = mk_sys (running s) w (s_rgb s) (written s)
  | MintSwapRecord i p => fun x s' => let (y, g) := mock_mint_swap_record i p (s_rgb s) in
      x = y /\ s' = mk_sys (running s) (s_webcash s) g (written s)
  | MintHtlcRefund i p => fun x s' => let (y, g) := mock_mint_htlc_refund i p (s_rgb s) in
      x = y /\ s' = mk_sys (running s) (s_webcash s) g (written s)
  | CloseHtlcRefund i c k => fun x s' => let (y, g) := mock_close_htlc_refund i c k (s_rgb s) in
      x = y /\ s' = mk_sys (running s) (s_webcash s) g (written s)
  | StoreGet _ => fun x s' => (forall tx, x = Ok (Some tx) -> tx ∈ written s) /\ s' = s
  | StoreUpsert tx => fun _ s' =>
      s' = mk_sys (running s) (s_webcash s) (s_rgb s) (tx :: written s)
  | _ => fun _ s' => s' = s
  end.

Definition resume (s : Sys) (i : nat) (p : prog (result Refusal ApiReply)) : Sys :=
  mk_sys (<[i := p]> (running s)) (s_webcash s) (s_rgb s) (written s).

(** [K] is what [pubkey] shows; no other handler depends on it. *)
Inductive runs (K : Keys) (self : Orchestrator) (s0 : Sys) : list exchange -> Sys -> Prop :=
  | runs_start : runs K self s0 [] s0
  | runs_request trace s h :
      runs K self s0 trace s ->
      runs K self s0 trace (mk_sys (running s ++ [serve_http K self h]) (s_webcash s) (s_rgb s) (written s))
  | runs_call trace s s' i X (r : Req X) k x :
      runs K self s0 trace s -> running s !! i = Some (Call r k) -> answers s r x s' ->
      runs K self s0 (trace ++ [Exchange r x]) (resume s' i (k x)).

Definition booted (b : Binary) (rows : list Transaction) : Sys := mk_sys [] (b_webcash b) (b_rgb b) rows.

(** What settles a swap: the signature, its release, the row. *)
Definition settles {X} (r : Req X) : Prop :=
  match r with
  | PartialSign _ SettleSession _ _ _ => True
  | Dispatch p => kind p = ReleaseSettle
  | StoreUpsert tx => t_phase tx = "settled"
  | _ => False
  end.

(** ** Programs that do not settle while nothing is spent *)

Definition unspent_world {X} (r : Req X) : X -> Prop :=
  match r in Req X return X -> Prop with
  | WebcashCheck _ => fun x => x = Ok Unspent
  | StoreGet _ => fun x => forall tx, x = Ok (Some tx) -> t_phase tx <> "settled"
  | _ => fun _ => True
  end.

Fixpoint calm {A} (p : prog A) : Prop :=
  match p with
  | Ret _ => True
  | Call r k => ~ settles r /\ forall x, unspent_world r x -> calm (k x)
  end.

Lemma calm_pbind {A B} (p : prog A) (g : A -> prog B) :
  calm p -> (forall a, calm (g a)) -> calm (pbind p g).
Proof. intros Hp Hg. induction p as [a|X r k IH]; simpl; [done|]. destruct Hp as [Hr Hk]. split; [done|]. auto. Qed.

Lemma calm_bind {A B} (m : M A) (g : A -> M B) : calm m -> (forall a, calm (g a)) -> calm (m ≫= g).
Proof. intros Hm Hg. apply calm_pbind; [done|]. by intros [a|e]. Qed.

Lemma calm_attempt {A} (m : M A) : calm m -> calm (attempt m).
Proof. intros Hm. by apply calm_pbind. Qed.

Lemma calm_call {A} (r : Req (res A)) : ~ settles r -> calm (call r).
Proof. by split. Qed.

Lemma calm_ask {A} (r : Req A) : ~ settles r -> calm (ask r).
Proof. by split. Qed.

Lemma calm_lift {A} (x : res A) : calm (lift x).
Proof. done. Qed.

Lemma calm_ret {A} (a : A) : calm (mret a : M A).
Proof. done. Qed.

Lemma calm_get {B} i (g : option Transaction -> M B) :
  (forall row, (forall tx, row = Some tx -> t_phase tx <> "settled") -> calm (g row)) ->
  calm (call (StoreGet i) ≫= g).
Proof. intros Hg. split; [by intros []|]. intros [row|e] Hx; [|done]. apply Hg. intros tx ->. by apply Hx. Qed.

Lemma calm_check {B} h (g : SpentStatus -> M B) : calm (g Unspent) -> calm (call (WebcashCheck h) ≫= g).
Proof. intros Hg. split; [by intros []|]. by intros x ->. Qed.

(** Walks down a handler, with the lemmas on what it calls; leaves the writes
    and what is done with a row. *)
Create HintDb calm.
Hint Extern 1 (_ <> _) => discriminate : calm.
Ltac calm_steps :=
  repeat first
    [ progress intros
    | solve [auto with calm nocore]
    | apply calm_check
    | apply calm_get
    | apply calm_bind
    | apply calm_attempt
    | apply calm_lift
    | apply calm_ret
    | (apply calm_ask; by intros [])
    | (apply calm_call; first [by intros []|by intros [=]]) ].

Section Handlers.
Variable self : Orchestrator.

Lemma calm_audit i ph payload tip : calm (audit_phase i ph payload tip).
Proof. unfold audit_phase. calm_steps. Qed.
Hint Resolve calm_audit : calm.

Lemma calm_persist {P} (s : SwapState P) ph : ph <> "settled" -> calm (persist s ph).
Proof.
  intros Hph. unfold persist. calm_steps. case_match; calm_steps.
  apply calm_call. destruct row; exact Hph.
Qed.
Hint Resolve calm_persist : calm.

Lemma calm_close i k : calm (close_htlc_if_any i k).
Proof. unfold close_htlc_if_any. calm_steps. repeat case_match; calm_steps. Qed.
Hint Resolve calm_close : calm.

Lemma calm_backup i now p : calm (mint_backup self i now p).
Proof.
  unfold mint_backup. calm_steps. destruct (default None (result_ok a)); calm_steps.
  destruct row as [tx|]; [|done]. apply calm_call.
  match goal with Hrow : forall tx, Some _ = Some tx -> _ |- _ => exact (Hrow _ eq_refl) end.
Qed.
Hint Resolve calm_backup : calm.

Lemma calm_start p b a n : calm (start_swap self p b a n).
Proof.
  unfold start_swap, start_init, start_zkps, start_pre_check, start_push.
  calm_steps.
Qed.

Lemma calm_push i v : calm (advance_from_insert_pushed self i v).
Proof.
  unfold advance_from_insert_pushed. calm_steps.
  rewrite bool_decide_false by done. case_match; [unfold retry_push|unfold enter_abort]; calm_steps.
Qed.

Lemma calm_abort i v : calm (advance_from_aborted i v).
Proof. unfold advance_from_aborted. calm_steps. Qed.

Lemma calm_refund i v : calm (advance_from_invalidated self i v).
Proof. unfold advance_from_invalidated. calm_steps. Qed.

Lemma calm_advance i : calm (advance_swap self i).
Proof.
  unfold advance_swap. calm_steps.
  repeat (case_match; first [by calm_steps|by apply calm_push|by apply calm_abort|by apply calm_refund|idtac]).
Qed.

Lemma calm_cancel i by_fp why sig : calm (cancel_swap self i by_fp why sig).
Proof.
  unfold cancel_swap, cancel_commit. calm_steps. case_match; calm_steps. case_match; calm_steps.
Qed.

Lemma calm_answer {A} (ok : A -> ApiReply) (m : M A) : calm m -> calm (answer ok m).
Proof. intros Hm. by apply calm_pbind. Qed.

Lemma calm_http K h : calm (serve_http K self h).
Proof.
  unfold serve_http. destruct (extract h) as [e|]; [|done]. apply calm_pbind; [|done].
  destruct e; cbn [serve_endpoint]; try done; apply calm_answer.
  - apply calm_bind; [apply calm_start|calm_steps].
  - apply calm_bind; [apply calm_advance|calm_steps].
  - apply calm_bind; [apply calm_cancel|calm_steps].
  - unfold audit_for. calm_steps.
  - unfold poll_status. calm_steps.
  - unfold router_party_swaps. calm_steps.
Qed.
End Handlers.

(** ** What the wiring implies *)

Definition never_settled (rows : list Transaction) : Prop := Forall (fun tx => t_phase tx <> "settled") rows.

(** The call does not settle; a check of the webcash ledger hears [Unspent]. *)
Definition harmless (e : exchange) : Prop :=
  match e with
  | @Exchange X r x => ~ settles r /\
      (match r in Req X return X -> Prop with
       | WebcashCheck _ => fun x => x = Ok Unspent
       | _ => fun _ => True
       end) x
  end.

Record quiet (s : Sys) : Prop := {
  quiet_running : Forall calm (running s);
  quiet_webcash : s_webcash s = always_unspent;
  quiet_written : never_settled (written s);
}.

(** A wired answer is one of a world where nothing is spent, and keeps it so. *)
Lemma answers_quiet s {X} (r : Req X) x s' :
  quiet s -> ~ settles r -> answers s r x s' ->
  unspent_world r x /\ harmless (Exchange r x) /\ quiet s' /\ running s' = running s.
Proof.
  intros [Hrun Hw Hwr] Hns. destruct r; simpl; try (intros ->; by repeat split).
  - intros [Hx ->]. split; [|by repeat split]. intros tx E. unfold never_settled in Hwr.
    rewrite Forall_forall in Hwr. by apply Hwr, Hx.
  - intros ->. split; [done|]. split; [by split|]. split; [|done]. split; simpl; [done|done|by constructor].
  - rewrite Hw. simpl. intros [-> ->]. by repeat split.
  - intros [-> ->]. by repeat split.
  - intros [-> ->]. by repeat split.
  - intros [-> ->]. by repeat split.
Qed.

(** C27: However it is built and configured, the binary is wired with a webcash
    client that reports every hash unspent and with an RGB client that keeps its
    records in memory; and so, from rows none of which is settled, with any
    store, signer, verifier and push provider and however requests interleave, it
    never signs a settlement, never
    releases one and never writes a settled row. *)
Theorem binary_never_settles f env b rows K trace s :
  main f env = Ok b -> never_settled rows ->
  runs K (b_orch b) (booted b rows) trace s ->
  b_webcash b = always_unspent /\ b_rgb b = MockRgb_new /\
  Forall harmless trace /\ never_settled (written s).
Proof.
  intros Hm Hrows Hr. destruct (main_wiring f env b Hm) as (_ & Hw & Hg & _).
  assert (quiet s /\ Forall harmless trace) as [[_ _ Hq] Ht]; [|done].
  induction Hr as [|trace s h Hr [IH Ht]|trace s s' i X r k x Hr [IH Ht] Hi Ha].
  - by repeat split.
  - split; [|done]. destruct IH. split; simpl; [|done..]. apply Forall_app. split; [done|].
    apply Forall_singleton, calm_http.
  - pose proof (quiet_running s IH) as Hrun. rewrite Forall_lookup in Hrun.
    destruct (Hrun i _ Hi) as [Hns Hk].
    destruct (answers_quiet s r x s' IH Hns Ha) as (Hx & Hh & [Hr' Hw' Hwr] & _).
    split; [|by apply Forall_app; split; [|apply Forall_singleton]].
    split; simpl; [|done..]. apply Forall_insert; [done|]. by apply Hk.
Qed.
End Running.
