(* ===== verification/RefereeBootExamples.v ===== *)
(** * The referee's binary on concrete inputs

    Stand-ins for the crates and the host, the properties of [RefereeSigner],
    [RefereeRouter] and [RefereeBoot] on sample calls, and what the
    configuration lets pass. *)
From S2P Require Import Prelude Decimal External RefereeState RefereeWorld RefereeView Orchestrator.
From S2P Require Import RefereeFacts RefereeSafety RefereeStores RefereeSigner RefereeRouter RefereeBoot RefereeExamples.

(** ** Stand-ins *)

#[export] Instance rng_ref : ThreadRng Z := {| fill_bytes n := (show_u64 n, n + 1) |}.

#[export] Instance axum_ref : Axum := {|
  Rejection := Z;
  rejection_status n := n;
  percent_decode := Ok;
  json_initiate body := if (body =? "sample")%string then Ok {|
      iq_parties := sample_parties; iq_bob := sample_bob; iq_alice := sample_alice;
      iq_alice_nonces := sample_nonces |} else Err 422;
  json_advance body := if (body =? "{}")%string then Ok tt else Err 415;
  json_cancel body := Ok {| by_pgp_fp := fp_hex bob_fp; reason := body;
    signature_hex := cancel_sig bob_key bob_fp body |};
  json_ack _ := Err 400;
|}.

#[export] Instance groth16_ref : Groth16Crate := {|
  G16Proof := string; Fr := string; VerifyingKey16 := string; PreparedKey := string;
  vk_deserialize := Ok; vk_prepare k := k; proof_deserialize := Ok;
  fr_from_be_bytes_mod_order s := s;
  verify_proof k p _ := Ok (k =? p)%string;
|}.

#[export] Instance files_ref : Files := {|
  read_to_string p :=
    if (p =? "/run/identity")%string then Ok (hex_encode bob_key +:+ String (ascii_of_nat 10) EmptyString)
    else if (p =? "/run/musig2")%string then Ok (hex_encode alice_key)
    else if (p =? "/run/empty")%string then Ok EmptyString
    else Err "No such file or directory (os error 2)";
  read p := Ok p;
|}.

#[export] Instance addr_ref : SocketAddrStd :=
  {| SocketAddr := string; parse_addr := Ok; show_addr a := a |}.

#[export] Instance host_ref : Host := {| open_backend _ := None; bind_listener _ := None |}.

(** A production build and its environment. *)
Definition production : Features := {|
  zkp_arkworks := true; musig2_real := true; with_redis := false; with_dynamodb := true; with_fdb := false |}.

Definition env_of (l : list (string * string)) (k : string) : option string :=
  snd <$> List.find (fun p => (p.1 =? k)%string) l.

Definition production_vars : list (string * string) := [
  ("REFEREE_BIND", "0.0.0.0:8090"); ("REFEREE_IDENTITY_KEY_PATH", "/run/identity");
  ("REFEREE_RGB_SERVER_URL", "https://rgb.example"); ("REFEREE_WEBCASH_SERVER_URL", "https://webcash.org");
  ("REFEREE_PUSH_WEBHOOK_URL", "https://push.example");
  ("REFEREE_PUSH_WEBHOOK_HMAC_KEY_PATH", "/run/empty"); ("WEBCASH_DB_BACKEND", "dynamodb");
  ("REFEREE_VK_BOB_PATH", "/run/vk_bob"); ("REFEREE_VK_ALICE_PATH", "/run/vk_alice");
  ("REFEREE_MUSIG2_KEY_PATH", "/run/musig2"); ("REFEREE_INSERT_PUSH_RETRY", "300")]%string.

Definition booted_binary : result Exit Binary := main production (env_of production_vars).

(** ** The properties *)

Definition sample_calls : list signer_op := [
  OpBegin swap1 SettleSession; OpBegin swap1 SettleSession;
  OpSign swap1 SettleSession "ssss" (mk_secp "02") (mk_pub_nonce "11");
  OpSign swap1 SettleSession "ssss" (mk_secp "02") (mk_pub_nonce "11");
  OpBegin swap1 RefundSession; OpDiscard swap1 RefundSession].

Definition real_start : RealState := mk_real (musig_key keys) ∅ 7.

(** Begun twice, signed twice: one of each comes through. *)
Lemma signer_signs_once_witness :
  (times swap1 SettleSession DidSign (serve_signers sample_calls MockSigner_new).1 = 1%nat /\
   times swap1 SettleSession DidSign (serve_signers sample_calls real_start).1 = 1%nat) /\
  (times swap1 SettleSession DidSign (serve_signers sample_calls MockSigner_new).1 <=
     times swap1 SettleSession DidBegin (serve_signers sample_calls MockSigner_new).1)%nat /\
  (times swap1 SettleSession DidSign (serve_signers sample_calls real_start).1 <=
     times swap1 SettleSession DidBegin (serve_signers sample_calls real_start).1)%nat.
Proof.
  split; [split; vm_compute; reflexivity|]. split.
  - destruct (signer_signs_once sample_calls MockSigner_new _ _ swap1 SettleSession (surjective_pairing _)) as [Hs _].
    assert (live_count MockSigner_new swap1 SettleSession = 0%nat) as E by (vm_compute; reflexivity).
    rewrite E in Hs. lia.
  - destruct (signer_signs_once sample_calls real_start _ _ swap1 SettleSession (surjective_pairing _)) as [Hs _].
    assert (live_count real_start swap1 SettleSession = 0%nat) as E by (vm_compute; reflexivity).
    rewrite E in Hs. lia.
Defined.

Definition post (i op body : string) : HttpRequest :=
  {| method := POST; path := ["v1"; "swap"; i; op]; http_body := body |}.

Lemma replies_truthful_witness :
  let st := started 3 [Spent] in
  let h := post "1" "advance" "{}" in
  extract h = Ok (EAdvance "1") /\
  exists a st', run keys (serve_http keys (orch 3) h) st = (Ok (RAdvance a), st') /\
    a_phase a = "settled" /\ row_in st' "1" (a_phase a) (a_terminal a) /\ reachable keys (orch 3) st'.
Proof.
  intros st h. split; [vm_compute; reflexivity|].
  destruct (run keys (serve_http keys (orch 3) h) st) as [r st'] eqn:Er.
  assert (exists a, r = Ok (RAdvance a) /\ a_phase a = "settled") as (a & -> & Ea).
  { assert (match r with Ok (RAdvance a) => a_phase a = "settled" | _ => False end) as Hr.
    { change r with (r, st').1. rewrite <- Er. vm_compute. reflexivity. }
    destruct r as [[]|]; try contradiction. eexists. split; [reflexivity|exact Hr]. }
  destruct (replies_truthful keys (orch 3) (retry_range 3 ltac:(lia)) h st (Ok (RAdvance a)) st'
    (started_reachable 3 [Spent])) as [Hreach Hx]; [|exact Er|].
  - intros req E. vm_compute in E. discriminate E.
  - replace (extract h) with (Ok (E := Refusal) (EAdvance "1")) in Hx by (vm_compute; reflexivity).
    destruct Hx as (a' & [= <-] & (_ & Hrow) & _).
    exists a, st'. split; [reflexivity|]. split; [exact Ea|]. split; [exact Hrow|exact Hreach].
Defined.

(** The state and the row of a swap whose insert push is out, as a table of an
    earlier run may hold them. *)
Definition pushed_state : SwapState InsertPushed :=
  mk_state swap1 sample_parties sample_bob sample_alice sample_nonces
    {| settle_pub_nonce := "11"; refund_pub_nonce := "22"; secret_nonce_handle := swap1 |} 1000 1 "tip".

Definition pushed_row : Transaction := derive_from pushed_state "insert-pushed" 1000 None None None.

(** A scheduler's advance finds the row and asks for the hash. *)
Definition advance_trace : list exchange :=
  [Exchange (StoreGet swap1) (Ok (Some pushed_row));
   Exchange (WebcashCheck (mk_hash "hhhh")) (Ok Unspent)].

Lemma advance_runs (b : Binary) :
  b_webcash b = always_unspent ->
  exists s, runs keys (b_orch b) (booted b [pushed_row]) advance_trace s.
Proof.
  intros Hw. eexists.
  change advance_trace with ([Exchange (StoreGet swap1) (Ok (Some pushed_row))] ++
    [Exchange (WebcashCheck (mk_hash "hhhh")) (Ok Unspent)]).
  eapply runs_call with (i := 0%nat).
  - change [Exchange (StoreGet swap1) (Ok (Some pushed_row))]
      with ([] ++ [Exchange (StoreGet swap1) (Ok (Some pushed_row))]).
    eapply runs_call with (i := 0%nat).
    + apply runs_request with (h := post "1" "advance" "{}"), runs_start.
    + reflexivity.
    + split; [|reflexivity]. intros tx [= <-]. by left.
  - reflexivity.
  - simpl. rewrite Hw. split; reflexivity.
Qed.

Lemma binary_never_settles_witness :
  exists b s, booted_binary = Ok b /\ runs keys (b_orch b) (booted b [pushed_row]) advance_trace s /\
    Forall harmless advance_trace /\ never_settled (written s).
Proof.
  destruct booted_binary as [b|] eqn:Eb; [|by vm_compute in Eb].
  assert (never_settled [pushed_row]) as Hrows by (repeat constructor; discriminate).
  destruct (advance_runs b) as [s Hs].
  { vm_compute in Eb. injection Eb as <-. reflexivity. }
  exists b, s. split; [reflexivity|]. split; [exact Hs|].
  apply (binary_never_settles production (env_of production_vars) b [pushed_row] keys advance_trace s Eb Hrows Hs).
Defined.

(** ** What the configuration lets pass *)

(** A retry budget that does not fit its type counts as not set. *)
Example unreadable_budget :
  insert_push_retry <$> (b_orch <$> booted_binary) = Ok 3.
Proof. vm_compute. reflexivity. Qed.

(** The file of the webhook key may be empty, that of the identity may not. *)
Example empty_webhook_key :
  hmac_key <$> (b_push <$> booted_binary) = Ok EmptyString.
Proof. vm_compute. reflexivity. Qed.

Example empty_identity_key :
  is_ok (load_identity "/run/empty") = false.
Proof. vm_compute. reflexivity. Qed.

(** The push provider is told to call back at the address listened on. *)
Example callback_address :
  callback_base_url <$> (b_orch <$> booted_binary) = Ok "http://0.0.0.0:8090/v1/swap"%string.
Proof. vm_compute. reflexivity. Qed.

Example mocks_are_refused :
  is_ok (main {| zkp_arkworks := true; musig2_real := false; with_redis := false;
                 with_dynamodb := true; with_fdb := false |} (env_of production_vars)) = false.
Proof. vm_compute. reflexivity. Qed.

(** An advance without a body never reaches the orchestrator. *)
Example advance_needs_a_body :
  http_reply_status (run keys (serve_http keys (orch 3) (post "1" "advance" EmptyString)) (started 3 [])).1 = 415.
Proof. vm_compute. reflexivity. Qed.

(** A proof that does not decode is an error of the server, not a rejection. *)
Example undecodable_proof {G : Groth16Crate} {F : Files} (v : ArkworksVerifier) (p : Groth16Proof) :
  is_ok (proof_deserialize (proof p)) = false ->
  match ark_verify v CircuitBobPayload p with Err e => http_status e = 500 | Ok _ => False end.
Proof. unfold ark_verify, decode_proof. by destruct (proof_deserialize (proof p)). Qed.
