(* ===== verification/ServerBoot.v ===== *)
(** * The asset-server binaries

    [crates/server-webcash], [server-rgb], [server-rgb-collectible] and
    [server-voucher] ([src/main.rs] of each): the mining gate, the issuer
    registry and the store each boots from its environment, up to the call
    that serves.  Files, sockets and the opening of a store are parameters. *)
From S2P Require Import Prelude Decimal External AssetCore Mining Auth Server.

Class BootHost := {
  socket_addr_ok : string -> bool;
  file_text : string -> option string;
  store_opens : forall (backend : string) (url file : option string), bool;
}.

(** ** Armored certificates *)

Definition PGP_BEGIN : string := "-----BEGIN PGP PUBLIC KEY BLOCK-----".
Definition PGP_END : string := "-----END PGP PUBLIC KEY BLOCK-----".

Definition str_drop (n : nat) (s : string) : string := String.substring n (String.length s - n) s.
Definition str_take (n : nat) (s : string) : string := String.substring 0 n s.

(** The loop of [split_pgp_blocks]; each turn drops a whole block, so the
    length of the text is fuel enough ([split_pgp_exact]). *)
Fixpoint split_pgp (fuel : nat) (rest : string) : list string :=
  match fuel with
  | O => []
  | S fuel' =>
      match String.index 0 PGP_BEGIN rest with
      | Some start =>
          let after := str_drop start rest in
          match String.index 0 PGP_END after with
          | Some e =>
              let block_end := (e + String.length PGP_END)%nat in
              str_take block_end after :: split_pgp fuel' (str_drop block_end after)
          | None => []
          end
      | None => []
      end
  end.

Definition split_pgp_blocks (blob : string) : list string := split_pgp (String.length blob) blob.

(** ** Substrings *)

Lemma str_drop_app a b : str_drop (String.length a) (a +:+ b) = b.
Proof.
  unfold str_drop. rewrite str_length_app. replace (_ + _ - _)%nat with (String.length b) by lia.
  induction a as [|c a IH]; simpl; [|done].
  induction b as [|c b IH]; simpl; congruence.
Qed.

Lemma str_take_app a b : str_take (String.length a) (a +:+ b) = a.
Proof. unfold str_take. induction a as [|c a IH]; simpl; [by destruct b|]. by f_equal. Qed.

Lemma str_prefix_app p s t : String.prefix p s = true -> String.prefix p (s +:+ t) = true.
Proof.
  revert s. induction p as [|c p IH]; intros [|d s]; simpl; try done; [by destruct t|].
  destruct (ascii_dec c d); [apply IH|done].
Qed.

Lemma str_prefix_self p t : String.prefix p (p +:+ t) = true.
Proof. induction p as [|c p IH]; simpl; [by destruct t|]. by destruct (ascii_dec c c). Qed.

Lemma str_prefix_long p s t :
  (String.length p <= String.length s)%nat -> String.prefix p (s +:+ t) = String.prefix p s.
Proof.
  revert s. induction p as [|c p IH]; intros [|d s]; simpl; try done; [by destruct t|lia|].
  intros Hl. destruct (ascii_dec c d); [apply IH; lia|done].
Qed.

Lemma index_cons p c s :
  String.index 0 p (String c s) =
    if String.prefix p (String c s) then Some 0%nat else S <$> String.index 0 p s.
Proof. destruct p; [done|]. cbn [String.index]. destruct (String.prefix _ _); [done|]. by destruct (String.index _ _ _). Qed.

(** No occurrence of [p] starts before the end of [x] in [x] followed by [p]. *)
Definition before (p x : string) : Prop := String.index 0 p (x +:+ p) = Some (String.length x).

Lemma index_before p x y : before p x -> String.index 0 p (x +:+ (p +:+ y)) = Some (String.length x).
Proof.
  unfold before. induction x as [|c x IH]; cbn [append String.length].
  - intros _. destruct p as [|d p]; [by destruct y|]. cbn [append]. rewrite index_cons.
    change (String d (p +:+ y)) with (String d p +:+ y). by rewrite str_prefix_self.
  - rewrite !index_cons.
    change (String c (x +:+ (p +:+ y))) with (String c x +:+ (p +:+ y)). rewrite <- str_app_assoc.
    rewrite str_prefix_long by (rewrite str_length_app; simpl; lia).
    change (String c x +:+ p) with (String c (x +:+ p)).
    destruct (String.prefix p (String c (x +:+ p))); [done|].
    destruct (String.index 0 p (x +:+ p)) as [n|]; [|done]. intros [= ->]. by rewrite IH.
Qed.

(** A file of certificates: text without a header, then a block, and so on. *)
Definition armored (body : string) : string := PGP_BEGIN +:+ (body +:+ PGP_END).
Definition pgp_file (parts : list (string * string)) (tail : string) : string :=
  foldr (fun p rest => p.1 +:+ (armored p.2 +:+ rest)) tail parts.

Definition pgp_parts_ok (parts : list (string * string)) (tail : string) : Prop :=
  Forall (fun p => before PGP_BEGIN p.1 /\ before PGP_END (PGP_BEGIN +:+ p.2)) parts /\
  String.index 0 PGP_BEGIN tail = None.

Lemma str_drop_all a n : (String.length a <= n)%nat -> str_drop n a = EmptyString.
Proof.
  unfold str_drop. intros Hn. replace (String.length a - n)%nat with 0%nat by lia. clear Hn.
  revert n. induction a as [|c a IH]; intros [|n]; simpl; try done.
Qed.

Lemma split_pgp_exact parts tail fuel :
  pgp_parts_ok parts tail -> (length parts <= fuel)%nat ->
  split_pgp fuel (pgp_file parts tail) = armored <$> parts.*2.
Proof.
  intros [Hp Ht]. revert fuel. induction Hp as [|[junk body] parts [Hj Hb] Hp IH]; intros fuel Hf.
  - destruct fuel; simpl; [done|]. by rewrite Ht.
  - destruct fuel as [|fuel]; simpl in Hf; [lia|]. cbn [split_pgp pgp_file foldr fst snd].
    fold (pgp_file parts tail).
    replace (junk +:+ (armored body +:+ pgp_file parts tail))
      with (junk +:+ (PGP_BEGIN +:+ (body +:+ (PGP_END +:+ pgp_file parts tail))))
      by (unfold armored; by rewrite !str_app_assoc).
    rewrite (index_before _ _ _ Hj). cbv zeta. rewrite str_drop_app.
    rewrite <- (str_app_assoc PGP_BEGIN body), (index_before _ _ _ Hb), <- str_length_app.
    rewrite <- (str_app_assoc (PGP_BEGIN +:+ body)), str_take_app, str_drop_app.
    rewrite IH by lia. cbn [fmap list_fmap snd]. by f_equal.
Qed.

Lemma pgp_file_length parts tail : (length parts <= String.length (pgp_file parts tail))%nat.
Proof.
  induction parts as [|p parts IH]; [apply Nat.le_0_l|].
  cbn [pgp_file foldr length]. fold (pgp_file parts tail).
  assert (0 < String.length PGP_BEGIN)%nat by (vm_compute; lia).
  unfold armored. rewrite !str_length_app. lia.
Qed.

(** The blocks of a file are found, each whole and in order; what precedes,
    separates and follows them is dropped. *)
Lemma split_pgp_blocks_exact parts tail :
  pgp_parts_ok parts tail -> split_pgp_blocks (pgp_file parts tail) = armored <$> parts.*2.
Proof. intros Hp. apply split_pgp_exact; [done|apply pgp_file_length]. Qed.

(** ** The boot of a flavor *)

Inductive Flavor := WebcashFlavor | RgbFlavor | CollectibleFlavor | VoucherFlavor.

(** [finish!] and [serve]: which router answers. *)
Inductive Serving := Serve | ServeIssued | ServeCollectible.

Inductive Keys := LegacyKeys | NamespacedKeys.

Inductive StoreChoice :=
  | OnRedis (url : string)
  | OnDynamo (endpoint : option string)
  | OnFdb (cluster_file : option string)
  | OnRedisFdb (url : string) (cluster_file : option string).

Section Boot.
Context `{Hashing, Unicode, Ed25519, Pgp, BootHost}.
Variable with_fdb : bool.
Variable env : string -> option string.

Definition with_mode (m : MiningMode) : MiningConfig := {|
  mode := m;
  mining_amount_wats := mining_amount_wats default_mining_config;
  subsidy_amount_wats := subsidy_amount_wats default_mining_config;
  max_issuance := max_issuance default_mining_config;
  require_pow_for_issuance := require_pow_for_issuance default_mining_config |}.

(** [WEBYCASH_DIFFICULTY], where it parses, overrides the gate. *)
Definition override_difficulty (m : MiningMode) : MiningMode :=
  match env "WEBYCASH_DIFFICULTY" ≫= parse_u32 with
  | Some bits => Fixed bits
  | None => m
  end.

Definition webcash_mining (mode : string) : MiningMode :=
  override_difficulty (if (mode =? "production")%string then webcash_production else webcash_testnet).

Definition issued_mining (mode : string) : MiningMode :=
  let m := override_difficulty (if (mode =? "production")%string then issued_default else Fixed 4) in
  if bool_decide (env "WEBYCASH_MINING_MODE" = Some "disabled") then Disabled else m.

Definition collectible_mining (mode : string) : MiningMode :=
  override_difficulty (if (mode =? "production")%string then Disabled else Disabled).

(** ** Issuers *)

Definition issuer_entries : list string :=
  match env "WEBYCASH_ISSUERS" with
  | Some raw => List.filter (fun s => negb (s =? EmptyString)%string) (str_split ","%char raw)
  | None => []
  end.

Definition add_entry (r : IssuerRegistry) (entry : string) : result string IssuerRegistry :=
  p ← ok_or (split_once ":"%char entry) "WEBYCASH_ISSUERS entries must be `fp:hex_pubkey`";
  map_err (fun _ => "registering issuer " +:+ p.1) (add_hex r p.1 p.2).

Fixpoint add_entries (r : IssuerRegistry) (entries : list string) : result string IssuerRegistry :=
  match entries with
  | [] => Ok r
  | e :: rest => r' ← add_entry r e; add_entries r' rest
  end.

Fixpoint add_certs (r : IssuerRegistry) (certs : list string) : result string IssuerRegistry :=
  match certs with
  | [] => Ok r
  | c :: rest =>
      x ← map_err (fun _ => "registering OpenPGP V4 cert") (add_pgp_armored r c);
      add_certs x.2 rest
  end.

Definition cert_blocks : result string (list string) :=
  match env "WEBYCASH_ISSUER_PGP_CERTS" with
  | Some path =>
      blob ← ok_or (file_text path) ("reading WEBYCASH_ISSUER_PGP_CERTS=" +:+ path);
      Ok (split_pgp_blocks blob)
  | None => Ok []
  end.

Definition load_issuers : result string IssuerRegistry :=
  r ← add_entries new_registry issuer_entries;
  certs ← cert_blocks;
  add_certs r certs.

(** ** The store *)

Definition redis_url : string := default "redis://127.0.0.1:6379" (env "REDIS_URL").

Definition open_store (fdb_text other_text : string) : result string StoreChoice :=
  let backend := default "redis" (env "WEBCASH_DB_BACKEND") in
  let cluster := env "FDB_CLUSTER_FILE" in
  let opened ok st text := if (ok : bool) then Ok st else Err text in
  if (backend =? "redis")%string then
    opened (store_opens "redis" (Some redis_url) None) (OnRedis redis_url)
      ("connecting to Redis at " +:+ redis_url)
  else if (backend =? "dynamodb")%string then
    opened (store_opens "dynamodb" (env "DYNAMODB_ENDPOINT") None) (OnDynamo (env "DYNAMODB_ENDPOINT"))
      "ensure_tables on DynamoDB"
  else if (backend =? "fdb")%string then
    if with_fdb then opened (store_opens "fdb" None cluster) (OnFdb cluster) "opening FoundationDB"
    else Err ("WEBCASH_DB_BACKEND=" +:+ backend +:+ " requires the `fdb` cargo feature" +:+ fdb_text)
  else if (backend =? "redis_fdb")%string then
    if with_fdb then
      opened (store_opens "redis_fdb" (Some redis_url) cluster) (OnRedisFdb redis_url cluster)
        "opening Redis+FDB composite"
    else Err ("WEBCASH_DB_BACKEND=" +:+ backend +:+ " requires the `fdb` cargo feature" +:+ fdb_text)
  else Err ("unknown WEBCASH_DB_BACKEND: " +:+ backend +:+ other_text).

(** ** The four binaries *)

Record Booted := {
  b_cfg : ServeConfig;
  b_issuers : option IssuerRegistry;
  b_store : StoreChoice;
  b_keys : Keys;
  b_serving : Serving }.

(** [WEBCASH_BIND_ADDR], with the gate of the flavor. *)
Definition serve_config (mining_of : string -> MiningMode) : result string ServeConfig :=
  let bind := default "0.0.0.0:8080" (env "WEBCASH_BIND_ADDR") in
  let m := mining_of (default "testnet" (env "WEBCASH_MODE")) in
  if socket_addr_ok bind then Ok {| bind_addr := bind; mining := with_mode m |}
  else Err ("WEBCASH_BIND_ADDR is not a valid socket address: " +:+ bind).

Definition server_webcash : result string Booted :=
  cfg ← serve_config webcash_mining;
  st ← open_store "; rebuild with `cargo build --features fdb` (FoundationDB C client must be installed)"
    " (must be `redis`, `dynamodb`, `fdb`, or `redis_fdb`)";
  Ok {| b_cfg := cfg; b_issuers := None; b_store := st; b_keys := LegacyKeys; b_serving := Serve |}.

(** The part the three issued flavors share. *)
Definition boot_issued (mining_of : string -> MiningMode) (s : Serving) : result string Booted :=
  cfg ← serve_config mining_of;
  issuers ← load_issuers;
  st ← open_store EmptyString EmptyString;
  Ok {| b_cfg := cfg; b_issuers := if is_empty issuers then None else Some issuers;
        b_store := st; b_keys := NamespacedKeys; b_serving := s |}.

Definition server_rgb : result string Booted := boot_issued issued_mining ServeIssued.
Definition server_voucher : result string Booted := boot_issued issued_mining ServeIssued.
Definition server_rgb_collectible : result string Booted := boot_issued collectible_mining ServeCollectible.

Definition main (f : Flavor) : result string Booted :=
  match f with
  | WebcashFlavor => server_webcash
  | RgbFlavor => server_rgb
  | CollectibleFlavor => server_rgb_collectible
  | VoucherFlavor => server_voucher
  end.

(** ** When a binary serves, and what it trusts *)

(** The fingerprint and key an entry, or a certificate, registers. *)
Definition key_of (fp bytes : string) : option (string * VerifyingKey) :=
  if (String.length bytes =? 32)%nat then pair (to_lowercase fp) <$> result_ok (vk_from_bytes bytes) else None.

Definition issuer_key (entry : string) : option (string * VerifyingKey) :=
  p ← split_once ":"%char entry;
  bytes ← result_ok (hex_decode p.2);
  key_of p.1 bytes.

Definition cert_key (armor : string) : option (string * VerifyingKey) :=
  cert ← result_ok (pgp_from_string armor);
  match public_params cert with
  | PEd25519 bytes => key_of (hex_encode (cert_fingerprint cert)) bytes
  | _ => None
  end.

(** A later registration of a fingerprint replaces an earlier one. *)
Definition registry_of (l : list (string * VerifyingKey)) (r : IssuerRegistry) : IssuerRegistry :=
  {| Auth.keys := list_to_map (reverse l) ∪ Auth.keys r |}.

Lemma registry_of_nil r : registry_of [] r = r.
Proof. destruct r. unfold registry_of. simpl. by rewrite (left_id ∅ (∪)). Qed.

Lemma registry_of_cons x l r :
  registry_of (x :: l) r = registry_of l {| Auth.keys := <[x.1 := x.2]> (Auth.keys r) |}.
Proof.
  unfold registry_of. f_equal. simpl. rewrite reverse_cons, list_to_map_app. destruct x as [fp k]. simpl.
  by rewrite <- (assoc_L (∪)), insert_empty, <- insert_union_singleton_l.
Qed.

Lemma add_exact r fp bytes :
  add r fp bytes = match key_of fp bytes with
    | Some x => Ok {| Auth.keys := <[x.1 := x.2]> (Auth.keys r) |}
    | None => add r fp bytes
    end /\ (key_of fp bytes = None -> is_ok (add r fp bytes) = false).
Proof.
  unfold add, key_of. destruct (String.length bytes =? 32)%nat; simpl; [|done].
  by destruct (vk_from_bytes bytes).
Qed.

Lemma add_entry_exact r e r' :
  add_entry r e = Ok r' <-> exists x, issuer_key e = Some x /\
    r' = {| Auth.keys := <[x.1 := x.2]> (Auth.keys r) |}.
Proof.
  unfold add_entry, issuer_key, add_hex. destruct (split_once _ e) as [[fp hex]|]; simpl; [|naive_solver].
  destruct (hex_decode hex) as [bytes|]; simpl; [|naive_solver].
  destruct (add_exact r fp bytes) as [Ea En]. destruct (key_of fp bytes) as [x|].
  - rewrite Ea. simpl. naive_solver.
  - specialize (En eq_refl). destruct (add r fp bytes); simpl in *; naive_solver.
Qed.

Lemma add_cert_exact r c r' :
  (exists fp, add_pgp_armored r c = Ok (fp, r')) <-> exists x, cert_key c = Some x /\
    r' = {| Auth.keys := <[x.1 := x.2]> (Auth.keys r) |}.
Proof.
  unfold add_pgp_armored, cert_key. destruct (pgp_from_string c) as [cert|]; simpl; [|naive_solver].
  destruct (public_params cert) as [bytes| |]; simpl; [|naive_solver..].
  set (fp := hex_encode _). destruct (add_exact r fp bytes) as [Ea En]. destruct (key_of fp bytes) as [x|].
  - rewrite Ea. simpl. naive_solver.
  - specialize (En eq_refl). destruct (add r fp bytes); simpl in *; naive_solver.
Qed.

Lemma add_entries_exact entries r r' :
  add_entries r entries = Ok r' <-> exists l, mapM issuer_key entries = Some l /\ r' = registry_of l r.
Proof.
  revert r. induction entries as [|e rest IH]; intros r; simpl.
  { split; [intros [= <-]; exists []; by rewrite registry_of_nil|].
    intros (l & [= <-] & ->). by rewrite registry_of_nil. }
  rewrite bind_Ok. setoid_rewrite add_entry_exact. setoid_rewrite IH. split.
  - intros (r1 & (x & Ex & ->) & l & El & ->). exists (x :: l). rewrite Ex. simpl. rewrite El. simpl.
    by rewrite registry_of_cons.
  - intros (l & (x & Ex & El)%bind_Some & ->). apply bind_Some in El as (l' & El & [= <-]).
    eexists. split; [by exists x|]. exists l'. by rewrite registry_of_cons.
Qed.

Lemma add_certs_exact certs r r' :
  add_certs r certs = Ok r' <-> exists l, mapM cert_key certs = Some l /\ r' = registry_of l r.
Proof.
  revert r. induction certs as [|c rest IH]; intros r; simpl.
  { split; [intros [= <-]; exists []; by rewrite registry_of_nil|].
    intros (l & [= <-] & ->). by rewrite registry_of_nil. }
  rewrite bind_Ok. setoid_rewrite map_err_Ok. split.
  - intros ([fp r1] & Ec & Er). assert (exists fp, add_pgp_armored r c = Ok (fp, r1)) as Hc by eauto.
    apply add_cert_exact in Hc as (x & Ex & ->). apply IH in Er as (l & El & ->).
    exists (x :: l). rewrite Ex. simpl. rewrite El. simpl. by rewrite registry_of_cons.
  - intros (l & (x & Ex & El)%bind_Some & ->). apply bind_Some in El as (l' & El & [= <-]).
    destruct (proj2 (add_cert_exact r c _) (ex_intro _ x (conj Ex eq_refl))) as [fp Ec].
    eexists. split; [exact Ec|]. apply IH. exists l'. by rewrite registry_of_cons.
Qed.

(** The registrations of a flavor, in order. *)
Definition registered (f : Flavor) (l : list (string * VerifyingKey)) : Prop :=
  match f with
  | WebcashFlavor => l = []
  | _ => exists blocks ents certs, cert_blocks = Ok blocks /\ mapM issuer_key issuer_entries = Some ents /\
           mapM cert_key blocks = Some certs /\ l = ents ++ certs
  end.

Definition chosen (st : StoreChoice) : Prop :=
  let backend := default "redis" (env "WEBCASH_DB_BACKEND") in
  let cluster := env "FDB_CLUSTER_FILE" in
  match st with
  | OnRedis u => backend = "redis" /\ u = redis_url /\ store_opens backend (Some u) None = true
  | OnDynamo e => backend = "dynamodb" /\ e = env "DYNAMODB_ENDPOINT" /\ store_opens backend e None = true
  | OnFdb c => backend = "fdb" /\ with_fdb = true /\ c = cluster /\ store_opens backend None c = true
  | OnRedisFdb u c => backend = "redis_fdb" /\ with_fdb = true /\ u = redis_url /\ c = cluster /\
      store_opens backend (Some u) c = true
  end.

Lemma open_store_exact t1 t2 st : open_store t1 t2 = Ok st <-> chosen st.
Proof.
  unfold open_store, chosen. set (backend := default _ _). clearbody backend. split.
  - intros E. split_match E; bools; subst; repeat split; assumption.
  - destruct st; [intros (-> & -> & Ho)|intros (-> & -> & Ho)|intros (-> & -> & -> & Ho)|
      intros (-> & -> & -> & -> & Ho)]; simpl; by rewrite Ho.
Qed.

Definition gate_of (f : Flavor) : string -> MiningMode :=
  match f with
  | WebcashFlavor => webcash_mining
  | CollectibleFlavor => collectible_mining
  | _ => issued_mining
  end.

Definition booted (f : Flavor) (l : list (string * VerifyingKey)) (st : StoreChoice) : Booted := {|
  b_cfg := {| bind_addr := default "0.0.0.0:8080" (env "WEBCASH_BIND_ADDR");
              mining := with_mode (gate_of f (default "testnet" (env "WEBCASH_MODE"))) |};
  b_issuers := if decide (l = []) then None else Some {| Auth.keys := list_to_map (reverse l) |};
  b_store := st;
  b_keys := match f with WebcashFlavor => LegacyKeys | _ => NamespacedKeys end;
  b_serving := match f with
               | WebcashFlavor => Serve
               | CollectibleFlavor => ServeCollectible
               | _ => ServeIssued
               end |}.

Lemma registry_from_empty l : registry_of l new_registry = {| Auth.keys := list_to_map (reverse l) |}.
Proof. unfold registry_of. simpl. by rewrite (right_id ∅ (∪)). Qed.

Lemma registry_app l l' r : registry_of l' (registry_of l r) = registry_of (l ++ l') r.
Proof. unfold registry_of. simpl. by rewrite reverse_app, list_to_map_app, (assoc_L (∪)). Qed.

Lemma registry_empty l : is_empty (registry_of l new_registry) = bool_decide (l = []).
Proof.
  rewrite registry_from_empty. unfold is_empty. simpl. apply bool_decide_ext. split; [|by intros ->].
  destruct l as [|x l _] using rev_ind; [done|]. rewrite reverse_snoc. simpl.
  intros E. by apply insert_non_empty in E.
Qed.
(** The issuers a boot that registered [l] lets mint: [verify] accepts under
    the key registered last for the fingerprint, and nothing else. *)
Definition accepts (b : Booted) (fp : PgpFingerprint) (body sig : string) : Prop :=
  exists r, b_issuers b = Some r /\ verify r fp body sig = Ok tt.

Lemma accepts_exact f l st fp body sig :
  accepts (booted f l st) fp body sig <-> exists k,
    (list_to_map (reverse l) : gmap string VerifyingKey) !! to_lowercase (fp_str fp) = Some k /\
    String.length sig = 64%nat /\ ed_verify k body sig = true.
Proof.
  unfold accepts, booted. simpl. split.
  - intros (r & Er & Hv). case_decide; [done|]. injection Er as <-. unfold verify in Hv. simpl in Hv.
    apply bind_Ok in Hv as (k & Ek%ok_or_Ok & Hv). exists k. split; [done|].
    destruct (Nat.eqb_spec (String.length sig) 64); [|done]. simpl in Hv.
    by destruct (ed_verify k body sig).
  - intros (k & Ek & Hl & Hv). rewrite decide_False.
    + eexists. split; [done|]. unfold verify. simpl. rewrite Ek. simpl. by rewrite Hl, Hv.
    + intros ->. rewrite reverse_nil in Ek. simpl in Ek. by rewrite lookup_empty in Ek.
Qed.

Definition listen_addr : string := default "0.0.0.0:8080" (env "WEBCASH_BIND_ADDR").

Lemma serve_config_exact m c :
  serve_config m = Ok c <-> socket_addr_ok listen_addr = true /\
    c = {| bind_addr := listen_addr; mining := with_mode (m (default "testnet" (env "WEBCASH_MODE"))) |}.
Proof. unfold serve_config. fold listen_addr. destruct (socket_addr_ok _); naive_solver. Qed.

Lemma load_issuers_exact r :
  load_issuers = Ok r <-> exists l, registered RgbFlavor l /\ r = registry_of l new_registry.
Proof.
  unfold load_issuers. rewrite bind_Ok. split.
  - intros (r1 & (ents & Ee & ->)%add_entries_exact & Hr).
    apply bind_Ok in Hr as (blocks & Eb & (certs & Ecs & ->)%add_certs_exact).
    exists (ents ++ certs). split; [by exists blocks, ents, certs|apply registry_app].
  - intros (l & (blocks & ents & certs & Eb & Ee & Ecs & ->) & ->).
    exists (registry_of ents new_registry). split; [apply add_entries_exact; by exists ents|].
    rewrite Eb. simpl. apply add_certs_exact. exists certs. by rewrite registry_app.
Qed.

Lemma boot_issued_exact f b :
  f <> WebcashFlavor ->
  (boot_issued (gate_of f) (b_serving (booted f [] (OnDynamo None))) = Ok b <->
   exists l st, registered f l /\ chosen st /\ socket_addr_ok listen_addr = true /\ b = booted f l st).
Proof.
  intros Hf. unfold boot_issued. rewrite bind_Ok. setoid_rewrite serve_config_exact.
  assert (registered f = registered RgbFlavor) as -> by (by destruct f).
  assert (forall l st, (if is_empty (registry_of l new_registry) then None else Some (registry_of l new_registry))
    = b_issuers (booted f l st)) as Hi.
  { intros l st. rewrite registry_empty, registry_from_empty. simpl. by case_bool_decide; case_decide. }
  assert (forall l st, booted f l st = {|
    b_cfg := {| bind_addr := listen_addr;
                mining := with_mode (gate_of f (default "testnet" (env "WEBCASH_MODE"))) |};
    b_issuers := b_issuers (booted f l st); b_store := st; b_keys := NamespacedKeys;
    b_serving := b_serving (booted f [] (OnDynamo None)) |}) as Hb by (by destruct f).
  split.
  - intros (c & [Ha ->] & (r & (l & Hl & ->)%load_issuers_exact & Hr)%bind_Ok).
    apply bind_Ok in Hr as (st & Hst%open_store_exact & [= <-]). exists l, st.
    by rewrite (Hi l st), <- Hb.
  - intros (l & st & Hl & Hst & Ha & ->). eexists. split; [done|]. apply bind_Ok.
    exists (registry_of l new_registry). split; [apply load_issuers_exact; by exists l|].
    apply bind_Ok. exists st. split; [by apply open_store_exact|]. by rewrite (Hi l st), <- Hb.
Qed.

(** C22: A binary serves exactly when its address reads, every configured issuer
    entry and certificate registers, and the chosen backend is built in and
    opens; it then runs its flavor's router, keys and mining gate, and lets mint
    exactly under the key registered last for a fingerprint (none for Webcash). *)
Theorem boot_exact f b :
  (main f = Ok b <-> exists l st,
     registered f l /\ chosen st /\ socket_addr_ok listen_addr = true /\ b = booted f l st) /\
  (main f = Ok b -> exists l, registered f l /\ forall fp body sig,
     accepts b fp body sig <-> exists k,
       (list_to_map (reverse l) : gmap string VerifyingKey) !! to_lowercase (fp_str fp) = Some k /\
       String.length sig = 64%nat /\ ed_verify k body sig = true).
Proof.
  assert (main f = Ok b <-> exists l st,
     registered f l /\ chosen st /\ socket_addr_ok listen_addr = true /\ b = booted f l st) as Hm.
  2: { split; [done|]. intros (l & st & Hl & _ & _ & ->)%Hm. exists l. split; [done|]. apply accepts_exact. }
  destruct f; [|by apply (boot_issued_exact RgbFlavor)|by apply (boot_issued_exact CollectibleFlavor)|
    by apply (boot_issued_exact VoucherFlavor)]. unfold main, server_webcash. rewrite bind_Ok.
  setoid_rewrite serve_config_exact. split.
  - intros (c & [Ha ->] & (st & Hst%open_store_exact & [= <-])%bind_Ok). by exists [], st.
  - intros (l & st & -> & Hst & Ha & ->). eexists. split; [done|]. apply bind_Ok. exists st.
    split; [by apply open_store_exact|done].
Qed.
End Boot.
