(* ===== verification/ServerBootExamples.v ===== *)
(** * The asset-server binaries on concrete environments

    [ServerBoot.boot_exact] on an environment with issuer entries and a file of
    certificates, and what the configuration lets pass. *)
From S2P Require Import Prelude Decimal External AssetCore Mining Auth Server RefereeStores ServerBoot.

(** A certificate is its own armored text; the key and the fingerprint are the
    32 bytes after its header. *)
#[export] Instance pgp_armor : Pgp := {|
  PgpCert := string;
  pgp_from_string c := if String.prefix PGP_BEGIN c then Ok c else Err "no matching packet found";
  public_params c := PEd25519 (str_take 32 (str_drop (String.length PGP_BEGIN) c));
  cert_fingerprint c := str_take 20 (str_drop (String.length PGP_BEGIN) c);
|}.

Definition key_a : string := str_repeat "a" 32.
Definition key_b : string := str_repeat "b" 32.
Definition key_c : string := str_repeat "c" 32.

Definition certs : string :=
  pgp_file [("issuers: ", key_c +:+ " "); (" and ", key_b +:+ " ")] " cut -----BEGIN PGP PUBLIC KEY".

#[export] Instance boot_host : BootHost := {|
  socket_addr_ok a := (a =? "0.0.0.0:8080")%string;
  file_text p := if (p =? "/etc/issuers.asc")%string then Some certs else None;
  store_opens _ _ _ := true;
|}.

Definition env_of (l : list (string * string)) (k : string) : option string :=
  snd <$> List.find (fun p => (p.1 =? k)%string) l.

(** The fingerprint is given twice, in two spellings. *)
Definition issuer_vars : list (string * string) :=
  [("WEBYCASH_ISSUERS", "F1:" +:+ hex_encode key_a +:+ ",,f1:" +:+ hex_encode key_b);
   ("WEBYCASH_ISSUER_PGP_CERTS", "/etc/issuers.asc"); ("WEBCASH_MODE", "prod")].

Lemma certs_ok : pgp_parts_ok [("issuers: ", key_c +:+ " "); (" and ", key_b +:+ " ")] " cut -----BEGIN PGP PUBLIC KEY".
Proof. split; [repeat constructor; vm_compute; reflexivity|vm_compute; reflexivity]. Qed.

(** The two blocks are read, the cut one at the end is dropped. *)
Example certs_split : split_pgp_blocks certs = [armored (key_c +:+ " "); armored (key_b +:+ " ")].
Proof. unfold certs. by rewrite (split_pgp_blocks_exact _ _ certs_ok). Qed.

Definition fp1 : PgpFingerprint := mk_fp "F1".
Definition signed (k body : string) : string := String.substring 0 64 (k +:+ body +:+ str_repeat " " 64).

(** The later key of the fingerprint counts, the earlier one does not. *)
Lemma boot_exact_witness :
  exists b, ServerBoot.main false (env_of issuer_vars) VoucherFlavor = Ok b /\ b_serving b = ServeIssued /\
    accepts b fp1 "body" (signed key_b "body") /\ ~ accepts b fp1 "body" (signed key_a "body").
Proof.
  destruct (ServerBoot.main false (env_of issuer_vars) VoucherFlavor) as [b|] eqn:Eb; [|by vm_compute in Eb].
  exists b. split; [reflexivity|].
  destruct (boot_exact false (env_of issuer_vars) VoucherFlavor b) as [Hiff Hacc].
  destruct (proj1 Hiff Eb) as (l & st & Hl & _ & _ & Eb').
  split; [rewrite Eb'; reflexivity|].
  destruct (Hacc Eb) as (l' & Hl' & Ha).
  destruct Hl' as (blocks & ents & cs & Ebl & Eents & Ecs & ->).
  vm_compute in Ebl. injection Ebl as <-. vm_compute in Eents. injection Eents as <-.
  vm_compute in Ecs. injection Ecs as <-.
  rewrite !Ha. split.
  - eexists. split; [vm_compute; reflexivity|]. split; vm_compute; reflexivity.
  - intros (k & Ek & _ & Hv). vm_compute in Ek. injection Ek as <-. vm_compute in Hv. discriminate Hv.
Defined.

(** ** What the configuration lets pass *)

(** Any mode but [production] is the test network. *)
Example mistyped_mode :
  mode <$> (mining <$> (b_cfg <$> ServerBoot.main false (env_of issuer_vars) VoucherFlavor)) = Ok (Fixed 4).
Proof. vm_compute. reflexivity. Qed.

(** The deployment guide's name of the other network. *)
Example documented_mainnet :
  mode <$> (mining <$> (b_cfg <$> ServerBoot.main false (env_of [("WEBCASH_MODE", "mainnet")]) WebcashFlavor))
    = Ok webcash_testnet.
Proof. vm_compute. reflexivity. Qed.

(** The guide's backend [foundationdb] and its lists of bare fingerprints are
    refused by every build. *)
Example documented_settings_refused :
  is_ok (ServerBoot.main true (env_of [("WEBCASH_DB_BACKEND", "foundationdb")]) WebcashFlavor) = false /\
  is_ok (ServerBoot.main true (env_of [("WEBYCASH_ISSUERS", "AABB")]) VoucherFlavor) = false.
Proof. split; vm_compute; reflexivity. Qed.

(** A difficulty switches the gate of the flavor that cannot be mined back on. *)
Example collectible_gate :
  mode <$> (mining <$> (b_cfg <$> ServerBoot.main false (env_of [("WEBYCASH_DIFFICULTY", "8")]) CollectibleFlavor))
    = Ok (Fixed 8).
Proof. vm_compute. reflexivity. Qed.

Example difficulty_out_of_range :
  mode <$> (mining <$> (b_cfg <$> ServerBoot.main false (env_of [("WEBYCASH_DIFFICULTY", "4294967296")]) WebcashFlavor))
    = Ok webcash_testnet.
Proof. vm_compute. reflexivity. Qed.

Example backend_not_built :
  is_ok (ServerBoot.main false (env_of [("WEBCASH_DB_BACKEND", "fdb")]) WebcashFlavor) = false /\
  is_ok (ServerBoot.main true (env_of [("WEBCASH_DB_BACKEND", "fdb")]) WebcashFlavor) = true.
Proof. split; vm_compute; reflexivity. Qed.
