(* ===== verification/ServerServe.v ===== *)
(** * Serving, and serving again

    [crates/server-core/src/lib.rs], from [Server::new] to the three [serve]
    functions, joined to what the binaries of [ServerBoot] boot: the accept
    loop over the arrivals at a listener, and the life of a service as the
    processes that serve one store after another.  A restart forgets the nonce
    cache and keeps the store; no token is spent twice across restarts.

    The arrivals are an argument: what the kernel and hyper deliver, in the
    order the handlers run.  A request is one step, so that a handler cut off
    by the end of its process is not described. *)
From S2P Require Import Prelude Decimal Amount External AssetCore Tokens Storage Redis RedisLedger Mining Records Auth Server ServerFacts Ledger LedgerServer ServerBoot.

(** ** A server and its accept loop *)

Section Serve.
Context `{Chrono, Ed25519} {S : Type}.

(** [Server<A, S>]. *)
Record AssetServer := {
  config : ServeConfig;
  store : S;
  issuers : option IssuerRegistry;
  nonce_cache : NonceCache }.

Definition new (cfg : ServeConfig) (st : S) : AssetServer :=
  {| config := cfg; store := st; issuers := None; nonce_cache := default_nonces |}.

Definition with_issuers (sv : AssetServer) (r : IssuerRegistry) : AssetServer :=
  {| config := config sv; store := store sv; issuers := Some r; nonce_cache := nonce_cache sv |}.

(** What the handlers share through the [Arc]. *)
Definition shared (sv : AssetServer) : ServerState S := {| data := store sv; nonces := nonce_cache sv |}.

(** The events of a listener: a connection is accepted or [accept] fails, a
    request is read from a connection, a connection ends, with or without the
    error that the task logs. *)
Inductive Event :=
  | Accepted (peer : nat)
  | AcceptFailed (e : string)
  | Received (peer : nat) (env : Env) (req : Request)
  | Ended (peer : nat) (e : option string).

Record Answer := { a_peer : nat; a_request : Request; a_response : Response }.

(** The answers, the state that is left, and the error [serve] returns, if
    it has returned. *)
Record Run := { answers : list Answer; left : ServerState S; stopped : option string }.

(** [loop { let (stream, peer) = listener.accept().await?; .. spawn .. }]: a
    task per connection, which answers its requests through the router. *)
Fixpoint accept_loop (h : Env -> Request -> handler S Response) (evs : list Event) (conns : gset nat)
    (st : ServerState S) : Run :=
  match evs with
  | [] => {| answers := []; left := st; stopped := None |}
  | Accepted peer :: evs' => accept_loop h evs' ({[peer]} ∪ conns) st
  | AcceptFailed e :: _ => {| answers := []; left := st; stopped := Some e |}
  | Received peer env req :: evs' =>
      if decide (peer ∈ conns) then
        let '(r, st') := respond (h env req) st in
        let run := accept_loop h evs' conns st' in
        {| answers := {| a_peer := peer; a_request := req; a_response := r |} :: answers run;
           left := left run; stopped := stopped run |}
      else accept_loop h evs' conns st
  | Ended peer _ :: evs' => accept_loop h evs' (conns ∖ {[peer]}) st
  end.

(** A router of a server: [route], [route_issued] or [route_collectible]. *)
Definition router : Type := AssetServer -> Env -> Request -> handler S Response.

(** The body the three [serve] functions share.  [bind] is [TcpListener::bind]. *)
Definition serve_on (h : router) (bind : string -> result string unit) (evs : list Event) (sv : AssetServer) : Run :=
  match bind (bind_addr (config sv)) with
  | Err e => {| answers := []; left := shared sv; stopped := Some e |}
  | Ok _ => accept_loop (h sv) evs ∅ (shared sv)
  end.

(** [finish!]: the server a binary hands to [serve]. *)
Definition server_of (b : Booted) (st : S) : AssetServer :=
  match b_issuers b with
  | None => new (b_cfg b) st
  | Some r => with_issuers (new (b_cfg b) st) r
  end.
End Serve.
Arguments AssetServer {_} S.
Arguments Run S : clear implicits.
Arguments router {_ _} S.

Section Routers.
Context {A : Asset} `{Chrono} `{!HashRecord Rec} {S : Type} `{!LedgerStore Rec S} `{ServerJson} {RB : RecordBuilder}
  `{Hashing, Unicode, Ed25519}.

Definition plain_router {SA : SplittableAsset} {RH : ReplaceHook} : router S := fun sv env =>
  route (config sv) env.
Definition issued_router {SA : SplittableAsset} {RH : ReplaceHook} {IA : IssuedAsset} : router S := fun sv env =>
  route_issued (config sv) (issuers sv) env.
Definition collectible_router {TA : TransferableAsset} {RH : ReplaceHook} {IA : IssuedAsset} : router S := fun sv env =>
  route_collectible (config sv) (issuers sv) env.

Definition serve {SA : SplittableAsset} {RH : ReplaceHook} := serve_on plain_router.
Definition serve_issued {SA : SplittableAsset} {RH : ReplaceHook} {IA : IssuedAsset} := serve_on issued_router.
Definition serve_collectible {TA : TransferableAsset} {RH : ReplaceHook} {IA : IssuedAsset} :=
  serve_on collectible_router.

(** The [serve] a binary calls, by the asset's traits. *)
Inductive serves : Serving -> ((string -> result string unit) -> list Event -> AssetServer S -> Run S) -> Prop :=
  | serves_plain {SA : SplittableAsset} {RH : ReplaceHook} : serves Serve serve
  | serves_issued {SA : SplittableAsset} {RH : ReplaceHook} {IA : IssuedAsset} : serves ServeIssued serve_issued
  | serves_collectible {TA : TransferableAsset} {RH : ReplaceHook} {IA : IssuedAsset} :
      serves ServeCollectible serve_collectible.

(** A process: what it booted, the [serve] it calls, what its sockets deliver. *)
Record Process := {
  p_boot : Booted;
  p_serve : (string -> result string unit) -> list Event -> AssetServer S -> Run S;
  p_bind : string -> result string unit;
  p_events : list Event }.

Definition process_ok (p : Process) : Prop := serves (b_serving (p_boot p)) (p_serve p).

Definition run_process (p : Process) (d : S) : Run S :=
  p_serve p (p_bind p) (p_events p) (server_of (p_boot p) d).

(** One process after another over one store, each with a fresh cache. *)
Fixpoint lives (ps : list Process) (d : S) : list Answer * S :=
  match ps with
  | [] => ([], d)
  | p :: ps' =>
      let run := run_process p d in
      let '(rest, d') := lives ps' (data (left run)) in
      (answers run ++ rest, d')
  end.
End Routers.

(** ** What a client learns of a replace *)

Section Refusals.
Context {S : Type}.

(** A handler that stops early answers 500. *)
Definition refuses500 {T} (m : handler S T) : Prop := forall st r st', m st = (Err r, st') -> resp_status r = 500.

Lemma refuses_ret {T} (x : T) : refuses500 (mret x).
Proof. done. Qed.
Lemma refuses_fail {T} msg : refuses500 (fail msg : handler S T).
Proof. by intros st r st' [= <- <-]. Qed.
Lemma refuses_try {E T} (x : result E T) msg : refuses500 (try x msg : handler S T).
Proof. intros st r st'. unfold try. destruct x; [done|]. by intros [= <- <-]. Qed.
Lemma refuses_store {T} (f : S -> T * S) : refuses500 (with_store f).
Proof. intros st r st'. unfold with_store. by destruct (f (data st)). Qed.
Lemma refuses_bind {T U} (m : handler S T) (k : T -> handler S U) :
  refuses500 m -> (forall x, refuses500 (k x)) -> refuses500 (m ≫= k).
Proof.
  intros Hm Hk st r st' E. apply hbind_Err in E. naive_solver.
Qed.
Lemma refuses_if {T} (b : bool) (m n : handler S T) : refuses500 m -> refuses500 n -> refuses500 (if b then m else n).
Proof. by destruct b. Qed.
End Refusals.

Create HintDb refuses.
#[export] Hint Resolve refuses_ret refuses_fail refuses_try refuses_store : refuses.

Ltac refuses :=
  repeat first
    [ progress cbv beta zeta
    | apply refuses_if
    | apply refuses_bind; [|intros ?]
    | progress eauto with refuses
    | match goal with |- refuses500 (match ?x with _ => _ end) => destruct x end ].

Section Spending.
Context {A : Asset} `{Chrono} `{!HashRecord Rec} {K : KeyStrategy} {S : Type} `{!LedgerStore Rec S}
  {LC : LedgerContract S} {IC : InsertContract S} `{ServerJson} {RB : RecordBuilder} `{Hashing, Unicode, Ed25519}.
Implicit Types (st : ServerState S) (l : ledger).

Lemma replace_refuses {SA : SplittableAsset} {RH : ReplaceHook} env req : refuses500 (replace env req : handler S _).
Proof. unfold replace. refuses. Qed.

Lemma replace_collectible_refuses {TA : TransferableAsset} {IA : IssuedAsset} {RH : ReplaceHook} env req :
  refuses500 (replace_collectible env req : handler S _).
Proof. unfold replace_collectible. refuses. Qed.

(** ** The tokens a client is told it has spent *)

Fixpoint read_secrets (tokens : list string) : option (list Secret) :=
  match tokens with
  | [] => Some []
  | t :: rest =>
      match parse_secret t, read_secrets rest with
      | Ok s, Some ss => Some (s :: ss)
      | _, _ => None
      end
  end.

Definition named_inputs (req : Request) : list Secret :=
  match req_body req with
  | Ok body =>
      match json_replace_body body with
      | Ok parsed => default [] (read_secrets (rb_webcashes parsed))
      | Err _ => []
      end
  | Err _ => []
  end.

(** The keys of the inputs of a [/replace] that was answered 200. *)
Definition spent_by (req : Request) (r : Response) : list string :=
  if is_route req "POST" "/api/v1/replace" && (resp_status r =? 200) then secret_key <$> named_inputs req else [].

Definition spent_in (rs : list Answer) : list string :=
  rs ≫= fun a => spent_by (a_request a) (a_response a).

Lemma read_secrets_parsed tokens ss : parsed_as tokens ss -> read_secrets tokens = Some ss.
Proof. induction 1 as [|t s ts ss E _ IH]; simpl; [done|]. by rewrite E, IH. Qed.

(** A step of the store that spends the tokens [ks]: they are distinct, were
    not spent before, are spent after, and everything else evolves. *)
Definition spends_keys (ks : list string) (d d' : S) : Prop := forall l, models d l ->
  exists l', models d' l' /\ evolves l l' /\ NoDup ks /\ forall k, k ∈ ks ->
    (forall f, l !! k = Some f -> spent_hash f = false) /\ exists f, l' !! k = Some f /\ spent_hash f = true.

Lemma spends_none d d' : follows d d' -> spends_keys [] d d'.
Proof.
  intros Hf l (l' & Hm & He)%Hf. exists l'. split_and!; [done|done|constructor|]. by intros k ?%elem_of_nil.
Qed.

Lemma spends_app ks ks' d1 d2 d3 : spends_keys ks d1 d2 -> spends_keys ks' d2 d3 -> spends_keys (ks ++ ks') d1 d3.
Proof.
  intros H12 H23 l1 (l2 & (l3 & Hm3 & He23 & Hn' & Hk')%H23 & He12 & Hn & Hk)%H12.
  exists l3. split_and!; [done|by etrans| |].
  - apply NoDup_app. split_and!; [done| |done]. intros k (_ & f & Ef & Hf)%Hk (Hu & _)%Hk'.
    rewrite (Hu _ Ef) in Hf. done.
  - intros k [Hin|Hin]%elem_of_app.
    + destruct (Hk _ Hin) as (Hu & f & Ef & Hf). split; [done|]. exists f. split; [|done].
      destruct (He23 _ _ Ef) as [E|[Hf' _]]; congruence.
    + destruct (Hk' _ Hin) as (Hu & Hs). split; [|done]. intros f Ef.
      destruct (He12 _ _ Ef) as [E|[Hf' _]]; eauto.
Qed.

Lemma replaced_spends now ins outs l l' : replaced now ins outs l l' ->
  evolves l l' /\ NoDup ins /\ forall k, k ∈ ins ->
    (forall f, l !! k = Some f -> spent_hash f = false) /\ exists f, l' !! k = Some f /\ spent_hash f = true.
Proof.
  intros Hr. split_and!; [by eapply replaced_evolves|by destruct Hr|]. intros k Hin.
  destruct (replaced_spent _ _ _ _ _ Hr k Hin) as (f & Ef & Hf & Ef'). split.
  - intros g Eg. congruence.
  - exists (mark_hash now f). split; [done|apply spent_mark].
Qed.

(** ** One request *)

Lemma named_inputs_parsed req body parsed ins :
  req_body req = Ok body -> json_replace_body body = Ok parsed -> parsed_as (rb_webcashes parsed) ins ->
  named_inputs req = ins.
Proof. intros Eb Ep Hp. unfold named_inputs. by rewrite Eb, Ep, (read_secrets_parsed _ _ Hp). Qed.

Lemma replace_spends {SA : SplittableAsset} {RH : ReplaceHook} env req st r st' :
  replace env req st = (Ok r, st') -> spends_keys (secret_key <$> named_inputs req) (data st) (data st').
Proof.
  intros E. pose proof E as [_ (body & parsed & Hb & Hp & _ & Hcase)]%replace_inv.
  assert (exists ins, parsed_as (rb_webcashes parsed) ins) as [ins Hin].
  { destruct Hcase as [(-> & _)|(ns & ins & outs & recs & op & [Hin _ _ _ _ _ _ _ _ _])]; [|eauto].
    exists []. constructor. }
  rewrite (named_inputs_parsed _ _ _ _ Hb Hp Hin). destruct (decide (ins = [])) as [->|Hne].
  - apply spends_none. exact (moves_replace _ _ _ _ _ E).
  - intros l Hm. destruct (accepted_step env req st r st' l ins E Hm) as (l' & outs & Hm' & Hrep%replaced_spends);
      [by exists body, parsed|done|]. by exists l'.
Qed.

Lemma collectible_spends {TA : TransferableAsset} {IA : IssuedAsset} {RH : ReplaceHook} env req st r st' :
  replace_collectible env req st = (Ok r, st') -> spends_keys (secret_key <$> named_inputs req) (data st) (data st').
Proof.
  intros (_ & _ & body & parsed & tin & tout & input & output & rec & op & s1 & rest & Hb & Hp & _ & Hi & _ & Ei & _ & _
    & _ & _ & _ & _ & Hop & (tl & Hg) & Hbr)%replace_collectible_sound.
  rewrite (named_inputs_parsed _ _ _ [input] Hb Hp) by (rewrite Hi; repeat constructor; done).
  intros l Hm. pose proof (contract_get _ _ _ _ _ _ _ Hm Hg) as Hm1.
  destruct (batch_step _ _ _ _ _ _ _ Hbr Hm1) as (l' & Hm' & Hrep%replaced_spends). exists l'. split; [done|].
  unfold ledger_ins in Hrep. by rewrite Hop in Hrep.
Qed.

Lemma is_route_true req m p : is_route req m p = true -> req_method req = m /\ req_path req = p.
Proof. unfold is_route. by intros [?%String.eqb_eq ?%String.eqb_eq]%andb_true_iff. Qed.

(** A router passes a [/replace] to the handler [f]. *)
Definition replaces_by (h f : Env -> Request -> handler S Response) : Prop :=
  forall env req, is_route req "POST" "/api/v1/replace" = true -> h env req = f env req.

Lemma answer_spends h f env req st r st' :
  (forall env req, moves follows (h env req)) -> replaces_by h f -> (forall env req, refuses500 (f env req)) ->
  (forall env req st r st', f env req st = (Ok r, st') ->
     spends_keys (secret_key <$> named_inputs req) (data st) (data st')) ->
  respond (h env req) st = (r, st') -> spends_keys (spent_by req r) (data st) (data st').
Proof.
  intros Hm Hh Hf Hs. unfold respond, spent_by. destruct (h env req st) as [x st1] eqn:E. intros Er.
  assert (follows (data st) (data st')) as Hfol by (destruct x; injection Er as <- <-; exact (Hm _ _ _ _ _ E)).
  destruct (is_route req _ _) eqn:Hr; [|by apply spends_none]. rewrite (Hh _ _ Hr) in E.
  destruct (Z.eqb_spec (resp_status r) 200) as [E2|]; [|by apply spends_none]. simpl.
  destruct x as [x|x]; injection Er as <- <-; [by eapply Hs|]. rewrite (Hf _ _ _ _ _ E) in E2. done.
Qed.

(** ** The accept loop, and one process after another *)

(** A router whose answers account for what they spend. *)
Definition accountable (h : Env -> Request -> handler S Response) : Prop := forall env req st r st',
  respond (h env req) st = (r, st') -> spends_keys (spent_by req r) (data st) (data st').

Ltac routes :=
  let Hm := fresh in let Hp := fresh in
  intros ? ? [Hm Hp]%is_route_true;
  unfold plain_router, issued_router, collectible_router, route_issued, route_collectible, route, is_route; rewrite Hm, Hp; reflexivity.

Lemma plain_accountable {SA : SplittableAsset} {RH : ReplaceHook} sv : accountable (plain_router sv).
Proof.
  intros ?????. apply answer_spends with (f := fun env => replace env);
    [intros; apply moves_route|routes|apply replace_refuses|apply replace_spends].
Qed.
Lemma issued_accountable {SA : SplittableAsset} {RH : ReplaceHook} {IA : IssuedAsset} sv :
  accountable (issued_router sv).
Proof.
  intros ?????. apply answer_spends with (f := fun env => replace env);
    [intros; apply moves_route_issued|routes|apply replace_refuses|apply replace_spends].
Qed.
Lemma collectible_accountable {TA : TransferableAsset} {RH : ReplaceHook} {IA : IssuedAsset} sv :
  accountable (collectible_router sv).
Proof.
  intros ?????. apply answer_spends with (f := fun env => replace_collectible env);
    [intros; apply moves_route_collectible|routes|apply replace_collectible_refuses|apply collectible_spends].
Qed.

Lemma accept_loop_spends h evs conns st :
  accountable h ->
  spends_keys (spent_in (answers (accept_loop h evs conns st))) (data st) (data (left (accept_loop h evs conns st))).
Proof.
  intros Hh. revert conns st. induction evs as [|ev evs IH]; intros conns st; cbn [accept_loop answers left].
  { by apply spends_none. }
  destruct ev as [peer|e|peer env req|peer e]; [apply IH|by apply spends_none| |apply IH].
  destruct (decide _); [|apply IH]. destruct (respond (h env req) st) as [r st1] eqn:E.
  cbn [answers left]. eapply spends_app; [by eapply Hh|apply IH].
Qed.

Lemma process_spends p d :
  process_ok p -> spends_keys (spent_in (answers (run_process p d))) d (data (left (run_process p d))).
Proof.
  assert (forall (h : router S) bind evs sv, accountable (h sv) ->
    spends_keys (spent_in (answers (serve_on h bind evs sv))) (store sv) (data (left (serve_on h bind evs sv)))) as Hon.
  { intros h bind evs sv Hh. unfold serve_on. destruct (bind _); [by apply (accept_loop_spends (h sv) evs ∅ (shared sv))|].
    by apply spends_none. }
  assert (store (server_of (p_boot p) d) = d) as Ed by (unfold server_of; by destruct (b_issuers _)).
  intros Hp. rewrite <- Ed at 2. unfold run_process. destruct Hp; apply Hon;
    [apply plain_accountable|apply issued_accountable|apply collectible_accountable].
Qed.

(** C9: Over a store with the contracts [LedgerContract] and [InsertContract],
    which the FoundationDB store and the composite have, the Redis and the
    DynamoDB store have not, through any sequence of processes, each
    booted from its own settings with an empty nonce cache and ended by a failed
    bind, a failed accept or its environment, on any connections and requests:
    the inputs of all the replaces that were answered 200 are distinct and spent
    on the ledger, and every other token evolves. *)
Theorem spent_once_across_restarts ps d l :
  Forall process_ok ps -> models d l ->
  NoDup (spent_in (lives ps d).1) /\
  exists l', models (lives ps d).2 l' /\ evolves l l' /\
    forall k, k ∈ spent_in (lives ps d).1 -> exists f, l' !! k = Some f /\ spent_hash f = true.
Proof.
  intros Hps Hm. assert (spends_keys (spent_in (lives ps d).1) d (lives ps d).2) as Hs.
  2: { destruct (Hs l Hm) as (l' & Hm' & He & Hn & Hk). split; [done|]. exists l'.
       split_and!; [done|done|]. intros k [_ Hf]%Hk. done. }
  clear Hm l. revert d. induction Hps as [|p ps Hp _ IH]; intros d; cbn [lives fst snd]; [by apply spends_none|].
  specialize (IH (data (left (run_process p d)))). destruct (lives ps _) as [rest d'] eqn:E. cbn [fst snd] in *.
  unfold spent_in. rewrite bind_app. eapply spends_app; [by apply process_spends|exact IH].
Qed.
End Spending.

(** ** When a process stops *)

(** Only a failed [accept] ends the loop, the first one does, and the requests
    that come after it are not answered. *)
Lemma accept_loop_stops `{Chrono} {S} (h : Env -> Request -> handler S Response) evs conns st :
  stopped (accept_loop h evs conns st) = head (omap (fun ev => match ev with AcceptFailed e => Some e | _ => None end) evs).
Proof.
  revert conns st. induction evs as [|[peer|e|peer env req|peer e] evs IH]; intros conns st; simpl;
    [done|apply IH|done| |apply IH].
  destruct (decide _); [|apply IH]. destruct (respond (h env req) st) as [r st']. apply IH.
Qed.
