(* ===== verification/ServerServeExamples.v ===== *)
(** * Restarted servers on concrete data

    [ServerServe.spent_once_across_restarts] on two lives of a webcash server
    over FoundationDB; and what a restart does to signed mints. *)
From S2P Require Import Prelude Decimal Amount External AssetCore Tokens Storage Redis RedisLedger Htlc Mining Records Auth Server ServerFacts Conservation Ledger Fdb RedisFdb Dynamo DynamoFacts LedgerServer Reference RedisExamples ServerExamples BackendReference BackendExamples ServerBoot ServerBootExamples ServerServe.

Definition bind_ok (addr : string) : result string unit := Ok tt.
Definition bind_taken (addr : string) : result string unit := Err "Address already in use (os error 98)".

Definition post (path body : string) (sig : option string) : Request :=
  {| req_method := "POST"; req_path := path; req_signature := sig; req_body := Ok body |}.

(** ** A webcash server over FoundationDB *)

Module Lives.
Import Cash.
#[local] Existing Instance WebcashLegacyKeys.
#[local] Existing Instance WebcashAsset.asset.
#[local] Existing Instance WebcashAsset.splittable.
#[local] Existing Instance WebcashAsset.hook.
#[local] Existing Instance WebcashAsset.builder.
#[local] Existing Instance cash_record.
#[local] Existing Instance Served.store.
#[local] Existing Instance Served.contract.
#[local] Existing Instance Served.inserts.

Definition on_fdb : list (string * string) := [("WEBCASH_DB_BACKEND", "fdb")].

Definition boot : Booted :=
  match ServerBoot.main true (env_of on_fdb) WebcashFlavor with
  | Ok b => b
  | Err _ => {| b_cfg := testnet_default; b_issuers := None; b_store := OnFdb None; b_keys := LegacyKeys; b_serving := Serve |}
  end.

Definition process (bind : string -> result string unit) (evs : list Event) : Process :=
  {| p_boot := boot; p_serve := serve; p_bind := bind; p_events := evs |}.

(** The first process answers a split; [accept] runs out of descriptors, and the
    connection it had accepted is not served either.  The next one finds the
    address taken.  The third refuses the split and answers the merge. *)
Definition three_lives : list Process := [
  process bind_ok [Accepted 1; Received 1 env_ref Served.plain_req; Received 2 env_ref Served.merge_req;
    AcceptFailed "Too many open files (os error 24)"; Received 1 env_ref Served.merge_req];
  process bind_taken [Accepted 1; Received 1 env_ref Served.merge_req];
  process bind_ok [Accepted 3; Received 3 env_ref Served.plain_req; Ended 3 None; Accepted 4;
    Received 4 env_ref Served.merge_req; Received 3 env_ref Served.merge_req]].

Lemma three_ok : Forall process_ok three_lives.
Proof. repeat constructor. Qed.

Lemma spent_once_across_restarts_witness :
  ServerBoot.main true (env_of on_fdb) WebcashFlavor = Ok boot /\
  (a_peer <$> (lives three_lives (Served.d1, [])).1) = [1; 3; 4]%nat /\
  ((fun a => resp_status (a_response a)) <$> (lives three_lives (Served.d1, [])).1) = [200; 500; 200] /\
  spent_in (lives three_lives (Served.d1, [])).1 = secret_key <$> [cash_in; cash_out_1; cash_out_2] /\
  NoDup (spent_in (lives three_lives (Served.d1, [])).1).
Proof.
  split; [vm_compute; reflexivity|]. split; [vm_compute; reflexivity|]. split; [vm_compute; reflexivity|].
  split; [vm_compute; reflexivity|].
  exact (proj1 (spent_once_across_restarts three_lives (Served.d1, []) Served.l1 three_ok (Served.start_models []))).
Defined.

(** [serve] is documented to run until it is cancelled. *)
Example failed_accept_stops :
  stopped (run_process (process bind_ok [AcceptFailed "Too many open files (os error 24)"; Accepted 1;
    Received 1 env_ref Served.plain_req]) (Served.d1, [])) = Some "Too many open files (os error 24)".
Proof. vm_compute. reflexivity. Qed.
End Lives.

(** ** An RGB server over DynamoDB *)

Module Reminted.
Import OnDynamo.
#[local] Existing Instance Storage.NamespacedKeys.
#[local] Existing Instance RgbFungible.asset.
#[local] Existing Instance RgbFungible.splittable.
#[local] Existing Instance RgbFungible.issued.
#[local] Existing Instance RgbFungible.hook.
#[local] Existing Instance RgbFungible.builder.
#[local] Existing Instance RgbServer.bill_record.
#[local] Instance store : LedgerStore (@Rec RgbFungible.asset) (@dstate dynamo_ref) := DynamoDbStore T.

(** One more body: the minted bill, spent into another one. *)
Definition again_body : string := "again".
#[local] Instance more_json : ServerJson := {|
  json_tokens := json_tokens (ServerJson := server_json_ref);
  json_replace_body s :=
    if String.eqb s again_body
    then Ok {| rb_webcashes := [Rgb.show_secret_fungible (rgb_secret 300000000 "a")];
               rb_new_webcashes := [Rgb.show_secret_fungible (rgb_secret 300000000 "d")]; rb_legalese := Some true |}
    else decode_replace s;
  json_burn_body := json_burn_body (ServerJson := server_json_ref);
  json_mining_body := json_mining_body (ServerJson := server_json_ref);
  json_mining_preimage := json_mining_preimage (ServerJson := server_json_ref);
  json_issue_body := json_issue_body (ServerJson := server_json_ref);
  base64_decode := base64_decode (ServerJson := server_json_ref);
  show_f64 := show_f64 (ServerJson := server_json_ref) |}.

Definition mint : Request := post "/api/v1/issue" mint_body (Some RgbServer.mint_body_sig).
Definition split_bill : Request := post "/api/v1/replace" lock_body None.
Definition spend_again : Request := post "/api/v1/replace" again_body None.

Definition process (reqs : list Request) : Process := {|
  p_boot := {| b_cfg := testnet_default; b_issuers := Some RgbServer.registry; b_store := OnDynamo None;
    b_keys := ServerBoot.NamespacedKeys; b_serving := ServeIssued |};
  p_serve := serve_issued; p_bind := bind_ok; p_events := Accepted 1 :: (Received 1 env_ref <$> reqs) |}.

Definition empty_tables : @dstate dynamo_ref :=
  up (<[tokens_table T := ∅]> (<[mining_table T := ∅]> (<[audit_table T := ∅]> ∅))).

(** Replaying the signed mint of a bill is refused while the process lives.
    After a restart the nonce is new, the insert overwrites the record, and the
    bill that had been split is spent a second time. *)
Example restart_remints :
  (fun a => resp_status (a_response a)) <$>
    (lives [process [mint; split_bill; mint; spend_again]; process [mint; spend_again]] empty_tables).1
  = [200; 200; 500; 500; 200; 200].
Proof. vm_compute. reflexivity. Qed.
End Reminted.
