(* ===== verification/Sha256.v ===== *)
(** * SHA-256 and the GPU kernels

    The reference: SHA-256 as FIPS 180-4 defines it, its constants computed from
    the primes.  The kernels: the WGSL shader of
    [crates/server/src/compute/wgpu_compute.rs] and the CUDA kernels of
    [cuda.rs], whose rolling schedule of sixteen words is proved to compute the
    reference. *)
From S2P Require Import Prelude External Mining.

Definition u32_add (a b : Z) : Z := (a + b) mod 2 ^ 32.
Definition u32_mul (a b : Z) : Z := (a * b) mod 2 ^ 32.
Definition u32_ones : Z := 2 ^ 32 - 1.
Definition word (x : Z) : Prop := 0 <= x < 2 ^ 32.

(** ** The reference *)

(** Section 3.2 and 4.1.2. *)
Definition rotr (n x : Z) : Z := Z.lor (Z.shiftr x n) (Z.shiftl x (32 - n) mod 2 ^ 32).
Definition Ch (x y z : Z) : Z := Z.lxor (Z.land x y) (Z.land (Z.lxor x u32_ones) z).
Definition Maj (x y z : Z) : Z := Z.lxor (Z.lxor (Z.land x y) (Z.land x z)) (Z.land y z).
Definition Sigma0 (x : Z) : Z := Z.lxor (Z.lxor (rotr 2 x) (rotr 13 x)) (rotr 22 x).
Definition Sigma1 (x : Z) : Z := Z.lxor (Z.lxor (rotr 6 x) (rotr 11 x)) (rotr 25 x).
Definition sigma0 (x : Z) : Z := Z.lxor (Z.lxor (rotr 7 x) (rotr 18 x)) (Z.shiftr x 3).
Definition sigma1 (x : Z) : Z := Z.lxor (Z.lxor (rotr 17 x) (rotr 19 x)) (Z.shiftr x 10).

(** Sections 4.2.2 and 5.3.3: the first 32 bits of the fractional parts of the
    cube roots of the first 64 primes, and of the square roots of the first 8. *)
Definition is_prime (n : nat) : bool :=
  (2 <=? n)%nat && forallb (fun d => negb (n mod d =? 0)%nat) (seq 2 (n - 2)).
Definition primes : list Z := Z.of_nat <$> List.filter is_prime (seq 2 310).

Fixpoint icbrt (bits : nat) (x r : Z) : Z :=
  match bits with
  | O => r
  | S b => let r' := r + 2 ^ Z.of_nat b in icbrt b x (if r' * r' * r' <=? x then r' else r)
  end.

Definition K_fips : list Z := map (fun p => icbrt 40 (p * 2 ^ 96) 0 mod 2 ^ 32) primes.
Definition H_fips : list Z := map (fun p => Z.sqrt (p * 2 ^ 64) mod 2 ^ 32) (take 8 primes).

(** Section 6.2.2. *)
Record Vars := { va : Z; vb : Z; vc : Z; vd : Z; ve : Z; vf : Z; vg : Z; vh : Z }.

Definition next_word (ws : list Z) : Z :=
  let t := length ws in
  (sigma1 (ws !!! (t - 2)%nat) + ws !!! (t - 7)%nat + sigma0 (ws !!! (t - 15)%nat) + ws !!! (t - 16)%nat)
    mod 2 ^ 32.

Definition schedule (m : list Z) : list Z := Nat.iter 48 (fun ws => ws ++ [next_word ws]) m.

Definition round (k w : Z) (v : Vars) : Vars :=
  let T1 := (vh v + Sigma1 (ve v) + Ch (ve v) (vf v) (vg v) + k + w) mod 2 ^ 32 in
  let T2 := (Sigma0 (va v) + Maj (va v) (vb v) (vc v)) mod 2 ^ 32 in
  {| va := (T1 + T2) mod 2 ^ 32; vb := va v; vc := vb v; vd := vc v;
     ve := (vd v + T1) mod 2 ^ 32; vf := ve v; vg := vf v; vh := vg v |}.

Definition vars_add (h v : Vars) : Vars :=
  {| va := u32_add (va h) (va v); vb := u32_add (vb h) (vb v); vc := u32_add (vc h) (vc v);
     vd := u32_add (vd h) (vd v); ve := u32_add (ve h) (ve v); vf := u32_add (vf h) (vf v);
     vg := u32_add (vg h) (vg v); vh := u32_add (vh h) (vh v) |}.

Definition rounds (K W : list Z) (v : Vars) : Vars :=
  foldl (fun v t => round (K !!! t) (W !!! t) v) v (seq 0 64).

Definition compress (h : Vars) (m : list Z) : Vars := vars_add h (rounds K_fips (schedule m) h).

Definition vars_of (l : list Z) : Vars :=
  {| va := l !!! 0%nat; vb := l !!! 1%nat; vc := l !!! 2%nat; vd := l !!! 3%nat;
     ve := l !!! 4%nat; vf := l !!! 5%nat; vg := l !!! 6%nat; vh := l !!! 7%nat |}.
Definition words_of (v : Vars) : list Z := [va v; vb v; vc v; vd v; ve v; vf v; vg v; vh v].

(** Sections 5.1.1 and 5.2.1. *)
Fixpoint be_bytes (n : nat) (x : Z) : list Z :=
  match n with
  | O => []
  | S n' => be_bytes n' (x / 256) ++ [x mod 256]
  end.

Fixpoint be_words (l : list Z) : list Z :=
  match l with
  | b0 :: b1 :: b2 :: b3 :: r => ((b0 * 256 + b1) * 256 + b2) * 256 + b3 :: be_words r
  | _ => []
  end.

Definition pad (m : list Z) : list Z :=
  m ++ [128] ++ replicate (Z.to_nat ((55 - Z.of_nat (length m)) mod 64)) 0
    ++ be_bytes 8 (8 * Z.of_nat (length m)).

Definition block (words : list Z) (i : nat) : list Z := take 16 (drop (16 * i) words).

Definition hash_blocks (words : list Z) (n : nat) : Vars :=
  foldl (fun h i => compress h (block words i)) (vars_of H_fips) (seq 0 n).

Definition hash_words (m : list Z) : list Z :=
  let words := be_words (pad m) in words_of (hash_blocks words (length words / 16)).

Definition bytes_of (s : string) : list Z := byte_val <$> list_ascii_of_string s.
Definition of_bytes (l : list Z) : string := string_of_list_ascii ((fun b => ascii_of_nat (Z.to_nat b)) <$> l).

Definition digest_of (words : list Z) : string := of_bytes (words ≫= be_bytes 4).
Definition fips_sha256 (s : string) : string := digest_of (hash_words (bytes_of s)).

(** The vectors of the standard. *)
Example fips_abc : hex_encode_ref (fips_sha256 "abc") =
  "ba7816bf8f01cfea414140de5dae2223b00361a396177a9cb410ff61f20015ad".
Proof. vm_compute. reflexivity. Qed.

Example fips_two_blocks :
  hex_encode_ref (fips_sha256 "abcdbcdecdefdefgefghfghighijhijkijkljklmklmnlmnomnopnopq") =
  "248d6a61d20638b8e5c026930c3e6039a33ce45964ff2167f6ecedd419db06c1".
Proof. vm_compute. reflexivity. Qed.

(** ** The kernels *)

(** [K] of both texts, by rows. *)
Definition K_table : list Z := concat [
  [0x428a2f98; 0x71374491; 0xb5c0fbcf; 0xe9b5dba5; 0x3956c25b; 0x59f111f1; 0x923f82a4; 0xab1c5ed5];
  [0xd807aa98; 0x12835b01; 0x243185be; 0x550c7dc3; 0x72be5d74; 0x80deb1fe; 0x9bdc06a7; 0xc19bf174];
  [0xe49b69c1; 0xefbe4786; 0x0fc19dc6; 0x240ca1cc; 0x2de92c6f; 0x4a7484aa; 0x5cb0a9dc; 0x76f988da];
  [0x983e5152; 0xa831c66d; 0xb00327c8; 0xbf597fc7; 0xc6e00bf3; 0xd5a79147; 0x06ca6351; 0x14292967];
  [0x27b70a85; 0x2e1b2138; 0x4d2c6dfc; 0x53380d13; 0x650a7354; 0x766a0abb; 0x81c2c92e; 0x92722c85];
  [0xa2bfe8a1; 0xa81a664b; 0xc24b8b70; 0xc76c51a3; 0xd192e819; 0xd6990624; 0xf40e3585; 0x106aa070];
  [0x19a4c116; 0x1e376c08; 0x2748774c; 0x34b0bcb5; 0x391c0cb3; 0x4ed8aa4a; 0x5b9cca4f; 0x682e6ff3];
  [0x748f82ee; 0x78a5636f; 0x84c87814; 0x8cc70208; 0x90befffa; 0xa4506ceb; 0xbef9a3f7; 0xc67178f2]].

(** The initial [h0] to [h7] of both texts. *)
Definition kernel_init : Vars :=
  {| va := 0x6a09e667; vb := 0xbb67ae85; vc := 0x3c6ef372; vd := 0xa54ff53a;
     ve := 0x510e527f; vf := 0x9b05688c; vg := 0x1f83d9ab; vh := 0x5be0cd19 |}.

Lemma K_table_fips : K_table = K_fips.
Proof. vm_compute. reflexivity. Qed.

Lemma kernel_init_fips : kernel_init = vars_of H_fips.
Proof. vm_compute. reflexivity. Qed.

(** The body of the round loop, over the target's rotation and Boolean
    functions; the state is the sixteen words and the eight variables. *)
Section Rolling.
Variables (t_rotr : Z -> Z -> Z) (t_ch t_maj : Z -> Z -> Z -> Z).

Definition rolling_round (s : list Z * Vars) (i : nat) : list Z * Vars :=
  let '(w, v) := s in
  let '(w, wi) :=
    if (i <? 16)%nat then (w, w !!! i)
    else
      let w15 := w !!! Nat.land (i - 15) 15 in
      let w2 := w !!! Nat.land (i - 2) 15 in
      let s0 := Z.lxor (Z.lxor (t_rotr w15 7) (t_rotr w15 18)) (Z.shiftr w15 3) in
      let s1 := Z.lxor (Z.lxor (t_rotr w2 17) (t_rotr w2 19)) (Z.shiftr w2 10) in
      let x := u32_add (u32_add (u32_add (w !!! Nat.land i 15) s0) (w !!! Nat.land (i - 7) 15)) s1 in
      let w := <[Nat.land i 15 := x]> w in
      (w, w !!! Nat.land i 15) in
  let S1 := Z.lxor (Z.lxor (t_rotr (ve v) 6) (t_rotr (ve v) 11)) (t_rotr (ve v) 25) in
  let temp1 := u32_add (u32_add (u32_add (u32_add (vh v) S1) (t_ch (ve v) (vf v) (vg v))) (K_table !!! i)) wi in
  let S0 := Z.lxor (Z.lxor (t_rotr (va v) 2) (t_rotr (va v) 13)) (t_rotr (va v) 22) in
  let temp2 := u32_add S0 (t_maj (va v) (vb v) (vc v)) in
  (w, {| va := u32_add temp1 temp2; vb := va v; vc := vb v; vd := vc v;
         ve := u32_add (vd v) temp1; vf := ve v; vg := vf v; vh := vg v |}).

Definition rolling_compress (h : Vars) (w : list Z) : Vars :=
  vars_add h (foldl rolling_round (w, h) (seq 0 64)).2.
End Rolling.

(** *** WGSL *)

Definition wgsl_rotr (x n : Z) : Z := Z.lor (Z.shiftr x n) (Z.shiftl x (32 - n) mod 2 ^ 32).
Definition wgsl_ch (e f g : Z) : Z := Z.lxor (Z.land e f) (Z.land (Z.lxor e u32_ones) g).
Definition wgsl_maj (a b c : Z) : Z := Z.lxor (Z.lxor (Z.land a b) (Z.land a c)) (Z.land b c).

(** An element of a storage buffer; no read of the theorems is out of bounds. *)
Definition at_u32 (buf : list Z) (i : Z) : Z := default 0 (buf !! Z.to_nat i).

(** One invocation: the stores it makes, [None] where it returns at once. *)
Definition wgsl_load (input_data : list Z) (base : Z) : list Z :=
  map (fun k => at_u32 input_data (u32_add base (Z.of_nat k))) (seq 0 16).

Definition wgsl_hash (input_data : list Z) (word_offset : Z) (num_blocks : nat) : Vars :=
  foldl (fun h blk =>
    rolling_compress wgsl_rotr wgsl_ch wgsl_maj h
      (wgsl_load input_data (u32_add word_offset (u32_mul (Z.of_nat blk) 16))))
    kernel_init (seq 0 num_blocks).

Definition store8 (o : Z) (v : Vars) : list (Z * Z) :=
  imap (fun k x => (u32_add o (Z.of_nat k), x)) (words_of v).

Definition wgsl_sha256_batch (input_data offsets_lens : list Z) (count idx : Z) : list (Z * Z) :=
  if count <=? idx then []
  else
    let word_offset := at_u32 offsets_lens (u32_mul idx 2) in
    let num_blocks := at_u32 offsets_lens (u32_add (u32_mul idx 2) 1) in
    store8 (u32_mul idx 8) (wgsl_hash input_data word_offset (Z.to_nat num_blocks)).

(** *** CUDA *)

(** [__funnelshift_r]: the low half of the pair shifted right by [n mod 32]. *)
Definition funnelshift_r (lo hi n : Z) : Z := Z.shiftr (hi * 2 ^ 32 + lo) (n mod 32) mod 2 ^ 32.
Definition cuda_rotr (x n : Z) : Z := funnelshift_r x x n.

(** [lop3.b32]: every bit is looked up in an eight-entry truth table. *)
Definition lop3 (lut a b c : Z) : Z :=
  foldr (fun i acc =>
    let bit k := Z.b2z (Z.testbit k (Z.of_nat i)) in
    Z.lor (Z.shiftl (Z.b2z (Z.testbit lut (4 * bit a + 2 * bit b + bit c))) (Z.of_nat i)) acc) 0 (seq 0 32).
Definition cuda_ch (x y z : Z) : Z := lop3 0xCA x y z.
Definition cuda_maj (x y z : Z) : Z := lop3 0xE8 x y z.

(** [all_data], of bytes; the pointer arithmetic is 64 bits wide. *)
Definition cuda_byte (all_data : list Z) (offset len p : Z) : Z :=
  if p <? len then default 0 (all_data !! Z.to_nat (offset + p))
  else if p =? len then 0x80 else 0.

Definition cuda_word (all_data : list Z) (offset len num_blocks block : Z) (i : nat) : Z :=
  let bit_len := len * 8 in
  let pos := u32_add (u32_mul block 64) (Z.of_nat i * 4) in
  let val := foldl (fun val b => Z.lor (Z.shiftl val 8 mod 2 ^ 32)
    (cuda_byte all_data offset len (u32_add pos (Z.of_nat b)))) 0 (seq 0 4) in
  if block =? (num_blocks - 1) mod 2 ^ 32 then
    let val := if (i =? 14)%nat then Z.shiftr bit_len 32 mod 2 ^ 32 else val in
    if (i =? 15)%nat then bit_len mod 2 ^ 32 else val
  else val.

Definition cuda_num_blocks (len : Z) : Z := u32_add (u32_add len 9) 63 / 64.

Definition cuda_hash (all_data : list Z) (offset len : Z) : Vars :=
  let num_blocks := cuda_num_blocks len in
  foldl (fun h blk =>
    rolling_compress cuda_rotr cuda_ch cuda_maj h
      (map (cuda_word all_data offset len num_blocks (Z.of_nat blk)) (seq 0 16)))
    kernel_init (seq 0 (Z.to_nat num_blocks)).

Definition cuda_sha256_batch (all_data offsets lengths : list Z) (count idx : Z) : list (Z * Z) :=
  if count <=? idx then []
  else store8 (u32_mul idx 8) (cuda_hash all_data (at_u32 offsets idx) (at_u32 lengths idx)).

(** [__clz] of a word that is not zero, and the second kernel. *)
Definition clz (w : Z) : Z := 31 - Z.log2 w.

Fixpoint count_zeros (ws : list Z) (total : Z) : Z :=
  match ws with
  | [] => total
  | w :: r => if w =? 0 then count_zeros r (u32_add total 32) else u32_add total (clz w)
  end.

Definition cuda_count_leading_zeros (hashes : list Z) (count idx : Z) : list (Z * Z) :=
  if count <=? idx then []
  else [(idx, count_zeros (map (fun k => at_u32 hashes (u32_add (u32_mul idx 8) (Z.of_nat k))) (seq 0 8)) 0)].

(** Both on the one-block vector. *)
Example wgsl_abc :
  words_of (wgsl_hash (be_words (pad (bytes_of "abc"))) 0 1) = hash_words (bytes_of "abc").
Proof. vm_compute. reflexivity. Qed.
Example cuda_abc : words_of (cuda_hash (bytes_of "xxabc") 2 3) = hash_words (bytes_of "abc").
Proof. vm_compute. reflexivity. Qed.

(** ** Words and bits *)

Lemma word_mod x : word (x mod 2 ^ 32).
Proof. unfold word. apply Z.mod_pos_bound. lia. Qed.

Lemma u32_add_word a b : word (u32_add a b).
Proof. apply word_mod. Qed.

Lemma u32_add_id a b : 0 <= a + b < 2 ^ 32 -> u32_add a b = a + b.
Proof. apply Z.mod_small. Qed.
Lemma u32_mul_id a b : 0 <= a * b < 2 ^ 32 -> u32_mul a b = a * b.
Proof. apply Z.mod_small. Qed.

(** A sum of words may be reduced once. *)
Lemma u32_add_l a b c : u32_add (u32_add a b) c = u32_add (a + b) c.
Proof. apply Z.add_mod_idemp_l. lia. Qed.
Lemma u32_add4 a b c d : u32_add (u32_add (u32_add a b) c) d = (a + b + c + d) mod 2 ^ 32.
Proof. by rewrite (u32_add_l a b c), u32_add_l. Qed.
Lemma u32_add5 a b c d e :
  u32_add (u32_add (u32_add (u32_add a b) c) d) e = (a + b + c + d + e) mod 2 ^ 32.
Proof. by rewrite (u32_add_l a b c), (u32_add_l (a + b) c d), u32_add_l. Qed.

Lemma word_testbit x i : word x -> 32 <= i -> Z.testbit x i = false.
Proof.
  intros Hx Hi. rewrite <- (Z.mod_small x (2 ^ 32)) by done. apply Z.mod_pow2_bits_high. lia.
Qed.

(** Words are equal when their 32 bits are. *)
Lemma word_ext x y :
  word x -> word y -> (forall i, 0 <= i < 32 -> Z.testbit x i = Z.testbit y i) -> x = y.
Proof.
  intros Hx Hy He. apply Z.bits_inj'. intros i Hi. destruct (Z.lt_ge_cases i 32).
  - by apply He.
  - by rewrite !word_testbit.
Qed.

Lemma word_of_bits x : 0 <= x -> (forall i, 32 <= i -> Z.testbit x i = false) -> word x.
Proof.
  intros H0 Hb. split; [done|]. destruct (Z.eq_dec x 0) as [->|Hx]; [lia|].
  apply Z.log2_lt_pow2; [lia|]. destruct (Z.lt_ge_cases (Z.log2 x) 32) as [|Hl]; [done|].
  specialize (Hb _ Hl). rewrite Z.bit_log2 in Hb by lia. done.
Qed.

Lemma word_lxor a b : word a -> word b -> word (Z.lxor a b).
Proof.
  intros Ha Hb. apply word_of_bits.
  - apply Z.lxor_nonneg. unfold word in *. lia.
  - intros i Hi. by rewrite Z.lxor_spec, !word_testbit.
Qed.
Lemma word_land a b : word a -> word b -> word (Z.land a b).
Proof.
  intros Ha Hb. apply word_of_bits.
  - apply Z.land_nonneg. unfold word in *. lia.
  - intros i Hi. by rewrite Z.land_spec, !word_testbit.
Qed.
Lemma word_lor a b : word a -> word b -> word (Z.lor a b).
Proof.
  intros Ha Hb. apply word_of_bits.
  - apply Z.lor_nonneg. unfold word in *. lia.
  - intros i Hi. by rewrite Z.lor_spec, !word_testbit.
Qed.
Lemma word_shiftr a n : word a -> 0 <= n -> word (Z.shiftr a n).
Proof.
  intros Ha Hn. apply word_of_bits; [apply Z.shiftr_nonneg; unfold word in *; lia|].
  intros i Hi. rewrite Z.shiftr_spec by lia. by rewrite word_testbit by (done || lia).
Qed.
Lemma word_ones : word u32_ones.
Proof. unfold word, u32_ones. lia. Qed.

Create HintDb words.
#[export] Hint Resolve word_mod u32_add_word word_lxor word_land word_lor word_ones : words.
#[export] Hint Extern 1 (word (Z.shiftr _ _)) => apply word_shiftr; [|lia] : words.
#[export] Hint Extern 5 (0 <= _) => lia : words.

Lemma rotr_word n x : word x -> 0 <= n -> word (rotr n x).
Proof. unfold rotr. auto with words. Qed.

Lemma ones_testbit i : 0 <= i < 32 -> Z.testbit u32_ones i = true.
Proof. intros Hi. change u32_ones with (Z.ones 32). rewrite Z.ones_spec_low; [done|lia]. Qed.

(** *** The instructions of the two targets *)

Lemma cuda_rotr_exact x n : word x -> 0 < n < 32 -> cuda_rotr x n = rotr n x.
Proof.
  intros Hx Hn. apply word_ext; [apply word_mod|by apply rotr_word; [|lia]|]. intros i Hi.
  unfold cuda_rotr, funnelshift_r, rotr. rewrite (Z.mod_small n) by lia.
  rewrite Z.mod_pow2_bits_low, Z.shiftr_spec, Z.lor_spec, Z.shiftr_spec, Z.mod_pow2_bits_low by lia.
  replace (x * 2 ^ 32 + x) with (Z.lor (Z.shiftl x 32) x).
  2: { rewrite <- Z.add_nocarry_lor; [by rewrite Z.shiftl_mul_pow2 by lia|].
       apply Z.bits_inj'. intros j Hj. rewrite Z.land_spec, Z.bits_0, Z.shiftl_spec by lia.
       destruct (Z.lt_ge_cases j 32); [by rewrite Z.testbit_neg_r by lia|].
       rewrite (word_testbit x j) by done. apply andb_false_r. }
  rewrite Z.lor_spec, !Z.shiftl_spec by lia. rewrite orb_comm. f_equal. f_equal. lia.
Qed.

Lemma lop3_word_at lut a b c n i :
  0 <= i ->
  Z.testbit (foldr (fun i acc =>
    let bit k := Z.b2z (Z.testbit k (Z.of_nat i)) in
    Z.lor (Z.shiftl (Z.b2z (Z.testbit lut (4 * bit a + 2 * bit b + bit c))) (Z.of_nat i)) acc) 0 (seq 0 n)) i
  = (i <? Z.of_nat n) && Z.testbit lut (4 * Z.b2z (Z.testbit a i) + 2 * Z.b2z (Z.testbit b i) + Z.b2z (Z.testbit c i)).
Proof.
  intros Hi. revert i Hi.
  assert (forall s i, 0 <= i -> Z.testbit (foldr (fun i acc =>
    let bit k := Z.b2z (Z.testbit k (Z.of_nat i)) in
    Z.lor (Z.shiftl (Z.b2z (Z.testbit lut (4 * bit a + 2 * bit b + bit c))) (Z.of_nat i)) acc) 0 (seq s n)) i
  = ((Z.of_nat s <=? i) && (i <? Z.of_nat (s + n))) && Z.testbit lut (4 * Z.b2z (Z.testbit a i) + 2 * Z.b2z (Z.testbit b i) + Z.b2z (Z.testbit c i))) as H.
  2: { intros i Hi. rewrite H by done. by rewrite (proj2 (Z.leb_le (Z.of_nat 0) i)) by lia. }
  induction n as [|n IH]; intros s i Hi; cbn [seq foldr].
  { rewrite Z.bits_0. destruct (Z.leb_spec (Z.of_nat s) i), (Z.ltb_spec i (Z.of_nat (s + 0))); simpl; try done. lia. }
  rewrite Z.lor_spec, IH by done. rewrite Z.shiftl_spec by done.
  destruct (Z.eq_dec i (Z.of_nat s)) as [->|Hne].
  - rewrite Z.sub_diag, Z.leb_refl. rewrite (proj2 (Z.leb_gt _ _)) by lia.
    rewrite andb_false_l, orb_false_r, (proj2 (Z.ltb_lt (Z.of_nat s) (Z.of_nat (s + S n)))) by lia.
    by destruct (Z.testbit lut _).
  - replace (Z.testbit (Z.b2z _) (i - Z.of_nat s)) with false.
    + rewrite orb_false_l. f_equal. apply eq_true_iff_eq.
      rewrite !andb_true_iff, !Z.leb_le, !Z.ltb_lt. lia.
    + destruct (Z.lt_ge_cases i (Z.of_nat s)); [by rewrite Z.testbit_neg_r by lia|].
      destruct (Z.testbit lut _); [|by rewrite Z.bits_0]. symmetry. apply Z.bits_above_log2; simpl; lia.
Qed.

Lemma lop3_testbit lut a b c i :
  0 <= i -> Z.testbit (lop3 lut a b c) i =
    (i <? 32) && Z.testbit lut (4 * Z.b2z (Z.testbit a i) + 2 * Z.b2z (Z.testbit b i) + Z.b2z (Z.testbit c i)).
Proof. intros Hi. by apply (lop3_word_at lut a b c 32). Qed.

Lemma lop3_word lut a b c : word (lop3 lut a b c).
Proof.
  apply word_of_bits.
  - unfold lop3. induction (seq 0 32) as [|i l IH]; cbn [foldr]; [done|]. apply Z.lor_nonneg. split; [|done].
    apply Z.shiftl_nonneg. by destruct (Z.testbit lut _).
  - intros i Hi. rewrite lop3_testbit by lia. by rewrite (proj2 (Z.ltb_ge i 32)) by lia.
Qed.

Lemma Ch_word x y z : word x -> word y -> word z -> word (Ch x y z).
Proof. unfold Ch. auto with words. Qed.
Lemma Maj_word x y z : word x -> word y -> word z -> word (Maj x y z).
Proof. unfold Maj. auto with words. Qed.

(** The truth tables are those of the two functions. *)
Lemma cuda_ch_exact x y z : word x -> word y -> word z -> cuda_ch x y z = Ch x y z.
Proof.
  intros Hx Hy Hz. apply word_ext; [apply lop3_word|by apply Ch_word|]. intros i Hi.
  unfold cuda_ch, Ch. rewrite lop3_testbit, (proj2 (Z.ltb_lt i 32)) by lia.
  rewrite !Z.lxor_spec, !Z.land_spec, Z.lxor_spec, ones_testbit by lia.
  by destruct (Z.testbit x i), (Z.testbit y i), (Z.testbit z i).
Qed.

Lemma cuda_maj_exact x y z : word x -> word y -> word z -> cuda_maj x y z = Maj x y z.
Proof.
  intros Hx Hy Hz. apply word_ext; [apply lop3_word|by apply Maj_word|]. intros i Hi.
  unfold cuda_maj, Maj. rewrite lop3_testbit, (proj2 (Z.ltb_lt i 32)) by lia.
  rewrite !Z.lxor_spec, !Z.land_spec by lia.
  by destruct (Z.testbit x i), (Z.testbit y i), (Z.testbit z i).
Qed.

(** ** The rolling window computes the schedule *)

Lemma schedule_length n m : length (Nat.iter n (fun ws => ws ++ [next_word ws]) m) = (length m + n)%nat.
Proof. induction n as [|n IH]; simpl; [lia|]. rewrite length_app, IH. simpl. lia. Qed.

Lemma schedule_stable n k m t :
  (t < length m + n)%nat ->
  Nat.iter (k + n) (fun ws => ws ++ [next_word ws]) m !!! t
  = Nat.iter n (fun ws => ws ++ [next_word ws]) m !!! t.
Proof.
  intros Ht. induction k as [|k IH]; [done|]. cbn [Nat.add]. rewrite Nat.iter_succ, lookup_total_app_l; [done|].
  rewrite schedule_length. lia.
Qed.

Lemma schedule_first m t : (t < length m)%nat -> schedule m !!! t = m !!! t.
Proof. intros Ht. apply (schedule_stable 0 48). lia. Qed.

Lemma schedule_next m t :
  length m = 16%nat -> (16 <= t < 64)%nat ->
  schedule m !!! t = (sigma1 (schedule m !!! (t - 2)%nat) + schedule m !!! (t - 7)%nat
    + sigma0 (schedule m !!! (t - 15)%nat) + schedule m !!! (t - 16)%nat) mod 2 ^ 32.
Proof.
  intros Hm Ht. unfold schedule.
  set (it n := Nat.iter n (fun ws => ws ++ [next_word ws]) m).
  assert (forall u, (u < t)%nat -> it 48%nat !!! u = it (t - 16)%nat !!! u) as Hs.
  { intros u Hu. replace 48%nat with ((48 - (t - 16)) + (t - 16))%nat by lia.
    apply schedule_stable. lia. }
  assert (it 48%nat !!! t = it (S (t - 16)) !!! t) as Ht'.
  { replace 48%nat with ((48 - S (t - 16)) + S (t - 16))%nat at 1 by lia. apply schedule_stable. lia. }
  assert (length (it (t - 16)%nat) = t) as Hl by (unfold it; rewrite schedule_length; lia).
  fold (it 48%nat). rewrite Ht', !Hs by lia. unfold it at 1. rewrite Nat.iter_succ.
  fold (it (t - 16)%nat). rewrite lookup_total_app_r by lia. rewrite Hl, Nat.sub_diag.
  cbn. unfold next_word. by rewrite Hl.
Qed.

Lemma land_15 i : Nat.land i 15 = (i mod 16)%nat.
Proof. apply (Nat.land_ones i 4). Qed.

Section Rolled.
Variables (t_rotr : Z -> Z -> Z) (t_ch t_maj : Z -> Z -> Z -> Z).
Hypothesis rotr_ok : forall x n, word x -> 0 < n < 32 -> t_rotr x n = rotr n x.
Hypothesis ch_ok : forall x y z, word x -> word y -> word z -> t_ch x y z = Ch x y z.
Hypothesis maj_ok : forall x y z, word x -> word y -> word z -> t_maj x y z = Maj x y z.

Definition vars_words (v : Vars) : Prop := Forall word (words_of v).

(** The window holds the last sixteen words of the schedule. *)
Definition window (W w : list Z) (n : nat) : Prop :=
  length w = 16%nat /\ forall k, (n - 16 <= k < n)%nat -> w !!! (k mod 16)%nat = W !!! k.

Lemma window_shift W w n :
  (16 <= n)%nat -> window W w n -> window W (<[(n mod 16)%nat := W !!! n]> w) (S n).
Proof.
  intros Hn [Hl Hw]. split; [by rewrite length_insert|]. intros k Hk.
  pose proof (Nat.mod_upper_bound n 16 ltac:(lia)).
  destruct (decide (k = n)) as [->|Hne].
  - apply list_lookup_total_insert_eq. lia.
  - rewrite list_lookup_total_insert_ne; [apply Hw; lia|].
    intros He. pose proof (Nat.div_mod_eq n 16). pose proof (Nat.div_mod_eq k 16). lia.
Qed.

Lemma round_words k w v : vars_words v -> vars_words (round k w v).
Proof.
  unfold vars_words, words_of. rewrite !Forall_cons. intros (? & ? & ? & ? & ? & ? & ? & ? & _). cbn [round va vb vc vd ve vf vg vh].
  do 8 (split; [auto with words|]). constructor.
Qed.

Lemma next_as_kernel W n w :
  (16 <= n)%nat -> window W w n -> Forall word W -> length W = 64%nat -> (n < 64)%nat ->
  W !!! n = (sigma1 (W !!! (n - 2)%nat) + W !!! (n - 7)%nat + sigma0 (W !!! (n - 15)%nat) + W !!! (n - 16)%nat) mod 2 ^ 32 ->
  u32_add (u32_add (u32_add (w !!! Nat.land n 15)
    (Z.lxor (Z.lxor (t_rotr (w !!! Nat.land (n - 15) 15) 7) (t_rotr (w !!! Nat.land (n - 15) 15) 18))
            (Z.shiftr (w !!! Nat.land (n - 15) 15) 3))) (w !!! Nat.land (n - 7) 15))
    (Z.lxor (Z.lxor (t_rotr (w !!! Nat.land (n - 2) 15) 17) (t_rotr (w !!! Nat.land (n - 2) 15) 19))
            (Z.shiftr (w !!! Nat.land (n - 2) 15) 10)) = W !!! n.
Proof.
  intros Hn [Hl Hw] HW HlW Hn64 ->. rewrite !land_15.
  assert (n mod 16 = (n - 16) mod 16)%nat as ->.
  { rewrite <- (Nat.Div0.mod_add (n - 16) 1 16). f_equal. lia. }
  rewrite !Hw by lia.
  assert (forall k, (k < 64)%nat -> word (W !!! k)) as Hww.
  { intros k Hk. eapply Forall_lookup_1; [done|]. apply list_lookup_lookup_total_lt. lia. }
  rewrite !rotr_ok by (lia || (apply Hww; lia)).
  fold (sigma0 (W !!! (n - 15)%nat)). fold (sigma1 (W !!! (n - 2)%nat)).
  rewrite u32_add4. f_equal. lia.
Qed.

Lemma round_as_kernel w wi x i v :
  vars_words v -> wi = x ->
  let S1 := Z.lxor (Z.lxor (t_rotr (ve v) 6) (t_rotr (ve v) 11)) (t_rotr (ve v) 25) in
  let temp1 := u32_add (u32_add (u32_add (u32_add (vh v) S1) (t_ch (ve v) (vf v) (vg v))) (K_table !!! i)) wi in
  let S0 := Z.lxor (Z.lxor (t_rotr (va v) 2) (t_rotr (va v) 13)) (t_rotr (va v) 22) in
  let temp2 := u32_add S0 (t_maj (va v) (vb v) (vc v)) in
  (w : list Z, {| va := u32_add temp1 temp2; vb := va v; vc := vb v; vd := vc v;
         ve := u32_add (vd v) temp1; vf := ve v; vg := vf v; vh := vg v |}) = (w, round (K_table !!! i) x v).
Proof.
  unfold vars_words, words_of. rewrite !Forall_cons. intros (? & ? & ? & ? & ? & ? & ? & ? & _) ->. cbv zeta.
  rewrite !rotr_ok, ch_ok, maj_ok by (done || lia). fold (Sigma1 (ve v)). fold (Sigma0 (va v)).
  by rewrite (u32_add5 (vh v)).
Qed.

(** One turn of the loop, from a window and the reference's variables. *)
Lemma rolling_step W w v n :
  length W = 64%nat -> Forall word W -> (n < 64)%nat ->
  (forall t, (16 <= t < 64)%nat -> W !!! t = (sigma1 (W !!! (t - 2)%nat) + W !!! (t - 7)%nat
     + sigma0 (W !!! (t - 15)%nat) + W !!! (t - 16)%nat) mod 2 ^ 32) ->
  window W w (Nat.max n 16) -> vars_words v ->
  exists w', rolling_round t_rotr t_ch t_maj (w, v) n = (w', round (K_table !!! n) (W !!! n) v) /\
    window W w' (Nat.max (S n) 16).
Proof.
  intros HlW HW Hn HN Hw Hv. unfold rolling_round. destruct (Nat.ltb_spec n 16) as [Hlt|Hge].
  - exists w. rewrite (Nat.max_r (S n) 16) by lia. rewrite (Nat.max_r n 16) in Hw by lia.
    split; [|done]. apply round_as_kernel; [done|].
    rewrite <- (proj2 Hw n) by lia. by rewrite Nat.mod_small.
  - rewrite (Nat.max_l n 16) in Hw by lia. rewrite (Nat.max_l (S n) 16) by lia. cbv zeta.
    rewrite (next_as_kernel W n w) by auto. rewrite land_15.
    exists (<[(n mod 16)%nat := W !!! n]> w). split; [|by apply window_shift].
    apply round_as_kernel; [done|]. apply list_lookup_total_insert_eq.
    rewrite (proj1 Hw). apply Nat.mod_upper_bound. lia.
Qed.

Lemma rolling_loop W w v n :
  length W = 64%nat -> Forall word W -> (n <= 64)%nat ->
  (forall t, (16 <= t < 64)%nat -> W !!! t = (sigma1 (W !!! (t - 2)%nat) + W !!! (t - 7)%nat
     + sigma0 (W !!! (t - 15)%nat) + W !!! (t - 16)%nat) mod 2 ^ 32) ->
  window W w 16 -> vars_words v ->
  exists w', foldl (rolling_round t_rotr t_ch t_maj) (w, v) (seq 0 n)
    = (w', foldl (fun v t => round (K_table !!! t) (W !!! t) v) v (seq 0 n)) /\
    window W w' (Nat.max n 16) /\
    vars_words (foldl (fun v t => round (K_table !!! t) (W !!! t) v) v (seq 0 n)).
Proof.
  intros HlW HW Hn HN Hw Hv. induction n as [|n IH]; [by exists w|].
  destruct IH as (w1 & E1 & Hw1 & Hv1); [lia|]. rewrite seq_S, !foldl_app, E1. cbn [foldl Nat.add].
  destruct (rolling_step W w1 _ n HlW HW Hn HN Hw1 Hv1) as (w2 & -> & Hw2).
  exists w2. split; [done|]. split; [done|]. by apply round_words.
Qed.

Lemma schedule_words m : length m = 16%nat -> Forall word m -> Forall word (schedule m).
Proof.
  intros Hl Hm. unfold schedule. generalize 48%nat. intros n. induction n as [|n IH]; [done|].
  rewrite Nat.iter_succ. apply Forall_app. split; [done|]. constructor; [apply word_mod|done].
Qed.

(** The kernels' compression is the reference's. *)
Lemma rolling_compress_exact h m :
  length m = 16%nat -> Forall word m -> vars_words h ->
  rolling_compress t_rotr t_ch t_maj h m = compress h m.
Proof.
  intros Hl Hm Hh. unfold rolling_compress, compress, rounds. rewrite <- K_table_fips.
  destruct (rolling_loop (schedule m) m h 64) as (w' & -> & _); try done.
  - unfold schedule. rewrite schedule_length. lia.
  - by apply schedule_words.
  - intros t Ht. by apply schedule_next.
  - split; [done|]. intros k Hk. rewrite Nat.mod_small by lia. symmetry. apply schedule_first. lia.
Qed.
End Rolled.

Lemma compress_words h m : vars_words (compress h m).
Proof.
  unfold compress, vars_words, words_of, vars_add. cbn [va vb vc vd ve vf vg vh].
  rewrite !Forall_cons. do 8 (split; [auto with words|]). constructor.
Qed.

Lemma kernel_init_words : vars_words kernel_init.
Proof. unfold vars_words, words_of, kernel_init, word. cbn [va vb vc vd ve vf vg vh]. rewrite !Forall_cons. lia || (repeat split; try lia; constructor). Qed.

(** ** Padding *)

Definition num_blocks (len : nat) : nat := ((len + 72) / 64)%nat.

Definition pad_body (m : list Z) : list Z :=
  m ++ [128] ++ replicate (Z.to_nat ((55 - Z.of_nat (length m)) mod 64)) 0.

Lemma pad_split m : pad m = pad_body m ++ be_bytes 8 (8 * Z.of_nat (length m)).
Proof. unfold pad, pad_body. by rewrite <- !(assoc_L (++)). Qed.

Lemma pad_zeros len :
  (len + 1 + Z.to_nat ((55 - Z.of_nat len) mod 64) = 64 * num_blocks len - 8)%nat /\ (1 <= num_blocks len)%nat.
Proof.
  unfold num_blocks. pose proof (Nat.div_mod_eq (len + 72) 64) as Hd.
  pose proof (Nat.mod_upper_bound (len + 72) 64 ltac:(lia)) as Hr.
  set (q := ((len + 72) / 64)%nat) in *. set (r := ((len + 72) mod 64)%nat) in *.
  assert ((55 - Z.of_nat len) mod 64 = 63 - Z.of_nat r) as ->; [|lia].
  symmetry. apply Z.mod_unique with (q := 1 - Z.of_nat q); lia.
Qed.

Lemma pad_body_length m : length (pad_body m) = (64 * num_blocks (length m) - 8)%nat.
Proof.
  unfold pad_body. rewrite !length_app, length_replicate. simpl.
  pose proof (pad_zeros (length m)). lia.
Qed.

Lemma be_bytes_length n x : length (be_bytes n x) = n.
Proof. revert x. induction n as [|n IH]; intros x; [done|]. cbn [be_bytes]. rewrite length_app, IH. simpl. lia. Qed.

Lemma pad_length m : length (pad m) = (64 * num_blocks (length m))%nat.
Proof.
  rewrite pad_split, length_app, pad_body_length, be_bytes_length. pose proof (pad_zeros (length m)). lia.
Qed.

(** ** Big-endian words *)

Lemma be_words_app a b k : length a = (4 * k)%nat -> be_words (a ++ b) = be_words a ++ be_words b.
Proof.
  revert a. induction k as [|k IH]; intros a Ha.
  - by destruct a.
  - destruct a as [|x0 [|x1 [|x2 [|x3 a]]]]; simpl in Ha; try lia. cbn [be_words app].
    rewrite IH by lia. done.
Qed.

Lemma be_words_length l k : length l = (4 * k)%nat -> length (be_words l) = k.
Proof.
  revert l. induction k as [|k IH]; intros l Hl.
  - by destruct l.
  - destruct l as [|x0 [|x1 [|x2 [|x3 l]]]]; simpl in Hl; try lia. cbn [be_words length].
    by rewrite IH by lia.
Qed.

Definition be_word (b0 b1 b2 b3 : Z) : Z := ((b0 * 256 + b1) * 256 + b2) * 256 + b3.

Lemma be_words_lookup l j :
  (4 * j + 3 < length l)%nat ->
  be_words l !!! j = be_word (l !!! (4 * j)%nat) (l !!! (4 * j + 1)%nat) (l !!! (4 * j + 2)%nat) (l !!! (4 * j + 3)%nat).
Proof.
  revert l. induction j as [|j IH]; intros l Hl.
  - destruct l as [|x0 [|x1 [|x2 [|x3 l]]]]; simpl in Hl; (lia || done).
  - destruct l as [|x0 [|x1 [|x2 [|x3 l]]]]; simpl in Hl; try lia.
    replace (4 * S j)%nat with (S (S (S (S (4 * j)))))%nat by lia. cbn [be_words].
    change ((?x :: ?y) !!! S j) with (y !!! j). rewrite IH by lia. done.
Qed.

Definition byte (b : Z) : Prop := 0 <= b < 256.

Lemma be_word_word b0 b1 b2 b3 : byte b0 -> byte b1 -> byte b2 -> byte b3 -> word (be_word b0 b1 b2 b3).
Proof. unfold byte, word, be_word. lia. Qed.

Lemma be_words_words l : Forall byte l -> Forall word (be_words l).
Proof.
  enough (forall n l, (length l <= n)%nat -> Forall byte l -> Forall word (be_words l)) by eauto.
  clear l. induction n as [|n IH]; intros l Hl Hb.
  - destruct l; [constructor|simpl in Hl; lia].
  - destruct l as [|x0 [|x1 [|x2 [|x3 l]]]]; [constructor..|].
    rewrite !Forall_cons in Hb. destruct Hb as (? & ? & ? & ? & ?). constructor.
    + by apply be_word_word.
    + apply IH; [simpl in Hl; lia|done].
Qed.

Lemma be_bytes_byte n x : Forall byte (be_bytes n x).
Proof.
  revert x. induction n as [|n IH]; intros x; cbn [be_bytes]; [constructor|].
  apply Forall_app. split; [done|]. constructor; [|constructor]. apply Z.mod_pos_bound. lia.
Qed.

Lemma be_words_be_bytes_8 x : be_words (be_bytes 8 x) = [Z.shiftr x 32 mod 2 ^ 32; x mod 2 ^ 32].
Proof.
  cbn [be_bytes app be_words]. rewrite Z.shiftr_div_pow2 by lia. rewrite !Z.div_div by lia.
  change (2 ^ 32) with 4294967296.
  f_equal; [|f_equal]; Z.to_euclidean_division_equations; lia.
Qed.

Lemma pad_bytes m : Forall byte m -> Forall byte (pad m).
Proof.
  intros Hm. rewrite pad_split. unfold pad_body. rewrite !Forall_app. repeat split; [done| | |apply be_bytes_byte].
  - constructor; [unfold byte; lia|constructor].
  - apply Forall_replicate. unfold byte. lia.
Qed.

Lemma pad_words_length m : length (be_words (pad m)) = (16 * num_blocks (length m))%nat.
Proof. apply be_words_length. rewrite pad_length. lia. Qed.

Lemma hash_words_blocks m :
  hash_words m = words_of (hash_blocks (be_words (pad m)) (num_blocks (length m))).
Proof. unfold hash_words. rewrite pad_words_length. by rewrite Nat.mul_comm, Nat.div_mul. Qed.

(** ** The kernels compute the reference *)

Definition placed {X} (buf l : list X) (off : nat) : Prop := take (length l) (drop off buf) = l.

Lemma placed_lookup {X} (buf l : list X) off i :
  placed buf l off -> (i < length l)%nat -> buf !! (off + i)%nat = l !! i.
Proof.
  intros Hp Hi. rewrite <- lookup_drop. unfold placed in Hp. rewrite <- Hp.
  by rewrite lookup_take_lt.
Qed.

Lemma placed_app {X} (a l b : list X) : placed (a ++ l ++ b) l (length a).
Proof. unfold placed. by rewrite drop_app_length, take_app_length. Qed.

Lemma block_map words i :
  (16 * i + 16 <= length words)%nat -> block words i = map (fun k => words !!! (16 * i + k)%nat) (seq 0 16).
Proof.
  intros Hl. apply list_eq_same_length with (n := 16%nat).
  - rewrite length_map, length_seq. done.
  - unfold block. rewrite length_take, length_drop. lia.
  - intros k x y Hk Hx Hy. unfold block in Hx. rewrite lookup_take_lt, lookup_drop in Hx by done.
    rewrite list_lookup_fmap, lookup_seq_lt in Hy by done. simpl in Hy. injection Hy as <-.
    symmetry. by apply list_lookup_total_correct.
Qed.

Lemma block_length words i : (16 * i + 16 <= length words)%nat -> length (block words i) = 16%nat.
Proof. intros Hl. unfold block. rewrite length_take, length_drop. lia. Qed.

Lemma block_words words i : Forall word words -> Forall word (block words i).
Proof. intros Hw. by apply Forall_take, Forall_drop. Qed.

(** The blocks of a message, folded by a kernel whose words are its blocks. *)
Lemma kernel_blocks (t_rotr : Z -> Z -> Z) (t_ch t_maj : Z -> Z -> Z -> Z) load words n :
  (forall x k, word x -> 0 < k < 32 -> t_rotr x k = rotr k x) ->
  (forall x y z, word x -> word y -> word z -> t_ch x y z = Ch x y z) ->
  (forall x y z, word x -> word y -> word z -> t_maj x y z = Maj x y z) ->
  (forall blk, (blk < n)%nat -> load blk = block words blk) ->
  Forall word words -> (16 * n <= length words)%nat ->
  foldl (fun h blk => rolling_compress t_rotr t_ch t_maj h (load blk)) kernel_init (seq 0 n)
  = hash_blocks words n.
Proof.
  intros Hr Hc Hm Hload Hw Hl. unfold hash_blocks. rewrite <- kernel_init_fips.
  enough (foldl (fun h blk => rolling_compress t_rotr t_ch t_maj h (load blk)) kernel_init (seq 0 n)
    = foldl (fun h i => compress h (block words i)) kernel_init (seq 0 n) /\
    vars_words (foldl (fun h i => compress h (block words i)) kernel_init (seq 0 n))) by tauto.
  induction n as [|n IH]; [split; [done|apply kernel_init_words]|].
  destruct IH as [E Hv]; [intros; apply Hload; lia|lia|]. rewrite seq_S, !foldl_app, E. cbn [foldl Nat.add].
  split; [|apply compress_words]. rewrite Hload by lia.
  apply rolling_compress_exact; auto using block_words. apply block_length. lia.
Qed.

Lemma wgsl_load_exact buf words off blk :
  placed buf words off -> (16 * blk + 16 <= length words)%nat ->
  Z.of_nat off + Z.of_nat (length words) <= 2 ^ 32 ->
  wgsl_load buf (u32_add (Z.of_nat off) (u32_mul (Z.of_nat blk) 16)) = block words blk.
Proof.
  intros Hp Hl Ho. rewrite block_map by done. unfold wgsl_load. apply map_ext_in.
  intros k [_ Hk]%in_seq. simpl in Hk. rewrite u32_mul_id, (u32_add_id (Z.of_nat off)) by lia.
  rewrite u32_add_id by lia. unfold at_u32.
  replace (Z.to_nat _) with (off + (16 * blk + k))%nat by lia.
  rewrite (placed_lookup _ _ _ _ Hp) by lia. by rewrite list_lookup_lookup_total_lt by lia.
Qed.

Lemma wgsl_hash_exact buf m off :
  Forall byte m -> placed buf (be_words (pad m)) off ->
  Z.of_nat off + Z.of_nat (16 * num_blocks (length m)) <= 2 ^ 32 ->
  words_of (wgsl_hash buf (Z.of_nat off) (num_blocks (length m))) = hash_words m.
Proof.
  intros Hm Hp Ho. rewrite hash_words_blocks. f_equal. apply kernel_blocks.
  - done.
  - done.
  - done.
  - intros blk Hb. apply wgsl_load_exact; rewrite ?pad_words_length; [done|lia|done].
  - by apply be_words_words, pad_bytes.
  - rewrite pad_words_length. lia.
Qed.

(** The bytes the CUDA kernel makes up are those of the padding. *)
Lemma cuda_byte_exact all_data m off p :
  placed all_data m off -> (p < 64 * num_blocks (length m) - 8)%nat ->
  cuda_byte all_data (Z.of_nat off) (Z.of_nat (length m)) (Z.of_nat p) = pad m !!! p.
Proof.
  intros Hp Hlt. rewrite pad_split, lookup_total_app_l by (rewrite pad_body_length; done).
  unfold cuda_byte, pad_body. destruct (Z.ltb_spec (Z.of_nat p) (Z.of_nat (length m))).
  - rewrite lookup_total_app_l by lia. replace (Z.to_nat _) with (off + p)%nat by lia.
    rewrite (placed_lookup _ _ _ _ Hp) by lia. by rewrite list_lookup_lookup_total_lt by lia.
  - rewrite lookup_total_app_r by lia. destruct (Z.eqb_spec (Z.of_nat p) (Z.of_nat (length m))).
    + replace (p - length m)%nat with 0%nat by lia. done.
    + destruct (p - length m)%nat as [|j] eqn:Ej; [lia|].
      change (([128] ++ ?l) !!! S j) with (l !!! j). rewrite lookup_total_replicate_2; [done|].
      pose proof (pad_zeros (length m)). lia.
Qed.

Lemma fold_bytes b0 b1 b2 b3 :
  byte b0 -> byte b1 -> byte b2 -> byte b3 ->
  foldl (fun val b => Z.lor (Z.shiftl val 8 mod 2 ^ 32) b) 0 [b0; b1; b2; b3] = be_word b0 b1 b2 b3.
Proof.
  assert (forall v b, 0 <= v < 2 ^ 24 -> byte b -> Z.lor (Z.shiftl v 8 mod 2 ^ 32) b = v * 256 + b) as H.
  { intros v b Hv Hb. unfold byte in Hb. rewrite Z.shiftl_mul_pow2 by lia. rewrite Z.mod_small by lia.
    symmetry. rewrite <- Z.add_nocarry_lor; [done|]. apply Z.bits_inj'. intros i Hi.
    rewrite Z.land_spec, Z.bits_0. destruct (Z.lt_ge_cases i 8).
    - by rewrite Z.mul_pow2_bits_low by lia.
    - rewrite (Z.bits_above_log2 b i), andb_false_r; [done|lia|].
      destruct (Z.eq_dec b 0) as [->|]; [simpl; lia|]. apply Z.log2_lt_pow2; [lia|].
      apply Z.lt_le_trans with (2 ^ 8); [lia|]. apply Z.pow_le_mono_r; lia. }
  intros H0 H1 H2 H3. cbn [foldl]. unfold byte in *. rewrite (H 0 b0), (H _ b1), (H _ b2), (H _ b3); unfold be_word, byte; lia.
Qed.

Lemma pad_words_split m :
  be_words (pad m) = be_words (pad_body m) ++
    [Z.shiftr (8 * Z.of_nat (length m)) 32 mod 2 ^ 32; (8 * Z.of_nat (length m)) mod 2 ^ 32] /\
  length (be_words (pad_body m)) = (16 * num_blocks (length m) - 2)%nat.
Proof.
  pose proof (pad_zeros (length m)).
  assert (length (pad_body m) = (4 * (16 * num_blocks (length m) - 2))%nat) as Hl by (rewrite pad_body_length; lia).
  split.
  - rewrite pad_split, (be_words_app _ _ _ Hl). by rewrite be_words_be_bytes_8.
  - by apply be_words_length.
Qed.

Lemma cuda_word_exact all_data m off blk i :
  Forall byte m -> placed all_data m off -> Z.of_nat (length m) + 72 < 2 ^ 32 ->
  (blk < num_blocks (length m))%nat -> (i < 16)%nat ->
  cuda_word all_data (Z.of_nat off) (Z.of_nat (length m)) (Z.of_nat (num_blocks (length m))) (Z.of_nat blk) i
  = be_words (pad m) !!! (16 * blk + i)%nat.
Proof.
  intros Hb Hp Hlen Hblk Hi. destruct (pad_words_split m) as [Hw Hwl].
  assert (64 * Z.of_nat (num_blocks (length m)) <= Z.of_nat (length m) + 72) as Hnb.
  { unfold num_blocks. rewrite Nat2Z.inj_div, Nat2Z.inj_add. Z.to_euclidean_division_equations. lia. }
  unfold cuda_word. rewrite (Z.mod_small (_ - 1)) by lia.
  assert (forall b, (64 * blk + 4 * i + b < 64 * num_blocks (length m) - 8)%nat -> (b < 4)%nat ->
    cuda_byte all_data (Z.of_nat off) (Z.of_nat (length m))
      (u32_add (u32_add (u32_mul (Z.of_nat blk) 64) (Z.of_nat i * 4)) (Z.of_nat b))
    = pad m !!! (4 * (16 * blk + i) + b)%nat) as Hbyte.
  { intros b Hlt Hb4. rewrite u32_mul_id, (u32_add_id (_ * 64)), u32_add_id by lia.
    replace (Z.of_nat blk * 64 + Z.of_nat i * 4 + Z.of_nat b)
      with (Z.of_nat (4 * (16 * blk + i) + b)) by lia. apply cuda_byte_exact; [done|lia]. }
  assert ((64 * blk + 4 * i + 3 < 64 * num_blocks (length m) - 8)%nat ->
    foldl (fun val b => Z.lor (Z.shiftl val 8 mod 2 ^ 32)
      (cuda_byte all_data (Z.of_nat off) (Z.of_nat (length m))
         (u32_add (u32_add (u32_mul (Z.of_nat blk) 64) (Z.of_nat i * 4)) (Z.of_nat b)))) 0 (seq 0 4)
    = be_words (pad m) !!! (16 * blk + i)%nat) as Hplain.
  { intros Hlt. rewrite be_words_lookup by (rewrite pad_length; lia).
    cbn [seq foldl]. rewrite !Hbyte by lia. rewrite Nat.add_0_r.
    assert (forall j, (j < length (pad m))%nat -> byte (pad m !!! j)) as Hbs.
    { intros j Hj. by apply (Forall_lookup_total_1 byte); [apply pad_bytes|]. }
    rewrite <- fold_bytes by (apply Hbs; rewrite pad_length; lia). done. }
  destruct (Z.eqb_spec (Z.of_nat blk) (Z.of_nat (num_blocks (length m)) - 1)) as [He|Hne]; cycle 1.
  { apply Hplain. lia. }
  destruct (Nat.eqb_spec i 14) as [->|H14]; [|destruct (Nat.eqb_spec i 15) as [->|H15]; [|apply Hplain; lia]].
  - simpl (14 =? 15)%nat. rewrite Hw, lookup_total_app_r by lia.
    replace (16 * blk + 14 - length _)%nat with 0%nat by lia. by rewrite Z.mul_comm.
  - rewrite Hw, lookup_total_app_r by lia.
    replace (16 * blk + 15 - length _)%nat with 1%nat by lia. by rewrite Z.mul_comm.
Qed.

Lemma cuda_num_blocks_exact len :
  Z.of_nat len + 72 < 2 ^ 32 -> cuda_num_blocks (Z.of_nat len) = Z.of_nat (num_blocks len).
Proof.
  intros Hl. unfold cuda_num_blocks, num_blocks. rewrite !u32_add_id by (rewrite ?u32_add_id; lia).
  rewrite Nat2Z.inj_div. f_equal. lia.
Qed.

Lemma cuda_hash_exact all_data m off :
  Forall byte m -> placed all_data m off -> Z.of_nat (length m) + 72 < 2 ^ 32 ->
  words_of (cuda_hash all_data (Z.of_nat off) (Z.of_nat (length m))) = hash_words m.
Proof.
  intros Hm Hp Hl. rewrite hash_words_blocks. f_equal. unfold cuda_hash.
  rewrite cuda_num_blocks_exact, Nat2Z.id by done. apply kernel_blocks.
  - apply cuda_rotr_exact.
  - apply cuda_ch_exact.
  - apply cuda_maj_exact.
  - intros blk Hb. rewrite block_map by (rewrite pad_words_length; lia). apply map_ext_in.
    intros i [_ Hi]%in_seq. by apply cuda_word_exact.
  - by apply be_words_words, pad_bytes.
  - rewrite pad_words_length. lia.
Qed.

(** ** The zero count *)

Lemma byte_of_ascii b : byte b -> byte_val (ascii_of_nat (Z.to_nat b)) = b.
Proof. unfold byte, byte_val. intros Hb. rewrite nat_ascii_embedding by lia. lia. Qed.

Lemma of_bytes_cons b l : of_bytes (b :: l) = String (ascii_of_nat (Z.to_nat b)) (of_bytes l).
Proof. done. Qed.

Lemma bytes_of_byte s : Forall byte (bytes_of s).
Proof.
  unfold bytes_of. apply Forall_fmap, Forall_true. intros c. apply byte_val_range.
Qed.

Lemma bytes_of_length s : length (bytes_of s) = String.length s.
Proof. unfold bytes_of. rewrite length_fmap. induction s as [|c s IH]; simpl; [done|]. by rewrite IH. Qed.

Lemma of_bytes_length l : String.length (of_bytes l) = length l.
Proof. induction l as [|b l IH]; [done|]. rewrite of_bytes_cons. simpl. by rewrite IH. Qed.

Lemma be_val_word w l :
  word w -> be_val (of_bytes (be_bytes 4 w ++ l)) = w * 2 ^ (8 * Z.of_nat (length l)) + be_val (of_bytes l).
Proof.
  intros Hw. cbn [be_bytes app]. rewrite !of_bytes_cons. cbn [be_val String.length].
  rewrite !byte_of_ascii by (unfold byte; apply Z.mod_pos_bound; lia). rewrite !Nat2Z.inj_succ, of_bytes_length.
  replace (8 * Z.succ (Z.succ (Z.succ (Z.of_nat (length l))))) with (24 + 8 * Z.of_nat (length l)) by lia.
  replace (8 * Z.succ (Z.succ (Z.of_nat (length l)))) with (16 + 8 * Z.of_nat (length l)) by lia.
  replace (8 * Z.succ (Z.of_nat (length l))) with (8 + 8 * Z.of_nat (length l)) by lia.
  rewrite !Z.pow_add_r by lia. unfold word in Hw.
  rewrite !Z.div_div by lia. set (P := 2 ^ (8 * Z.of_nat (length l))).
  assert (w = ((w / (256 * (256 * 256)) mod 256 * 256 + w / (256 * 256) mod 256) * 256 + w / 256 mod 256) * 256
    + w mod 256) as E by (Z.to_euclidean_division_equations; lia).
  generalize dependent (w / (256 * (256 * 256)) mod 256). generalize dependent (w / (256 * 256) mod 256).
  generalize dependent (w / 256 mod 256). generalize dependent (w mod 256). intros a3 a2 a1 a0 ->.
  change (2 ^ 24) with (256 * 256 * 256). change (2 ^ 16) with (256 * 256).
  change (2 ^ 8) with 256. ring.
Qed.

Lemma lz_of_val s :
  be_val s <> 0 -> leading_zero_bits s = 8 * Z.of_nat (String.length s) - 1 - Z.log2 (be_val s).
Proof.
  intros Hn. pose proof (be_val_bounds s) as Hb. set (v := be_val s) in *.
  assert (0 < v) as Hv by lia. destruct (Z.log2_spec v Hv) as [Hlo Hhi].
  pose proof (Z.log2_nonneg v). assert (Z.log2 v < 8 * Z.of_nat (String.length s)) by (apply Z.log2_lt_pow2; lia).
  pose proof (leading_zero_bits_target s (8 * Z.of_nat (String.length s) - 1 - Z.log2 v) ltac:(lia)) as H1.
  pose proof (leading_zero_bits_target s (8 * Z.of_nat (String.length s) - Z.log2 v) ltac:(lia)) as H2.
  fold v in H1, H2.
  replace (8 * Z.of_nat (String.length s) - (8 * Z.of_nat (String.length s) - 1 - Z.log2 v))
    with (Z.succ (Z.log2 v)) in H1 by lia.
  replace (8 * Z.of_nat (String.length s) - (8 * Z.of_nat (String.length s) - Z.log2 v))
    with (Z.log2 v) in H2 by lia.
  assert (~ v < 2 ^ Z.log2 v) by lia. lia.
Qed.

Lemma log2_shift w k r : 0 < w -> 0 <= r < 2 ^ k -> 0 <= k -> Z.log2 (w * 2 ^ k + r) = Z.log2 w + k.
Proof.
  intros Hw Hr Hk. destruct (Z.log2_spec w Hw) as [Hlo Hhi]. pose proof (Z.log2_nonneg w).
  apply Z.log2_unique; [lia|]. rewrite <- Z.add_succ_l, !Z.pow_add_r by lia. nia.
Qed.

(** The second kernel counts the leading zeros of the digest. *)
Lemma count_zeros_exact ws total :
  Forall word ws -> 0 <= total -> total + 32 * Z.of_nat (length ws) < 2 ^ 32 ->
  count_zeros ws total = total + leading_zero_bits (digest_of ws).
Proof.
  unfold digest_of. revert total. induction ws as [|w ws IH]; intros total Hw Ht Hs; cbn [count_zeros length] in *.
  { unfold leading_zero_bits. simpl. lia. }
  apply Forall_cons in Hw as [Hw Hws].
  change ((w :: ws) ≫= be_bytes 4) with (be_bytes 4 w ++ (ws ≫= be_bytes 4)).
  destruct (Z.eqb_spec w 0) as [->|Hne].
  - rewrite u32_add_id, IH by (done || lia). cbn [be_bytes app].
    rewrite !of_bytes_cons, !lz_cons_zero by done. lia.
  - set (l := ws ≫= be_bytes 4). pose proof (be_val_bounds (of_bytes l)) as Hb. rewrite of_bytes_length in Hb.
    assert (0 < w) as Hpos by (unfold word in Hw; lia).
    assert (Z.log2 w < 32) by (apply Z.log2_lt_pow2; [lia|apply Hw]). pose proof (Z.log2_nonneg w).
    assert (leading_zero_bits (of_bytes (be_bytes 4 w ++ l)) = 31 - Z.log2 w) as ->.
    { rewrite lz_of_val by (rewrite be_val_word by done; nia).
      rewrite be_val_word, of_bytes_length, length_app, be_bytes_length by done.
      rewrite log2_shift by lia. lia. }
    unfold clz. rewrite u32_add_id by lia. lia.
Qed.

(** ** The kernels, exactly *)

Lemma hash_words_words m : Forall word (hash_words m) /\ length (hash_words m) = 8%nat.
Proof.
  split; [|done]. rewrite hash_words_blocks. pose proof (pad_zeros (length m)) as [_ Hn].
  destruct (num_blocks (length m)) as [|n]; [lia|]. unfold hash_blocks. rewrite seq_S, foldl_app.
  apply compress_words.
Qed.

(** C24: Wherever a message lies in the device's input, padded to big-endian words
    for the WGSL shader or as bytes for the CUDA kernel, an invocation computes
    its SHA-256 as FIPS 180-4 defines it; the counting kernel counts the leading
    zero bits of the digest. *)
Theorem kernels_exact m off words bytes :
  Forall byte m -> Z.of_nat off + Z.of_nat (length m) + 72 < 2 ^ 32 ->
  (placed words (be_words (pad m)) off ->
   words_of (wgsl_hash words (Z.of_nat off) (num_blocks (length m))) = hash_words m) /\
  (placed bytes m off ->
   words_of (cuda_hash bytes (Z.of_nat off) (Z.of_nat (length m))) = hash_words m) /\
  count_zeros (hash_words m) 0 = leading_zero_bits (digest_of (hash_words m)).
Proof.
  intros Hm Hl. split; [|split].
  - intros Hp. apply wgsl_hash_exact; [done..|].
    unfold num_blocks. rewrite Nat2Z.inj_mul, Nat2Z.inj_div. Z.to_euclidean_division_equations. lia.
  - intros Hp. apply cuda_hash_exact; [done..|lia].
  - destruct (hash_words_words m) as [Hw Hn]. rewrite count_zeros_exact; [done|done|lia|rewrite Hn; lia].
Qed.

Lemma kernels_exact_witness :
  words_of (wgsl_hash (be_words (pad (bytes_of "abc"))) 0 1) = hash_words (bytes_of "abc") /\
  words_of (cuda_hash (bytes_of "abc") 0 3) = hash_words (bytes_of "abc").
Proof.
  destruct (kernels_exact (bytes_of "abc") 0 (be_words (pad (bytes_of "abc"))) (bytes_of "abc")) as (Hw & Hc & _).
  - apply bytes_of_byte.
  - vm_compute. reflexivity.
  - split; [apply Hw|apply Hc]; vm_compute; reflexivity.
Defined.

(** The digest as an instance of the shared interface. *)
Definition hashing_fips : Hashing := {|
  sha256 := fips_sha256;
  hex_encode := hex_encode_ref;
  hex_decode s := ok_or (hex_decode_ref s) "invalid hexadecimal text" |}.

Lemma fips_sha256_length s : String.length (fips_sha256 s) = 32%nat.
Proof. unfold fips_sha256, digest_of. by rewrite of_bytes_length. Qed.

Lemma hashing_fips_laws : HashingLaws (H := hashing_fips).
Proof.
  destruct hashing_ref_laws. split; [apply fips_sha256_length|exact hex_encode_length|exact hex_encode_lower|exact hex_decode_some].
Qed.
