(* ===== verification/LegacyCompute.v ===== *)
(** * The compute backends of the legacy server

    [crates/server/src/compute/]: the trait with its defaults ([mod.rs]), the
    CPU backend ([cpu.rs]), the host side of the two GPU backends
    ([wgpu_compute.rs], [cuda.rs]; the kernels are in Sha256.v) and the choice
    between them.  What a device does with submitted work is a parameter. *)
From S2P Require Import Prelude External Mining Sha256.

Module Compute.

Record PowResult := { valid : bool; leading_zeros : Z }.
Notation TokenDerivation := string (only parsing).

(** ** The trait *)

(** A method runs over the state of its backend; [None] is a panic. *)
Class ComputeBackend (St : Type) := {
  name : St -> string;
  optimal_batch_size : St -> Z;
  sha256_batch : list string -> St -> option (list string * St);
  verify_pow_batch : list (string * Z) -> St -> option (list PowResult * St);
  derive_public_hash_batch : list string -> St -> option (list TokenDerivation * St);
}.

Definition leading_zero_bits (hash : string) : Z :=
  let full_zero_bytes := zero_bytes hash in
  match String.get full_zero_bytes hash with
  | Some b => u8_leading_zeros (byte_val b)
  | None => 0
  end + Z.of_nat full_zero_bytes * 8.

(** The provided methods: a batch of one, and what stands for a missing answer. *)
Section Provided.
Context {St : Type} `{!ComputeBackend St}.

Definition zero_hash : string := of_bytes (replicate 32 0).

Definition sha256_one (data : string) (st : St) : option (string * St) :=
  '(rs, st) ← sha256_batch [data] st; Some (default zero_hash (head rs), st).

Definition verify_pow_one (preimage : string) (difficulty_bits : Z) (st : St) : option (PowResult * St) :=
  '(rs, st) ← verify_pow_batch [(preimage, difficulty_bits)] st;
  Some (default {| valid := false; leading_zeros := 0 |} (head rs), st).

Definition derive_one (secret_hex : string) (st : St) : option (string * St) :=
  '(rs, st) ← derive_public_hash_batch [secret_hex] st; Some (default EmptyString (head rs), st).

(** The two GPU backends write these methods alike, over their [sha256_batch]. *)
End Provided.

Section Over.
Context {St : Type} `{Hashing} (sha : list string -> St -> option (list string * St)).

Definition pow_over_batch (inputs : list (string * Z)) (st : St) : option (list PowResult * St) :=
  '(hashes, st) ← sha (map fst inputs) st;
  Some (zip_with (fun hr input =>
    let zeros := leading_zero_bits hr in {| valid := input.2 <=? zeros; leading_zeros := zeros |})
    hashes inputs, st).

Definition derive_over_batch (secrets : list string) (st : St) : option (list TokenDerivation * St) :=
  '(hashes, st) ← sha secrets st; Some (map hex_encode hashes, st).
End Over.

(** ** The CPU *)

Section Backends.
Context `{Hashing}.

(** Whether the runtime runs a blocking task to its end; otherwise, when it
    shuts down, the awaited handle is an error and the default is returned. *)
Class BlockingPool := { runs_blocking : bool }.
Context `{BlockingPool}.

Definition spawn_blocking {A} (r : list A) : list A := if runs_blocking then r else [].

Definition leading_zero_bits_cpu (hash : string) : Z :=
  let full_zero_bytes := zero_bytes hash in
  match String.get full_zero_bytes hash with
  | Some b => u8_leading_zeros (byte_val b)
  | None => 0
  end + Z.of_nat full_zero_bytes * 8.

Definition cpu_sha256_batch (inputs : list string) : list string := spawn_blocking (map sha256 inputs).

Definition cpu_verify_pow_batch (inputs : list (string * Z)) : list PowResult :=
  spawn_blocking (map (fun '(preimage, difficulty) =>
    let hash := sha256 preimage in
    let zeros := leading_zero_bits_cpu hash in
    {| valid := difficulty <=? zeros; leading_zeros := zeros |}) inputs).

Definition cpu_derive_public_hash_batch (secrets : list string) : list TokenDerivation :=
  spawn_blocking (map (fun secret => hex_encode (sha256 secret)) secrets).

#[export] Instance cpu_backend : ComputeBackend unit := {|
  name _ := "cpu";
  optimal_batch_size _ := 1;
  sha256_batch inputs st := Some (cpu_sha256_batch inputs, st);
  verify_pow_batch inputs st := Some (cpu_verify_pow_batch inputs, st);
  derive_public_hash_batch secrets st := Some (cpu_derive_public_hash_batch secrets, st) |}.

(** ** Device memory *)

(** The GPU API.  A device performs the stores of one dispatch in an order of
    its own, or fails, which the callers' [unwrap] turns into a panic; a write
    to a buffer that does not take it panics ([None]). *)
Class Device := {
  create_buffer : Z -> list Z;
  write_buffer : list Z -> list Z -> option (list Z);
  store_order : list (Z * Z) -> list (Z * Z);
  completes : list Z -> bool;
}.

(** Documented behaviour: a buffer of [size] bytes has [size / 4] words; a write
    replaces its front, and past its end is a validation error, which the
    default handler turns into a panic; every store is made once. *)
Class DeviceLaws `{Device} : Prop := {
  buffer_size : forall size, 0 <= size -> Z.of_nat (length (create_buffer size)) = size / 4;
  write_fits : forall buf data, (length data <= length buf)%nat ->
    write_buffer buf data = Some (data ++ drop (length data) buf);
  write_overruns : forall buf data, (length buf < length data)%nat -> write_buffer buf data = None;
  any_order : forall l, store_order l ≡ₚ l;
}.
Context `{Device}.

(** A store outside the buffer is dropped. *)
Definition store (buf : list Z) (w : Z * Z) : list Z := <[Z.to_nat w.1 := w.2]> buf.
Definition launch (kernel : Z -> list (Z * Z)) (threads : Z) (buf : list Z) : list Z :=
  foldl store buf (store_order (seqZ 0 threads ≫= kernel)).

Definition div_ceil (a b : Z) : Z := (a + b - 1) / b.

(** The eight words of hash [i], as bytes. *)
Definition read_hash (words : list Z) (i : nat) : string := digest_of (take 8 (drop (i * 8) words)).

(** ** wgpu *)

Definition MAX_HASHES_PER_DISPATCH : Z := 65536.
Definition MAX_INPUT_BYTES : Z := MAX_HASHES_PER_DISPATCH * 256.
Definition OUTPUT_WORDS_PER_HASH : Z := 8.

(** The buffers, as words. *)
Record WgpuBackend := {
  data_buf : list Z; offsets_lens_buf : list Z; output_buf : list Z;
  staging_buf : list Z; params_buf : list Z; workgroup_size : Z }.

Definition init_async (vendor : Z) : WgpuBackend :=
  let workgroup_size := if vendor =? 0x1002 then 64 else 256 in
  let max_output := MAX_HASHES_PER_DISPATCH * OUTPUT_WORDS_PER_HASH * 4 in
  let max_meta := MAX_HASHES_PER_DISPATCH * 2 * 4 in
  {| data_buf := create_buffer MAX_INPUT_BYTES;
     offsets_lens_buf := create_buffer max_meta;
     output_buf := create_buffer max_output;
     staging_buf := create_buffer max_output;
     params_buf := create_buffer 16;
     workgroup_size := workgroup_size |}.

(** [sha256_pad_inputs]: the words of one input, then the table of offsets. *)
Definition pad_input (input : list Z) : list Z :=
  let len := length input in
  let num_blocks := ((len + 9 + 63) / 64)%nat in
  let padded_len := (num_blocks * 64)%nat in
  let padded := take (padded_len - 8) (input ++ [0x80] ++ replicate padded_len 0)
    ++ be_bytes 8 ((Z.of_nat len * 8) mod 2 ^ 64) in
  be_words padded.

Fixpoint meta_from (word_offset : Z) (inputs : list (list Z)) : list Z :=
  match inputs with
  | [] => []
  | input :: rest =>
      let num_blocks := Z.of_nat ((length input + 9 + 63) / 64) mod 2 ^ 32 in
      word_offset :: num_blocks :: meta_from (u32_add word_offset (u32_mul num_blocks 16)) rest
  end.

Definition sha256_pad_inputs (inputs : list (list Z)) : list Z * list Z :=
  (inputs ≫= pad_input, meta_from 0 inputs).

Definition upload (chunk : list string) (b : WgpuBackend) : option WgpuBackend :=
  let '(all_words, meta_data) := sha256_pad_inputs (map bytes_of chunk) in
  data ← write_buffer (data_buf b) all_words;
  meta ← write_buffer (offsets_lens_buf b) meta_data;
  params ← write_buffer (params_buf b) [Z.of_nat (length chunk); 0; 0; 0];
  Some {| data_buf := data; offsets_lens_buf := meta; output_buf := output_buf b;
          staging_buf := staging_buf b; params_buf := params; workgroup_size := workgroup_size b |}.

(** The dispatch and the copy of one command buffer. *)
Definition submit (chunk_n : Z) (b : WgpuBackend) : WgpuBackend :=
  let groups := div_ceil chunk_n (workgroup_size b) in
  let output := launch (wgsl_sha256_batch (data_buf b) (offsets_lens_buf b) (at_u32 (params_buf b) 0))
    (groups * workgroup_size b) (output_buf b) in
  let size := Z.to_nat (chunk_n * OUTPUT_WORDS_PER_HASH) in
  {| data_buf := data_buf b; offsets_lens_buf := offsets_lens_buf b; output_buf := output;
     staging_buf := take size output ++ drop size (staging_buf b);
     params_buf := params_buf b; workgroup_size := workgroup_size b |}.

Definition read_back (chunk_n : nat) (b : WgpuBackend) : option (list string) :=
  if completes (staging_buf b) then Some (map (read_hash (staging_buf b)) (seq 0 chunk_n)) else None.

Definition gpu_chunk (chunk : list string) (b : WgpuBackend) : option (list string * WgpuBackend) :=
  b ← upload chunk b;
  let b := submit (Z.of_nat (length chunk)) b in
  rs ← read_back (length chunk) b;
  Some (rs, b).

Fixpoint gpu_chunks (cs : list (list string)) (b : WgpuBackend) : option (list string * WgpuBackend) :=
  match cs with
  | [] => Some ([], b)
  | c :: rest =>
      '(rs, b) ← gpu_chunk c b;
      '(rs', b) ← gpu_chunks rest b;
      Some (rs ++ rs', b)
  end.

Definition gpu_sha256_batch (inputs : list string) (b : WgpuBackend) : option (list string * WgpuBackend) :=
  match inputs with
  | [] => Some ([], b)
  | _ => gpu_chunks (chunks (Z.to_nat MAX_HASHES_PER_DISPATCH) inputs) b
  end.

#[export] Instance wgpu_backend : ComputeBackend WgpuBackend := {|
  name _ := "wgpu";
  optimal_batch_size _ := MAX_HASHES_PER_DISPATCH;
  sha256_batch := gpu_sha256_batch;
  verify_pow_batch := pow_over_batch gpu_sha256_batch;
  derive_public_hash_batch := derive_over_batch gpu_sha256_batch |}.

(** ** CUDA *)

(** The handles of the device and of the module keep no state. *)
Inductive CudaBackend := OnCuda.

Fixpoint cuda_offsets (acc : Z) (inputs : list (list Z)) : list Z :=
  match inputs with
  | [] => []
  | v :: rest => acc :: cuda_offsets (u32_add acc (Z.of_nat (length v) mod 2 ^ 32)) rest
  end.

Definition cuda_sha256 (inputs : list string) (st : CudaBackend) : option (list string * CudaBackend) :=
  match inputs with
  | [] => Some ([], st)
  | _ =>
      let n := length inputs in
      let all_data := map bytes_of inputs ≫= id in
      let offsets := cuda_offsets 0 (map bytes_of inputs) in
      let lengths := map (fun v => Z.of_nat (length (bytes_of v)) mod 2 ^ 32) inputs in
      let blocks := (Z.of_nat n + 255) / 256 mod 2 ^ 32 in
      let output := launch (cuda_sha256_batch all_data offsets lengths (Z.of_nat n mod 2 ^ 32))
        (blocks * 256) (replicate (n * 8) 0) in
      if completes output then Some (map (read_hash output) (seq 0 n), st) else None
  end.

#[export] Instance cuda_backend : ComputeBackend CudaBackend := {|
  name _ := "cuda";
  optimal_batch_size _ := 65536;
  sha256_batch := cuda_sha256;
  verify_pow_batch := pow_over_batch cuda_sha256;
  derive_public_hash_batch := derive_over_batch cuda_sha256 |}.

(** ** The choice *)

(** [Box<dyn ComputeBackend>], which delegates. *)
Inductive Backend := Cpu (st : unit) | Cuda (st : CudaBackend) | Wgpu (st : WgpuBackend).

Definition delegate {A B} (f : forall St, ComputeBackend St -> A -> St -> option (B * St))
    (x : A) (b : Backend) : option (B * Backend) :=
  match b with
  | Cpu st => '(r, st) ← f _ cpu_backend x st; Some (r, Cpu st)
  | Cuda st => '(r, st) ← f _ cuda_backend x st; Some (r, Cuda st)
  | Wgpu st => '(r, st) ← f _ wgpu_backend x st; Some (r, Wgpu st)
  end.

#[export] Instance boxed_backend : ComputeBackend Backend := {|
  name b := match b with Cpu st => name st | Cuda st => name st | Wgpu st => name st end;
  optimal_batch_size b := match b with
    | Cpu st => optimal_batch_size st | Cuda st => optimal_batch_size st | Wgpu st => optimal_batch_size st end;
  sha256_batch := delegate (fun _ B => sha256_batch (ComputeBackend := B));
  verify_pow_batch := delegate (fun _ B => verify_pow_batch (ComputeBackend := B));
  derive_public_hash_batch := delegate (fun _ B => derive_public_hash_batch (ComputeBackend := B)) |}.

(** The features, and what the initialisations of the devices yield. *)
Definition create_backend (cuda wgpu_compute : bool) (cuda_new : option CudaBackend)
    (wgpu_new : option Z) : Backend :=
  match (if cuda then cuda_new else None) with
  | Some backend => Cuda backend
  | None =>
      match (if wgpu_compute then wgpu_new else None) with
      | Some vendor => Wgpu (init_async vendor)
      | None => Cpu tt
      end
  end.
End Backends.
End Compute.
