(* ===== verification/LegacyComputeFacts.v ===== *)
(** * The compute backends agree

    The padding and the tables the hosts upload, the stores of a dispatch in
    whatever order the device makes them, and the agreement of the three
    backends of [crates/server/src/compute/]. *)
From S2P Require Import Prelude External Mining Sha256 LegacyCompute.

Module ComputeFacts.
Import Compute.

(** ** Padding on the host *)

Lemma be_bytes_mod n x : be_bytes n (x mod 256 ^ Z.of_nat n) = be_bytes n x.
Proof.
  revert x. induction n as [|n IH]; intros x; [done|]. cbn [be_bytes].
  rewrite Nat2Z.inj_succ, Z.pow_succ_r by lia. assert (0 < 256 ^ Z.of_nat n) by (apply Z.pow_pos_nonneg; lia).
  rewrite Z.rem_mul_r by lia. f_equal; [|f_equal].
  - rewrite <- (IH (x / 256)). f_equal. rewrite Z.add_comm, Z.mul_comm, Z.div_add_l by lia.
    rewrite (Z.div_small (x mod 256)) by (apply Z.mod_pos_bound; lia). lia.
  - rewrite Z.add_comm, Z.mul_comm, Z.add_comm, Z.mod_add by lia. apply Z.mod_mod. lia.
Qed.

Lemma pad_input_exact m : pad_input m = be_words (pad m).
Proof.
  unfold pad_input. rewrite pad_split. replace (length m + 9 + 63)%nat with (length m + 72)%nat by lia.
  fold (num_blocks (length m)). f_equal. pose proof (pad_zeros (length m)) as [Hz Hn]. f_equal.
  - unfold pad_body. set (r := Z.to_nat _) in *.
    replace (num_blocks (length m) * 64 - 8)%nat with (length (m ++ [128%Z]) + r)%nat
      by (rewrite length_app; simpl; lia).
    rewrite !(assoc_L (++)), take_app_add. f_equal. rewrite take_replicate. f_equal. lia.
  - rewrite Z.mul_comm. apply (be_bytes_mod 8).
Qed.

Definition block_words (m : list Z) : nat := (16 * num_blocks (length m))%nat.
Definition words_total (ms : list (list Z)) : nat := sum_list_with block_words ms.

Lemma padded_length ms : length (ms ≫= pad_input) = words_total ms.
Proof.
  induction ms as [|m ms IH]; [done|].
  change ((m :: ms) ≫= pad_input) with (pad_input m ++ (ms ≫= pad_input)).
  change (words_total (m :: ms)) with (block_words m + words_total ms)%nat.
  by rewrite length_app, IH, pad_input_exact, pad_words_length.
Qed.

Lemma words_total_app a b : words_total (a ++ b) = (words_total a + words_total b)%nat.
Proof. apply sum_list_with_app. Qed.

Lemma meta_length off ms : length (meta_from off ms) = (2 * length ms)%nat.
Proof. revert off. induction ms as [|m ms IH]; intros off; [done|]. cbn [meta_from length]. rewrite IH. lia. Qed.

Lemma meta_lookup ms i m off :
  ms !! i = Some m -> Z.of_nat off + Z.of_nat (words_total ms) < 2 ^ 32 ->
  meta_from (Z.of_nat off) ms !! (2 * i)%nat = Some (Z.of_nat (off + words_total (take i ms))) /\
  meta_from (Z.of_nat off) ms !! (2 * i + 1)%nat = Some (Z.of_nat (num_blocks (length m))).
Proof.
  revert i off. induction ms as [|x ms IH]; intros i off Hi Ho; [done|].
  change (words_total (x :: ms)) with (block_words x + words_total ms)%nat in Ho. unfold block_words in Ho.
  cbn [meta_from]. replace (length x + 9 + 63)%nat with (length x + 72)%nat by lia.
  fold (num_blocks (length x)). rewrite (Z.mod_small (Z.of_nat (num_blocks _))) by lia.
  destruct i as [|i].
  - injection Hi as ->. split; [|done]. simpl. by rewrite Nat.add_0_r.
  - replace (u32_add _ _) with (Z.of_nat (off + block_words x))
      by (unfold block_words; rewrite u32_mul_id, u32_add_id by (rewrite ?u32_mul_id; lia); lia).
    replace (2 * S i)%nat with (S (S (2 * i))) by lia.
    change (S (S (2 * i)) + 1)%nat with (S (S (2 * i + 1))).
    change (words_total (take (S i) (x :: ms))) with (block_words x + words_total (take i ms))%nat.
    rewrite Nat.add_assoc. apply (IH i (off + block_words x)%nat Hi). unfold block_words. lia.
Qed.

Lemma input_placed ms i m rest :
  ms !! i = Some m ->
  placed ((ms ≫= pad_input) ++ rest) (be_words (pad m)) (words_total (take i ms)).
Proof.
  intros Hi. rewrite <- (take_drop_middle _ _ _ Hi) at 1. rewrite bind_app, <- padded_length.
  change ((m :: ?l) ≫= pad_input) with (pad_input m ++ (l ≫= pad_input)). rewrite pad_input_exact, <- !(assoc_L (++)). apply placed_app.
Qed.

(** ** Stores in any order *)

Definition key (w : Z * Z) : nat := Z.to_nat w.1.

Lemma stores_length ws buf : length (foldl store buf ws) = length buf.
Proof. revert buf. induction ws as [|w ws IH]; intros buf; [done|]. cbn [foldl]. rewrite IH. apply length_insert. Qed.

Lemma stores_elsewhere ws buf k : k ∉ map key ws -> foldl store buf ws !! k = buf !! k.
Proof.
  revert buf. induction ws as [|w ws IH]; intros buf Hk; [done|]. cbn [foldl map] in *.
  apply not_elem_of_cons in Hk as [Hne Hk]. rewrite IH by done. unfold store, key in *.
  by apply list_lookup_insert_ne.
Qed.

Lemma stores_at ws buf w :
  NoDup (map key ws) -> w ∈ ws -> (key w < length buf)%nat -> foldl store buf ws !! key w = Some w.2.
Proof.
  revert buf. induction ws as [|w0 ws IH]; intros buf Hn Hw Hl; [by apply elem_of_nil in Hw|].
  cbn [foldl map] in *. apply NoDup_cons in Hn as [Hnin Hn]. apply elem_of_cons in Hw as [->|Hw].
  - rewrite stores_elsewhere by done. by apply list_lookup_insert_eq.
  - apply IH; [done..|]. unfold store. by rewrite length_insert.
Qed.

(** Distinct stores may be made in any order. *)
Lemma stores_any_order ws ws' buf :
  NoDup (map key ws) -> ws' ≡ₚ ws -> foldl store buf ws' = foldl store buf ws.
Proof.
  intros Hn Hp. assert (map key ws' ≡ₚ map key ws) as Hk by (by rewrite Hp).
  assert (NoDup (map key ws')) as Hn' by (by rewrite Hk).
  apply list_eq. intros k. destruct (decide (k ∈ map key ws)) as [Hin|Hout].
  2: { rewrite !stores_elsewhere; [done|done|]. by rewrite Hk. }
  destruct (decide (k < length buf)%nat) as [Hl|Hl].
  - apply list_elem_of_In, in_map_iff in Hin as (w & <- & Hw%list_elem_of_In).
    rewrite !stores_at; try done. by rewrite Hp.
  - rewrite !lookup_ge_None_2; [done|rewrite stores_length; lia..].
Qed.

Lemma imap_stores_keys (xs : list Z) k :
  map key (imap (fun j x => (Z.of_nat (k + j), x)) xs) = seq k (length xs).
Proof.
  revert k. induction xs as [|x xs IH]; intros k; [done|]. cbn [imap map length seq]. f_equal.
  - unfold key. simpl. lia.
  - rewrite <- IH. f_equal. apply imap_ext. intros j y _. simpl. f_equal. lia.
Qed.

Lemma imap_stores xs buf :
  (length xs <= length buf)%nat ->
  foldl store buf (imap (fun j x => (Z.of_nat (0 + j), x)) xs) = xs ++ drop (length xs) buf.
Proof.
  intros Hl. apply list_eq. intros k. destruct (decide (k < length xs)%nat) as [Hk|Hk].
  - rewrite lookup_app_l by done. destruct (xs !! k) as [x|] eqn:Ex; [|apply lookup_ge_None in Ex; lia].
    pose proof (stores_at (imap (fun j x => (Z.of_nat (0 + j), x)) xs) buf (Z.of_nat (0 + k), x)) as Hs.
    replace (key (Z.of_nat (0 + k), x)) with k in Hs by (unfold key; simpl; lia). apply Hs.
    + rewrite imap_stores_keys. apply NoDup_seq.
    + apply list_elem_of_lookup. exists k. by rewrite list_lookup_imap, Ex.
    + lia.
  - rewrite lookup_app_r, lookup_drop by lia. replace (length xs + _)%nat with k by lia.
    apply stores_elsewhere. rewrite imap_stores_keys. intros Hin%elem_of_seq. lia.
Qed.

(** Threads past the count store nothing. *)
Lemma idle_threads {X} (kernel : Z -> list X) a b :
  (forall i, a <= i -> kernel i = []) -> seqZ a b ≫= kernel = [].
Proof.
  intros Hk. assert (forall i, i ∈ seqZ a b -> kernel i = []) as Hall
    by (intros i [Hi _]%elem_of_seqZ; by apply Hk).
  induction (seqZ a b) as [|i l IH]; [done|].
  change ((i :: l) ≫= kernel) with (kernel i ++ (l ≫= kernel)).
  rewrite Hall by (by left). apply IH. intros j Hj. apply Hall. by right.
Qed.

Lemma seq_kernel {X} (f : nat -> Z) (kernel : Z -> list X) (g : nat -> list X) n k :
  (forall i, (i < k + n)%nat -> kernel (f i) = g i) -> (f <$> seq k n) ≫= kernel = seq k n ≫= g.
Proof.
  revert k. induction n as [|n IH]; intros k Hk; [done|]. change (seq k (S n)) with (k :: seq (S k) n).
  change (kernel (f k) ++ ((f <$> seq (S k) n) ≫= kernel) = g k ++ (seq (S k) n ≫= g)).
  rewrite Hk by lia. f_equal. apply IH. intros i Hi. apply Hk. lia.
Qed.

(** The words the invocations of a dispatch store, in order. *)
Section Launch.
Context `{DeviceLaws}.
Variables (n : nat) (H8 : nat -> Vars).

Definition flat : list Z := seq 0 n ≫= (fun i => words_of (H8 i)).

Lemma flat_stores k :
  Z.of_nat (8 * (k + n)) <= 2 ^ 32 ->
  (seq k n ≫= fun i => store8 (u32_mul (Z.of_nat i) 8) (H8 i))
  = imap (fun j x => (Z.of_nat (8 * k + j), x)) (seq k n ≫= (fun i => words_of (H8 i))).
Proof.
  revert k. induction n as [|m IH]; intros k Hk; [done|].
  change (seq k (S m)) with (k :: seq (S k) m).
  change ((k :: ?l) ≫= ?f) with (f k ++ (l ≫= f)). cbv beta. rewrite IH by lia. rewrite imap_app. f_equal.
  - unfold store8. apply list_eq. intros j. rewrite !list_lookup_imap. destruct (words_of (H8 k) !! j) eqn:Ej; [|done].
    apply lookup_lt_Some in Ej. simpl in Ej. cbn. do 2 f_equal. rewrite u32_mul_id, u32_add_id by (rewrite ?u32_mul_id; lia). lia.
  - apply imap_ext. intros j x _. f_equal. cbn [words_of length compose]. lia.
Qed.

Lemma flat_length : length flat = (8 * n)%nat.
Proof.
  unfold flat. assert (forall k, length (seq k n ≫= (fun i => words_of (H8 i))) = (8 * n)%nat) as Hg; [|apply Hg].
  induction n as [|m IH]; intros k; [done|].
  change (seq k (S m)) with (k :: seq (S k) m). change ((k :: ?l) ≫= ?f) with (f k ++ (l ≫= f)).
  rewrite length_app, IH. cbn [words_of length]. lia.
Qed.

(** A dispatch fills the front of the output buffer, whatever the order. *)
Lemma launch_exact kernel threads buf :
  (forall i, (i < n)%nat -> kernel (Z.of_nat i) = store8 (u32_mul (Z.of_nat i) 8) (H8 i)) ->
  (forall i, Z.of_nat n <= i -> kernel i = []) ->
  Z.of_nat n <= threads -> Z.of_nat (8 * n) <= 2 ^ 32 -> (8 * n <= length buf)%nat ->
  launch kernel threads buf = flat ++ drop (8 * n) buf.
Proof.
  intros Hin Hout Ht H32 Hl. unfold launch.
  assert (seqZ 0 threads ≫= kernel = imap (fun j x => (Z.of_nat (0 + j), x)) flat) as Hs.
  { replace threads with (Z.of_nat n + (threads - Z.of_nat n)) by lia.
    rewrite seqZ_app, bind_app by lia.
    rewrite (idle_threads kernel (0 + Z.of_nat n)), app_nil_r by (intros i Hi; apply Hout; lia).
    etransitivity; [|exact (flat_stores 0 H32)]. unfold seqZ. rewrite Nat2Z.id.
    apply seq_kernel. intros i Hi. rewrite Z.add_0_r. by apply Hin. }
  assert (NoDup (map key (seqZ 0 threads ≫= kernel))) as Hn.
  { rewrite Hs, imap_stores_keys. apply NoDup_seq. }
  rewrite (stores_any_order _ _ _ Hn (any_order _)), Hs, <- flat_length.
  apply imap_stores. by rewrite flat_length.
Qed.

(** The hashes read back are those stored. *)
Lemma read_hashes rest m :
  (forall i, (i < n)%nat -> words_of (H8 i) = hash_words (bytes_of (m i))) ->
  map (read_hash (flat ++ rest)) (seq 0 n) = map (fun i => fips_sha256 (m i)) (seq 0 n).
Proof.
  intros Hm. apply map_ext_in. intros i [_ Hi]%in_seq. simpl in Hi. unfold read_hash, fips_sha256.
  f_equal. rewrite <- Hm by done. unfold flat.
  assert (forall k, drop (i * 8) ((seq k n ≫= (fun i => words_of (H8 i))) ++ rest)
    = (seq (k + i) (n - i) ≫= (fun i => words_of (H8 i))) ++ rest) as Hd.
  { clear Hm. revert i Hi. induction n as [|n' IH]; intros i Hi k; [lia|].
    destruct i as [|i]; [by rewrite Nat.add_0_r|].
    change (seq k (S n')) with (k :: seq (S k) n'). change ((k :: ?l) ≫= ?f) with (f k ++ (l ≫= f)).
    change (S i * 8)%nat with (8 + i * 8)%nat. rewrite <- (assoc_L (++)).
    cbn [words_of app]. cbn [Nat.add drop]. destruct (decide (i < n')%nat) as [Hlt|]; [|lia].
    rewrite IH by done. by rewrite Nat.add_succ_r. }
  rewrite Hd. destruct (n - i)%nat eqn:E; [lia|]. done.
Qed.
End Launch.

(** ** A dispatch of the wgpu backend *)

Section Agreement.
Context `{Hashing} `{!BlockingPool} `{DeviceLaws}.

(** The buffers keep the sizes they were created with. *)
Definition wgpu_ok (b : WgpuBackend) : Prop :=
  Z.of_nat (length (data_buf b)) = MAX_INPUT_BYTES / 4 /\
  Z.of_nat (length (offsets_lens_buf b)) = MAX_HASHES_PER_DISPATCH * 2 /\
  Z.of_nat (length (output_buf b)) = MAX_HASHES_PER_DISPATCH * OUTPUT_WORDS_PER_HASH /\
  Z.of_nat (length (staging_buf b)) = MAX_HASHES_PER_DISPATCH * OUTPUT_WORDS_PER_HASH /\
  Z.of_nat (length (params_buf b)) = 4 /\
  1 <= workgroup_size b.

Definition chunk_fits (chunk : list string) : bool :=
  Z.of_nat (words_total (map bytes_of chunk)) <=? MAX_INPUT_BYTES / 4.

Lemma init_ok vendor : wgpu_ok (init_async vendor).
Proof.
  unfold wgpu_ok, init_async. cbn [data_buf offsets_lens_buf output_buf staging_buf params_buf workgroup_size].
  rewrite !buffer_size by (unfold MAX_INPUT_BYTES, MAX_HASHES_PER_DISPATCH, OUTPUT_WORDS_PER_HASH; lia).
  do 5 (split; [reflexivity|]). destruct (vendor =? 0x1002); lia.
Qed.

Lemma words_total_take ms i m :
  ms !! i = Some m -> (words_total (take i ms) + block_words m <= words_total ms)%nat.
Proof.
  intros Hi. rewrite <- (take_drop_middle _ _ _ Hi) at 2. rewrite words_total_app.
  change (words_total (m :: ?l)) with (block_words m + words_total l)%nat. lia.
Qed.

(** One invocation hashes its input, from the uploaded words and table. *)
Lemma wgsl_invocation ms rest rest' i m :
  ms !! i = Some m -> Forall byte m -> Z.of_nat (words_total ms) < 2 ^ 32 -> Z.of_nat (length ms) < 2 ^ 29 ->
  words_of (wgsl_hash ((ms ≫= pad_input) ++ rest)
    (at_u32 (meta_from 0 ms ++ rest') (u32_mul (Z.of_nat i) 2))
    (Z.to_nat (at_u32 (meta_from 0 ms ++ rest') (u32_add (u32_mul (Z.of_nat i) 2) 1)))) = hash_words m.
Proof.
  intros Hi Hb Hw Hn. pose proof (lookup_lt_Some _ _ _ Hi) as Hlt.
  destruct (meta_lookup ms i m 0 Hi) as [E1 E2]; [lia|]. pose proof (words_total_take _ _ _ Hi) as Ht.
  change (Z.of_nat 0) with 0 in E1, E2. unfold at_u32. rewrite u32_mul_id, u32_add_id by lia.
  replace (Z.to_nat (Z.of_nat i * 2)) with (2 * i)%nat by lia.
  replace (Z.to_nat (Z.of_nat i * 2 + 1)) with (2 * i + 1)%nat by lia.
  rewrite !lookup_app_l by (rewrite meta_length; lia). rewrite E1, E2. simpl default. rewrite Nat2Z.id.
  apply wgsl_hash_exact; [done|by apply input_placed|]. unfold block_words in Ht. simpl. lia.
Qed.

Lemma bytes_lookup chunk i s : chunk !! i = Some s -> map bytes_of chunk !! i = Some (bytes_of s).
Proof. intros Hs. by rewrite list_lookup_fmap, Hs. Qed.

Lemma submit_exact chunk b :
  wgpu_ok b -> (Z.of_nat (length chunk) <= MAX_HASHES_PER_DISPATCH) ->
  Z.of_nat (words_total (map bytes_of chunk)) < 2 ^ 32 ->
  (exists rest, data_buf b = (map bytes_of chunk ≫= pad_input) ++ rest) ->
  (exists rest, offsets_lens_buf b = meta_from 0 (map bytes_of chunk) ++ rest) ->
  at_u32 (params_buf b) 0 = Z.of_nat (length chunk) ->
  wgpu_ok (submit (Z.of_nat (length chunk)) b) /\
  map (read_hash (staging_buf (submit (Z.of_nat (length chunk)) b))) (seq 0 (length chunk))
  = map fips_sha256 chunk.
Proof.
  intros (Hd & Hm & Ho & Hs & Hp & Hg) Hn Hw [rest Ed] [rest' Em] Ep.
  unfold MAX_HASHES_PER_DISPATCH, OUTPUT_WORDS_PER_HASH in *.
  set (n := length chunk) in *.
  set (H8 i := wgsl_hash (data_buf b) (at_u32 (offsets_lens_buf b) (u32_mul (Z.of_nat i) 2))
    (Z.to_nat (at_u32 (offsets_lens_buf b) (u32_add (u32_mul (Z.of_nat i) 2) 1)))).
  assert (launch (wgsl_sha256_batch (data_buf b) (offsets_lens_buf b) (at_u32 (params_buf b) 0))
      (div_ceil (Z.of_nat n) (workgroup_size b) * workgroup_size b) (output_buf b)
    = flat n H8 ++ drop (8 * n) (output_buf b)) as El.
  { apply launch_exact.
    - intros i Hi. unfold wgsl_sha256_batch. rewrite Ep. by rewrite (proj2 (Z.leb_gt _ _)) by lia.
    - intros i Hi. unfold wgsl_sha256_batch. rewrite Ep. by rewrite (proj2 (Z.leb_le _ _)) by lia.
    - unfold div_ceil. pose proof (Z.div_mod (Z.of_nat n + workgroup_size b - 1) (workgroup_size b) ltac:(lia)).
      pose proof (Z.mod_pos_bound (Z.of_nat n + workgroup_size b - 1) (workgroup_size b) ltac:(lia)). lia.
    - lia.
    - lia. }
  assert (length (flat n H8 ++ drop (8 * n) (output_buf b)) = length (output_buf b)) as Hll
    by (rewrite length_app, flat_length, length_drop; lia).
  split.
  - unfold wgpu_ok, submit, MAX_HASHES_PER_DISPATCH, OUTPUT_WORDS_PER_HASH.
    cbn [data_buf offsets_lens_buf output_buf staging_buf params_buf workgroup_size].
    rewrite El. clear El. revert Hll. generalize (flat n H8 ++ drop (8 * n) (output_buf b)). intros out Hll.
    rewrite length_app, length_take, length_drop, Hll. repeat split; try done; lia.
  - unfold submit. cbn [staging_buf]. rewrite El. unfold OUTPUT_WORDS_PER_HASH.
    replace (Z.to_nat (Z.of_nat n * 8)) with (length (flat n H8)) by (rewrite flat_length; lia).
    rewrite take_app_length.
    rewrite (read_hashes n H8 _ (fun i => chunk !!! i)).
    + apply list_eq. intros i. rewrite !list_lookup_fmap. destruct (decide (i < n)%nat) as [Hi|Hi].
      * rewrite lookup_seq_lt by done. simpl. by rewrite list_lookup_lookup_total_lt.
      * rewrite lookup_seq_ge by lia. by rewrite (lookup_ge_None_2 chunk) by (fold n; lia).
    + intros i Hi. destruct (chunk !! i) as [s|] eqn:Es; [|apply lookup_ge_None in Es; fold n in Es; lia].
      rewrite (list_lookup_total_correct _ _ _ Es).
      unfold H8. rewrite Ed, Em. apply wgsl_invocation; [by apply bytes_lookup|apply bytes_of_byte|done|].
      rewrite length_map. fold n. lia.
Qed.

Lemma upload_exact chunk b :
  wgpu_ok b -> Z.of_nat (length chunk) <= MAX_HASHES_PER_DISPATCH ->
  if chunk_fits chunk then
    exists b1, upload chunk b = Some b1 /\ wgpu_ok b1 /\
      (exists rest, data_buf b1 = (map bytes_of chunk ≫= pad_input) ++ rest) /\
      (exists rest, offsets_lens_buf b1 = meta_from 0 (map bytes_of chunk) ++ rest) /\
      at_u32 (params_buf b1) 0 = Z.of_nat (length chunk)
  else upload chunk b = None.
Proof.
  intros (Hd & Hm & Ho & Hs & Hp & Hg) Hn. unfold chunk_fits.
  unfold upload, sha256_pad_inputs. cbv beta iota.
  destruct (Z.leb_spec (Z.of_nat (words_total (map bytes_of chunk))) (MAX_INPUT_BYTES / 4)) as [Hf|Hf]; cycle 1.
  { assert (write_buffer (data_buf b) (map bytes_of chunk ≫= pad_input) = None) as ->; [|done].
    apply write_overruns. rewrite padded_length. lia. }
  rewrite !write_fits by (cbn [length]; rewrite ?meta_length, ?length_map, ?padded_length; lia).
  eexists. split; [reflexivity|]. cbn [data_buf offsets_lens_buf output_buf staging_buf params_buf workgroup_size].
  split; [|split; [by eexists|split; [by eexists|reflexivity]]].
  unfold wgpu_ok. cbn [data_buf offsets_lens_buf output_buf staging_buf params_buf workgroup_size].
  rewrite !length_app, !length_drop, meta_length, padded_length, length_map. cbn [length].
  unfold MAX_INPUT_BYTES, MAX_HASHES_PER_DISPATCH, OUTPUT_WORDS_PER_HASH in *. repeat split; lia.
Qed.

Hypothesis all_complete : forall l, completes l = true.

Lemma gpu_chunk_exact chunk b :
  wgpu_ok b -> Z.of_nat (length chunk) <= MAX_HASHES_PER_DISPATCH ->
  if chunk_fits chunk then
    exists b', gpu_chunk chunk b = Some (map fips_sha256 chunk, b') /\ wgpu_ok b'
  else gpu_chunk chunk b = None.
Proof.
  intros Hok Hn. pose proof (upload_exact chunk b Hok Hn) as Hu. unfold gpu_chunk.
  destruct (chunk_fits chunk) eqn:Hf; [|by rewrite Hu].
  destruct Hu as (b1 & -> & Hok1 & Hd & Hm & Hp). simpl.
  destruct (submit_exact chunk b1) as [Hok2 Hr]; try done.
  { unfold chunk_fits in Hf. apply Z.leb_le in Hf. change (MAX_INPUT_BYTES / 4) with 4194304 in Hf. lia. }
  unfold read_back. rewrite all_complete, Hr. simpl. by eexists.
Qed.

(** What the backend's buffers take: every dispatch of at most
    [MAX_HASHES_PER_DISPATCH] inputs. *)
Definition wgpu_fits (inputs : list string) : bool :=
  forallb chunk_fits (chunks (Z.to_nat MAX_HASHES_PER_DISPATCH) inputs).

Lemma gpu_chunks_exact cs b :
  wgpu_ok b -> Forall (fun c => Z.of_nat (length c) <= MAX_HASHES_PER_DISPATCH) cs ->
  if forallb chunk_fits cs then
    exists b', gpu_chunks cs b = Some (map fips_sha256 (concat cs), b') /\ wgpu_ok b'
  else gpu_chunks cs b = None.
Proof.
  revert b. induction cs as [|c cs IH]; intros b Hok Hl; [by exists b|].
  apply Forall_cons in Hl as [Hc Hl]. cbn [forallb gpu_chunks concat].
  pose proof (gpu_chunk_exact c b Hok Hc) as Hg. destruct (chunk_fits c); simpl; [|by rewrite Hg].
  destruct Hg as (b1 & -> & Hok1). simpl. specialize (IH b1 Hok1 Hl).
  destruct (forallb chunk_fits cs); [|by rewrite IH].
  destruct IH as (b2 & -> & Hok2). simpl. exists b2. by rewrite map_app.
Qed.

Lemma gpu_batch_exact inputs b :
  wgpu_ok b ->
  if wgpu_fits inputs then
    exists b', gpu_sha256_batch inputs b = Some (map fips_sha256 inputs, b') /\ wgpu_ok b'
  else gpu_sha256_batch inputs b = None.
Proof.
  intros Hok. unfold gpu_sha256_batch, wgpu_fits. destruct inputs as [|x inputs]; [by exists b|].
  pose proof (gpu_chunks_exact (chunks (Z.to_nat MAX_HASHES_PER_DISPATCH) (x :: inputs)) b Hok) as Hg.
  rewrite concat_chunks in Hg. apply Hg.
  eapply Forall_impl; [apply chunks_bounded; unfold MAX_HASHES_PER_DISPATCH; lia|].
  intros c Hc. cbv beta in Hc. unfold MAX_HASHES_PER_DISPATCH in *. lia.
Qed.

(** ** CUDA *)

Definition bytes_total (inputs : list string) : nat := sum_list_with String.length inputs.

(** What the 32-bit counters of the host and the kernel take. *)
Definition cuda_fits (inputs : list string) : bool :=
  (Z.of_nat (bytes_total inputs) + 72 <? 2 ^ 32) && (Z.of_nat (length inputs) * 8 <=? 2 ^ 32 - 4096).

Lemma cuda_offsets_lookup inputs i s off :
  inputs !! i = Some s -> Z.of_nat off + Z.of_nat (bytes_total inputs) < 2 ^ 32 ->
  cuda_offsets (Z.of_nat off) (map bytes_of inputs) !! i = Some (Z.of_nat (off + bytes_total (take i inputs))).
Proof.
  revert i off. induction inputs as [|x inputs IH]; intros i off Hi Ho; [done|].
  change (bytes_total (x :: inputs)) with (String.length x + bytes_total inputs)%nat in Ho.
  cbn [map cuda_offsets]. destruct i as [|i].
  - cbn. f_equal. lia.
  - rewrite bytes_of_length, (Z.mod_small (Z.of_nat (String.length x))), u32_add_id by lia.
    rewrite <- Nat2Z.inj_add. change (bytes_total (take (S i) (x :: inputs)))
      with (String.length x + bytes_total (take i inputs))%nat. rewrite Nat.add_assoc.
    apply (IH i (off + String.length x)%nat Hi). lia.
Qed.

Lemma all_bytes_length inputs : length (map bytes_of inputs ≫= id) = bytes_total inputs.
Proof.
  induction inputs as [|x inputs IH]; [done|].
  change (map bytes_of (x :: inputs) ≫= id) with (bytes_of x ++ (map bytes_of inputs ≫= id)).
  change (bytes_total (x :: inputs)) with (String.length x + bytes_total inputs)%nat.
  by rewrite length_app, IH, bytes_of_length.
Qed.

Lemma bytes_placed inputs i s :
  inputs !! i = Some s ->
  placed (map bytes_of inputs ≫= id) (bytes_of s) (bytes_total (take i inputs)).
Proof.
  intros Hi. rewrite <- (take_drop_middle _ _ _ Hi) at 1. rewrite map_app, bind_app, <- all_bytes_length.
  change (map bytes_of (s :: ?l) ≫= id) with (bytes_of s ++ (map bytes_of l ≫= id)). apply placed_app.
Qed.

Lemma cuda_batch_exact inputs st :
  cuda_fits inputs = true -> cuda_sha256 inputs st = Some (map fips_sha256 inputs, st).
Proof.
  unfold cuda_fits. intros Hf. apply andb_true_iff in Hf as [Hb%Z.ltb_lt Hn%Z.leb_le].
  destruct inputs as [|x inputs']; [done|]. unfold cuda_sha256. set (inputs := x :: inputs') in *.
  set (n := length inputs) in *. cbv zeta. rewrite (Z.mod_small (Z.of_nat n)) by lia.
  set (all_data := map bytes_of inputs ≫= id). set (offs := cuda_offsets 0 _). set (lens := map _ inputs).
  set (H8 i := cuda_hash all_data (at_u32 offs (Z.of_nat i)) (at_u32 lens (Z.of_nat i))).
  rewrite (launch_exact n H8).
  - rewrite all_complete. do 2 f_equal. rewrite (read_hashes n H8 _ (fun i => inputs !!! i)).
    + apply list_eq. intros i. rewrite !list_lookup_fmap. destruct (decide (i < n)%nat) as [Hi|Hi].
      * rewrite lookup_seq_lt by done. simpl. by rewrite list_lookup_lookup_total_lt.
      * rewrite lookup_seq_ge by lia. by rewrite (lookup_ge_None_2 inputs) by (fold n; lia).
    + intros i Hi. destruct (inputs !! i) as [s|] eqn:Es; [|apply lookup_ge_None in Es; fold n in Es; lia].
      rewrite (list_lookup_total_correct _ _ _ Es).
      assert (String.length s <= bytes_total inputs)%nat.
      { unfold bytes_total. rewrite <- (take_drop_middle _ _ _ Es), sum_list_with_app. simpl. lia. }
      unfold H8, at_u32. rewrite Nat2Z.id. unfold offs.
      change (cuda_offsets 0 ?l) with (cuda_offsets (Z.of_nat 0) l).
      rewrite (cuda_offsets_lookup _ _ _ 0 Es) by lia. unfold lens. rewrite list_lookup_fmap, Es. simpl.
      rewrite Z.mod_small by (rewrite bytes_of_length; lia).
      apply cuda_hash_exact; [apply bytes_of_byte|by apply bytes_placed|rewrite bytes_of_length; lia].
  - intros i Hi. unfold cuda_sha256_batch. by rewrite (proj2 (Z.leb_gt _ _)) by lia.
  - intros i Hi. unfold cuda_sha256_batch. by rewrite (proj2 (Z.leb_le _ _)) by lia.
  - rewrite Z.mod_small by (Z.to_euclidean_division_equations; lia). Z.to_euclidean_division_equations. lia.
  - lia.
  - rewrite length_replicate. lia.
Qed.

(** ** The three backends *)

Definition backend_ok (b : Backend) : Prop := match b with Wgpu st => wgpu_ok st | _ => True end.
Definition fits (b : Backend) (inputs : list string) : bool :=
  match b with Cpu _ => true | Cuda _ => cuda_fits inputs | Wgpu _ => wgpu_fits inputs end.

Lemma create_backend_ok cuda wgpu c w : backend_ok (create_backend cuda wgpu c w).
Proof.
  unfold create_backend. destruct (if cuda then c else None) as [?|]; [done|].
  destruct (if wgpu then w else None) as [vendor|]; [apply init_ok|done].
Qed.

Hypothesis sha2_is_sha256 : forall s, sha256 s = fips_sha256 s.
Hypothesis joined : runs_blocking = true.

Definition pow_of (i : string * Z) : PowResult :=
  {| valid := verify_pow i.1 i.2; leading_zeros := Mining.leading_zero_bits (sha256 i.1) |}.

Lemma map_fips inputs : map fips_sha256 inputs = map sha256 inputs.
Proof. apply map_ext. intros s. by rewrite sha2_is_sha256. Qed.

Lemma zip_pow (inputs : list (string * Z)) :
  zip_with (fun hr input => let zeros := leading_zero_bits hr in {| valid := input.2 <=? zeros; leading_zeros := zeros |})
    (map sha256 (map fst inputs)) inputs = map pow_of inputs.
Proof. induction inputs as [|i inputs IH]; [done|]. cbn [map zip_with]. f_equal. apply IH. Qed.

Definition works (b : Backend) (inputs : list string) : Prop :=
  exists b', sha256_batch inputs b = Some (map sha256 inputs, b') /\ backend_ok b' /\
    derive_public_hash_batch inputs b = Some (map sha256_hex inputs, b') /\
    forall pow, inputs = map fst pow -> verify_pow_batch pow b = Some (map pow_of pow, b').

Lemma backend_works b inputs : backend_ok b -> fits b inputs = true -> works b inputs.
Proof.
  destruct b as [[]|st|st]; intros Hok Hf.
  - exists (Cpu tt). cbn -[map]. unfold cpu_sha256_batch, cpu_derive_public_hash_batch, cpu_verify_pow_batch, spawn_blocking.
    rewrite joined. do 3 (split; [done|]). intros pow ->. rewrite (map_ext _ pow_of); [done|by intros []].
  - exists (Cuda st). cbn -[map]. unfold derive_over_batch. rewrite (cuda_batch_exact _ _ Hf). cbn -[map].
    rewrite map_fips, map_map. do 3 (split; [done|]). intros pow ->. unfold pow_over_batch.
    rewrite (cuda_batch_exact _ _ Hf). cbn -[map]. rewrite map_fips. do 2 f_equal. apply zip_pow.
  - pose proof (gpu_batch_exact inputs st Hok) as Hg. cbn in Hf. rewrite Hf in Hg.
    destruct Hg as (st' & Hg & Hok'). exists (Wgpu st'). cbn -[map]. unfold derive_over_batch. rewrite Hg. cbn -[map].
    rewrite map_fips, map_map. do 3 (split; [done|]). intros pow ->. unfold pow_over_batch.
    rewrite Hg. cbn -[map]. rewrite map_fips. do 2 f_equal. apply zip_pow.
Qed.

(** C25: On a device that completes its work, in whatever order it makes the
    stores of a dispatch, one call at a time and with every blocking task run to
    its end, the backend the server picks hashes, derives and verifies every
    batch that [fits] (wgpu's buffers, the 32-bit sizes of the CUDA host code)
    exactly as the CPU does, and again afterwards; a single
    item is a batch of one.  A wgpu batch with a dispatch of more words than its
    buffer takes panics instead. *)
Theorem backends_agree b inputs :
  backend_ok b ->
  (fits b inputs = true -> works b inputs) /\
  (forall st, b = Wgpu st -> wgpu_fits inputs = false -> sha256_batch inputs b = None) /\
  (forall s d, fits b [s] = true -> exists b', backend_ok b' /\
     sha256_one s b = Some (sha256 s, b') /\ derive_one s b = Some (sha256_hex s, b') /\
     verify_pow_one s d b = Some (pow_of (s, d), b')).
Proof.
  intros Hok. split; [by apply backend_works|]. split.
  - intros st -> Hf. pose proof (gpu_batch_exact inputs st Hok) as Hg. rewrite Hf in Hg.
    cbn -[gpu_sha256_batch]. by rewrite Hg.
  - intros s d Hf. destruct (backend_works b [s] Hok Hf) as (b' & Hs & Hb & Hd & Hv). exists b'.
    split; [done|]. unfold sha256_one, derive_one, verify_pow_one. rewrite Hs, Hd, (Hv [(s, d)]) by done. done.
Qed.
End Agreement.
End ComputeFacts.
