(* ===== verification/LegacyComputeExamples.v ===== *)
(** * The compute backends on concrete devices

    The witness of the agreement of the backends, and what the batch methods
    make of a shutdown, of two callers at once and of an input too long. *)
From S2P Require Import Prelude External Mining Sha256 LegacyCompute LegacyComputeFacts.

Module ComputeExamples.
Import Compute ComputeFacts.

#[local] Existing Instance hashing_fips.

(** A device that makes the stores of a dispatch from the last to the first. *)
#[local] Instance backwards : Device := {|
  create_buffer size := replicate (Z.to_nat (size / 4)) 0;
  write_buffer buf data :=
    if (length data <=? length buf)%nat then Some (data ++ drop (length data) buf) else None;
  store_order l := reverse l;
  completes _ := true |}.
#[local] Instance backwards_laws : DeviceLaws.
Proof.
  split.
  - intros size Hs. cbn [create_buffer backwards]. rewrite length_replicate, Z2Nat.id; [done|]. apply Z.div_pos; lia.
  - intros buf data Hl. cbn [write_buffer backwards]. by rewrite (proj2 (Nat.leb_le _ _)).
  - intros buf data Hl. cbn [write_buffer backwards]. by rewrite (proj2 (Nat.leb_gt _ _)).
  - intros l. apply reverse_Permutation.
Qed.
#[local] Instance pool : BlockingPool := {| runs_blocking := true |}.

Lemma backends_agree_witness :
  exists b', sha256_batch ["abc"; "de"] (create_backend true true None (Some 0x1002)) =
    Some (map sha256 ["abc"; "de"], b') /\ backend_ok b'.
Proof.
  assert (forall l, completes l = true) as Hc by (intros; exact eq_refl).
  assert (forall s, sha256 s = fips_sha256 s) as Hs2 by (intros; exact eq_refl).
  assert (runs_blocking = true) as Hr by (exact eq_refl).
  destruct (backends_agree Hc Hs2 Hr (create_backend true true None (Some 0x1002)) ["abc"; "de"]) as [Hw _].
  - apply create_backend_ok.
  - destruct Hw as (b' & Hs & Hb & _).
    + change (wgpu_fits ["abc"; "de"] = true). vm_compute. reflexivity.
    + exists b'. split; [exact Hs|exact Hb].
Defined.

(** ** What the batch methods let happen *)

(** A runtime that shuts down drops the blocking task: the CPU backend then
    reports a hash of zeros and a failed proof of work, not an error. *)
Example shutdown_hash :
  sha256_one (ComputeBackend0 := cpu_backend (H0 := {| runs_blocking := false |})) "abc" tt = Some (zero_hash, tt) /\
  verify_pow_one (ComputeBackend0 := cpu_backend (H0 := {| runs_blocking := false |})) "abc" 0 tt
    = Some ({| valid := false; leading_zeros := 0 |}, tt).
Proof. split; vm_compute; reflexivity. Qed.

(** The buffers belong to the backend, which takes [&self]: of two calls that
    upload before either submits, the first reads the hash of the other's input. *)
Definition small_wgpu : WgpuBackend := {|
  data_buf := replicate 64 0; offsets_lens_buf := replicate 8 0; output_buf := replicate 64 0;
  staging_buf := replicate 64 0; params_buf := replicate 4 0; workgroup_size := 64 |}.

Definition interleaved (first second : string) : option (list string) :=
  b ← upload [first] small_wgpu;
  b ← upload [second] b;
  read_back 1 (submit 1 b).

Example concurrent_calls_mix :
  interleaved "secret of one" "secret of another" = Some [fips_sha256 "secret of another"].
Proof. vm_compute. reflexivity. Qed.

(** One input of 16 MiB does not fit with its padding. *)
Lemma long_input_panics s st :
  wgpu_ok st -> 16777216 <= Z.of_nat (String.length s) -> sha256_batch [s] (Wgpu st) = None.
Proof.
  intros Hok Hs.
  assert (forall l, completes l = true) as Hc by done.
  pose proof (gpu_batch_exact Hc [s] st Hok) as Hg.
  assert (wgpu_fits [s] = false) as Hf.
  { unfold wgpu_fits. change (chunks (Z.to_nat MAX_HASHES_PER_DISPATCH) [s]) with [[s]]. cbn [forallb].
    rewrite andb_true_r. apply Z.leb_gt. cbn [map words_total sum_list_with]. unfold block_words.
    rewrite bytes_of_length. change (MAX_INPUT_BYTES / 4) with 4194304. unfold num_blocks.
    rewrite Nat.add_0_r, Nat2Z.inj_mul, Nat2Z.inj_div. Z.to_euclidean_division_equations. lia. }
  rewrite Hf in Hg. cbn -[gpu_sha256_batch]. by rewrite Hg.
Qed.
End ComputeExamples.
