(* ===== verification/LegacySupervisor.v ===== *)
(** * Actors and their supervisor

    What [crates/macros] generates for the legacy server: the handle and the
    dispatch of a [gen_server] actor (gen_server.rs) and the one-for-one
    supervisor (supervisor.rs), instantiated by
    [crates/server/src/actors/supervisor.rs].  Spawning an actor and the watch
    channel that publishes the handles are parameters. *)
From S2P Require Import Prelude.

Module Actors.

(** ** An actor and its handle

    A call casts a message with a reply channel and awaits the reply.  An actor
    that has stopped takes no message; one that panics drops the reply and
    stops. *)
Section GenServer.
Context {State World R : Type} (send_error : string).

(** [handle]: the method's result is the reply, [None] a panic. *)
Definition Handler : Type := State -> World -> option (result string R * State) * World.

Definition handle_method (method : Handler) (actor : option State) (w : World)
  : result string R * option State * World :=
  match actor with
  | None => (Err ("actor send failed: " +:+ send_error), None, w)
  | Some state =>
      match method state w with
      | (Some (result, state), w) => (result, Some state, w)
      | (None, w) => (Err "actor dropped before reply", None, w)
      end
  end.

(** The calls of one mailbox, in order. *)
Fixpoint handle_methods (methods : list Handler) (actor : option State) (w : World)
  : list (result string R) * option State * World :=
  match methods with
  | [] => ([], actor, w)
  | m :: rest =>
      let '(r, actor, w) := handle_method m actor w in
      let '(rs, actor, w) := handle_methods rest actor w in
      (r :: rs, actor, w)
  end.
End GenServer.

(** ** The supervisor *)

(** [tokio::sync::watch]: [listened] while there is a receiver.  Documented
    behaviour: a new channel holds its value, a send without receivers fails and
    leaves the value. *)
Class WatchChannel (H : Type) := {
  watch : Type;
  channel : H -> watch;
  borrow : watch -> H;
  subscribe : watch -> watch;
  send : H -> watch -> watch;
  listened : watch -> bool;
}.

Class WatchLaws (H : Type) `{WatchChannel H} : Prop := {
  borrow_channel : forall h, borrow (channel h) = h;
  borrow_subscribe : forall c, borrow (subscribe c) = borrow c;
  listened_subscribe : forall c, listened (subscribe c) = true;
  borrow_send : forall h c, borrow (send h c) = if listened c then h else borrow c;
  listened_send : forall h c, listened (send h c) = listened c;
}.

(** [ractor::Actor::spawn_linked]: a child under a name, or an error. *)
Class Spawner (Ref World : Type) := {
  spawn_linked : string -> string -> World -> result string Ref * World;
}.

(** The child of a [spawn_*] method. *)
Definition child_spec (method_name : string) : option string := strip_prefix "spawn_" method_name.

Definition expand_children (methods : list string) : result string (list string) :=
  match omap child_spec methods with
  | [] => Err "supervisor must have at least one spawn_* method"
  | children => Ok children
  end.

Section Supervisor.
Context {Ref World : Type} `{!Spawner Ref World} `{!WatchChannel (list Ref)}.
Variables (children : list string) (pid : string).

Definition actor_name (child : string) : string := child +:+ "_" +:+ pid.

(** The handles are those of the references, field by field. *)
Record SupervisorState := { refs : list Ref; handles_tx : watch (H := list Ref) }.

Fixpoint spawn_children (cs : list string) (w : World) : result string (list Ref) * World :=
  match cs with
  | [] => (Ok [], w)
  | c :: rest =>
      match spawn_linked (actor_name c) c w with
      | (Err e, w) => (Err (c +:+ " spawn failed: " +:+ e), w)
      | (Ok r, w) => let '(rs, w) := spawn_children rest w in (rs ← rs; Ok (r :: rs), w)
      end
  end.

Definition sup_pre_start (w : World) : result string SupervisorState * World :=
  let '(rs, w) := spawn_children children w in
  (refs ← rs; Ok {| refs := refs; handles_tx := channel refs |}, w).

(** The message [Subscribe]. *)
Definition handle_subscribe (st : SupervisorState) : SupervisorState :=
  {| refs := refs st; handles_tx := subscribe (handles_tx st) |}.

(** The chain of [if name.starts_with(..)]. *)
Fixpoint find_child (i : nat) (cs : list string) (name : string) : option (nat * string) :=
  match cs with
  | [] => None
  | c :: rest => if String.prefix c name then Some (i, c) else find_child (S i) rest name
  end.

Definition restart_child (name : string) (st : SupervisorState) (w : World)
  : result string SupervisorState * World :=
  match find_child 0 children name with
  | None => (Ok st, w)
  | Some (i, c) =>
      match spawn_linked (actor_name c) c w with
      | (Err e, w) => (Err (c +:+ " restart failed: " +:+ e), w)
      | (Ok ref_new, w) =>
          let refs := <[i := ref_new]> (refs st) in
          (Ok {| refs := refs; handles_tx := send refs (handles_tx st) |}, w)
      end
  end.

Inductive SupervisionEvent :=
  | ActorStarted
  | ActorTerminated (name : option string)
  | ActorFailed (name : option string)
  | ProcessGroupChanged.

Definition handle_supervisor_evt (message : SupervisionEvent) (st : SupervisorState) (w : World)
  : result string SupervisorState * World :=
  match message with
  | ActorStarted => (Ok st, w)
  | ActorTerminated name => restart_child (default EmptyString name) st w
  | ActorFailed name => restart_child (default EmptyString name) st w
  | ProcessGroupChanged => (Ok st, w)
  end.

(** [start_supervisor] up to the handle it returns. *)
Definition start_supervisor (w : World) : result string SupervisorState * World :=
  match sup_pre_start w with
  | (Ok st, w) => (Ok (handle_subscribe st), w)
  | (Err e, w) => (Err ("failed to start supervisor: " +:+ e), w)
  end.

(** What the supervisor takes in turn; between two of them receivers may be
    dropped, but not the one of the handle.  An error stops it, and with it its
    children. *)
Inductive Input := Evt (e : SupervisionEvent) | Subscribe.

Definition take_input (i : Input) (st : SupervisorState) (w : World) : result string SupervisorState * World :=
  match i with
  | Evt e => handle_supervisor_evt e st w
  | Subscribe => (Ok (handle_subscribe st), w)
  end.

Inductive supervised : SupervisorState -> World -> Prop :=
  | sup_started w0 st w : start_supervisor w0 = (Ok st, w) -> supervised st w
  | sup_input st w i st' w' : supervised st w -> take_input i st w = (Ok st', w') -> supervised st' w'
  | sup_elsewhere st w w' : supervised st w -> supervised st w'.

(** ** The handles follow the children *)

(** No child's name starts the actor name of another. *)
Definition separate : Prop :=
  forall i j c c', children !! i = Some c -> children !! j = Some c' ->
    String.prefix c (actor_name c') = true -> i = j.

Lemma prefix_app p s : String.prefix p (p +:+ s) = true.
Proof. induction p as [|c p IH]; simpl; [by destruct s|]. by destruct (ascii_dec c c). Qed.

Lemma find_child_sound k cs name i c :
  find_child k cs name = Some (i, c) ->
  (k <= i)%nat /\ cs !! (i - k)%nat = Some c /\ String.prefix c name = true.
Proof.
  revert k. induction cs as [|c0 cs IH]; intros k; cbn [find_child]; [done|].
  destruct (String.prefix c0 name) eqn:Hp.
  - intros [= <- <-]. by rewrite Nat.sub_diag.
  - intros (Hk & Hc & Hn)%IH. split; [lia|]. split; [|done].
    by replace (i - k)%nat with (S (i - S k)) by lia.
Qed.

Lemma find_child_first k cs name j c :
  cs !! j = Some c -> String.prefix c name = true -> exists i d, find_child k cs name = Some (i, d).
Proof.
  revert k j. induction cs as [|c0 cs IH]; intros k j Hj Hp; [done|]. cbn [find_child].
  destruct (String.prefix c0 name) eqn:H0; [by eauto|].
  destruct j as [|j]; [simplify_eq/=; congruence|]. by eapply IH.
Qed.

(** The child that died is found. *)
Lemma find_own i c :
  separate -> children !! i = Some c -> find_child 0 children (actor_name c) = Some (i, c).
Proof.
  intros Hs Hc. assert (String.prefix c (actor_name c) = true) as Hp by apply prefix_app.
  destruct (find_child_first 0 children _ i c Hc Hp) as (j & d & Hf). rewrite Hf.
  apply find_child_sound in Hf as (_ & Hd & Hpd). rewrite Nat.sub_0_r in Hd.
  assert (j = i) as -> by (by eapply Hs). congruence.
Qed.

Context `{!WatchLaws (list Ref)}.

Lemma spawn_children_length cs w rs w' : spawn_children cs w = (Ok rs, w') -> length rs = length cs.
Proof.
  revert w rs w'. induction cs as [|c cs IH]; intros w rs w'; cbn [spawn_children]; [by intros [= <- <-]|].
  destruct (spawn_linked (actor_name c) c w) as [[r|e] w1]; [|done].
  destruct (spawn_children cs w1) as [[rs'|e] w2] eqn:E; [|done]. intros [= <- <-]. simpl. f_equal. by eapply IH.
Qed.

Definition in_step (st : SupervisorState) : Prop :=
  length (refs st) = length children /\ listened (handles_tx st) = true /\ borrow (handles_tx st) = refs st.

Lemma restart_in_step name st w st' w' :
  in_step st -> restart_child name st w = (Ok st', w') -> in_step st'.
Proof.
  intros (Hl & Hr & Hb). unfold restart_child. destruct (find_child 0 children name) as [[i c]|]; [|by intros [= <- <-]].
  destruct (spawn_linked (actor_name c) c w) as [[r|e] w1]; [|done]. intros [= <- <-].
  split; [cbn [refs]; by rewrite length_insert|]. cbn [handles_tx refs]. by rewrite listened_send, borrow_send, Hr.
Qed.

Lemma take_input_in_step i st w st' w' :
  in_step st -> take_input i st w = (Ok st', w') -> in_step st'.
Proof.
  intros Hi. destruct i as [[]|]; cbn [take_input handle_supervisor_evt];
    [by intros [= <- <-]|by apply restart_in_step|by apply restart_in_step|by intros [= <- <-]|].
  intros [= <- <-]. destruct Hi as (Hl & Hr & Hb). split; [done|].
  cbn [handle_subscribe handles_tx refs]. by rewrite listened_subscribe, borrow_subscribe.
Qed.

Lemma supervised_in_step st w : supervised st w -> in_step st.
Proof.
  induction 1 as [w0 st w Hs|st w i st' w' _ IH Ht|st w w' _ IH]; [|by eapply take_input_in_step|done].
  unfold start_supervisor, sup_pre_start in Hs.
  destruct (spawn_children children w0) as [[rs|e] w1] eqn:E; simplify_eq/=.
  split; [by eapply spawn_children_length|]. cbn [handle_subscribe handles_tx refs].
  by rewrite listened_subscribe, borrow_subscribe, borrow_channel.
Qed.

(** From its start the supervisor publishes exactly the references of its
    children, whatever dies; the death of a child starts that child again and
    no other, or, when the new one does not start, ends the supervisor; a death
    under a name that is no child's changes nothing. *)
Theorem handles_follow_children st w :
  separate -> supervised st w ->
  borrow (handles_tx st) = refs st /\ length (refs st) = length children /\
  (forall i c died, children !! i = Some c -> died = ActorTerminated (Some (actor_name c)) \/ died = ActorFailed (Some (actor_name c)) ->
     match spawn_linked (actor_name c) c w with
     | (Ok r, w') => exists st', handle_supervisor_evt died st w = (Ok st', w') /\
         refs st' = <[i := r]> (refs st) /\ borrow (handles_tx st') = refs st'
     | (Err e, w') => handle_supervisor_evt died st w = (Err (c +:+ " restart failed: " +:+ e), w')
     end) /\
  (forall name, (forall c, c ∈ children -> String.prefix c name = false) ->
     handle_supervisor_evt (ActorFailed (Some name)) st w = (Ok st, w)).
Proof.
  intros Hs Hr. pose proof (supervised_in_step _ _ Hr) as Hi. pose proof Hi as (Hl & Hw & Hb).
  split; [done|]. split; [done|]. split.
  - intros i c died Hc Hd. assert (handle_supervisor_evt died st w = restart_child (actor_name c) st w) as ->
      by (by destruct Hd as [-> | ->]).
    pose proof (restart_in_step (actor_name c) st w) as Hn. unfold restart_child in *. rewrite (find_own i c Hs Hc) in *.
    destruct (spawn_linked (actor_name c) c w) as [[r|e] w']; [|done]. eexists. split; [done|]. split; [done|].
    by apply (Hn _ _ Hi eq_refl).
  - intros name Hn. cbn [handle_supervisor_evt]. change (default EmptyString (Some name)) with name. unfold restart_child.
    destruct (find_child 0 children name) as [[i c]|] eqn:Hf; [|done].
    apply find_child_sound in Hf as (_ & Hc & Hp). apply list_elem_of_lookup_2, Hn in Hc. congruence.
Qed.
End Supervisor.
End Actors.
