(* ===== verification/LegacySupervisorExamples.v ===== *)
(** * The supervisor of the legacy server

    Its three children, the witness of its invariant, and two ways in which the
    generated code relies on more than it checks. *)
From S2P Require Import Prelude LegacySupervisor.

Module ActorExamples.
Import Actors.

(** A channel as its value and whether anybody listens; actors are numbered in
    the order they start, and the world may stop starting them. *)
#[local] Instance watch_pair (H : Type) : WatchChannel H := {|
  watch := H * bool;
  channel h := (h, false);
  borrow := fst;
  subscribe c := (c.1, true);
  send h c := if c.2 then (h, true) else c;
  listened := snd |}.
#[local] Instance watch_pair_laws H : WatchLaws H.
Proof. split; try done; intros h [? []]; done. Qed.

Record Started := { next : nat; room : nat }.
#[local] Instance numbered : Spawner nat Started := {|
  spawn_linked name child w :=
    if (next w <? room w)%nat then (Ok (next w), {| next := S (next w); room := room w |})
    else (Err "no room", w) |}.

(** [actors/supervisor.rs]. *)
Definition legacy_children : list string := ["ledger"; "miner"; "stats"].

Example legacy_methods : expand_children ["spawn_ledger"; "spawn_miner"; "spawn_stats"] = Ok legacy_children.
Proof. reflexivity. Qed.

Lemma legacy_separate pid : separate legacy_children pid.
Proof.
  intros i j c c' Hi Hj Hp.
  destruct i as [|[|[|i]]], j as [|[|[|j]]]; simplify_eq/=; reflexivity.
Qed.

Definition room_for (n : nat) : Started := {| next := 0; room := n |}.
Definition started (n : nat) : option (SupervisorState (Ref := nat) * Started) :=
  match start_supervisor legacy_children "7" (room_for n) with (Ok st, w) => Some (st, w) | _ => None end.

Lemma handles_follow_children_witness :
  exists st w st', started 4 = Some (st, w) /\
    handle_supervisor_evt legacy_children "7" (ActorFailed (Some "miner_7")) st w = (Ok st', {| next := 4; room := 4 |}) /\
    borrow (handles_tx st') = [0; 3; 2]%nat.
Proof.
  destruct (start_supervisor legacy_children "7" (room_for 4)) as [[st|e] w] eqn:E; [|vm_compute in E; discriminate E].
  destruct (handles_follow_children legacy_children "7" st w (legacy_separate "7") (sup_started _ _ _ _ _ E))
    as (_ & _ & Hd & _).
  specialize (Hd 1%nat "miner" (ActorFailed (Some "miner_7")) eq_refl (or_intror eq_refl)).
  pose proof E as E'. vm_compute in E'. injection E' as <- <-.
  destruct Hd as (st' & He & Hr & Hb). eexists _, _, st'. split; [vm_compute; reflexivity|].
  split; [exact He|]. rewrite Hb, Hr. reflexivity.
Defined.

(** A miner that cannot be started again takes the other two down with it. *)
Example failed_restart_stops_all :
  match started 3 with
  | Some (st, w) => (handle_supervisor_evt legacy_children "7" (ActorFailed (Some "miner_7")) st w).1
  | None => Err EmptyString
  end = Err "miner restart failed: no room".
Proof. vm_compute. reflexivity. Qed.

(** The first child whose name is a prefix is restarted: of [stats] and
    [stats_cache], the death of the second starts the first again. *)
Example prefix_restarts_another :
  find_child 0 ["stats"; "stats_cache"] (actor_name "7" "stats_cache") = Some (0%nat, "stats").
Proof. reflexivity. Qed.

(** Before the first subscription the channel has no receiver: a restart is not
    published, and who subscribes then gets the handle of the dead actor. *)
Example early_restart_unpublished :
  match sup_pre_start legacy_children "7" (room_for 4) with
  | (Ok st, w) =>
      match restart_child legacy_children "7" "miner_7" st w with
      | (Ok st, _) => (refs st, borrow (handles_tx (handle_subscribe st)))
      | _ => ([], [])
      end
  | _ => ([], [])
  end = ([0; 3; 2]%nat, [0; 1; 2]%nat).
Proof. vm_compute. reflexivity. Qed.
End ActorExamples.
