(* ===== verification/LegacyBoot.v ===== *)
(** * The configuration and the boot of the legacy server

    [crates/server/src/config.rs], the choice of the store in [db/mod.rs], and
    [main.rs] with [lib.rs] up to the accept loop.  The TOML reader, the opening
    of a store and the sockets are parameters. *)
From S2P Require Import Prelude Decimal LegacyMiner.

Module Boot.

(** ** Configuration *)

Record H2Config := {
  max_concurrent_streams : option Z; initial_window_size : option Z; max_frame_size : option Z }.

Inductive DbBackend := DbRedis | DbDynamoDb | DbFoundationDb | DbRedisFdb.

Record DbConfig := {
  backend : DbBackend; redis_url : option string;
  dynamodb_endpoint : option string; fdb_cluster_file : option string }.

Record ServerConfig := {
  mode : Miner.NetworkMode; bind_addr : string; db : DbConfig;
  cors_origin : option string; h2 : option H2Config }.

Inductive ComputeBackendType := UseCpu | UseCuda | UseWgpu | UseAuto.
Record ComputeConfig := { compute_backend : ComputeBackendType; gpu_batch_threshold : Z }.

Inductive NetworkPlane := Kernel | Dpdk.
Record NetworkConfig := {
  plane : NetworkPlane; dpdk_iface : option string; dpdk_dp_path : option string; dpdk_use_pinned_map : bool }.

Record Config := {
  server : ServerConfig; mining : Miner.MiningConfig; compute : ComputeConfig; network : NetworkConfig }.

(** [Default], and the defaults of the single fields: they differ. *)
Definition default_compute : ComputeConfig := {| compute_backend := UseCpu; gpu_batch_threshold := 1000 |}.
Definition default_compute_backend : ComputeBackendType := UseAuto.
Definition default_gpu_threshold : Z := 1000.
Definition default_network : NetworkConfig :=
  {| plane := Kernel; dpdk_iface := None; dpdk_dp_path := None; dpdk_use_pinned_map := false |}.
Definition default_network_plane : NetworkPlane := Kernel.

(** A configuration file: the sections with a default may be absent, and in
    them the fields with one. *)
Record RawCompute := { raw_backend : option ComputeBackendType; raw_threshold : option Z }.
Record RawNetwork := {
  raw_plane : option NetworkPlane; raw_iface : option string; raw_dp_path : option string;
  raw_pinned : option bool }.
Record RawConfig := {
  raw_server : ServerConfig; raw_mining : Miner.MiningConfig;
  raw_compute : option RawCompute; raw_network : option RawNetwork }.

Definition fill_compute (r : option RawCompute) : ComputeConfig :=
  match r with
  | None => default_compute
  | Some c => {| compute_backend := default default_compute_backend (raw_backend c);
                 gpu_batch_threshold := default default_gpu_threshold (raw_threshold c) |}
  end.

Definition fill_network (r : option RawNetwork) : NetworkConfig :=
  match r with
  | None => default_network
  | Some n => {| plane := default default_network_plane (raw_plane n); dpdk_iface := raw_iface n;
                 dpdk_dp_path := raw_dp_path n; dpdk_use_pinned_map := default false (raw_pinned n) |}
  end.

Definition fill_config (r : RawConfig) : Config :=
  {| server := raw_server r; mining := raw_mining r;
     compute := fill_compute (raw_compute r); network := fill_network (raw_network r) |}.

(** [load]: the file, then the derived reader of its text. *)
Class TomlHost := {
  read_file : string -> result string string;
  toml_from_str : string -> result string RawConfig;
  parse_socket_addr : string -> bool;
  bind : string -> result string unit;
}.

Inductive BootError :=
  | NoConfigPath
  | BadFile (e : string)
  | BadNumber (var : string)
  | NotBuilt (e : string)
  | StoreFailed (e : string)
  | ActorsFailed (e : string)
  | BadAddress
  | BindFailed (e : string).

Definition load `{TomlHost} (path : string) : result BootError Config :=
  content ← map_err BadFile (read_file path);
  raw ← map_err BadFile (toml_from_str content);
  Ok (fill_config raw).

Section FromEnv.
Variable env : string -> option string.

Definition env_or (var dflt : string) : string := default dflt (env var).

Definition mode_of (s : string) : Miner.NetworkMode :=
  if String.eqb s "production" then Miner.Production else Miner.Testnet.

Definition backend_of (s : string) : DbBackend :=
  if String.eqb s "dynamodb" then DbDynamoDb
  else if String.eqb s "foundationdb" then DbFoundationDb
  else if String.eqb s "redis_fdb" then DbRedisFdb
  else DbRedis.

Definition compute_of (s : string) : ComputeBackendType :=
  if String.eqb s "cpu" then UseCpu
  else if String.eqb s "cuda" then UseCuda
  else if String.eqb s "wgpu" then UseWgpu
  else UseAuto.

Definition plane_of (s : string) : NetworkPlane := if String.eqb s "dpdk" then Dpdk else Kernel.

Definition from_env : result BootError Config :=
  difficulty ← ok_or (parse_u32 (env_or "WEBCASH_DIFFICULTY" "16")) (BadNumber "WEBCASH_DIFFICULTY");
  mining_amount ← ok_or (parse_i64 (env_or "WEBCASH_MINING_AMOUNT" "20000000000")) (BadNumber "WEBCASH_MINING_AMOUNT");
  subsidy_amount ← ok_or (parse_i64 (env_or "WEBCASH_SUBSIDY_AMOUNT" "0")) (BadNumber "WEBCASH_SUBSIDY_AMOUNT");
  Ok {|
    server := {|
      mode := mode_of (env_or "WEBCASH_MODE" "testnet");
      bind_addr := env_or "WEBCASH_BIND_ADDR" "0.0.0.0:8080";
      db := {| backend := backend_of (env_or "WEBCASH_DB_BACKEND" "redis");
               redis_url := env "REDIS_URL";
               dynamodb_endpoint := env "DYNAMODB_ENDPOINT";
               fdb_cluster_file := env "FDB_CLUSTER_FILE" |};
      cors_origin := env "WEBCASH_CORS_ORIGIN";
      h2 := None |};
    mining := {|
      Miner.testnet_difficulty := difficulty;
      Miner.initial_difficulty := difficulty;
      Miner.reports_per_epoch := 100;
      Miner.target_epoch_seconds := 1000;
      Miner.initial_mining_amount_wats := mining_amount;
      Miner.initial_subsidy_amount_wats := subsidy_amount |};
    compute := {|
      compute_backend := compute_of (env_or "WEBCASH_COMPUTE" "auto");
      gpu_batch_threshold := default 1000 (env "WEBCASH_GPU_THRESHOLD" ≫= parse_u64) |};
    network := {|
      plane := plane_of (env_or "WEBCASH_NETWORK" "kernel");
      dpdk_iface := env "WEBCASH_DPDK_IFACE";
      dpdk_dp_path := env "WEBCASH_DPDK_DP_PATH";
      dpdk_use_pinned_map := match env "WEBCASH_DPDK_PINNED_MAP" with
        | Some v => String.eqb v "1" || String.eqb v "true"
        | None => false
        end |} |}.
End FromEnv.

(** ** The store *)

Inductive OpenStore :=
  | RedisStore (url : string)
  | DynamoDbStore (cfg : DbConfig)
  | FdbStore (cluster_file : option string)
  | RedisFdbStore (url : string) (cluster_file : option string).

(** What opening a store yields, its tables included, and the start of the
    actors on it. *)
Class Backends := {
  opens : OpenStore -> result string unit;
  actors_start : OpenStore -> ServerConfig -> Miner.MiningConfig -> result string unit;
}.

Definition DEFAULT_REDIS : string := "redis://127.0.0.1:6379".

Section Boot.
Context `{TomlHost} `{Backends}.
Variable with_fdb : bool.

Definition opened (st : OpenStore) : result BootError OpenStore :=
  _ ← map_err StoreFailed (opens st); Ok st.

Definition create_store (cfg : Config) : result BootError OpenStore :=
  let d := db (server cfg) in
  match backend d with
  | DbRedis => opened (RedisStore (default DEFAULT_REDIS (redis_url d)))
  | DbDynamoDb => opened (DynamoDbStore d)
  | DbFoundationDb =>
      if with_fdb then opened (FdbStore (fdb_cluster_file d))
      else Err (NotBuilt ("FoundationDB backend requires the 'fdb' feature. " +:+
                          "Rebuild with: cargo build --features fdb"))
  | DbRedisFdb =>
      if with_fdb then opened (RedisFdbStore (default DEFAULT_REDIS (redis_url d)) (fdb_cluster_file d))
      else Err (NotBuilt ("Redis+FDB backend requires the 'fdb' feature. " +:+
                          "Rebuild with: cargo build --features fdb"))
  end.

(** ** The server *)

(** [AppState] and what the accept loop uses. *)
Record Running := {
  r_store : OpenStore; r_server_config : ServerConfig; r_mining_config : Miner.MiningConfig;
  r_batcher_capacity : Z; r_addr : string; r_h2 : list (string * Z) }.

(** [WebcashServer::start]; the compute backend it makes is in LegacyCompute.v. *)
Definition start (st : OpenStore) (cfg : Config) : result BootError (OpenStore * Z) :=
  _ ← map_err ActorsFailed (actors_start st (server cfg) (mining cfg)); Ok (st, 100000).

(** The options set on the builder of every connection. *)
Definition h2_options (c : option H2Config) : list (string * Z) :=
  match c with
  | Some h => omap (fun '(k, v) => pair k <$> (v : option Z))
      [("max_concurrent_streams", max_concurrent_streams h); ("initial_stream_window_size", initial_window_size h);
       ("max_frame_size", max_frame_size h)]
  | None => []
  end.

Definition read_config (args : list string) (env : string -> option string) : result BootError Config :=
  match args !! 1%nat with
  | Some flag =>
      if String.eqb flag "--config" then path ← ok_or (args !! 2%nat) NoConfigPath; load path
      else from_env env
  | None => from_env env
  end.

Definition main (args : list string) (env : string -> option string) : result BootError Running :=
  config ← read_config args env;
  store ← create_store config;
  '(store, capacity) ← start store config;
  if parse_socket_addr (bind_addr (server config)) then
    _ ← map_err BindFailed (bind (bind_addr (server config)));
    Ok {| r_store := store; r_server_config := server config; r_mining_config := mining config;
          r_batcher_capacity := capacity; r_addr := bind_addr (server config);
          r_h2 := h2_options (h2 (server config)) |}
  else Err BadAddress.

(** ** When the server runs, and on what *)

Definition store_of (cfg : Config) : option OpenStore :=
  let d := db (server cfg) in
  match backend d with
  | DbRedis => Some (RedisStore (default DEFAULT_REDIS (redis_url d)))
  | DbDynamoDb => Some (DynamoDbStore d)
  | DbFoundationDb => if with_fdb then Some (FdbStore (fdb_cluster_file d)) else None
  | DbRedisFdb =>
      if with_fdb then Some (RedisFdbStore (default DEFAULT_REDIS (redis_url d)) (fdb_cluster_file d)) else None
  end.

Definition running (sc : ServerConfig) (mc : Miner.MiningConfig) (st : OpenStore) : Running :=
  {| r_store := st; r_server_config := sc; r_mining_config := mc; r_batcher_capacity := 100000;
     r_addr := bind_addr sc; r_h2 := h2_options (h2 sc) |}.

Lemma opened_exact st st' : opened st = Ok st' <-> st' = st /\ opens st = Ok tt.
Proof. unfold opened. destruct (opens st) as [[]|]; simpl; naive_solver. Qed.

Lemma create_store_exact cfg st :
  create_store cfg = Ok st <-> store_of cfg = Some st /\ opens st = Ok tt.
Proof.
  unfold create_store, store_of.
  destruct (backend (db (server cfg))), with_fdb; rewrite ?opened_exact; naive_solver.
Qed.

(** Which texts of the numbers [from_env] takes. *)
Definition env_numbers (env : string -> option string) (d m s : Z) : Prop :=
  parse_u32 (env_or env "WEBCASH_DIFFICULTY" "16") = Some d /\
  parse_i64 (env_or env "WEBCASH_MINING_AMOUNT" "20000000000") = Some m /\
  parse_i64 (env_or env "WEBCASH_SUBSIDY_AMOUNT" "0") = Some s.

Lemma from_env_reads env : is_ok (from_env env) = true <-> exists d m s, env_numbers env d m s.
Proof.
  unfold from_env, env_numbers. split.
  - destruct (mbind _ _) as [cfg|] eqn:E; [intros _|done].
    apply bind_Ok in E as (d & Ed%ok_or_Ok & (m & Em%ok_or_Ok & (s & Es%ok_or_Ok & _)%bind_Ok)%bind_Ok).
    by exists d, m, s.
  - intros (d & m & s & Ed & Em & Es). by rewrite Ed, Em, Es.
Qed.

(** The server runs exactly when its configuration reads, the backend it names
    is built in and opens, the actors start on it, and the address reads and
    binds; then it serves that store under the server and mining sections.
    Nothing of the compute and network sections has any effect.  The environment
    is refused for its three numbers only. *)
Theorem legacy_boot_exact args env run :
  (main args env = Ok run <-> exists cfg st,
     read_config args env = Ok cfg /\ store_of cfg = Some st /\ opens st = Ok tt /\
     actors_start st (server cfg) (mining cfg) = Ok tt /\
     parse_socket_addr (bind_addr (server cfg)) = true /\ bind (bind_addr (server cfg)) = Ok tt /\
     run = running (server cfg) (mining cfg) st) /\
  (is_ok (from_env env) = true <-> exists d m s, env_numbers env d m s).
Proof.
  split.
  - unfold main. rewrite bind_Ok. setoid_rewrite bind_Ok. setoid_rewrite create_store_exact.
    unfold start. split.
    + intros (cfg & Hc & st & [Hs Ho] & Hr). exists cfg, st.
      destruct (actors_start st (server cfg) (mining cfg)) as [[]|] eqn:Ea; simpl in Hr; [|done].
      destruct (parse_socket_addr (bind_addr (server cfg))); [|done].
      destruct (bind (bind_addr (server cfg))) as [[]|]; simpl in Hr; [|done].
      injection Hr as <-. repeat split; assumption.
    + intros (cfg & st & Hc & Hs & Ho & Ha & Hp & Hb & ->). exists cfg. split; [done|]. exists st.
      split; [done|]. rewrite Ha. simpl. rewrite Hp, Hb. done.
  - apply from_env_reads.
Qed.
End Boot.
End Boot.
