(* ===== verification/LegacyBootExamples.v ===== *)
(** * Booting the legacy server

    The shipped configuration files, and what the environment lets pass. *)
From S2P Require Import Prelude LegacyMiner LegacyBoot.

Module BootExamples.
Import Boot.

(** [config/production.toml] and [config/testnet.toml], as read. *)
Definition production_toml : RawConfig := {|
  raw_server := {|
    mode := Miner.Production; bind_addr := "0.0.0.0:8080";
    db := {| backend := DbRedisFdb; redis_url := None; dynamodb_endpoint := None; fdb_cluster_file := None |};
    cors_origin := None;
    h2 := Some {| max_concurrent_streams := Some 1000; initial_window_size := None; max_frame_size := None |} |};
  raw_mining := {|
    Miner.testnet_difficulty := 20; Miner.initial_difficulty := 20; Miner.reports_per_epoch := 1000;
    Miner.target_epoch_seconds := 10000; Miner.initial_mining_amount_wats := 20000000000;
    Miner.initial_subsidy_amount_wats := 0 |};
  raw_compute := Some {| raw_backend := Some UseAuto; raw_threshold := Some 1000 |};
  raw_network := Some {| raw_plane := Some Kernel; raw_iface := None; raw_dp_path := None; raw_pinned := None |} |}.

#[local] Instance disk : TomlHost := {|
  read_file p := if String.eqb p "config/production.toml" then Ok p else Err "not found";
  toml_from_str _ := Ok production_toml;
  parse_socket_addr a := String.eqb a "0.0.0.0:8080";
  bind _ := Ok tt |}.
#[local] Instance everything_opens : Backends := {| opens _ := Ok tt; actors_start _ _ _ := Ok tt |}.

Definition env_of (l : list (string * string)) (var : string) : option string :=
  snd <$> List.find (fun p => String.eqb p.1 var) l.

(** The shipped production file names a store that only the [fdb] feature builds. *)
Example production_not_built :
  main false ["server"; "--config"; "config/production.toml"] (env_of []) =
    Err (NotBuilt "Redis+FDB backend requires the 'fdb' feature. Rebuild with: cargo build --features fdb").
Proof. vm_compute. reflexivity. Qed.

Lemma legacy_boot_exact_witness :
  exists run, main true ["server"; "--config"; "config/production.toml"] (env_of []) = Ok run /\
    r_h2 run = [("max_concurrent_streams", 1000)] /\ r_store run = RedisFdbStore DEFAULT_REDIS None.
Proof.
  destruct (legacy_boot_exact true ["server"; "--config"; "config/production.toml"] (env_of [])
    (running (raw_server production_toml) (raw_mining production_toml) (RedisFdbStore DEFAULT_REDIS None))) as [Hb _].
  eexists. split; [apply Hb|split; vm_compute; reflexivity].
  exists (fill_config production_toml), (RedisFdbStore DEFAULT_REDIS None). repeat split; vm_compute; reflexivity.
Defined.

(** A backend named as the newer servers name it, or mistyped, is Redis. *)
Example unknown_backend_is_redis :
  r_store <$> main true ["server"] (env_of [("WEBCASH_DB_BACKEND", "fdb")]) = Ok (RedisStore DEFAULT_REDIS).
Proof. vm_compute. reflexivity. Qed.

(** A configuration file excludes the environment. *)
Example file_excludes_environment :
  (fun r => backend (db (r_server_config r))) <$>
    main true ["server"; "--config"; "config/production.toml"] (env_of [("WEBCASH_DB_BACKEND", "dynamodb")])
  = Ok DbRedisFdb.
Proof. vm_compute. reflexivity. Qed.

(** Without a compute section the default is the CPU; with an empty one, [auto]. *)
Example two_defaults :
  compute_backend (fill_compute None) = UseCpu /\
  compute_backend (fill_compute (Some {| raw_backend := None; raw_threshold := None |})) = UseAuto.
Proof. split; reflexivity. Qed.
End BootExamples.
