(* ===== verification/AluVm.v ===== *)
(** * The AluVM wrapper

    [crates/aluvm-runtime/src/lib.rs]: running a compiled library, or a program
    compiled on the spot, and reading the final status as an answer.  The
    compiler and the virtual machine are the aluvm crate, a parameter. *)
From S2P Require Import Prelude.

Inductive Status := StOk | StFail.

(** [CoreConfig]. *)
Record CoreConfig := { halt : bool; complexity_lim : option Z }.

Class AluvmCrate := {
  Instr : Type;
  Lib : Type;
  LibId : Type;
  lib_id : Lib -> LibId;
  (** [CompiledLib::compile(code, &[])], then [into_lib]; the error as [{:?}] shows it. *)
  compile : list Instr -> result string Lib;
  (** [Vm::with(config, ()).exec(site, &(), resolver)]. *)
  vm_exec : CoreConfig -> LibId * Z -> (LibId -> option Lib) -> Status;
}.

Inductive AluVmError := Compile (e : string) | Rejected.

Definition show_aluvm_error (e : AluVmError) : string :=
  match e with
  | Compile e => "compile error: " +:+ e
  | Rejected => "execution rejected (CK=fail)"
  end.

Section Runtime.
Context `{AluvmCrate}.

(** Whatever library is asked for, the resolver gives the one that runs. *)
Definition execute_lib (lib : Lib) (entry_offset : Z) (limit : option Z) : result AluVmError unit :=
  match vm_exec {| halt := false; complexity_lim := limit |} (pair (lib_id lib) entry_offset) (fun _ => Some lib) with
  | StOk => Ok tt
  | StFail => Err Rejected
  end.

Definition execute_program (code : list Instr) (limit : option Z) : result AluVmError unit :=
  lib ← map_err Compile (compile code);
  execute_lib lib 0 limit.

(** A program is accepted exactly when it compiles and its library halts well
    from its first instruction; the two ways to be refused are told apart. *)
Lemma execute_program_exact code limit :
  let run lib := vm_exec {| halt := false; complexity_lim := limit |} (pair (lib_id lib) 0) (fun _ => Some lib) in
  match execute_program code limit with
  | Ok _ => exists lib, compile code = Ok lib /\ run lib = StOk
  | Err (Compile e) => compile code = Err e
  | Err Rejected => exists lib, compile code = Ok lib /\ run lib = StFail
  end.
Proof.
  unfold execute_program, execute_lib. destruct (compile code) as [lib|e]; simpl; [|done].
  destruct (vm_exec _ _ _) eqn:E; by exists lib.
Qed.
End Runtime.

(** ** A machine of four instructions *)

Module Toy.
Inductive instr := Nop | SetFail | Call (lib site : nat) | Halt.

Fixpoint steps (fuel : nat) (resolve : nat -> option (nat * list instr)) (lib : nat) (pc : nat) (ck : bool) : Status :=
  match fuel with
  | O => StFail
  | S fuel' =>
      match resolve lib with
      | None => StFail
      | Some (_, code) =>
          match code !! pc with
          | Some Nop => steps fuel' resolve lib (S pc) ck
          | Some SetFail => steps fuel' resolve lib (S pc) false
          | Some (Call l s) => steps fuel' resolve l s ck
          | Some Halt | None => if ck then StOk else StFail
          end
      end
  end.

#[local] Instance toy : AluvmCrate := {|
  Instr := instr;
  Lib := nat * list instr;
  LibId := nat;
  lib_id := fst;
  compile code := if (0 <? length code)%nat then Ok (length code, code) else Err "EmptyCode";
  vm_exec cfg site resolve :=
    steps (Z.to_nat (default 100 (complexity_lim cfg))) resolve site.1 (Z.to_nat site.2) true |}.

Example answers :
  execute_program [Nop; Halt] None = Ok tt /\
  execute_program [SetFail; Halt] None = Err Rejected /\
  execute_program [] None = Err (Compile "EmptyCode") /\
  execute_program [Nop; Nop; Halt] (Some 2) = Err Rejected.
Proof. split_and!; vm_compute; reflexivity. Qed.

(** A call into another library, 9, runs the code at that offset of the caller:
    the instruction that fails is skipped. *)
Example every_library_is_this_one :
  execute_program [Call 9 2; SetFail; Halt] None = Ok tt /\
  vm_exec {| halt := false; complexity_lim := None |} (pair 3%nat 0)
    (fun l => if (l =? 3)%nat then Some (3%nat, [Call 9 2; SetFail; Halt]) else None) = StFail.
Proof. split; vm_compute; reflexivity. Qed.
End Toy.
